(** * Extended-markdown / ADF conversion engine: a shallow embedding

    The development follows the TypeScript sources
    [src/parser/engines/MarkdownToAdfEngine.ts],
    [src/parser/markdown-to-adf/ASTBuilder.ts] and
    [src/utils/metadata-comments.ts].

    Text is a [string]: the sequence of the code units of the JavaScript
    string, for code units below 256.  JavaScript regular expressions are
    rendered as values of the type [Regex.re] and run by the backtracking
    matcher [Regex.m], which follows the order in which the ECMAScript
    matcher explores alternatives, so that the leftmost match and its capture
    groups are the ones the source obtains.  Where a comment quotes a
    pattern of the source, a blank is put between a star and a closing
    parenthesis that follows it. *)

From Stdlib Require Import String Ascii List ZArith Lia Bool Arith PeanoNat.
From Stdlib Require Import DecimalString Permutation.
Import ListNotations.

Local Open Scope string_scope.
Local Open Scope nat_scope.
Local Open Scope list_scope.

(** string concatenation, kept apart from list concatenation *)
Notation "a +++ b" := (String.append a b)
  (at level 60, right associativity).

(* ===================================================================== *)
(** ** Strings *)
(* ===================================================================== *)

Module Str.

(** [s.substring(0, n)] *)
Fixpoint take (n : nat) (s : string) : string :=
  match n, s with
  | S n', String a s' => String a (take n' s')
  | _, _ => EmptyString
  end.

(** [s.substring(n)] *)
Fixpoint drop (n : nat) (s : string) : string :=
  match n, s with
  | S n', String _ s' => drop n' s'
  | _, _ => s
  end.

(** [s.substring(i, j)] for [i <= j] *)
Definition sub (i j : nat) (s : string) : string := take (j - i) (drop i s).

Definition code (a : ascii) : nat := nat_of_ascii a.

Definition inRange (lo hi : ascii) (a : ascii) : bool :=
  (code lo <=? code a) && (code a <=? code hi).

Definition isDigit (a : ascii) : bool := inRange "0" "9" a.
Definition isLower (a : ascii) : bool := inRange "a" "z" a.
Definition isUpper (a : ascii) : bool := inRange "A" "Z" a.

(** the class [\w] *)
Definition isWord (a : ascii) : bool :=
  isLower a || isUpper a || isDigit a || Ascii.eqb a "_".

(** the class [\s] (white space and line terminators), which is also what
    [trim] removes: TAB, LF, VT, FF, CR, SP and NBSP. *)
Definition isSpace (a : ascii) : bool :=
  let n := code a in
  ((9 <=? n) && (n <=? 13)) || (n =? 32) || (n =? 160).

(** line terminators: LF and CR *)
Definition isLineTerminator (a : ascii) : bool :=
  (code a =? 10) || (code a =? 13).

Definition oneOf (cs : string) (a : ascii) : bool :=
  existsb (Ascii.eqb a) (list_ascii_of_string cs).

Definition noneOf (cs : string) (a : ascii) : bool := negb (oneOf cs a).

Fixpoint trimStart (s : string) : string :=
  match s with
  | String a s' => if isSpace a then trimStart s' else s
  | EmptyString => EmptyString
  end.

Fixpoint rev_acc (s acc : string) : string :=
  match s with
  | EmptyString => acc
  | String a s' => rev_acc s' (String a acc)
  end.

Definition rev (s : string) : string := rev_acc s EmptyString.

Definition trimEnd (s : string) : string := rev (trimStart (rev s)).

(** [s.trim()] *)
Definition trim (s : string) : string := trimEnd (trimStart s).

(** [s.startsWith(p)] *)
Definition startsWith (p s : string) : bool := String.prefix p s.

(** [s.includes(p)] *)
Fixpoint includes (p s : string) : bool :=
  String.prefix p s ||
  match s with
  | EmptyString => false
  | String _ s' => includes p s'
  end.

Definition nl : string := String (ascii_of_nat 10) EmptyString.

(** the double quote *)
Definition dq : ascii := ascii_of_nat 34.
Definition dqs : string := String dq EmptyString.

(** any character but a line terminator: the class of the dot *)
Definition isDot (a : ascii) : bool := negb (isLineTerminator a).

Definition isAlpha (a : ascii) : bool := isLower a || isUpper a.
Definition isAlnum (a : ascii) : bool := isAlpha a || isDigit a.

(** decimal rendering of an integer, as [Number.prototype.toString] gives
    it for integers of safe magnitude *)
Definition ofZ (z : Z) : string :=
  match z with
  | Z0 => "0"
  | Zpos p => NilEmpty.string_of_uint (Pos.to_uint p)
  | Zneg p => "-" +++ NilEmpty.string_of_uint (Pos.to_uint p)
  end.

Definition isEmpty (s : string) : bool :=
  match s with EmptyString => true | _ => false end.

End Str.

(* ===================================================================== *)
(** ** Regular expressions *)
(* ===================================================================== *)

Module Regex.

Inductive re : Type :=
| Eps                               (* the empty pattern *)
| Chr (p : ascii -> bool)           (* one character of a class *)
| Seq (a b : re)                    (* ab *)
| Alt (a b : re)                    (* a|b *)
| Star (greedy : bool) (a : re)     (* a* when greedy, a*? otherwise *)
| Grp (n : nat) (a : re)            (* capture group number n *)
| Bol                               (* ^ *)
| Eol                               (* $ *)
| BolM                              (* ^ under the m flag *)
| EolM                              (* $ under the m flag *)
| NotAhead (a : re)                 (* (?!a) *)
| NotBehind (p : ascii -> bool).    (* (?<!c) for one character class *)

(** capture number -> (start, end) *)
Definition caps := list (nat * (nat * nat)).

Record Match := mkMatch { index : nat; stop : nat; groups : caps }.

Fixpoint lit (w : string) : re :=
  match w with
  | EmptyString => Eps
  | String a w' => Seq (Chr (Ascii.eqb a)) (lit w')
  end.

Definition plus (g : bool) (a : re) : re := Seq a (Star g a).
Definition opt (a : re) : re := Alt a Eps.

Fixpoint rep (n : nat) (a : re) : re :=
  match n with
  | 0 => Eps
  | S n' => Seq a (rep n' a)
  end.

Fixpoint seqs (rs : list re) : re :=
  match rs with
  | [] => Eps
  | r :: rs' => Seq r (seqs rs')
  end.

Fixpoint alts (rs : list re) : re :=
  match rs with
  | [] => NotAhead Eps
  | [r] => r
  | r :: rs' => Alt r (alts rs')
  end.

(** least number of characters a match consumes *)
Fixpoint minlen (r : re) : nat :=
  match r with
  | Chr _ => 1
  | Seq a b => minlen a + minlen b
  | Alt a b => Nat.min (minlen a) (minlen b)
  | Grp _ a => minlen a
  | _ => 0
  end.

Definition K := nat -> caps -> option (nat * caps).

Section StarLoop.

(** one iteration: the matcher of the starred pattern *)
Variable step : nat -> caps -> K -> option (nat * caps).
Variable greedy : bool.
Variable k : K.

(** The iterations of a star.  An iteration that consumes nothing is
    rejected; [fuel] is the number of characters left, and so bounds
    the number of iterations. *)
Fixpoint starLoop (fuel : nat) (i : nat) (c : caps) {struct fuel}
  : option (nat * caps) :=
  match fuel with
  | 0 => k i c
  | S fuel' =>
      if greedy then
        match step i c (fun j c' =>
                          if i <? j then starLoop fuel' j c' else None)
        with
        | Some x => Some x
        | None => k i c
        end
      else
        match k i c with
        | Some x => Some x
        | None =>
            step i c (fun j c' =>
                        if i <? j then starLoop fuel' j c' else None)
        end
  end.

End StarLoop.

Section Matcher.

Variable s : string.

(** [m r i c k]: match [r] at offset [i] with captures [c], then continue
    with [k]; [None] makes the matcher backtrack. *)
Fixpoint m (r : re) (i : nat) (c : caps) (k : K) {struct r}
  : option (nat * caps) :=
  match r with
  | Eps => k i c
  | Chr p =>
      match String.get i s with
      | Some a => if p a then k (S i) c else None
      | None => None
      end
  | Seq a b => m a i c (fun j c' => m b j c' k)
  | Alt a b =>
      match m a i c k with
      | Some x => Some x
      | None => m b i c k
      end
  | Star g a => starLoop (m a) g k (String.length s - i) i c
  | Grp n a => m a i c (fun j c' => k j ((n, (i, j)) :: c'))
  | Bol => if i =? 0 then k i c else None
  | Eol => if i =? String.length s then k i c else None
  | BolM =>
      match i with
      | 0 => k i c
      | S i' =>
          match String.get i' s with
          | Some a => if Str.isLineTerminator a then k i c else None
          | None => None
          end
      end
  | EolM =>
      match String.get i s with
      | Some a => if Str.isLineTerminator a then k i c else None
      | None => if i =? String.length s then k i c else None
      end
  | NotAhead a =>
      match m a i c (fun j c' => Some (j, c')) with
      | Some _ => None
      | None => k i c
      end
  | NotBehind p =>
      match i with
      | 0 => k i c
      | S i' =>
          match String.get i' s with
          | Some a => if p a then None else k i c
          | None => k i c
          end
      end
  end.

Definition matchAt (r : re) (i : nat) : option Match :=
  match m r i [] (fun j c => Some (j, c)) with
  | Some (j, c) => Some (mkMatch i j c)
  | None => None
  end.

(** leftmost match at an offset in [i, i + fuel] *)
Fixpoint search (r : re) (fuel : nat) (i : nat) : option Match :=
  match matchAt r i with
  | Some mt => Some mt
  | None =>
      match fuel with
      | 0 => None
      | S fuel' => search r fuel' (S i)
      end
  end.

(** [r.exec(s)] with [lastIndex = from] *)
Definition execFrom (r : re) (from : nat) : option Match :=
  if String.length s <? from then None
  else search r (String.length s - from) from.

(** [s.match(r)] and [r.exec(s)] for a pattern without the g flag *)
Definition exec (r : re) : option Match := execFrom r 0.

(** [r.test(s)] *)
Definition test (r : re) : bool :=
  match exec r with Some _ => true | None => false end.

(** [match[0]] *)
Definition matched (mt : Match) : string := Str.sub (index mt) (stop mt) s.

Fixpoint lookup (n : nat) (c : caps) : option (nat * nat) :=
  match c with
  | [] => None
  | (n', ij) :: c' => if n =? n' then Some ij else lookup n c'
  end.

(** [match[n]]: [None] when the group did not take part in the match *)
Definition group (n : nat) (mt : Match) : option string :=
  match lookup n (groups mt) with
  | Some (i, j) => Some (Str.sub i j s)
  | None => None
  end.

(** [match[n]] for a group that always takes part *)
Definition group' (n : nat) (mt : Match) : string :=
  match group n mt with Some g => g | None => EmptyString end.

(** successive matches of a pattern with the g flag, [lastIndex] moving to
    the end of each match (one further after an empty match) *)
Fixpoint allFrom (r : re) (fuel : nat) (from : nat) : list Match :=
  match execFrom r from with
  | None => []
  | Some mt =>
      mt :: match fuel with
            | 0 => []
            | S fuel' =>
                allFrom r fuel'
                  (if stop mt =? index mt then S (stop mt) else stop mt)
            end
  end.

Definition matchAll (r : re) : list Match :=
  allFrom r (String.length s) 0.

(** [s.replace(r, f)] for a pattern with the g flag *)
Fixpoint replaceFrom (r : re) (f : Match -> string) (fuel : nat)
  (from : nat) : string :=
  match execFrom r from with
  | None => Str.drop from s
  | Some mt =>
      Str.sub from (index mt) s +++ f mt +++
      match fuel with
      | 0 => Str.drop (stop mt) s
      | S fuel' =>
          if stop mt =? index mt
          then Str.sub (stop mt) (S (stop mt)) s +++
               replaceFrom r f fuel' (S (stop mt))
          else replaceFrom r f fuel' (stop mt)
      end
  end.

Definition replaceAll (r : re) (f : Match -> string) : string :=
  replaceFrom r f (String.length s) 0.

End Matcher.

End Regex.

(* ===================================================================== *)
(** ** JavaScript values and the ADF tree (types/adf.types.ts) *)
(* ===================================================================== *)

(** Numbers are exact: [VNum z] is the integer [z], [VDec m e] the decimal
    fraction [m * 10^e] (with [e < 0] and [m] not a multiple of ten) and
    [VInf] an infinity; rounding to a double is not modelled. *)
#[warnings="-register-all"]
Inductive JsVal : Type :=
| VUndef
| VNull
| VBool (b : bool)
| VNum (z : Z)
| VDec (m e : Z)
| VInf (negative : bool)
| VStr (s : string)
| VArr (l : list JsVal)
| VObj (kvs : list (string * JsVal)).

(** An object used as a record of attributes: its own keys in enumeration
    order. *)
Definition Obj := list (string * JsVal).

Module O.

Fixpoint get (k : string) (o : Obj) : option JsVal :=
  match o with
  | [] => None
  | (k', v) :: o' => if String.eqb k k' then Some v else get k o'
  end.

(** [k in o] and [o.hasOwnProperty(k)] *)
Definition has (k : string) (o : Obj) : bool :=
  match get k o with Some _ => true | None => false end.

(** A key that is an array index (a canonical decimal numeral below
    2^32 - 1) is enumerated before the other keys, in numeric order. *)
Definition indexOf (k : string) : option Z :=
  match k with
  | EmptyString => None
  | String a k' =>
      if forallb Str.isDigit (list_ascii_of_string k) &&
         (negb (Ascii.eqb a "0") || Str.isEmpty k')
      then
        let n := fold_left
                   (fun acc d => (10 * acc + (Z.of_nat (Str.code d) - 48))%Z)
                   (list_ascii_of_string k) 0%Z in
        if (n <? 4294967295)%Z then Some n else None
      else None
  end.

Fixpoint replace (k : string) (v : JsVal) (o : Obj) : Obj :=
  match o with
  | [] => []
  | (k', v') :: o' =>
      if String.eqb k k' then (k, v) :: o' else (k', v') :: replace k v o'
  end.

Fixpoint insertNew (k : string) (v : JsVal) (o : Obj) : Obj :=
  match o with
  | [] => [(k, v)]
  | (k', v') :: o' =>
      match indexOf k, indexOf k' with
      | Some n, Some n' =>
          if (n <? n')%Z then (k, v) :: o else (k', v') :: insertNew k v o'
      | Some _, None => (k, v) :: o
      | None, _ => (k', v') :: insertNew k v o'
      end
  end.

(** the key [k] of [o] is defined as [v], as a spread, an object literal
    and [JSON.parse] do: an existing key keeps its place, a new key goes
    last among the keys of its kind *)
Definition set (k : string) (v : JsVal) (o : Obj) : Obj :=
  if has k o then replace k v o else insertNew k v o.

(** [o[k] = v] on an object made by a literal: the same, but that an
    assignment to [__proto__], when the object has no key of that name,
    goes to the setter of [Object.prototype] and makes no key (the keys
    of a prototype the setter may install are not keys of the object) *)
Definition assign (k : string) (v : JsVal) (o : Obj) : Obj :=
  if String.eqb k "__proto__" && negb (has k o) then o else set k v o.

(** [{ ...a, ...b }] *)
Definition spread (a b : Obj) : Obj :=
  fold_left (fun acc kv => set (fst kv) (snd kv) acc) b a.

(** [Object.assign(a, b)], which assigns the keys of [b] one by one *)
Definition assignAll (a b : Obj) : Obj :=
  fold_left (fun acc kv => assign (fst kv) (snd kv) acc) b a.

(** [delete o[k]] *)
Definition remove (k : string) (o : Obj) : Obj :=
  filter (fun kv => negb (String.eqb k (fst kv))) o.

Definition keys (o : Obj) : list string := map fst o.

(** [xs.includes(k)] *)
Definition mem (k : string) (xs : list string) : bool :=
  existsb (String.eqb k) xs.

(** [o?.k] on an object that may be missing *)
Definition get' (k : string) (o : option Obj) : JsVal :=
  match o with
  | Some o' => match get k o' with Some v => v | None => VUndef end
  | None => VUndef
  end.

Definition ofOpt (o : option Obj) : Obj :=
  match o with Some o' => o' | None => [] end.

End O.

(** JavaScript truthiness *)
Definition truthy (v : JsVal) : bool :=
  match v with
  | VUndef | VNull => false
  | VBool b => b
  | VNum z => negb (Z.eqb z 0)
  | VStr s => negb (Str.isEmpty s)
  | VDec _ _ | VInf _ | VArr _ | VObj _ => true
  end.

(** [a === b]; two objects or arrays are never the same one here *)
Definition strictEq (a b : JsVal) : bool :=
  match a, b with
  | VUndef, VUndef | VNull, VNull => true
  | VBool x, VBool y => Bool.eqb x y
  | VNum x, VNum y => Z.eqb x y
  | VDec m e, VDec m' e' => Z.eqb m m' && Z.eqb e e'
  | VInf x, VInf y => Bool.eqb x y
  | VStr x, VStr y => String.eqb x y
  | _, _ => false
  end.

Module Num.

Import Regex.

Definition digitVal (a : ascii) : Z :=
  let n := Str.code a in
  if Str.isDigit a then Z.of_nat n - 48
  else if Str.isLower a then Z.of_nat n - 87
  else Z.of_nat n - 55.

Fixpoint digitsIn (base : Z) (s : string) (acc : Z) : Z :=
  match s with
  | EmptyString => acc
  | String a s' => digitsIn base s' (base * acc + digitVal a)
  end.

Definition decimal (s : string) : Z := digitsIn 10 s 0.

Definition sign : re := opt (Chr (Str.oneOf "+-")).
Definition ds : re := plus true (Chr Str.isDigit).

(** StrDecimalLiteral, anchored: sign (1), integer digits (2), fraction
    digits (3), exponent (4), Infinity (5) *)
Definition decimalRe : re :=
  seqs [Bol; Grp 1 sign;
        Alt (Grp 5 (lit "Infinity"))
          (seqs [Alt (seqs [Grp 2 ds;
                            opt (Seq (lit ".")
                                   (Grp 3 (Star true (Chr Str.isDigit))))])
                   (seqs [lit "."; Grp 3 ds]);
                 opt (seqs [Chr (Str.oneOf "eE"); Grp 4 (Seq sign ds)])]);
        Eol].

Definition isHexDigit (a : ascii) : bool :=
  Str.isDigit a || Str.inRange "a" "f" a || Str.inRange "A" "F" a.

Definition radixRe (letters : string) (digit : ascii -> bool) : re :=
  seqs [Bol; lit "0"; Chr (Str.oneOf letters); Grp 1 (plus true (Chr digit));
        Eol].

Definition signed (s : string) : Z :=
  match s with
  | String "-" s' => (- decimal s')%Z
  | String "+" s' => decimal s'
  | _ => decimal s
  end.

(** strip the zeros at the end of a mantissa with a negative exponent *)
Fixpoint normalize (fuel : nat) (m e : Z) : JsVal :=
  if (0 <=? e)%Z then VNum (m * 10 ^ e)%Z
  else if (m =? 0)%Z then VNum 0
  else
    match fuel with
    | 0 => VDec m e
    | S fuel' =>
        if (m mod 10 =? 0)%Z then normalize fuel' (m / 10)%Z (e + 1)%Z
        else VDec m e
    end.

Definition orEmpty (o : option string) : string :=
  match o with Some x => x | None => EmptyString end.

(** [Number(s)] for a string; [None] is NaN *)
Definition toNumber (s : string) : option JsVal :=
  let t := Str.trim s in
  if Str.isEmpty t then Some (VNum 0) else
  match exec t (radixRe "xX" isHexDigit) with
  | Some mt => Some (VNum (digitsIn 16 (group' t 1 mt) 0))
  | None =>
  match exec t (radixRe "oO" (Str.inRange "0" "7")) with
  | Some mt => Some (VNum (digitsIn 8 (group' t 1 mt) 0))
  | None =>
  match exec t (radixRe "bB" (Str.inRange "0" "1")) with
  | Some mt => Some (VNum (digitsIn 2 (group' t 1 mt) 0))
  | None =>
  match exec t decimalRe with
  | Some mt =>
      let neg := String.eqb (group' t 1 mt) "-" in
      match group t 5 mt with
      | Some _ => Some (VInf neg)
      | None =>
          let ip := orEmpty (group t 2 mt) in
          let fp := orEmpty (group t 3 mt) in
          let ex := match group t 4 mt with
                    | Some x => signed x
                    | None => 0%Z
                    end in
          let mant := decimal (ip +++ fp) in
          let mant' := if neg then (- mant)%Z else mant in
          Some (normalize (String.length (ip +++ fp)) mant'
                  (ex - Z.of_nat (String.length fp))%Z)
      end
  | None => None
  end end end end.

Fixpoint zeros (n : nat) : string :=
  match n with 0 => EmptyString | S n' => String "0" (zeros n') end.

Fixpoint dropZeros (s : string) : string :=
  match s with
  | String "0" s' => dropZeros s'
  | _ => s
  end.

(** [Number::toString] for the number written with the digits [digits],
    the last of which is not a zero, [n] of them before the point: the
    digits with zeros after them or a point among them when [n] is at
    most 21, zeros before them down to [n = -5], an exponent otherwise *)
Definition ofDigits (digits : string) (n : Z) : string :=
  let k := Z.of_nat (String.length digits) in
  if (k <=? n)%Z && (n <=? 21)%Z then digits +++ zeros (Z.to_nat (n - k))
  else if (0 <? n)%Z && (n <=? 21)%Z then
    Str.take (Z.to_nat n) digits +++ "." +++ Str.drop (Z.to_nat n) digits
  else if (-6 <? n)%Z && (n <=? 0)%Z then
    "0." +++ zeros (Z.to_nat (- n)) +++ digits
  else
    let exponent :=
      (if (n - 1 <? 0)%Z then "e-" else "e+") +++ Str.ofZ (Z.abs (n - 1)) in
    match digits with
    | String d EmptyString => String d exponent
    | String d rest => String d ("." +++ rest) +++ exponent
    | EmptyString => exponent
    end.

(** the text of the number [m * 10^e] *)
Definition ofNum (m e : Z) : string :=
  if (m =? 0)%Z then "0"
  else
    let all := Str.ofZ (Z.abs m) in
    (if (m <? 0)%Z then "-" else EmptyString) +++
    ofDigits (Str.rev (dropZeros (Str.rev all)))
      (Z.of_nat (String.length all) + e).

(** [String(v)], the conversion a template literal applies *)
Fixpoint toStr (v : JsVal) : string :=
  match v with
  | VUndef => "undefined"
  | VNull => "null"
  | VBool true => "true"
  | VBool false => "false"
  | VNum z => ofNum z 0
  | VDec m e => ofNum m e
  | VInf true => "-Infinity"
  | VInf false => "Infinity"
  | VStr s => s
  | VArr l =>
      String.concat ","
        (map (fun x => match x with
                       | VUndef | VNull => EmptyString
                       | _ => toStr x
                       end) l)
  | VObj _ => "[object Object]"
  end.

End Num.

Record ADFMark := mkMark { markType : string; markAttrs : option Obj }.

#[warnings="-register-all"]
Inductive ADFNode : Type :=
  mkNode {
      ntype : string;
      attrs : option Obj;
      content : option (list ADFNode);
      text : option string;
      marks : option (list ADFMark) }.

Record ADFDocument :=
  mkDoc { version : Z; doctype : string; doccontent : list ADFNode }.

Definition contentOf (n : ADFNode) : option (list ADFNode) := content n.

Definition textNode (t : string) : ADFNode :=
  mkNode "text" None None (Some t) None.

Definition markedText (t : string) (ms : list ADFMark) : ADFNode :=
  mkNode "text" None None (Some t) (Some ms).

Definition attrNode (ty : string) (a : Obj) : ADFNode :=
  mkNode ty (Some a) None None None.

Definition blockNode (ty : string) (c : list ADFNode) : ADFNode :=
  mkNode ty None (Some c) None None.

Definition simpleMark (ty : string) : ADFMark := mkMark ty None.

Definition setAttrs (n : ADFNode) (a : Obj) : ADFNode :=
  mkNode (ntype n) (Some a) (content n) (text n) (marks n).

Definition setMarks (n : ADFNode) (ms : list ADFMark) : ADFNode :=
  mkNode (ntype n) (attrs n) (content n) (text n) (Some ms).

Definition setContent (n : ADFNode) (c : list ADFNode) : ADFNode :=
  mkNode (ntype n) (attrs n) (Some c) (text n) (marks n).

(* ===================================================================== *)
(** ** The generic tree (mdast) *)
(* ===================================================================== *)

(** [AdfMetadata] of metadata-comments.ts *)
Record AdfMetadata :=
  mkMeta { metaNodeType : string; metaAttrs : option Obj; metaRaw : string;
           metaMarks : option (list ADFMark) }.

(** A node of the tree the markdown parser produces, with the fields the
    conversion reads or writes; [adfMetadata] is [data.adfMetadata]. *)
#[warnings="-register-all"]
Inductive MdNode : Type :=
  mkMd {
      mtype : string;
      mvalue : option string;
      mchildren : option (list MdNode);
      depth : option JsVal;
      lang : option string;
      meta : option string;
      url : option string;
      alt : option string;
      title : option string;
      ordered : option bool;
      start : option Z;
      nodeType : option string;
      attributes : option Obj;
      adfMetadata : option (list AdfMetadata) }.

Module Md.

Definition blank (ty : string) : MdNode :=
  mkMd ty None None None None None None None None None None None None None.

Definition leaf (ty v : string) : MdNode :=
  mkMd ty (Some v) None None None None None None None None None None None
    None.

Definition parent (ty : string) (cs : list MdNode) : MdNode :=
  mkMd ty None (Some cs) None None None None None None None None None None
    None.

Definition text (v : string) : MdNode := leaf "text" v.
Definition html (v : string) : MdNode := leaf "html" v.
Definition inlineCode (v : string) : MdNode := leaf "inlineCode" v.

Definition heading (d : Z) (cs : list MdNode) : MdNode :=
  mkMd "heading" None (Some cs) (Some (VNum d)) None None None None None None None
    None None None.

Definition code (l : option string) (me : option string) (v : string)
  : MdNode :=
  mkMd "code" (Some v) None None l me None None None None None None None
    None.

Definition link (u : string) (cs : list MdNode) : MdNode :=
  mkMd "link" None (Some cs) None None None (Some u) None None None None
    None None None.

(** the children of a node, none when the field is absent *)
Definition kids (n : MdNode) : list MdNode :=
  match mchildren n with Some cs => cs | None => [] end.

Definition withChildren (n : MdNode) (cs : option (list MdNode)) : MdNode :=
  mkMd (mtype n) (mvalue n) cs (depth n) (lang n) (meta n) (url n) (alt n)
    (title n) (ordered n) (start n) (nodeType n) (attributes n)
    (adfMetadata n).

Definition withMetadata (n : MdNode) (ms : option (list AdfMetadata))
  : MdNode :=
  mkMd (mtype n) (mvalue n) (mchildren n) (depth n) (lang n) (meta n)
    (url n) (alt n) (title n) (ordered n) (start n) (nodeType n)
    (attributes n) ms.

End Md.

(* ===================================================================== *)
(** ** The deep clone [JSON.parse(JSON.stringify(x))] *)
(* ===================================================================== *)

Module Json.

(** the fields of an object: a field whose value is [undefined] is not
    written, the others are written in the order of the keys *)
Definition fields (clone : JsVal -> JsVal) : Obj -> Obj :=
  fix go (kvs : Obj) : Obj :=
    match kvs with
    | [] => []
    | (k, VUndef) :: kvs' => go kvs'
    | (k, v) :: kvs' => (k, clone v) :: go kvs'
    end.

(** a value held in an array or in a field that is written: an infinity
    is written as [null] and so is [undefined] in an array; a number, a
    string, a boolean and [null] are read back as they were *)
Fixpoint clone (v : JsVal) : JsVal :=
  match v with
  | VUndef => VNull
  | VInf _ => VNull
  | VArr l => VArr (map clone l)
  | VObj kvs => VObj (fields clone kvs)
  | VNull | VBool _ | VNum _ | VDec _ _ | VStr _ => v
  end.

Definition cloneObj (o : Obj) : Obj := fields clone o.

(** a field of a node that holds a value *)
Definition cloneField (v : option JsVal) : option JsVal :=
  match v with
  | Some VUndef => None
  | Some v' => Some (clone v')
  | None => None
  end.

Definition cloneMark (mark : ADFMark) : ADFMark :=
  mkMark (markType mark) (option_map cloneObj (markAttrs mark)).

Definition cloneMetadata (metadata : AdfMetadata) : AdfMetadata :=
  mkMeta (metaNodeType metadata)
    (option_map cloneObj (metaAttrs metadata))
    (metaRaw metadata)
    (option_map (map cloneMark) (metaMarks metadata)).

(** the clone of a tree: the strings, booleans and integers of a node
    are read back as they were *)
Fixpoint cloneTree (n : MdNode) : MdNode :=
  mkMd (mtype n) (mvalue n)
    (match mchildren n with
     | Some cs => Some (map cloneTree cs)
     | None => None
     end)
    (cloneField (depth n)) (lang n) (meta n) (url n) (alt n) (title n)
    (ordered n) (start n) (nodeType n)
    (option_map cloneObj (attributes n))
    (option_map (map cloneMetadata) (adfMetadata n)).

End Json.
(* ===================================================================== *)
(** ** Metadata comments (utils/metadata-comments.ts) *)
(* ===================================================================== *)

Module Metadata.

Import Regex.

Definition ws : re := Star true (Chr Str.isSpace).
Definition ws1 : re := plus true (Chr Str.isSpace).

(** [a-zA-Z][a-zA-Z0-9]* *)
Definition nodeTypeRe : re := Seq (Chr Str.isAlpha) (Star true (Chr Str.isAlnum)).

(** METADATA_PATTERNS.withAttrsJson:
    /^<!--\s*adf:([a-zA-Z][a-zA-Z0-9]* )\s+attrs='({.*?})'\s*-->$/ *)
Definition withAttrsJson : re :=
  seqs [Bol; lit "<!--"; ws; lit "adf:"; Grp 1 nodeTypeRe; ws1;
        lit "attrs='";
        Grp 2 (seqs [lit "{"; Star false (Chr Str.isDot); lit "}"]);
        lit "'"; ws; lit "-->"; Eol].

(** METADATA_PATTERNS.withAttrs:
    /^<!--\s*adf:([a-zA-Z][a-zA-Z0-9]* )\s+(.+?)\s*-->$/ *)
Definition withAttrs : re :=
  seqs [Bol; lit "<!--"; ws; lit "adf:"; Grp 1 nodeTypeRe; ws1;
        Grp 2 (plus false (Chr Str.isDot)); ws; lit "-->"; Eol].

(** METADATA_PATTERNS.simple:
    /^<!--\s*adf:([a-zA-Z][a-zA-Z0-9]* )\s*-->$/ *)
Definition simple : re :=
  seqs [Bol; lit "<!--"; ws; lit "adf:"; Grp 1 nodeTypeRe; ws; lit "-->";
        Eol].

(** METADATA_PATTERNS.closing:
    /^<!--\s*\/adf:([a-zA-Z][a-zA-Z0-9]* )\s*-->$/ *)
Definition closing : re :=
  seqs [Bol; lit "<!--"; ws; lit "/adf:"; Grp 1 nodeTypeRe; ws; lit "-->";
        Eol].

Definition processingDirectives : list string := ["inlineCard"; "blockCard"].

Definition isAdfMetadataComment (value : string) : bool :=
  let isMetadataPattern :=
    test value withAttrsJson || test value withAttrs ||
    test value simple || test value closing in
  if negb isMetadataPattern then false
  else negb (existsb (fun directive =>
                        Str.includes ("adf:" +++ directive) value)
               processingDirectives).

(** the coercion both loops of [parseAttributeString] apply to a value *)
Definition coerce (value : string) : JsVal :=
  if String.eqb value "true" then VBool true
  else if String.eqb value "false" then VBool false
  else match Num.toNumber value with
       | None => VStr value
       | Some numericValue => numericValue
       end.

(** quotedRegex: (\w+)\s*=\s*Q([^Q]* )Q with Q the double quote, flag g *)
Definition quotedRegex : re :=
  seqs [Grp 1 (plus true (Chr Str.isWord)); ws; lit "="; ws; lit Str.dqs;
        Grp 2 (Star true (Chr (fun a => negb (Ascii.eqb a Str.dq))));
        lit Str.dqs].

(** unquotedRegex: (\w+)\s*=\s*([^\sQ]+) with Q the double quote, flag g *)
Definition unquotedRegex : re :=
  seqs [Grp 1 (plus true (Chr Str.isWord)); ws; lit "="; ws;
        Grp 2 (plus true
                 (Chr (fun a => negb (Str.isSpace a || Ascii.eqb a Str.dq))))].

(** [parseAttributeString], for the strings on which it returns: once a
    pair has made a key named hasOwnProperty, the call
    [attrs.hasOwnProperty(key)] of the second loop ends in a TypeError,
    which is not part of the model *)
Definition parseAttributeString (attrString : string) : Obj :=
  let quoted :=
    fold_left
      (fun attrs mt =>
         O.assign (group' attrString 1 mt)
           (coerce (group' attrString 2 mt)) attrs)
      (matchAll attrString quotedRegex) [] in
  fold_left
    (fun attrs mt =>
       let key := group' attrString 1 mt in
       if O.has key attrs then attrs
       else O.assign key (coerce (group' attrString 2 mt)) attrs)
    (matchAll attrString unquotedRegex) quoted.

Section WithJson.

(** [JSON.parse]; [None] when it throws *)
Variable jsonParse : string -> option JsVal.

Definition parseAdfMetadataComment (value : string)
  : option AdfMetadata :=
  match exec value withAttrsJson with
  | Some mt =>
      let nodeType := group' value 1 mt in
      match jsonParse (group' value 2 mt) with
      | Some (VObj attrs) => Some (mkMeta nodeType (Some attrs) value None)
      | Some _ => Some (mkMeta nodeType (Some []) value None)
      | None => Some (mkMeta nodeType None value None)
      end
  | None =>
  match exec value withAttrs with
  | Some mt =>
      let nodeType := group' value 1 mt in
      let attrs := parseAttributeString (group' value 2 mt) in
      if 0 <? List.length (O.keys attrs)
      then Some (mkMeta nodeType (Some attrs) value None)
      else Some (mkMeta nodeType None value None)
  | None =>
  match exec value simple with
  | Some mt => Some (mkMeta (group' value 1 mt) None value None)
  | None =>
  match exec value closing with
  | Some mt =>
      Some (mkMeta (group' value 1 mt) (Some [("closing", VBool true)])
              value None)
  | None => None
  end end end end.

End WithJson.

(** the text a regular expression sees when it is handed [node.value] *)
Definition valueText (n : MdNode) : string :=
  match mvalue n with Some v => v | None => "undefined" end.

(** [candidate.type !== 'html' || !isAdfMetadataComment(candidate.value)]
    fails: the node is itself a metadata comment *)
Definition isAnnotation (n : MdNode) : bool :=
  String.eqb (mtype n) "html" && isAdfMetadataComment (valueText n).

(** What [findMetadataTarget] returns: the parent, one of its children, or
    null. *)
Inductive Target := TParent | TChild (i : nat).

Definition isContentType (ty : string) : bool :=
  O.mem ty ["heading"; "paragraph"; "tableCell"; "tableHeader"].

(** the loop [for (i = commentIndex + 1; i < children.length; i++)],
    entered at index [i] with the children from [i] on *)
Fixpoint scanForward (cs : list MdNode) (i : nat) : option nat :=
  match cs with
  | [] => None
  | candidate :: cs' =>
      if negb (isAnnotation candidate) then Some i
      else scanForward cs' (S i)
  end.

(** the loop [for (i = commentIndex - 1; i >= 0; i--)], with [i] the
    number of indices left to try *)
Fixpoint scanBackward (cs : list MdNode) (i : nat) : option nat :=
  match i with
  | 0 => None
  | S i' =>
      match nth_error cs i' with
      | Some candidate =>
          if negb (isAnnotation candidate) then Some i'
          else scanBackward cs i'
      | None => scanBackward cs i'
      end
  end.

Definition findMetadataTarget (parent : MdNode) (commentIndex : nat)
  : option Target :=
  if isContentType (mtype parent) then Some TParent
  else
    match scanForward (skipn (S commentIndex) (Md.kids parent))
            (S commentIndex) with
    | Some i => Some (TChild i)
    | None =>
        match scanBackward (Md.kids parent) commentIndex with
        | Some i => Some (TChild i)
        | None =>
            if negb (String.eqb (mtype parent) "root") then Some TParent
            else None
        end
    end.

(** [getNodeMetadata] *)
Definition getNodeMetadata (node : MdNode) : list AdfMetadata :=
  match adfMetadata node with
  | Some ms => ms
  | None => []
  end.

Definition nodeTypeMapping : list (string * string) :=
  [("cell", "tableCell"); ("header", "tableHeader");
   ("heading", "heading"); ("paragraph", "paragraph");
   ("panel", "panel"); ("expand", "expand")].

Fixpoint assoc (k : string) (l : list (string * string)) : option string :=
  match l with
  | [] => None
  | (k', v) :: l' => if String.eqb k k' then Some v else assoc k l'
  end.

Definition applyMetadataToAdfNode (adfNode : ADFNode)
  (metadata : list AdfMetadata) : ADFNode :=
  match metadata with
  | [] => adfNode
  | _ =>
      fold_left
        (fun updatedNode meta =>
           match metaAttrs meta with
           | Some mattrs =>
               if String.eqb (metaNodeType meta) "cell" &&
                  (String.eqb (ntype adfNode) "tableCell" ||
                   String.eqb (ntype adfNode) "tableHeader")
               then setAttrs updatedNode
                      (O.spread (O.ofOpt (attrs updatedNode)) mattrs)
               else
                 let expectedAdfType :=
                   match assoc (metaNodeType meta) nodeTypeMapping with
                   | Some t => if Str.isEmpty t then metaNodeType meta else t
                   | None => metaNodeType meta
                   end in
                 if String.eqb (metaNodeType meta) (ntype adfNode) ||
                    String.eqb expectedAdfType (ntype adfNode)
                 then setAttrs updatedNode
                        (O.spread (O.ofOpt (attrs updatedNode)) mattrs)
                 else updatedNode
           | None => updatedNode
           end)
        metadata adfNode
  end.

Definition alwaysFiltered : list (string * list string) :=
  [("heading", ["level"]); ("panel", ["panelType"]);
   ("codeBlock", ["language"]); ("orderedList", ["order"]);
   ("media", ["alt"])].

Definition defaultValues : list (string * Obj) :=
  [("table", [("isNumberColumnEnabled", VBool false);
              ("layout", VStr "default")])].

Fixpoint assocL {A} (k : string) (l : list (string * A)) : option A :=
  match l with
  | [] => None
  | (k', v) :: l' => if String.eqb k k' then Some v else assocL k l'
  end.

Definition filterSignificantAttributes (nodeType : string) (attrs : Obj)
  : Obj :=
  let filtered :=
    match assocL nodeType alwaysFiltered with Some l => l | None => [] end in
  let defaults :=
    match assocL nodeType defaultValues with Some d => d | None => [] end in
  fold_left
    (fun significant kv =>
       let key := fst kv in
       let value := snd kv in
       if O.mem key filtered then significant
       else if match O.get key defaults with
               | Some d => strictEq d value
               | None => false
               end
            then significant
            else O.assign key value significant)
    attrs [].

Definition generateMetadataComment (nodeType : string)
  (attrs : option Obj) : string :=
  match attrs with
  | None => EmptyString
  | Some attrs =>
      if List.length (O.keys attrs) =? 0 then EmptyString
      else
        let significantAttrs := filterSignificantAttributes nodeType attrs in
        if List.length (O.keys significantAttrs) =? 0 then EmptyString
        else
          let attrsString :=
            String.concat " "
              (map (fun kv =>
                      fst kv +++ "=" +++ Str.dqs +++ Num.toStr (snd kv) +++
                      Str.dqs)
                 significantAttrs) in
          "<!-- adf:" +++ nodeType +++ " " +++ attrsString +++ " -->"
  end.

(* ------------------------------------------------------------------- *)
(** *** Span-style comments: [processSpanMetadataComments] *)

(** /^<!--\s*adf:(\w+)\s+(.*?)\s*-->(.*?)<!--\s*\/adf:\w+\s*-->$/ *)
Definition spanRe : re :=
  seqs [Bol; lit "<!--"; ws; lit "adf:"; Grp 1 (plus true (Chr Str.isWord));
        ws1; Grp 2 (Star false (Chr Str.isDot)); ws; lit "-->";
        Grp 3 (Star false (Chr Str.isDot)); lit "<!--"; ws; lit "/adf:";
        plus true (Chr Str.isWord); ws; lit "-->"; Eol].

(** the [switch (key)] that turns parsed attributes into marks *)
Definition marksOfAttrs (attrs : Obj) : list ADFMark :=
  flat_map
    (fun kv =>
       let value := snd kv in
       if String.eqb (fst kv) "underline" then
         if strictEq value (VStr "true") || strictEq value (VBool true)
         then [simpleMark "underline"] else []
       else if String.eqb (fst kv) "textColor" then
         [mkMark "textColor" (Some [("color", value)])]
       else if String.eqb (fst kv) "backgroundColor" then
         [mkMark "backgroundColor" (Some [("color", value)])]
       else if String.eqb (fst kv) "subsup" then
         [mkMark "subsup" (Some [("type", value)])]
       else [])
    attrs.

Definition spanTextNode (nodeType : string) (attrs : Obj) (raw content : string)
  : MdNode :=
  Md.withMetadata (Md.text content)
    (Some [mkMeta nodeType (Some attrs) raw (Some (marksOfAttrs attrs))]).

(** an html node holding a whole span becomes a paragraph *)
Definition spanOfHtml (node : MdNode) : option MdNode :=
  if String.eqb (mtype node) "html" then
    match mvalue node with
    | Some value =>
        match exec value spanRe with
        | Some mt =>
            let attrs := parseAttributeString (group' value 2 mt) in
            Some (Md.parent "paragraph"
                    [spanTextNode (group' value 1 mt) attrs value
                       (group' value 3 mt)])
        | None => None
        end
    | None => None
    end
  else None.

(** opening comment, text, closing comment in a row inside a paragraph *)
Definition spanOfTriple (openingComment textNode closingComment : MdNode)
  : option MdNode :=
  if String.eqb (mtype openingComment) "html" &&
     String.eqb (mtype textNode) "text" &&
     String.eqb (mtype closingComment) "html"
  then
    let ov := valueText openingComment in
    let cv := valueText closingComment in
    match exec ov withAttrs, exec cv closing with
    | Some openMatch, Some closeMatch =>
        if String.eqb (group' ov 1 openMatch) (group' cv 1 closeMatch)
        then
          let content := valueText textNode in
          Some (spanTextNode (group' ov 1 openMatch)
                  (parseAttributeString (group' ov 2 openMatch))
                  (ov +++ content +++ cv) content)
        else None
    | _, _ => None
    end
  else None.

(** The loop over the children of a paragraph, which splices each triple
    into one text node and goes on after it; [f] is applied to the
    children that stay, which the traversal visits afterwards (the text
    nodes the loop creates have no children and are not html). *)
Definition collapseWith (f : MdNode -> MdNode) : list MdNode -> list MdNode :=
  fix go (cs : list MdNode) : list MdNode :=
    match cs with
    | [] => []
    | o :: tl =>
        match tl with
        | t :: c :: rest =>
            match spanOfTriple o t c with
            | Some newTextNode => newTextNode :: go rest
            | None => f o :: go tl
            end
        | _ => f o :: go tl
        end
    end.

(** the visitor of [processSpanMetadataComments] at a node below the root *)
Fixpoint spanVisit (node : MdNode) : MdNode :=
  match spanOfHtml node with
  | Some newParagraph => newParagraph
  | None =>
      match mchildren node with
      | None => node
      | Some cs =>
          if String.eqb (mtype node) "paragraph"
          then Md.withChildren node (Some (collapseWith spanVisit cs))
          else Md.withChildren node (Some (map spanVisit cs))
      end
  end.

(** [processSpanMetadataComments], on the tree the parser gives: the deep
    clone it starts with is that tree again, which holds texts, integers
    and booleans only *)
Definition processSpanMetadataComments (tree : MdNode) : MdNode :=
  match mchildren tree with
  | None => tree
  | Some cs => Md.withChildren tree (Some (map spanVisit cs))
  end.

(* ------------------------------------------------------------------- *)
(** *** Block-style comments: [processMetadataComments] *)

Section WithJson2.

Variable jsonParse : string -> option JsVal.

Fixpoint indexed {A} (i : nat) (l : list A) : list (nat * A) :=
  match l with
  | [] => []
  | x :: l' => (i, x) :: indexed (S i) l'
  end.

(** The comments among the children of [parent] that the visitor
    attaches and marks for removal: index, parsed metadata, target. *)
Definition commentsOf (parent : MdNode)
  : list (nat * AdfMetadata * Target) :=
  flat_map
    (fun ic =>
       let node := snd ic in
       if String.eqb (mtype node) "html" then
         match mvalue node with
         | Some value =>
             if isAdfMetadataComment value then
               match parseAdfMetadataComment jsonParse value,
                     findMetadataTarget parent (fst ic) with
               | Some metadata, Some target =>
                   [(fst ic, metadata, target)]
               | _, _ => []
               end
             else []
         | None => []
         end
       else [])
    (indexed 0 (Md.kids parent)).

(** [targetNode.data.adfMetadata.push(metadata)], for several *)
Definition push (node : MdNode) (ms : list AdfMetadata) : MdNode :=
  match ms with
  | [] => node
  | _ => Md.withMetadata node (Some (getNodeMetadata node ++ ms))
  end.

Definition addressedTo (j : nat) (before : bool)
  (found : list (nat * AdfMetadata * Target)) : list AdfMetadata :=
  flat_map
    (fun f =>
       match f with
       | (i, metadata, TChild j') =>
           if (j' =? j) && (if before then i <? j else j <? i)
           then [metadata] else []
       | _ => []
       end)
    found.

Definition addressedToParent (found : list (nat * AdfMetadata * Target))
  : list AdfMetadata :=
  flat_map
    (fun f =>
       match f with
       | (_, metadata, TParent) => [metadata]
       | _ => []
       end)
    found.

(** The traversal below [node].  The visitor changes nothing but the
    [data.adfMetadata] of targets, so what it meets is fixed by the tree
    it starts from.  A child receives, in this order, the metadata of
    the comments before it, of the comments among its own children, and
    of the comments after it; the comments that found a target are
    spliced out at the end.  The second component is the metadata the
    children of [node] address to [node] itself. *)
Fixpoint attachBelow (node : MdNode) : MdNode * list AdfMetadata :=
  match mchildren node with
  | None => (node, [])
  | Some cs =>
      let found := commentsOf node in
      let visited := map attachBelow cs in
      let attached :=
        map (fun jc =>
               let j := fst jc in
               (j, push (fst (snd jc))
                     (addressedTo j true found ++ snd (snd jc) ++
                      addressedTo j false found)))
          (indexed 0 visited) in
      let kept :=
        filter (fun jc =>
                  negb (existsb (fun f => fst (fst f) =? fst jc) found))
          attached in
      (Md.withChildren node (Some (map snd kept)),
       addressedToParent found)
  end.

(** [processMetadataComments], on the tree the parser gives (the same
    holds of its deep clone) *)
Definition processMetadataComments (tree : MdNode) : MdNode :=
  let processedTree := processSpanMetadataComments tree in
  let r := attachBelow processedTree in
  push (fst r) (snd r).

End WithJson2.

End Metadata.

(* ===================================================================== *)
(** ** Social elements and inline marks in text (ASTBuilder.ts) *)
(* ===================================================================== *)

Module Social.

Import Regex.

(** What [getEmojiData(shortName) || createFallbackEmojiData(shortName)]
    returns; utils/emoji-mapping.ts is a table the builder consults. *)
Record EmojiData := mkEmoji { emojiId : option string; emojiText : string }.

(** [new Date(dateString + 'T00:00:00.000Z').getTime()] for a
    [dateString] of the shape dddd-dd-dd: the number of days from
    1970-01-01 to the first of the month, plus the day of the month, in
    milliseconds; a month outside 1..12 or a day outside 1..31 is an
    invalid date (NaN). *)
Definition digitVal (a : ascii) : Z := Z.of_nat (Str.code a) - 48.

Fixpoint digits (s : string) (acc : Z) : Z :=
  match s with
  | EmptyString => acc
  | String a s' => digits s' (10 * acc + digitVal a)
  end.

Definition daysFromCivil (y m d : Z) : Z :=
  let y' := if (m <=? 2)%Z then (y - 1)%Z else y in
  let era := (y' / 400)%Z in
  let yoe := (y' - era * 400)%Z in
  let mp := ((m + 9) mod 12)%Z in
  let doy := ((153 * mp + 2) / 5 + d - 1)%Z in
  let doe := (yoe * 365 + yoe / 4 - yoe / 100 + doy)%Z in
  (era * 146097 + doe - 719468)%Z.

Definition getTime (dateString : string) : option Z :=
  let y := digits (Str.sub 0 4 dateString) 0 in
  let mo := digits (Str.sub 5 7 dateString) 0 in
  let d := digits (Str.sub 8 10 dateString) 0 in
  if ((1 <=? mo) && (mo <=? 12) && (1 <=? d) && (d <=? 31))%Z
  then Some (daysFromCivil y mo d * 86400000)%Z
  else None.

(** [date.getTime().toString()] *)
Definition timestampOf (dateString : string) : string :=
  match getTime dateString with
  | Some t => Str.ofZ t
  | None => "NaN"
  end.

Record Pattern :=
  mkPattern { regex : re; ptype : string;
              process : string -> Match -> ADFNode }.

(** dddd-dd-dd *)
Definition dateRe : re :=
  seqs [rep 4 (Chr Str.isDigit); lit "-"; rep 2 (Chr Str.isDigit);
        lit "-"; rep 2 (Chr Str.isDigit)].

(** [a-zA-Z0-9_+-] *)
Definition emojiChar (a : ascii) : bool :=
  Str.isWord a || Str.oneOf "+-" a.

(** [\w-] *)
Definition wordOrDash (a : ascii) : bool :=
  Str.isWord a || Str.oneOf "-" a.

Definition optStr (o : option string) : string :=
  match o with Some x => x | None => EmptyString end.

Section WithEmoji.

Variable getEmojiData : string -> EmojiData.

Definition optVal (o : option string) : JsVal :=
  match o with Some x => VStr x | None => VUndef end.

(** /\{user:([^}]+)\}/ *)
Definition mentionPattern : Pattern :=
  mkPattern
    (seqs [lit "{user:"; Grp 1 (plus true (Chr (Str.noneOf "}")));
           lit "}"])
    "mention"
    (fun s mt =>
       attrNode "mention"
         [("id", VStr (group' s 1 mt));
          ("text", VStr ("@" +++ group' s 1 mt));
          ("userType", VStr "DEFAULT")]).

(** /:([a-zA-Z0-9_+-]+):/ *)
Definition emojiPattern : Pattern :=
  mkPattern
    (seqs [lit ":"; Grp 1 (plus true (Chr emojiChar)); lit ":"])
    "emoji"
    (fun s mt =>
       let shortName := group' s 1 mt in
       let emojiData := getEmojiData shortName in
       attrNode "emoji"
         [("shortName", VStr (":" +++ shortName +++ ":"));
          ("id", optVal (emojiId emojiData));
          ("text", VStr (emojiText emojiData))]).

(** /\{date:(\d{4}-\d{2}-\d{2})\}/ *)
Definition datePattern : Pattern :=
  mkPattern
    (seqs [lit "{date:"; Grp 1 dateRe; lit "}"])
    "date"
    (fun s mt =>
       let dateString := group' s 1 mt in
       attrNode "date" [("timestamp", VStr (timestampOf dateString))]).

(** /(^|[^\w-])(\d{4}-\d{2}-\d{2})(?![\w-])/ *)
Definition standaloneDatePattern : Pattern :=
  mkPattern
    (seqs [Grp 1 (Alt Bol (Chr (fun a => negb (wordOrDash a))));
           Grp 2 dateRe; NotAhead (Chr wordOrDash)])
    "date"
    (fun s mt =>
       let dateString := group' s 2 mt in
       attrNode "date" [("timestamp", VStr (timestampOf dateString))]).

Definition validColors : list string :=
  ["neutral"; "purple"; "blue"; "red"; "yellow"; "green"].

(** /\{status:([^|}]+)(?:\|color:([^}]* ))?\}/ *)
Definition statusPattern : Pattern :=
  mkPattern
    (seqs [lit "{status:"; Grp 1 (plus true (Chr (Str.noneOf "|}")));
           opt (Seq (lit "|color:")
                  (Grp 2 (Star true (Chr (Str.noneOf "}")))));
           lit "}"])
    "status"
    (fun s mt =>
       let text := group' s 1 mt in
       let color :=
         match group s 2 mt with
         | Some c => if Str.isEmpty c then "neutral" else c
         | None => "neutral"
         end in
       let finalColor :=
         if negb (Str.isEmpty color) && O.mem color validColors
         then color else "neutral" in
       attrNode "status"
         [("text", VStr text); ("color", VStr finalColor)]).

(** /\[([^\]]* )\]\(card:([^)]+)\)/ *)
Definition cardRe : re :=
  seqs [lit "["; Grp 1 (Star true (Chr (Str.noneOf "]")));
        lit "](card:"; Grp 2 (plus true (Chr (Str.noneOf ")")));
        lit ")"].

Definition inlineCardPattern : Pattern :=
  mkPattern cardRe "inlineCard"
    (fun s mt => attrNode "inlineCard" [("url", VStr (group' s 2 mt))]).

(** /!\[([^\]]* )\]\(media:([^)]+)\)/ *)
Definition mediaRe : re :=
  seqs [lit "!["; Grp 1 (Star true (Chr (Str.noneOf "]")));
        lit "](media:"; Grp 2 (plus true (Chr (Str.noneOf ")")));
        lit ")"].

Definition mediaReferenceNode (alt id : string) : ADFNode :=
  attrNode "mediaReference"
    [("id", VStr id); ("alt", VStr alt);
     ("mediaType", VStr "file"); ("collection", VStr EmptyString)].

Definition mediaReferencePattern : Pattern :=
  mkPattern mediaRe "mediaReference"
    (fun s mt => mediaReferenceNode (group' s 1 mt) (group' s 2 mt)).

(** the array [patterns] of [findNextSocialElement], in its order *)
Definition patterns : list Pattern :=
  [mentionPattern; emojiPattern; datePattern; standaloneDatePattern;
   statusPattern; inlineCardPattern; mediaReferencePattern].

Record SocialMatch :=
  mkSocial { sindex : nat; beforeText : string; snode : ADFNode;
             afterText : string }.

(** one turn of the loop [for (const pattern of patterns)] *)
Definition tryPattern (content : string)
  (earliestMatch : option SocialMatch) (pattern : Pattern)
  : option SocialMatch :=
  match exec content (regex pattern) with
  | Some mt =>
      if match earliestMatch with
         | None => true
         | Some e => index mt <? sindex e
         end
      then
        let beforeText := Str.take (index mt) content in
        let afterText :=
          Str.drop (index mt + String.length (matched content mt))
            content in
        let node := process pattern content mt in
        Some (mkSocial (index mt) beforeText node afterText)
      else earliestMatch
  | None => earliestMatch
  end.

(** [findNextSocialElement] with the patterns tried in the order [ps] *)
Definition findNextWith (ps : list Pattern) (content : string)
  : option SocialMatch :=
  fold_left (tryPattern content) ps None.

Definition findNextSocialElement (content : string)
  : option SocialMatch :=
  findNextWith patterns content.

(* ----------------------------------------------------------------- *)
(** *** [findNextMetadataComment] *)

Definition ws : re := Star true (Chr Str.isSpace).
Definition ws1 : re := plus true (Chr Str.isSpace).

(** /<!--\s*adf:text\s+([^>]+)-->(.*?)<!--\s*\/adf:text\s*-->/ *)
Definition metadataRegex : re :=
  seqs [lit "<!--"; ws; lit "adf:text"; ws1;
        Grp 1 (plus true (Chr (Str.noneOf ">"))); lit "-->";
        Grp 2 (Star false (Chr Str.isDot)); lit "<!--"; ws;
        lit "/adf:text"; ws; lit "-->"].

(** (\w+)=(?:([^Q\s]+)|Q([^Q]* )Q) with Q the double quote, flag g *)
Definition attrRegex : re :=
  seqs [Grp 1 (plus true (Chr Str.isWord)); lit "=";
        Alt (Grp 2 (plus true
                      (Chr (fun a =>
                              negb (Ascii.eqb a Str.dq || Str.isSpace a)))))
          (seqs [lit Str.dqs;
                 Grp 3 (Star true
                          (Chr (fun a => negb (Ascii.eqb a Str.dq))));
                 lit Str.dqs])].

Definition commentMarks (attrs : string) : list ADFMark :=
  flat_map
    (fun attrMatch =>
       let attrName := group' attrs 1 attrMatch in
       let value :=
         match group attrs 3 attrMatch with
         | Some quotedValue => quotedValue
         | None => group' attrs 2 attrMatch
         end in
       if String.eqb attrName "underline" then
         if String.eqb value "true" then [simpleMark "underline"] else []
       else if String.eqb attrName "color" then
         [mkMark "textColor" (Some [("color", VStr value)])]
       else if String.eqb attrName "backgroundColor" then
         [mkMark "backgroundColor" (Some [("color", VStr value)])]
       else if String.eqb attrName "subscript" then
         if String.eqb value "true"
         then [mkMark "subsup" (Some [("type", VStr "sub")])] else []
       else if String.eqb attrName "superscript" then
         if String.eqb value "true"
         then [mkMark "subsup" (Some [("type", VStr "sup")])] else []
       else [])
    (matchAll attrs attrRegex).

(** [{ type: 'text', text, ...(marks.length > 0 && { marks }) }] *)
Definition textWithMarks (t : string) (ms : list ADFMark) : ADFNode :=
  match ms with
  | [] => textNode t
  | _ => markedText t ms
  end.

Definition findNextMetadataComment (content : string)
  : option SocialMatch :=
  match exec content metadataRegex with
  | None => None
  | Some mt =>
      let fullMatch := matched content mt in
      let beforeText := Str.take (index mt) content in
      let afterText :=
        Str.drop (index mt + String.length fullMatch) content in
      let attrs := Str.trim (group' content 1 mt) in
      Some (mkSocial (index mt) beforeText
              (textWithMarks (group' content 2 mt) (commentMarks attrs))
              afterText)
  end.

(* ----------------------------------------------------------------- *)
(** *** [parseInlineMarksRecursively] *)

(** \[([^\]]+)\]\(([^)]+)\) *)
Definition linkRe : re :=
  seqs [lit "["; Grp 1 (plus true (Chr (Str.noneOf "]"))); lit "](";
        Grp 2 (plus true (Chr (Str.noneOf ")"))); lit ")"].

(** (\w+)=[Q']?([^Q'\s]+)[Q']? with Q the double quote, flag g *)
Definition advancedAttrRegex : re :=
  let quote := fun a => Ascii.eqb a Str.dq || Ascii.eqb a "'" in
  seqs [Grp 1 (plus true (Chr Str.isWord)); lit "="; opt (Chr quote);
        Grp 2 (plus true (Chr (fun a => negb (quote a || Str.isSpace a))));
        opt (Chr quote)].

Definition advancedMarks (attributesStr : string) : list ADFMark :=
  flat_map
    (fun attrMatch =>
       let key := group' attributesStr 1 attrMatch in
       let value := group' attributesStr 2 attrMatch in
       if String.eqb key "underline" then
         if String.eqb value "true" then [simpleMark "underline"] else []
       else if String.eqb key "textColor" then
         [mkMark "textColor" (Some [("color", VStr value)])]
       else if String.eqb key "backgroundColor" then
         [mkMark "backgroundColor" (Some [("color", VStr value)])]
       else if String.eqb key "subsup" then
         [mkMark "subsup" (Some [("type", VStr value)])]
       else [])
    (matchAll attributesStr advancedAttrRegex).

Definition star : ascii -> bool := Ascii.eqb "*".

(** the array [patterns] of [parseInlineMarksRecursively], in its order *)
Definition inlinePatterns : list Pattern :=
  [ (* /\[([^\]]+)\]\(([^)]+)\)<!--\s*adf:inlineCard\s*-->/ *)
    mkPattern
      (seqs [linkRe; lit "<!--"; ws; lit "adf:inlineCard"; ws; lit "-->"])
      "inlineCard"
      (fun s mt => attrNode "inlineCard" [("url", VStr (group' s 2 mt))]);
    (* /\[([^\]]* )\]\(card:([^)]+)\)/ *)
    mkPattern cardRe "inlineCard"
      (fun s mt => attrNode "inlineCard" [("url", VStr (group' s 2 mt))]);
    (* /\[([^\]]+)\]\(([^)]+)\)/ *)
    mkPattern linkRe "link"
      (fun s mt =>
         markedText (group' s 1 mt)
           [mkMark "link" (Some [("href", VStr (group' s 2 mt))])]);
    (* /\*\*([^*]+)\*\*/ *)
    mkPattern
      (seqs [lit "**"; Grp 1 (plus true (Chr (Str.noneOf "*"))); lit "**"])
      "strong"
      (fun s mt => markedText (group' s 1 mt) [simpleMark "strong"]);
    (* /(?<!\* )\*([^*]+)\*(?!\* )/ *)
    mkPattern
      (seqs [NotBehind star; lit "*";
             Grp 1 (plus true (Chr (Str.noneOf "*"))); lit "*";
             NotAhead (Chr star)])
      "em"
      (fun s mt => markedText (group' s 1 mt) [simpleMark "em"]);
    (* /`([^`]+)`/ *)
    mkPattern
      (seqs [lit "`"; Grp 1 (plus true (Chr (Str.noneOf "`"))); lit "`"])
      "code"
      (fun s mt => markedText (group' s 1 mt) [simpleMark "code"]);
    (* /<!--\s*adf:text\s+([^>]+)\s*-->([^<]+)<!--\s*\/adf:text\s*-->/ *)
    mkPattern
      (seqs [lit "<!--"; ws; lit "adf:text"; ws1;
             Grp 1 (plus true (Chr (Str.noneOf ">"))); ws; lit "-->";
             Grp 2 (plus true (Chr (Str.noneOf "<"))); lit "<!--"; ws;
             lit "/adf:text"; ws; lit "-->"])
      "advancedText"
      (fun s mt =>
         textWithMarks (Str.trim (group' s 2 mt))
           (advancedMarks (group' s 1 mt))) ].

(** the loop that keeps the pattern whose match starts first *)
Definition firstInlineMatch (content : string)
  : option (Match * Pattern) :=
  fold_left
    (fun firstMatch pattern =>
       match exec content (regex pattern) with
       | Some mt =>
           if match firstMatch with
              | None => true
              | Some (fm, _) => index mt <? index fm
              end
           then Some (mt, pattern) else firstMatch
       | None => firstMatch
       end)
    inlinePatterns None.

(** [fuel] bounds the depth of the recursion; the length of the text is
    enough, every match being at least one character long. *)
Fixpoint parseInlineMarksFuel (fuel : nat) (content : string)
  : list ADFNode :=
  if Str.isEmpty content then [] else
  match fuel with
  | 0 => []
  | S fuel' =>
      match findNextMetadataComment content with
      | Some metadataMatch =>
          (if Str.isEmpty (beforeText metadataMatch) then []
           else parseInlineMarksFuel fuel' (beforeText metadataMatch)) ++
          [snode metadataMatch] ++
          parseInlineMarksFuel fuel' (afterText metadataMatch)
      | None =>
          match firstInlineMatch content with
          | None => [textNode content]
          | Some (mt, pattern) =>
              let before := Str.take (index mt) content in
              let after :=
                Str.drop (index mt + String.length (matched content mt))
                  content in
              (if Str.isEmpty before then []
               else parseInlineMarksFuel fuel' before) ++
              [process pattern content mt] ++
              (if Str.isEmpty after then []
               else parseInlineMarksFuel fuel' after)
          end
      end
  end.

Definition parseInlineMarksRecursively (content : string)
  : list ADFNode :=
  parseInlineMarksFuel (String.length content) content.

(* ----------------------------------------------------------------- *)
(** *** [parseInlineContentWithSocialElements] *)

(** the loop [while (remaining.length > 0)]; it runs at most once per
    character of the text, which is what [fuel] counts *)
Fixpoint scanLoop (fuel : nat) (remaining : string) (nodes : list ADFNode)
  : list ADFNode :=
  if Str.isEmpty remaining then nodes else
  match fuel with
  | 0 => nodes
  | S fuel' =>
      match findNextSocialElement remaining with
      | Some socialMatch =>
          scanLoop fuel' (afterText socialMatch)
            (nodes ++
             (if Str.isEmpty (beforeText socialMatch) then []
              else parseInlineMarksRecursively (beforeText socialMatch)) ++
             [snode socialMatch])
      | None => nodes ++ parseInlineMarksRecursively remaining
      end
  end.

Definition parseInlineContentWithSocialElements (content : string)
  : list ADFNode :=
  if Str.isEmpty content then []
  else scanLoop (String.length content) content [].

(** [processTextNodeForSocialElements] *)
Definition processTextNodeForSocialElements (text : string)
  : list ADFNode :=
  if Str.isEmpty text then []
  else parseInlineContentWithSocialElements text.

(** [hasSocialElements]:
    /:[a-zA-Z0-9_+-]+:/ and /(^|[^\w-])\d{4}-\d{2}-\d{2}(?![\w-])/ *)
Definition hasSocialElements (content : string) : bool :=
  if Str.isEmpty content then false
  else
    Str.includes "{user:" content ||
    test content (seqs [lit ":"; plus true (Chr emojiChar); lit ":"]) ||
    Str.includes "{date:" content ||
    test content
      (seqs [Alt Bol (Chr (fun a => negb (wordOrDash a))); dateRe;
             NotAhead (Chr wordOrDash)]) ||
    Str.includes "{status:" content.

End WithEmoji.

End Social.
(* ===================================================================== *)
(** ** From the generic tree to ADF (ASTBuilder.ts) *)
(* ===================================================================== *)

Module Builder.

Import Regex.
Import Social.
Import Metadata.

(** What [convertMdastNodeToADF] returns: null, a node, or the object
    [{ __multipleNodes }] a text node with several parts yields. *)
Inductive Converted :=
| CNull
| COne (n : ADFNode)
| CMany (ns : list ADFNode).

(** the object [{ __multipleNodes }] where the builder keeps it as if it
    were a node: it has no type *)
Definition multipleNodesObject (ns : list ADFNode) : ADFNode :=
  mkNode "undefined" None (Some ns) None None.

(** [marks.push(mark)] on a copy of [node.marks] *)
Definition pushMark (node : ADFNode) (mark : ADFMark) : ADFNode :=
  let marks := match marks node with Some ms => ms | None => [] end in
  setMarks node (marks ++ [mark]).

Definition markableNodeTypes : list string :=
  ["text"; "mention"; "emoji"; "status"; "date"; "inlineCard"].

Definition isAdfProcessingDirective (value : string) : bool :=
  existsb (fun directive => Str.includes ("adf:" +++ directive) value)
    ["inlineCard"; "blockCard"].

(** /^(?:adf:)?media:(.+)$/ *)
Definition adfMediaRe : re :=
  seqs [Bol; opt (lit "adf:"); lit "media:";
        Grp 1 (plus true (Chr Str.isDot)); Eol].

(** /^(?:adf:)?media:/ *)
Definition mediaPrefixRe : re :=
  seqs [Bol; opt (lit "adf:"); lit "media:"].

(** [convertMdastImage]; [None] is null *)
Definition convertMdastImage (node : MdNode) : option ADFNode :=
  match url node with
  | None => None
  | Some u =>
      if Str.isEmpty u then None else
      match exec u adfMediaRe with
      | None => None
      | Some adfMediaMatch =>
          let mediaId := group' u 1 adfMediaMatch in
          if Str.isEmpty mediaId then None else
          let metadata := getNodeMetadata node in
          let attrsPair :=
            fold_left
              (fun acc meta =>
                 match metaAttrs meta with
                 | Some mattrs =>
                     if String.eqb (metaNodeType meta) "media"
                     then (O.spread (fst acc) mattrs, snd acc)
                     else if String.eqb (metaNodeType meta) "mediaSingle"
                          then (fst acc, O.spread [] mattrs)
                          else acc
                 | None => acc
                 end)
              metadata
              ([("id", VStr mediaId); ("type", VStr "file")], []) in
          let mediaAttrs := fst attrsPair in
          let mediaSingleAttrs := snd attrsPair in
          let mediaAttrs :=
            match alt node with
            | Some a =>
                if Str.isEmpty a then mediaAttrs
                else O.set "alt" (VStr a) mediaAttrs
            | None => mediaAttrs
            end in
          let mediaAttrs :=
            if truthy (O.get' "collection" (Some mediaAttrs)) then mediaAttrs
            else O.set "collection" (VStr EmptyString) mediaAttrs in
          Some (mkNode "mediaSingle"
                  (Some (O.spread [("layout", VStr "center")]
                           mediaSingleAttrs))
                  (Some [attrNode "media" mediaAttrs]) None None)
      end
  end.

Section WithOptions.

Variable getEmojiData : string -> EmojiData.
(** [JSON.parse]; [None] when it throws *)
Variable jsonParse : string -> option JsVal.
(** [this.options.preserveUnknownNodes] *)
Variable preserveUnknownNodes : bool.
(** [parseBlockContentWithSocialElements], the path taken for a fence
    node that has a text value and no children; it runs the
    MarkdownTokenizer, a module outside this development. *)
Variable parseBlockContentWithSocialElements : string -> list ADFNode.

(** the marks a span-style comment left on a text node, if any *)
Definition spanMarks (node : MdNode) : option (list ADFMark) :=
  match adfMetadata node with
  | Some (metadata :: _) => metaMarks metadata
  | _ => None
  end.

(** [convertMdastInlineNode]; the result is the list of the nodes that
    [convertMdastInlineNodes] pushes for it (none for null) *)
Fixpoint convertMdastInlineNode (node : MdNode) : list ADFNode :=
  let childNodes :=
    match mchildren node with
    | Some children => flat_map convertMdastInlineNode children
    | None => []
    end in
  let wrapWithMark (mark : ADFMark) :=
    map (fun n =>
           if O.mem (ntype n) markableNodeTypes then pushMark n mark
           else n)
      childNodes in
  let ty := mtype node in
  if String.eqb ty "text" then
    match spanMarks node with
    | Some ms => [mkNode "text" None None (Some (valueText node)) (Some ms)]
    | None =>
        processTextNodeForSocialElements getEmojiData
          (match mvalue node with Some v => v | None => EmptyString end)
    end
  else if String.eqb ty "strong" then
    wrapWithMark (simpleMark "strong")
  else if String.eqb ty "emphasis" then
    wrapWithMark (simpleMark "em")
  else if String.eqb ty "inlineCode" then
    [markedText (valueText node) [simpleMark "code"]]
  else if String.eqb ty "delete" then
    wrapWithMark (simpleMark "strike")
  else if String.eqb ty "link" then
    let u := match url node with Some u => u | None => EmptyString end in
    if Str.startsWith "card:" u then
      [attrNode "inlineCard" [("url", VStr (Str.drop 5 u))]]
    else
      wrapWithMark
        (mkMark "link"
           (Some (("href", VStr u) ::
                  match title node with
                  | Some t =>
                      if Str.isEmpty t then [] else [("title", VStr t)]
                  | None => []
                  end)))
  else if String.eqb ty "break" then
    [mkNode "hardBreak" None None None None]
  else if String.eqb ty "image" then
    match convertMdastImage node with Some n => [n] | None => [] end
  else if String.eqb ty "html" then
    match mvalue node with
    | Some v =>
        if negb (Str.isEmpty v) && isAdfMetadataComment v then []
        else if negb (Str.isEmpty v) && isAdfProcessingDirective v then []
        else if preserveUnknownNodes
             then [textNode ("[HTML: " +++ v +++ "]")]
             else []
    | None =>
        if preserveUnknownNodes then [textNode "[HTML: undefined]"] else []
    end
  else
    [textNode
       (match mvalue node with
        | Some v => if Str.isEmpty v then "[" +++ ty +++ "]" else v
        | None => "[" +++ ty +++ "]"
        end)].

Definition convertMdastInlineNodes (nodes : list MdNode) : list ADFNode :=
  flat_map convertMdastInlineNode nodes.

(** [wrapWithMark] *)
Definition wrapWithMark (children : list MdNode) (markType : string)
  (attrs : option Obj) : list ADFNode :=
  let childNodes := convertMdastInlineNodes children in
  let mark := mkMark markType attrs in
  map (fun node =>
         if O.mem (ntype node) markableNodeTypes then pushMark node mark
         else node)
    childNodes.

(** [convertMdastNodesToADF] on results already obtained *)
Definition flatten (cs : list Converted) : list ADFNode :=
  flat_map (fun c => match c with
                     | CNull => []
                     | COne n => [n]
                     | CMany ns => ns
                     end) cs.

(** [filterAttributes] *)
Definition filterAttributes (attrs : Obj) (excludeKeys : list string)
  : Obj :=
  fold_left
    (fun filtered kv =>
       if O.mem (fst kv) excludeKeys then filtered
       else O.assign (fst kv) (snd kv) filtered)
    attrs [].

(** the own enumerable properties a spread copies out of a value *)
Definition spreadOf (v : JsVal) : Obj :=
  match v with
  | VObj o => o
  | VArr l =>
      map (fun iv => (Str.ofZ (Z.of_nat (fst iv)), snd iv))
        (Metadata.indexed 0 l)
  | VStr s =>
      map (fun ia => (Str.ofZ (Z.of_nat (fst ia)),
                      VStr (String (snd ia) EmptyString)))
        (Metadata.indexed 0 (list_ascii_of_string s))
  | _ => []
  end.

(** [s.replace(/'/g, Q)] with Q the double quote *)
Fixpoint doubleQuotes (s : string) : string :=
  match s with
  | EmptyString => EmptyString
  | String a s' =>
      String (if Ascii.eqb a "'" then Str.dq else a) (doubleQuotes s')
  end.

(** /!\[([^\]]* )\]\(media:([^)]+)\)(?:\s*<!-- adf:media ([^>]* ) -->)?/g *)
Definition mediaWithMetadataRe : re :=
  seqs [lit "!["; Grp 1 (Star true (Chr (Str.noneOf "]")));
        lit "](media:"; Grp 2 (plus true (Chr (Str.noneOf ")")));
        lit ")";
        opt (seqs [Social.ws; lit "<!-- adf:media ";
                   Grp 3 (Star true (Chr (Str.noneOf ">")));
                   lit " -->"])].

(** [extractMediaFromContent] *)
Definition extractMediaFromContent (content : string) : list ADFNode :=
  map (fun mt =>
         let alt := group' content 1 mt in
         let id := group' content 2 mt in
         let attrs := [("id", VStr id); ("type", VStr "file")] in
         let attrs :=
           match group content 3 mt with
           | Some metadataStr =>
               if Str.isEmpty metadataStr then attrs
               else match jsonParse (doubleQuotes metadataStr) with
                    | Some metadata => O.spread attrs (spreadOf metadata)
                    | None => attrs
                    end
           | None => attrs
           end in
         let attrs :=
           if Str.isEmpty alt then attrs else O.set "alt" (VStr alt) attrs in
         attrNode "media" attrs)
    (matchAll content mediaWithMetadataRe).

(** the media references of a [mediaGroup], by the pattern of
    [mediaReferencePattern] with the g flag *)
Definition mediaReferencesIn (value : string) : list ADFNode :=
  map (fun mt =>
         mediaReferenceNode (group' value 1 mt) (group' value 2 mt))
    (matchAll value mediaRe).

Definition isMediaNode (n : ADFNode) : bool :=
  String.eqb (ntype n) "mediaReference" || String.eqb (ntype n) "media".

(** [{ ...(attributes.k && { k: attributes.k }) }] *)
Definition whenTruthy (k : string) (attributes : Obj) : Obj :=
  let v := O.get' k (Some attributes) in
  if truthy v then [(k, v)] else [].

(** [convertAdfFenceNode], given the converted children *)
Definition convertAdfFenceNode (node : MdNode)
  (convertedChildren : list Converted) : ADFNode :=
  let attributes := O.ofOpt (attributes node) in
  let value := mvalue node in
  let nodeType := match nodeType node with
                  | Some t => t
                  | None => "undefined"
                  end in
  let content :=
    match convertedChildren with
    | _ :: _ =>
        flat_map (fun c => match c with
                           | CNull => []
                           | COne n => [n]
                           | CMany ns => [multipleNodesObject ns]
                           end) convertedChildren
    | [] =>
        match value with
        | Some v =>
            if Str.isEmpty (Str.trim v) then []
            else parseBlockContentWithSocialElements (Str.trim v)
        | None => []
        end
    end in
  if String.eqb nodeType "panel" then
    mkNode "panel"
      (Some (O.spread
               [("panelType",
                 let t := O.get' "type" (Some attributes) in
                 if truthy t then t else VStr "info")]
               (filterAttributes attributes ["type"])))
      (Some content) None None
  else if String.eqb nodeType "expand" ||
          String.eqb nodeType "nestedExpand" then
    mkNode nodeType
      (Some (O.spread (whenTruthy "title" attributes)
               (filterAttributes attributes ["title"])))
      (Some content) None None
  else if String.eqb nodeType "mediaSingle" then
    let mediaNodes :=
      extractMediaFromContent
        (match value with Some v => v | None => "undefined" end) in
    mkNode "mediaSingle"
      (Some (O.spread
               (O.spread (whenTruthy "layout" attributes)
                  (whenTruthy "width" attributes))
               (filterAttributes attributes ["layout"; "width"])))
      (Some (match mediaNodes with [] => content | _ => mediaNodes end))
      None None
  else if String.eqb nodeType "mediaGroup" then
    let groupMediaNodes :=
      match value with
      | Some v =>
          if Str.isEmpty (Str.trim v) then [] else mediaReferencesIn v
      | None => []
      end in
    let groupMediaNodes :=
      match groupMediaNodes with
      | [] =>
          flat_map
            (fun n =>
               if String.eqb (ntype n) "paragraph" then
                 match contentOf n with
                 | Some cs => filter isMediaNode cs
                 | None => if isMediaNode n then [n] else []
                 end
               else if isMediaNode n then [n] else [])
            content
      | _ => groupMediaNodes
      end in
    mkNode "mediaGroup" None
      (Some (match groupMediaNodes with
             | [] => content
             | _ => groupMediaNodes
             end)) None None
  else
    blockNode "paragraph"
      [textNode ("[ADF " +++ nodeType +++ "]: " +++
                 match value with Some v => v | None => EmptyString end)].

(** [postProcessInlineCards] *)
Fixpoint linksToConvert (originalNodes : list MdNode) : list string :=
  match originalNodes with
  | currentNode :: ((nextNode :: _) as rest) =>
      (if String.eqb (mtype currentNode) "link" &&
          String.eqb (mtype nextNode) "html" &&
          match mvalue nextNode with
          | Some v => Str.includes "adf:inlineCard" v
          | None => false
          end
       then [match url currentNode with
             | Some u => u
             | None => "undefined"
             end]
       else []) ++ linksToConvert rest
  | _ => []
  end.

Definition postProcessInlineCards (content : list ADFNode)
  (originalNodes : list MdNode) : list ADFNode :=
  match originalNodes with
  | [] => content
  | _ =>
      let links := linksToConvert originalNodes in
      match links with
      | [] => content
      | _ =>
          map (fun node =>
                 if String.eqb (ntype node) "text" then
                   match find (fun mark => String.eqb (markType mark) "link")
                           (match marks node with
                            | Some ms => ms
                            | None => []
                            end) with
                   | Some linkMark =>
                       match O.get' "href" (markAttrs linkMark) with
                       | VStr href =>
                           if negb (Str.isEmpty href) && O.mem href links
                           then attrNode "inlineCard" [("url", VStr href)]
                           else node
                       | _ => node
                       end
                   | None => node
                   end
                 else node)
            content
      end
  end.

(** [convertMdastStrong], [convertMdastEmphasis] and [convertMdastLink],
    given the converted children *)
Definition convertMarked (content : list ADFNode) (mark : ADFMark)
  : ADFNode :=
  let processedContent :=
    map (fun child =>
           if String.eqb (ntype child) "text" then pushMark child mark
           else child)
      content in
  match processedContent with
  | [only] =>
      if String.eqb (ntype only) "text" then only
      else blockNode "paragraph" processedContent
  | _ => blockNode "paragraph" processedContent
  end.

(** [convertMdastTableCell], given the converted children *)
Definition convertMdastTableCell (node : MdNode) (content : list ADFNode)
  (isHeader : bool) : ADFNode :=
  let adfNode :=
    blockNode (if isHeader then "tableHeader" else "tableCell") content in
  match adfMetadata node with
  | Some metadata => applyMetadataToAdfNode adfNode metadata
  | None => adfNode
  end.

(** the paragraph that holds one image with a media address *)
Definition standaloneMedia (node : MdNode) : option ADFNode :=
  match mchildren node with
  | Some [imageNode] =>
      if String.eqb (mtype imageNode) "image" then
        match url imageNode with
        | Some u =>
            if negb (Str.isEmpty u) && test u mediaPrefixRe then
              let paragraphMetadata := getNodeMetadata node in
              let imageNode :=
                match paragraphMetadata with
                | [] => imageNode
                | _ =>
                    Md.withMetadata imageNode
                      (Some (getNodeMetadata imageNode ++
                             paragraphMetadata))
                end in
              convertMdastImage imageNode
            else None
        | None => None
        end
      else None
  | _ => None
  end.

(** [convertMdastNodeToADF] *)
Fixpoint convertMdastNodeToADF (node : MdNode) : Converted :=
  let convertedChildren :=
    match mchildren node with
    | Some children => map convertMdastNodeToADF children
    | None => []
    end in
  let childNodes := flatten convertedChildren in
  let ty := mtype node in
  let converted :=
    if String.eqb ty "heading" then
      COne (mkNode "heading"
              (Some [("level",
                      match depth node with
                      | Some d => d
                      | None => VUndef
                      end)])
              (Some (convertMdastInlineNodes (Md.kids node))) None None)
    else if String.eqb ty "paragraph" then
      match standaloneMedia node with
      | Some mediaNode => COne mediaNode
      | None =>
          let content := convertMdastInlineNodes (Md.kids node) in
          match content with
          | [] => CNull
          | _ =>
              COne (blockNode "paragraph"
                      (postProcessInlineCards content (Md.kids node)))
          end
      end
    else if String.eqb ty "blockquote" then
      COne (blockNode "blockquote" childNodes)
    else if String.eqb ty "code" then
      COne (mkNode "codeBlock"
              (Some match lang node with
                    | Some l =>
                        if Str.isEmpty l then []
                        else [("language", VStr l)]
                    | None => []
                    end)
              (Some [mkNode "text" None None (mvalue node) None])
              None None)
    else if String.eqb ty "list" then
      COne (mkNode
              (if match ordered node with Some b => b | None => false end
               then "orderedList" else "bulletList")
              (match start node with
               | Some st =>
                   if negb (Z.eqb st 0) && negb (Z.eqb st 1)
                   then Some [("order", VNum st)] else None
               | None => None
               end)
              (Some childNodes) None None)
    else if String.eqb ty "listItem" then
      COne (blockNode "listItem" childNodes)
    else if String.eqb ty "table" then
      let row (isFirstRow : bool) (rowNode : MdNode) : list ADFNode :=
        if String.eqb (mtype rowNode) "tableRow" then
          [blockNode "tableRow"
             (match mchildren rowNode with
              | Some cells =>
                  flat_map
                    (fun cellNode =>
                       if String.eqb (mtype cellNode) "tableCell" then
                         [convertMdastTableCell cellNode
                            (match mchildren cellNode with
                             | Some cc =>
                                 flatten (map convertMdastNodeToADF cc)
                             | None => []
                             end)
                            isFirstRow]
                       else [])
                    cells
              | None => []
              end)]
        else [] in
      COne (blockNode "table"
              (match mchildren node with
               | Some (first :: rest) =>
                   row true first ++ flat_map (row false) rest
               | _ => []
               end))
    else if String.eqb ty "tableRow" then
      COne (blockNode "tableRow" childNodes)
    else if String.eqb ty "tableCell" then
      COne (convertMdastTableCell node childNodes false)
    else if String.eqb ty "thematicBreak" then
      COne (mkNode "rule" None None None None)
    else if String.eqb ty "adfFence" then
      COne (convertAdfFenceNode node convertedChildren)
    else if String.eqb ty "strong" then
      COne (convertMarked childNodes (simpleMark "strong"))
    else if String.eqb ty "emphasis" then
      COne (convertMarked childNodes (simpleMark "em"))
    else if String.eqb ty "inlineCode" then
      COne (mkNode "text" None None (mvalue node)
              (Some [simpleMark "code"]))
    else if String.eqb ty "link" then
      COne (convertMarked childNodes
              (mkMark "link"
                 (Some [("href", match url node with
                                 | Some u => VStr u
                                 | None => VUndef
                                 end)])))
    else if String.eqb ty "yaml" || String.eqb ty "toml" then CNull
    else if String.eqb ty "text" then
      match spanMarks node with
      | Some ms => COne (mkNode "text" None None (mvalue node) (Some ms))
      | None =>
          match processTextNodeForSocialElements getEmojiData
                  (match mvalue node with
                   | Some v => v
                   | None => EmptyString
                   end) with
          | [] => COne (textNode EmptyString)
          | [only] => COne only
          | processedNodes => CMany processedNodes
          end
      end
    else if String.eqb ty "image" then
      match convertMdastImage node with
      | Some n => COne n
      | None => CNull
      end
    else if String.eqb ty "html" then
      let v := match mvalue node with Some v => v | None => EmptyString end in
      if negb (Str.isEmpty v) && isAdfMetadataComment v then CNull
      else if negb (Str.isEmpty v) && isAdfProcessingDirective v then CNull
      else if preserveUnknownNodes then
             COne (blockNode "paragraph"
                     [textNode ("[HTML: " +++ valueText node +++ "]")])
           else CNull
    else
      if preserveUnknownNodes then
        COne (blockNode "paragraph"
                [textNode ("[Unknown node: " +++ ty +++ "]")])
      else CNull in
  match converted with
  | COne adfNode =>
      match getNodeMetadata node with
      | [] => COne adfNode
      | metadata => COne (applyMetadataToAdfNode adfNode metadata)
      end
  | other => other
  end.

(** [convertMdastNodesToADF] *)
Definition convertMdastNodesToADF (nodes : list MdNode) : list ADFNode :=
  flatten (map convertMdastNodeToADF nodes).

(** [buildADFFromMdast]; the frontmatter only feeds a value the function
    does not use *)
Definition buildADFFromMdast (tree : MdNode) : ADFDocument :=
  mkDoc 1 "doc" (convertMdastNodesToADF (Md.kids tree)).

End WithOptions.

(* ------------------------------------------------------------------- *)
(** *** From ADF back to the generic tree *)

Definition strOf (v : JsVal) : option string :=
  match v with
  | VUndef => None
  | VStr s => Some s
  | _ => Some (Num.toStr v)
  end.

(** [convertAdfInlineToMdast] *)
Definition convertAdfInlineToMdast (content : list ADFNode) : list MdNode :=
  map (fun node =>
         if String.eqb (ntype node) "text" then
           let textValue :=
             mkMd "text" (text node) None None None None None None None None
               None None None None in
           fold_left
             (fun result mark =>
                if String.eqb (markType mark) "strong" then
                  Md.parent "strong" [result]
                else if String.eqb (markType mark) "em" then
                  Md.parent "emphasis" [result]
                else if String.eqb (markType mark) "code" then
                  mkMd "inlineCode" (text node) None None None None None
                    None None None None None None None
                else if String.eqb (markType mark) "link" then
                  mkMd "link" None (Some [result]) None None None
                    (strOf (O.get' "href" (markAttrs mark))) None None None
                    None None None None
                else result)
             (match marks node with Some ms => ms | None => [] end)
             textValue
         else Md.text ("[" +++ ntype node +++ "]"))
    content.

(** [extractContentAsText] *)
Fixpoint extractContentAsText (node : ADFNode) : string :=
  if String.eqb (ntype node) "text" then
    match text node with Some t => t | None => EmptyString end
  else
    match content node with
    | Some cs => String.concat EmptyString (map extractContentAsText cs)
    | None => EmptyString
    end.

Definition contentAsText (content : list ADFNode) : string :=
  String.concat EmptyString (map extractContentAsText content).

Definition orElse (v : JsVal) (d : JsVal) : JsVal :=
  if truthy v then v else d.

Definition htmlComment (value : string) : MdNode := Md.html value.

Definition imageNode (u a : string) : MdNode :=
  mkMd "image" None None None None None (Some u) (Some a) None None None
    None None None.

(** the attributes [convertAdfNodeToMdast] writes into the comment of a
    media node: the known ones that are set, then the others but [alt] *)
Definition mediaMetadataAttrs (mediaAttrs : Obj) : Obj :=
  let known := ["id"; "type"; "collection"; "width"; "height"] in
  let first :=
    fold_left
      (fun acc k =>
         let v := O.get' k (Some mediaAttrs) in
         if truthy v then O.set k v acc else acc)
      known [] in
  fold_left
    (fun acc kv =>
       if O.mem (fst kv) (known ++ ["alt"]) then acc
       else O.assign (fst kv) (snd kv) acc)
    mediaAttrs first.

(** [convertAdfNodeToMdast]; the result is the list of the nodes that
    [convertAdfNodesToMdast] pushes for it *)
Fixpoint convertAdfNodeToMdast (node : ADFNode) : list MdNode :=
  let withComment (mdastNode : MdNode) : list MdNode :=
    let metadataComment := generateMetadataComment (ntype node) (attrs node) in
    if Str.isEmpty metadataComment then [mdastNode]
    else [htmlComment metadataComment; mdastNode] in
  let inlineContent :=
    convertAdfInlineToMdast
      (match content node with Some c => c | None => [] end) in
  let ty := ntype node in
  if String.eqb ty "heading" then
    withComment
      (mkMd "heading" None (Some inlineContent)
         (Some (orElse (O.get' "level" (attrs node)) (VNum 1)))
         None None None None None None None None None None)
  else if String.eqb ty "paragraph" then
    withComment (Md.parent "paragraph" inlineContent)
  else if String.eqb ty "panel" then
    withComment
      (mkMd "adfFence"
         (Some (contentAsText
                  (match content node with Some c => c | None => [] end)))
         None None None None None None None None None (Some "panel")
         (Some (O.spread
                  [("type", orElse (O.get' "panelType" (attrs node))
                              (VStr "info"))]
                  (O.ofOpt (attrs node))))
         None)
  else if String.eqb ty "media" then
    let mediaAttrs := attrs node in
    let altText := orElse (O.get' "alt" mediaAttrs) (VStr "Media") in
    let mdastNode :=
      imageNode
        ("adf:media:" +++
         Num.toStr (orElse (O.get' "id" mediaAttrs) (VStr "unknown")))
        (Num.toStr altText) in
    let metadataAttrs := mediaMetadataAttrs (O.ofOpt mediaAttrs) in
    match metadataAttrs with
    | [] => withComment mdastNode
    | _ =>
        let metadataString :=
          String.concat " "
            (map (fun kv =>
                    fst kv +++ "=" +++ Str.dqs +++ Num.toStr (snd kv) +++
                    Str.dqs)
               metadataAttrs) in
        [htmlComment ("<!-- adf:media " +++ metadataString +++ " -->");
         mdastNode]
    end
  else if String.eqb ty "mediaSingle" then
    let mediaContent :=
      match content node with
      | Some c => flat_map convertAdfNodeToMdast c
      | None => []
      end in
    let mediaSingleComment :=
      generateMetadataComment (ntype node) (attrs node) in
    match mediaContent with
    | _ :: _ =>
        (if Str.isEmpty mediaSingleComment then []
         else [htmlComment mediaSingleComment]) ++ mediaContent
    | [] => withComment (imageNode "adf:media:unknown" "Media")
    end
  else
    withComment (Md.parent "paragraph" [Md.text ("[" +++ ty +++ "]")]).

(** [convertAdfNodesToMdast] *)
Definition convertAdfNodesToMdast (nodes : list ADFNode) : list MdNode :=
  flat_map convertAdfNodeToMdast nodes.

(** [buildMdastFromADF] *)
Definition buildMdastFromADF (adf : ADFDocument) : MdNode :=
  Md.parent "root" (convertAdfNodesToMdast (doccontent adf)).

End Builder.
(* ===================================================================== *)
(** ** The conversion engine (MarkdownToAdfEngine.ts) *)
(* ===================================================================== *)

Module Engine.

Import Regex.
Import Metadata.

(** the part of [ConversionOptions] that changes a result *)
Record Options := mkOptions { strict : bool; preserveUnknownNodes : bool }.

(** the default options of the constructor *)
Definition defaultOptions : Options := mkOptions false true.

(** What the engine is given from outside: the unified processor
    ([parse] followed by [runSync], giving the root, [None] when it
    throws), [JSON.parse] ([None] when it throws), the emoji table, the
    tokenizer-based path of the builder, and the number of nested calls
    the runtime allows. *)
Record Runtime :=
  mkRuntime {
      parse : string -> option MdNode;
      jsonParse : string -> option JsVal;
      getEmojiData : string -> Social.EmojiData;
      parseBlockContentWithSocialElements : string -> list ADFNode;
      callDepth : nat }.

Definition adfBlockTypes : list string :=
  ["panel"; "expand"; "nestedExpand"; "mediaSingle"; "mediaGroup"].

Definition notNewline (a : ascii) : bool := negb (Str.code a =? 10).
Definition anyChar (a : ascii) : bool := true.

(* ------------------------------------------------------------------- *)
(** *** Preprocessing of the raw text *)

(** /-->(\s*<!--)/g *)
Definition consecutiveCommentsRe : re :=
  seqs [lit "-->"; Grp 1 (Seq ws (lit "<!--"))].

(** [preprocessConsecutiveHtmlComments] *)
Definition preprocessConsecutiveHtmlComments (markdown : string) : string :=
  replaceAll markdown consecutiveCommentsRe
    (fun _ => "-->" +++ Str.nl +++ "<!-- ").

(** /^~~~(panel|expand|mediaSingle|mediaGroup|nestedExpand)([^\n]* )/gm *)
Definition nestedAdfPattern : re :=
  seqs [BolM; lit "~~~";
        Grp 1 (alts [lit "panel"; lit "expand"; lit "mediaSingle";
                     lit "mediaGroup"; lit "nestedExpand"]);
        Grp 2 (Star true (Chr notNewline))].

(** /^~~~$/gm *)
Definition closingTildesRe : re := seqs [BolM; lit "~~~"; EolM].

(** [processNestedAdfContent] *)
Definition processNestedAdfContent (content : string) : string :=
  let opened :=
    replaceAll content nestedAdfPattern
      (fun mt => "```" +++ group' content 1 mt +++ group' content 2 mt) in
  replaceAll opened closingTildesRe (fun _ => "```").

(** /^~~~(expand|panel|mediaSingle|mediaGroup|nestedExpand)([^\n]* )\n([\s\S]*?)\n~~~$/gm *)
Definition adfBlockPattern : re :=
  seqs [BolM; lit "~~~";
        Grp 1 (alts [lit "expand"; lit "panel"; lit "mediaSingle";
                     lit "mediaGroup"; lit "nestedExpand"]);
        Grp 2 (Star true (Chr notNewline)); lit Str.nl;
        Grp 3 (Star false (Chr anyChar)); lit Str.nl; lit "~~~"; EolM].

(** [preprocessNestedAdfBlocks] *)
Definition preprocessNestedAdfBlocks (markdown : string) : string :=
  replaceAll markdown adfBlockPattern
    (fun mt =>
       "~~~" +++ group' markdown 1 mt +++ group' markdown 2 mt +++ Str.nl +++
       processNestedAdfContent (group' markdown 3 mt) +++ Str.nl +++ "~~~").

(* ------------------------------------------------------------------- *)
(** *** [cleanupEmptyParagraphs] *)

Definition whitespaceText (child : ADFNode) : bool :=
  String.eqb (ntype child) "text" &&
  match text child with
  | Some t => Str.isEmpty t || Str.isEmpty (Str.trim t)
  | None => true
  end.

(** [cleanupNode]: [None] when the node is to be removed *)
Fixpoint cleanupNode (node : ADFNode) : option ADFNode :=
  let cleaned :=
    match content node with
    | Some cs =>
        setContent node
          (flat_map (fun c => match cleanupNode c with
                              | Some c' => [c']
                              | None => []
                              end) cs)
    | None => node
    end in
  if String.eqb (ntype node) "paragraph" then
    match content node with
    | Some cs => if forallb whitespaceText cs then None else Some cleaned
    | None => Some cleaned
    end
  else Some cleaned.

Definition cleanupEmptyParagraphs (adf : ADFDocument) : ADFDocument :=
  mkDoc (version adf) (doctype adf)
    (flat_map (fun c => match cleanupNode c with
                        | Some c' => [c']
                        | None => []
                        end) (doccontent adf)).

(** why a conversion failed *)
Inductive Cause := ParserThrew | CallsTooDeep | FrontmatterFailed.

(** the errors [convert] throws: 'Invalid markdown input: must be a
    non-empty string' and 'Failed to convert markdown to ADF: ...' *)
Inductive Error := InvalidInput | ConversionFailed (cause : Cause).

Inductive Outcome := Returned (adf : ADFDocument) | Thrown (e : Error).

(** [children.forEach(visit)] for a visitor that rewrites the node it is
    given and may set a flag; [None] when a call fails *)
Fixpoint forEach (visit : MdNode -> option (MdNode * bool))
  (cs : list MdNode) : option (list MdNode * bool) :=
  match cs with
  | [] => Some ([], false)
  | c :: cs' =>
      match visit c with
      | None => None
      | Some (c', changed) =>
          match forEach visit cs' with
          | None => None
          | Some (cs'', changed') => Some (c' :: cs'', changed || changed')
          end
      end
  end.

Section WithRuntime.

Variable options : Options.
Variable rt : Runtime.

(* ----------------------------------------------------------------- *)
(** *** [parseAdfLanguageString] *)

(** (\w+)=([^Q'\s]+|Q[^Q]*Q|'[^']*') with Q the double quote *)
Definition pairRe : re :=
  let isDq := fun a => Ascii.eqb a Str.dq in
  let isSq := fun a => Ascii.eqb a "'" in
  seqs [Grp 1 (plus true (Chr Str.isWord)); lit "=";
        Grp 2 (alts
                 [plus true
                    (Chr (fun a => negb (isDq a || isSq a || Str.isSpace a)));
                  seqs [Chr isDq; Star true (Chr (fun a => negb (isDq a)));
                        Chr isDq];
                  seqs [Chr isSq; Star true (Chr (fun a => negb (isSq a)));
                        Chr isSq]])].

Definition lastChar (s : string) : option ascii :=
  match Str.rev s with String a _ => Some a | EmptyString => None end.

Definition firstChar (s : string) : option ascii :=
  match s with String a _ => Some a | EmptyString => None end.

Definition quotedBy (q : ascii) (s : string) : bool :=
  match firstChar s, lastChar s with
  | Some a, Some b => Ascii.eqb a q && Ascii.eqb b q
  | _, _ => false
  end.

(** [s.slice(1, -1)] *)
Definition slice1 (s : string) : string :=
  Str.sub 1 (String.length s - 1) s.

Definition parseAdfLanguageString (lang meta : string) : Obj :=
  let fullString := Str.trim (lang +++ " " +++ meta) in
  let pairs := map (matched fullString) (matchAll fullString pairRe) in
  fold_left
    (fun attributes pair =>
       match exec pair pairRe with
       | None => attributes
       | Some mt =>
           let key := group' pair 1 mt in
           let value := group' pair 2 mt in
           if negb (Str.isEmpty key) && negb (Str.isEmpty value) &&
              negb (String.eqb key lang)
           then
             let parsedValue :=
               if quotedBy Str.dq value || quotedBy "'" value
               then slice1 value else value in
             let plain :=
               O.assign key
                 (if String.eqb parsedValue "true" then VBool true
                  else if String.eqb parsedValue "false" then VBool false
                  else match Num.toNumber parsedValue with
                       | Some n =>
                           if Str.isEmpty parsedValue then VStr parsedValue
                           else n
                       | None => VStr parsedValue
                       end)
                 attributes in
             if String.eqb key "attrs" then
               match jsonParse rt parsedValue with
               | Some (VObj o) => O.assignAll attributes o
               | Some (VArr l) =>
                   O.assignAll attributes (Builder.spreadOf (VArr l))
               | Some _ => plain
               | None => O.set key (VStr parsedValue) attributes
               end
             else plain
           else attributes
       end)
    pairs [].

(* ----------------------------------------------------------------- *)
(** *** [postProcessAdfFenceBlocks] *)

(** /^~~~(panel|expand|nestedExpand|mediaSingle|mediaGroup)([^\n]* )\n([\s\S]*?)\n~~~$/ *)
Definition adfFencePattern : re :=
  seqs [Bol; lit "~~~";
        Grp 1 (alts [lit "panel"; lit "expand"; lit "nestedExpand";
                     lit "mediaSingle"; lit "mediaGroup"]);
        Grp 2 (Star true (Chr notNewline)); lit Str.nl;
        Grp 3 (Star false (Chr anyChar)); lit Str.nl; lit "~~~"; Eol].

(** the children of the tree the inner processor gives for a text;
    [None] when it throws *)
Definition parseInner (content : string) : option (list MdNode) :=
  match parse rt content with
  | Some innerTree => Some (Md.kids innerTree)
  | None => None
  end.

(** a code block whose language is one of the fence kinds *)
Definition isAdfCode (node : MdNode) : bool :=
  String.eqb (mtype node) "code" &&
  match lang node with
  | Some l => negb (Str.isEmpty l) && O.mem l adfBlockTypes
  | None => false
  end.

(** the first [if] of [processNode] *)
Definition convertCode (node : MdNode) : MdNode :=
  let l := match lang node with Some l => l | None => EmptyString end in
  let attributes :=
    parseAdfLanguageString l
      (match meta node with Some me => me | None => EmptyString end) in
  match parseInner
          (match mvalue node with Some v => v | None => EmptyString end)
  with
  | Some children =>
      mkMd "adfFence"
        (if String.eqb l "mediaGroup" then mvalue node else None)
        (Some children) (depth node) None None (url node) (alt node)
        (title node) (ordered node) (start node) (Some l)
        (Some attributes) (adfMetadata node)
  | None =>
      mkMd "adfFence" (mvalue node) (mchildren node) (depth node) None
        None (url node) (alt node) (title node) (ordered node)
        (start node) (Some l) (Some attributes) (adfMetadata node)
  end.

(** the test of the second [if] of [processNode] and what its [try]
    obtains: the kind, the attribute string and the parsed children;
    [None] when the node is not a text node holding a whole fence or the
    parser throws *)
Definition fenceOfText (node : MdNode)
  : option (string * string * list MdNode) :=
  if String.eqb (mtype node) "text" then
    match mvalue node with
    | Some textContent =>
        if Str.isEmpty textContent then None else
        let trimmed := Str.trim textContent in
        match exec trimmed adfFencePattern with
        | Some mt =>
            match parseInner (group' trimmed 3 mt) with
            | Some children =>
                Some (group' trimmed 1 mt, group' trimmed 2 mt, children)
            | None => None
            end
        | None => None
        end
    | None => None
    end
  else None.

(** the second [if] of [processNode]: [None] when the node stays *)
Definition convertText (node : MdNode) : option MdNode :=
  match fenceOfText node with
  | Some (nodeType, attributesString, children) =>
      Some (mkMd "adfFence" None (Some children) (depth node)
              (lang node) (meta node) (url node) (alt node)
              (title node) (ordered node) (start node)
              (Some nodeType)
              (Some (parseAdfLanguageString nodeType
                       (Str.trim attributesString)))
              (adfMetadata node))
  | None => None
  end.

(** what the two [if]s of [processNode] make of a node, and whether
    they set [hasChanges] *)
Definition convertFence (node : MdNode) : MdNode * bool :=
  if isAdfCode node then (convertCode node, true)
  else match convertText node with
       | Some node' => (node', true)
       | None => (node, false)
       end.

(** [processNode]; [fuel] is the number of nested calls left, and
    [None] the failure of a call nested too deep.  The second component
    is whether [hasChanges] was set. *)
Fixpoint processNode (fuel : nat) (node : MdNode)
  : option (MdNode * bool) :=
  match fuel with
  | 0 => None
  | S fuel' =>
      let converted := convertFence node in
      match mchildren (fst converted) with
      | None => Some converted
      | Some children =>
          match forEach (processNode fuel') children with
          | None => None
          | Some (children', changed) =>
              Some (Md.withChildren (fst converted) (Some children'),
                    snd converted || changed)
          end
      end
  end.

(** [processedTree.children.forEach(processNode)] *)
Definition processAll (fuel : nat) (cs : list MdNode)
  : option (list MdNode * bool) :=
  forEach (processNode fuel) cs.

(** one pass over the tree *)
Definition fencePass (tree : MdNode) : option (MdNode * bool) :=
  match processAll (callDepth rt) (Md.kids tree) with
  | None => None
  | Some (children, hasChanges) =>
      Some (match mchildren tree with
            | Some _ => Md.withChildren tree (Some children)
            | None => tree
            end, hasChanges)
  end.

Definition maxPasses : nat := 5.

(** the loop [while (hasChanges && passCount < maxPasses)], entered
    with [hasChanges] set and [left = maxPasses - passCount]; the result
    carries the final [passCount] *)
Fixpoint fenceLoop (left : nat) (tree : MdNode) (passCount : nat)
  : option (MdNode * nat) :=
  match left with
  | 0 => Some (tree, passCount)
  | S left' =>
      match fencePass tree with
      | None => None
      | Some (tree', hasChanges) =>
          if hasChanges then fenceLoop left' tree' (S passCount)
          else Some (tree', S passCount)
      end
  end.

(** [postProcessAdfFenceBlocks]: the loop runs on a deep clone of the
    tree *)
Definition postProcessAdfFenceBlocks (tree : MdNode) : option MdNode :=
  let processedTree := Json.cloneTree tree in
  match fenceLoop maxPasses processedTree 0 with
  | Some (processedTree', _) => Some processedTree'
  | None => None
  end.

(* ----------------------------------------------------------------- *)
(** *** [convertMdastToAdfSync] and [convert] *)

Definition emptyDocument : ADFDocument := mkDoc 1 "doc" [].

(** the frontmatter step: [false] when parsing it throws *)
Definition frontmatterParses (processedTree : MdNode) : bool :=
  match find (fun node => String.eqb (mtype node) "yaml")
          (Md.kids processedTree) with
  | Some frontmatterNode =>
      match mvalue frontmatterNode with
      | Some yamlContent =>
          if Str.startsWith "{" (Str.trim yamlContent)
          then match jsonParse rt yamlContent with
               | Some _ => true
               | None => false
               end
          else true
      | None => true
      end
  | None => true
  end.

Definition buildADF (processedTree : MdNode) : ADFDocument :=
  cleanupEmptyParagraphs
    (Builder.buildADFFromMdast (getEmojiData rt) (jsonParse rt)
       (preserveUnknownNodes options)
       (parseBlockContentWithSocialElements rt) processedTree).

(** [convertMdastToAdfSync]; the error is the cause it rethrows in
    strict mode *)
Definition convertMdastToAdfSync (tree : MdNode)
  : ADFDocument + Cause :=
  match postProcessAdfFenceBlocks
          (processMetadataComments (jsonParse rt) tree) with
  | None =>
      if strict options then inr CallsTooDeep else inl emptyDocument
  | Some processedTree =>
      if frontmatterParses processedTree then inl (buildADF processedTree)
      else if strict options then inr FrontmatterFailed
           else inl (buildADF processedTree)
  end.

(** the document [convert] falls back to *)
Definition fallbackDocument (markdown : string) : ADFDocument :=
  mkDoc 1 "doc" [blockNode "paragraph" [textNode markdown]].

(** [convert]; the argument is any value a caller may pass *)
Definition convert (markdown : JsVal) : Outcome :=
  match markdown with
  | VStr md =>
      if Str.isEmpty md then
        if strict options then Thrown InvalidInput
        else Returned emptyDocument
      else if String.length (Str.trim md) =? 0 then Returned emptyDocument
      else
        let preprocessedMarkdown :=
          preprocessNestedAdfBlocks
            (preprocessConsecutiveHtmlComments md) in
        match parse rt preprocessedMarkdown with
        | Some processedTree =>
            match convertMdastToAdfSync processedTree with
            | inl adf => Returned adf
            | inr cause =>
                if strict options then Thrown (ConversionFailed cause)
                else Returned (fallbackDocument md)
            end
        | None =>
            if strict options then Thrown (ConversionFailed ParserThrew)
            else Returned (fallbackDocument md)
        end
  | _ =>
      if strict options then Thrown InvalidInput
      else Returned emptyDocument
  end.

End WithRuntime.

(* ----------------------------------------------------------------- *)
(** *** [validate] and [validateMdastTree] *)

Definition depthWarning (maxDepth : Z) : string :=
  "Maximum nesting depth (" +++ Str.ofZ maxDepth +++ ") exceeded".

(** the warnings [visit] pushes for a node at a depth, in the order of
    the visit *)
Fixpoint visitDepth (maxDepth : Z) (node : MdNode) (depth : nat)
  {struct node} : list string :=
  if (maxDepth <? Z.of_nat depth)%Z then [depthWarning maxDepth]
  else
    match mchildren node with
    | Some children =>
        flat_map (fun child => visitDepth maxDepth child (S depth))
          children
    | None => []
    end.

(** [validateMdastTree]: the two arrays after the call *)
Definition validateMdastTree (maxDepth : Z) (tree : MdNode)
  (errors warnings : list string) : list string * list string :=
  (errors, warnings ++ visitDepth maxDepth tree 0).

Record Validation :=
  mkValidation { valid : bool; errors : list string;
                 warnings : list string }.

(** [validate]; [message] is the message of the error the parser throws
    when it does *)
Definition validate (maxDepth : Z) (rt : Runtime) (message : string)
  (markdown : string) : Validation :=
  match parse rt markdown with
  | Some processedTree =>
      let (errors, warnings) :=
        validateMdastTree maxDepth processedTree [] [] in
      mkValidation (List.length errors =? 0) errors warnings
  | None => mkValidation false ["Parse error: " +++ message] []
  end.

(* ----------------------------------------------------------------- *)
(** *** [analyzeAdf] *)

(** the variables [visit] updates: [nodeCount], [adfBlockCount],
    [hasGfmFeatures] and [hasAdfExtensions] *)
Record Counters :=
  mkCounters { count : nat; blocks : nat; gfm : bool; extensions : bool }.

Definition adfExtensionTypes : list string :=
  ["panel"; "expand"; "mediaSingle"; "mediaGroup"].

Definition gfmTypes : list string :=
  ["table"; "tableRow"; "tableHeader"; "tableCell"].

Fixpoint visit (node : ADFNode) (c : Counters) : Counters :=
  let c := mkCounters (S (count c)) (blocks c) (gfm c) (extensions c) in
  let c :=
    if O.mem (ntype node) adfExtensionTypes
    then mkCounters (count c) (S (blocks c)) (gfm c) true
    else c in
  let c :=
    if O.mem (ntype node) gfmTypes
    then mkCounters (count c) (blocks c) true (extensions c)
    else c in
  match content node with
  | Some children => fold_left (fun c child => visit child c) children c
  | None => c
  end.

Record Stats :=
  mkStats { nodeCount : nat; adfBlockCount : nat; hasGfmFeatures : bool;
            hasFrontmatter : bool; hasAdfExtensions : bool;
            complexity : string }.

Definition analyzeAdf (adf : ADFDocument) : Stats :=
  let c :=
    fold_left (fun c node => visit node c) (doccontent adf)
      (mkCounters 0 0 false false) in
  mkStats (count c) (blocks c) (gfm c) false (extensions c)
    (if count c <? 10 then "simple"
     else if count c <? 50 then "moderate" else "complex").

End Engine.
(* ===================================================================== *)
(** ** The token path of the builder (ASTBuilder.ts, types.ts) *)
(* ===================================================================== *)

Module Tokens.

Import Social.

(** [ADFMetadata] and [Token] of markdown-to-adf/types.ts *)
Record TokenMetadata :=
  mkTokenMetadata { tmNodeType : string; tmAttrs : option Obj }.

#[warnings="-register-all"]
Inductive Token : Type :=
  mkToken {
      ttype : string;
      tcontent : string;
      tmetadata : option TokenMetadata;
      tchildren : option (list Token);
      traw : string }.

(** [getADFMarkType] *)
Definition getADFMarkType (tokenType : string) : string :=
  if String.eqb tokenType "strong" then "strong"
  else if String.eqb tokenType "emphasis" then "em"
  else if String.eqb tokenType "strikethrough" then "strike"
  else if String.eqb tokenType "inlineCode" then "code"
  else if String.eqb tokenType "underline" then "underline"
  else "unknown".

Definition orRaw (token : Token) : string :=
  if Str.isEmpty (tcontent token) then traw token else tcontent token.

Section WithEmoji.

Variable getEmojiData : string -> EmojiData.

(** [convertInlineTokenToNode], with [convertFormattingToken] and
    [convertLinkToken] *)
Fixpoint convertInlineTokenToNode (token : Token) : list ADFNode :=
  let childNodes :=
    match tchildren token with
    | Some children => flat_map convertInlineTokenToNode children
    | None => []
    end in
  let hasChildren :=
    match tchildren token with
    | Some (_ :: _) => true
    | _ => false
    end in
  let applyMark (mark : ADFMark) :=
    map (fun node =>
           if String.eqb (ntype node) "text" then Builder.pushMark node mark
           else node)
      childNodes in
  let ty := ttype token in
  if String.eqb ty "text" then
    if hasSocialElements (tcontent token)
    then parseInlineContentWithSocialElements getEmojiData (tcontent token)
    else [textNode (tcontent token)]
  else if O.mem ty ["strong"; "emphasis"; "strikethrough"; "inlineCode";
                    "underline"] then
    (* convertFormattingToken *)
    let markType := getADFMarkType ty in
    if hasChildren then applyMark (simpleMark markType)
    else [markedText (tcontent token) [simpleMark markType]]
  else if String.eqb ty "link" then
    (* convertLinkToken *)
    let metaAttrs :=
      match tmetadata token with
      | Some md => tmAttrs md
      | None => None
      end in
    let href := O.get' "href" metaAttrs in
    let title := O.get' "title" metaAttrs in
    if negb (truthy href) then [textNode (orRaw token)]
    else
      let linkAttrs :=
        ("href", href) :: if truthy title then [("title", title)] else [] in
      if hasChildren then applyMark (mkMark "link" (Some linkAttrs))
      else
        [markedText
           (if Str.isEmpty (tcontent token) then "link" else tcontent token)
           [mkMark "link" (Some linkAttrs)]]
  else [textNode (orRaw token)].

(** [convertInlineTokensToNodes] *)
Definition convertInlineTokensToNodes (tokens : list Token)
  : list ADFNode :=
  flat_map convertInlineTokenToNode tokens.

End WithEmoji.

(* ------------------------------------------------------------------- *)
(** *** [postProcessNestedAdfFenceBlocks] *)

(** [isAdfFenceBlockType] *)
Definition isAdfFenceBlockType (nodeType : string) : bool :=
  O.mem nodeType ["panel"; "expand"; "nestedExpand"; "mediaSingle";
                  "mediaGroup"].

(** the test of the inner [while]: a node that gets nested *)
Definition nestable (nextNode : ADFNode) : bool :=
  isAdfFenceBlockType (ntype nextNode) ||
  String.eqb (ntype nextNode) "paragraph".

Fixpoint takeWhile {A} (p : A -> bool) (l : list A) : list A :=
  match l with
  | x :: l' => if p x then x :: takeWhile p l' else []
  | [] => []
  end.

(** [{ ...node, content: [...(node.content || []), ...nestedNodes] }] *)
Definition absorb (node : ADFNode) (nestedNodes : list ADFNode) : ADFNode :=
  setContent node
    ((match content node with Some c => c | None => [] end) ++ nestedNodes).

Definition isPanel (n : ADFNode) : bool := String.eqb (ntype n) "panel".

(** The [for] loop over [content].  [rest] is [content] from index [i]
    on; [skip] counts the nodes the loop jumps over after it has nested
    them ([i = j - 1]). *)
Fixpoint nestFrom (skip : nat) (rest : list ADFNode) : list ADFNode :=
  match rest with
  | [] => []
  | node :: after =>
      match skip with
      | S skip' => nestFrom skip' after
      | 0 =>
          if (String.eqb (ntype node) "expand" ||
              String.eqb (ntype node) "panel") &&
             negb (List.length after =? 0)
          then
            if match after with
               | next :: _ => String.eqb (ntype next) (ntype node)
               | [] => false
               end
            then node :: nestFrom 0 after
            else if String.eqb (ntype node) "panel" &&
                    forallb isPanel (firstn 3 after) &&
                    (0 <? List.length after)
            then node :: nestFrom 0 after
            else
              let nestedNodes := takeWhile nestable after in
              match nestedNodes with
              | _ :: _ =>
                  absorb node nestedNodes ::
                  nestFrom (List.length nestedNodes) after
              | [] => node :: nestFrom 0 after
              end
          else node :: nestFrom 0 after
      end
  end.

Definition postProcessNestedAdfFenceBlocks (content : list ADFNode)
  : list ADFNode :=
  nestFrom 0 content.

End Tokens.

(* ===================================================================== *)
(** * Properties *)
(* ===================================================================== *)

(* --------------------------------------------------------------------- *)
(** ** Strings and matches *)

Module StrFacts.

Import Str.

Lemma take_drop (n : nat) (s : string) : take n s +++ drop n s = s.
Proof.
  revert s; induction n as [|n IH]; intros [|a s]; simpl; auto.
  now rewrite IH.
Qed.

Lemma length_append (s t : string) :
  String.length (s +++ t) = String.length s + String.length t.
Proof. induction s as [|a s IH]; simpl; auto. Qed.

Lemma length_take (n : nat) (s : string) :
  String.length (take n s) = Nat.min n (String.length s).
Proof.
  revert s; induction n as [|n IH]; intros [|a s]; simpl; auto.
Qed.

Lemma length_drop (n : nat) (s : string) :
  String.length (drop n s) = String.length s - n.
Proof.
  revert s; induction n as [|n IH]; intros [|a s]; simpl; auto.
Qed.

Lemma drop_drop (n k : nat) (s : string) : drop n (drop k s) = drop (k + n) s.
Proof.
  revert s; induction k as [|k IH]; intros s; simpl; auto.
  destruct s as [|a s]; simpl.
  - now destruct n.
  - apply IH.
Qed.

Lemma length_sub (i j : nat) (s : string) :
  j <= String.length s -> String.length (sub i j s) = j - i.
Proof.
  intros H. unfold sub. rewrite length_take, length_drop. lia.
Qed.

Lemma sub_split (i j : nat) (s : string) :
  i <= j -> take i s +++ sub i j s +++ drop j s = s.
Proof.
  intros H. unfold sub.
  replace (drop j s) with (drop (j - i) (drop i s)).
  - now rewrite take_drop, take_drop.
  - rewrite drop_drop. f_equal. lia.
Qed.

Lemma isEmpty_length (s : string) :
  isEmpty s = true <-> String.length s = 0.
Proof. destruct s; simpl; split; auto; discriminate. Qed.

Lemma get_some_lt (i : nat) (s : string) (a : ascii) :
  String.get i s = Some a -> i < String.length s.
Proof.
  revert i; induction s as [|b s IH]; intros [|i]; simpl; try discriminate.
  - lia.
  - intros H. apply IH in H. lia.
Qed.

Lemma drop_nil (n : nat) : drop n EmptyString = EmptyString.
Proof. now destruct n. Qed.

Lemma drop_add (s : string) (a b : nat) : drop (a + b) s = drop b (drop a s).
Proof. symmetry. apply drop_drop. Qed.

Lemma get_drop (s : string) :
  forall i,
    String.get i s
    = match drop i s with
      | String a _ => Some a
      | EmptyString => None
      end.
Proof.
  induction s as [|ch s IH]; intros [|i]; simpl; auto.
Qed.

Lemma drop_S (s : string) (i : nat) (a : ascii) (rest : string) :
  drop i s = String a rest -> drop (S i) s = rest.
Proof.
  intros H. replace (S i) with (i + 1) by lia. rewrite drop_add, H.
  reflexivity.
Qed.

Lemma drop_all (t : string) (n : nat) :
  String.length t <= n -> drop n t = EmptyString.
Proof.
  revert n; induction t as [|a t IH]; intros [|n] H; simpl in *; auto; try lia.
  apply IH. lia.
Qed.

Lemma drop_length_lt (s : string) (i : nat) :
  drop i s <> EmptyString -> i < String.length s.
Proof.
  intros H. destruct (Nat.lt_ge_cases i (String.length s)) as [L|G]; auto.
  now rewrite drop_all in H.
Qed.

Lemma prefix_length (w : string) :
  forall t, String.prefix w t = true -> String.length w <= String.length t.
Proof.
  induction w as [|a w IH]; intros [|b t] H; simpl in *; try lia;
    try discriminate.
  destruct (ascii_dec a b); [|discriminate]. apply IH in H. lia.
Qed.

Lemma length_rev_acc (s : string) :
  forall acc,
    String.length (rev_acc s acc) = String.length s + String.length acc.
Proof.
  induction s as [|a s IH]; intros acc; simpl; auto.
  rewrite IH. simpl. lia.
Qed.

Lemma length_rev (s : string) : String.length (rev s) = String.length s.
Proof. unfold rev. rewrite length_rev_acc. simpl. lia. Qed.

Lemma length_trimStart (s : string) :
  String.length (trimStart s) <= String.length s.
Proof.
  induction s as [|a s IH]; simpl; auto. destruct (isSpace a); simpl; lia.
Qed.

Lemma length_trim (s : string) :
  String.length (trim s) <= String.length s.
Proof.
  unfold trim, trimEnd. rewrite length_rev.
  pose proof (length_trimStart (rev (trimStart s))) as H.
  rewrite length_rev in H. pose proof (length_trimStart s). lia.
Qed.

End StrFacts.

Module RegexFacts.

Import Regex.

Section Bounds.

Variable s : string.

(** A match never runs past the end of the text, and consumes at least
    [minlen] characters. *)
Lemma m_bounds (r : re) :
  forall i c k x,
    i <= String.length s ->
    m s r i c k = Some x ->
    exists j c', k j c' = Some x /\ i + minlen r <= j /\ j <= String.length s.
Proof.
  induction r as [ | p | a IHa b IHb | a IHa b IHb | g a IHa | n a IHa
                 | | | | | a IHa | p ]; intros i c k x Hi H; simpl in H.
  - exists i, c. simpl. repeat split; auto; lia.
  - destruct (String.get i s) as [ch|] eqn:G; [|discriminate].
    destruct (p ch); [|discriminate].
    apply StrFacts.get_some_lt in G.
    exists (S i), c. simpl. repeat split; auto; lia.
  - apply IHa in H; auto. destruct H as (j & c' & H & L1 & L2).
    apply IHb in H; auto. destruct H as (j' & c'' & H & L3 & L4).
    exists j', c''. simpl. repeat split; auto; lia.
  - destruct (m s a i c k) eqn:E.
    + inversion H; subst. apply IHa in E; auto.
      destruct E as (j & c' & E & L1 & L2).
      exists j, c'. simpl. repeat split; auto; lia.
    + apply IHb in H; auto. destruct H as (j & c' & H & L1 & L2).
      exists j, c'. simpl. repeat split; auto; lia.
  - simpl. revert H. generalize (String.length s - i) as fuel.
    intros fuel; revert i c x Hi.
    induction fuel as [|fuel IHf]; intros i c x Hi H; simpl in H.
    + exists i, c. repeat split; auto; lia.
    + assert (More :
                forall y,
                  m s a i c
                    (fun j c' =>
                       if i <? j then starLoop (m s a) g k fuel j c'
                       else None) = Some y ->
                  exists j c', k j c' = Some y /\ i <= j /\
                               j <= String.length s).
      { intros y E. apply IHa in E; auto.
        destruct E as (j & c' & E & L1 & L2).
        destruct (i <? j) eqn:Lt; [|discriminate].
        apply IHf in E; auto. destruct E as (j' & c'' & E & L3 & L4).
        exists j', c''. repeat split; auto; lia. }
      destruct g.
      * destruct (m s a i c
                    (fun j c' =>
                       if i <? j then starLoop (m s a) true k fuel j c'
                       else None)) as [y|] eqn:E in H.
        -- inversion H; subst. destruct (More _ E) as (j & c' & E' & L1 & L2).
           exists j, c'. repeat split; auto; lia.
        -- exists i, c. repeat split; auto; lia.
      * destruct (k i c) eqn:E.
        -- inversion H; subst. exists i, c. repeat split; auto; lia.
        -- destruct (More _ H) as (j & c' & E' & L1 & L2).
           exists j, c'. repeat split; auto; lia.
  - apply IHa in H; auto. destruct H as (j & c' & H & L1 & L2).
    exists j, ((n, (i, j)) :: c'). simpl. repeat split; auto.
  - destruct (i =? 0); [|discriminate].
    exists i, c. simpl. repeat split; auto; lia.
  - destruct (i =? String.length s); [|discriminate].
    exists i, c. simpl. repeat split; auto; lia.
  - destruct i as [|i'].
    + exists 0, c. simpl. repeat split; auto; lia.
    + destruct (String.get i' s) as [ch|]; [|discriminate].
      destruct (Str.isLineTerminator ch); [|discriminate].
      exists (S i'), c. simpl. repeat split; auto; lia.
  - destruct (String.get i s) as [ch|].
    + destruct (Str.isLineTerminator ch); [|discriminate].
      exists i, c. simpl. repeat split; auto; lia.
    + destruct (i =? String.length s); [|discriminate].
      exists i, c. simpl. repeat split; auto; lia.
  - destruct (m s a i c (fun j c' => Some (j, c'))); [discriminate|].
    exists i, c. simpl. repeat split; auto; lia.
  - destruct i as [|i'].
    + exists 0, c. simpl. repeat split; auto; lia.
    + destruct (String.get i' s) as [ch|].
      * destruct (p ch); [discriminate|].
        exists (S i'), c. simpl. repeat split; auto; lia.
      * exists (S i'), c. simpl. repeat split; auto; lia.
Qed.

(** a literal matches where the text goes on with it *)
Lemma m_lit (w : string) :
  forall i c k,
    m s (lit w) i c k
    = if String.prefix w (Str.drop i s) then k (i + String.length w) c
      else None.
Proof.
  induction w as [|a w IH]; intros i c k; simpl.
  - rewrite Nat.add_0_r. now destruct (Str.drop i s).
  - rewrite StrFacts.get_drop.
    destruct (Str.drop i s) as [|ch rest] eqn:D; auto.
    simpl. destruct (ascii_dec a ch) as [->|Ne].
    + rewrite Ascii.eqb_refl, IH. rewrite (StrFacts.drop_S _ _ _ _ D).
      now replace (S i + String.length w) with (i + S (String.length w))
        by lia.
    + apply Ascii.eqb_neq in Ne. now rewrite Ne.
Qed.

(** the capture groups lie between two offsets *)
Definition capsWithin (lo hi : nat) (c : caps) : Prop :=
  Forall (fun g => lo <= fst (snd g) /\ snd (snd g) <= hi) c.

Lemma capsWithin_widen (lo hi lo' hi' : nat) (c : caps) :
  lo' <= lo -> hi <= hi' -> capsWithin lo hi c -> capsWithin lo' hi' c.
Proof.
  intros L H W. unfold capsWithin in *.
  eapply Forall_impl; [|exact W]. simpl. intros g (A & B). lia.
Qed.

(** The groups a pattern captures from an offset on lie between that
    offset and the one at which the pattern hands over. *)
Lemma m_caps (r : re) :
  forall i c k x,
    m s r i c k = Some x ->
    exists j added,
      k j (added ++ c) = Some x /\ i <= j /\ capsWithin i j added.
Proof.
  induction r as [ | p | a IHa b IHb | a IHa b IHb | g a IHa | n a IHa
                 | | | | | a IHa | p ]; intros i c k x H; simpl in H.
  - exists i, []. repeat split; auto. constructor.
  - destruct (String.get i s) as [ch|] eqn:G; [|discriminate].
    destruct (p ch); [|discriminate].
    exists (S i), []. repeat split; auto. constructor.
  - apply IHa in H. destruct H as (j & ad & H & L1 & W1).
    apply IHb in H. destruct H as (j' & ad' & H & L2 & W2).
    exists j', (ad' ++ ad). rewrite <- app_assoc. repeat split; auto; try lia.
    apply Forall_app. split.
    + apply (capsWithin_widen j j'); auto; lia.
    + apply (capsWithin_widen i j); auto; lia.
  - destruct (m s a i c k) eqn:E.
    + inversion H; subst. now apply IHa in E.
    + now apply IHb in H.
  - revert H. generalize (String.length s - i) as fuel.
    intros fuel; revert i c x.
    induction fuel as [|fuel IHf]; intros i c x H; simpl in H.
    + exists i, []. repeat split; auto. constructor.
    + assert (More :
                forall y,
                  m s a i c
                    (fun j c' =>
                       if i <? j then starLoop (m s a) g k fuel j c'
                       else None) = Some y ->
                  exists j added,
                    k j (added ++ c) = Some y /\ i <= j /\
                    capsWithin i j added).
      { intros y E. apply IHa in E.
        destruct E as (j & ad & E & L1 & W1).
        destruct (i <? j) eqn:Lt; [|discriminate].
        apply IHf in E. destruct E as (j' & ad' & E & L2 & W2).
        exists j', (ad' ++ ad). rewrite <- app_assoc.
        repeat split; auto; try lia.
        apply Forall_app. split.
        - apply (capsWithin_widen j j'); auto; lia.
        - apply (capsWithin_widen i j); auto; lia. }
      destruct g.
      * destruct (m s a i c
                    (fun j c' =>
                       if i <? j then starLoop (m s a) true k fuel j c'
                       else None)) as [y|] eqn:E in H.
        -- inversion H; subst. exact (More _ E).
        -- exists i, []. repeat split; auto. constructor.
      * destruct (k i c) eqn:E.
        -- inversion H; subst. exists i, []. repeat split; auto.
           constructor.
        -- exact (More _ H).
  - apply IHa in H. destruct H as (j & ad & H & L1 & W1).
    exists j, ((n, (i, j)) :: ad). repeat split; auto.
    constructor; simpl; auto.
  - destruct (i =? 0); [|discriminate].
    exists i, []. repeat split; auto. constructor.
  - destruct (i =? String.length s); [|discriminate].
    exists i, []. repeat split; auto. constructor.
  - exists i, []. repeat split; [|lia|constructor].
    destruct i as [|i']; auto.
    destruct (String.get i' s) as [ch|]; [|discriminate].
    destruct (Str.isLineTerminator ch); [|discriminate]. exact H.
  - exists i, []. repeat split; [|lia|constructor].
    destruct (String.get i s) as [ch|].
    + destruct (Str.isLineTerminator ch); [|discriminate]. exact H.
    + destruct (i =? String.length s); [|discriminate]. exact H.
  - destruct (m s a i c (fun j c' => Some (j, c'))); [discriminate|].
    exists i, []. repeat split; auto. constructor.
  - exists i, []. repeat split; [|lia|constructor].
    destruct i as [|i']; auto.
    destruct (String.get i' s) as [ch|]; auto.
    destruct (p ch); [discriminate|]. exact H.
Qed.

Lemma lookup_within (lo hi : nat) (c : caps) (n i j : nat) :
  capsWithin lo hi c -> lookup n c = Some (i, j) -> lo <= i /\ j <= hi.
Proof.
  induction 1 as [|[n' [a b]] c W _ IH]; simpl; [discriminate|].
  destruct (n =? n').
  - intros E. injection E as <- <-. exact W.
  - exact IH.
Qed.

Lemma matchAt_bounds (r : re) (i : nat) (mt : Match) :
  i <= String.length s ->
  matchAt s r i = Some mt ->
  index mt = i /\ i + minlen r <= stop mt /\ stop mt <= String.length s.
Proof.
  intros Hi H. unfold matchAt in H.
  destruct (m s r i [] (fun j c => Some (j, c))) as [[j c]|] eqn:E;
    [|discriminate].
  inversion H; subst; simpl.
  apply m_bounds in E; auto. destruct E as (j' & c' & E & L1 & L2).
  inversion E; subst. auto.
Qed.

(** [search] returns the first offset at which the pattern matches *)
Lemma search_none (r : re) :
  forall fuel i,
    search s r fuel i = None ->
    forall j, i <= j <= i + fuel -> matchAt s r j = None.
Proof.
  induction fuel as [|fuel IH]; intros i H j Hj; simpl in H;
    destruct (matchAt s r i) eqn:M; try discriminate.
  - now replace j with i by lia.
  - destruct (Nat.eq_dec j i) as [->|Ne]; auto.
    apply (IH (S i) H). lia.
Qed.

Lemma search_some (r : re) :
  forall fuel i mt,
    search s r fuel i = Some mt ->
    exists j,
      i <= j <= i + fuel /\ matchAt s r j = Some mt
      /\ forall j', i <= j' < j -> matchAt s r j' = None.
Proof.
  induction fuel as [|fuel IH]; intros i mt H; simpl in H;
    destruct (matchAt s r i) eqn:M; try discriminate.
  - injection H as <-. exists i. repeat split; auto; lia.
  - injection H as <-. exists i. repeat split; auto; lia.
  - destruct (IH (S i) mt H) as (j & Hj & Mj & Before).
    exists j. repeat split; auto; try lia.
    intros j' Hj'. destruct (Nat.eq_dec j' i) as [->|Ne]; auto.
    apply Before. lia.
Qed.

Lemma search_bounds (r : re) :
  forall fuel i mt,
    i + fuel <= String.length s ->
    search s r fuel i = Some mt ->
    i <= index mt /\ index mt + minlen r <= stop mt /\
    stop mt <= String.length s.
Proof.
  induction fuel as [|fuel IH]; intros i mt Hi H; simpl in H.
  - destruct (matchAt s r i) eqn:E; [|discriminate].
    inversion H; subst. apply matchAt_bounds in E; [|lia].
    destruct E as (E1 & E2 & E3). rewrite E1. repeat split; auto.
  - destruct (matchAt s r i) eqn:E.
    + inversion H; subst. apply matchAt_bounds in E; [|lia].
      destruct E as (E1 & E2 & E3). rewrite E1. repeat split; auto.
    + apply IH in H; [|lia]. destruct H as (H1 & H2 & H3).
      repeat split; auto; lia.
Qed.

(** What [exec] finds lies inside the text. *)
Lemma execFrom_bounds (r : re) (from : nat) (mt : Match) :
  execFrom s r from = Some mt ->
  from <= index mt /\ index mt + minlen r <= stop mt /\
  stop mt <= String.length s.
Proof.
  unfold execFrom. destruct (String.length s <? from) eqn:L; [discriminate|].
  apply Nat.ltb_ge in L. intros H. apply search_bounds in H; auto. lia.
Qed.

Lemma exec_bounds (r : re) (mt : Match) :
  exec s r = Some mt ->
  index mt + minlen r <= stop mt /\ stop mt <= String.length s.
Proof.
  intros H. apply execFrom_bounds in H. tauto.
Qed.

(** [match[0]] has the length of the match. *)
Lemma length_matched (r : re) (mt : Match) :
  exec s r = Some mt ->
  String.length (matched s mt) = stop mt - index mt.
Proof.
  intros H. apply exec_bounds in H. unfold matched.
  apply StrFacts.length_sub. tauto.
Qed.

(** The text before a match, the match and the text after it make up the
    text. *)
Lemma exec_partition (r : re) (mt : Match) :
  exec s r = Some mt ->
  Str.take (index mt) s +++ matched s mt +++
  Str.drop (index mt + String.length (matched s mt)) s = s.
Proof.
  intros H. rewrite (length_matched r mt H).
  apply exec_bounds in H. destruct H as (H1 & H2).
  replace (index mt + (stop mt - index mt)) with (stop mt) by lia.
  apply StrFacts.sub_split. lia.
Qed.

End Bounds.

End RegexFacts.

(* --------------------------------------------------------------------- *)
(** ** [convert] on a text the parser has read *)

Module ConvertFacts.

Import Engine.

(** what [convert] hands to the parser *)
Definition preprocess (markdown : string) : string :=
  preprocessNestedAdfBlocks (preprocessConsecutiveHtmlComments markdown).

(** a text that is not blank goes to the parser, and the tree of the
    parser to [convertMdastToAdfSync] *)
Lemma convert_parsed (options : Options) (rt : Runtime)
  (markdown : string) (tree : MdNode) :
  String.length (Str.trim markdown) <> 0 ->
  parse rt (preprocess markdown) = Some tree ->
  convert options rt (VStr markdown)
  = match convertMdastToAdfSync options rt tree with
    | inl adf => Returned adf
    | inr cause =>
        if strict options then Thrown (ConversionFailed cause)
        else Returned (fallbackDocument markdown)
    end.
Proof.
  intros Hblank Hparse. unfold convert.
  destruct (Str.isEmpty markdown) eqn:E.
  { destruct markdown; [|discriminate]. now contradiction Hblank. }
  apply Nat.eqb_neq in Hblank. rewrite Hblank.
  unfold preprocess in Hparse. now rewrite Hparse.
Qed.

(** the same collaborators with room for [depth] nested calls *)
Definition withCallDepth (rt : Runtime) (depth : nat) : Runtime :=
  mkRuntime (parse rt) (jsonParse rt) (getEmojiData rt)
    (parseBlockContentWithSocialElements rt) depth.

(** a runtime whose parser reads one markup as one tree, with no JSON, no
    emoji table and room for [depth] nested calls *)
Definition readingAs (markup : string) (tree : MdNode) (depth : nat)
  : Runtime :=
  mkRuntime
    (fun text => if String.eqb text markup then Some tree else None)
    (fun _ => None) (fun shortName => Social.mkEmoji None shortName)
    (fun _ => []) depth.

End ConvertFacts.

(* --------------------------------------------------------------------- *)
(** ** Marks on inline code *)

Module MarkFacts.

Import Builder.

Definition codeMark : ADFMark := simpleMark "code".

(** the generic tree of [**`code`**]: strong around inline code *)
Definition strongAroundCode : MdNode :=
  Md.parent "strong" [Md.inlineCode "code"].

(** the generic tree of [~~***`code`***~~] *)
Definition strikeEmStrongAroundCode : MdNode :=
  Md.parent "delete"
    [Md.parent "emphasis" [Md.parent "strong" [Md.inlineCode "code"]]].

(** a leaf breaks the exclusivity of the code mark when its marks contain
    [code] and are not just [code] *)
Definition breaksExclusivity (n : ADFNode) : bool :=
  match marks n with
  | Some ms =>
      existsb (fun mk => String.eqb (markType mk) "code") ms &&
      negb (List.length ms =? 1)
  | None => false
  end.

(** the generic tree of the document [**`code`**] *)
Definition strongAroundCodeTree : MdNode :=
  Md.parent "root" [Md.parent "paragraph" [strongAroundCode]].

(** C1.  [wrapWithMark] appends the mark of the wrapping construct to the
    marks of every text leaf below it, a leaf of inline code included.
    Whenever the parser reads a markup as a paragraph of strong around
    inline code, as it does [**`code`**], [convert] returns a document
    whose one leaf [code] has the marks [code; strong]; at the level of the
    inline nodes, [~~***`code`***~~] gives the one leaf with marks
    [code; strong; em; strike].  The code mark is not exclusive. *)
Theorem wrapWithMark_keeps_marks_on_code :
  forall (options : Engine.Options) (rt : Engine.Runtime)
         (markdown : string),
    String.length (Str.trim markdown) <> 0 ->
    Engine.parse rt (ConvertFacts.preprocess markdown)
    = Some strongAroundCodeTree ->
    3 <= Engine.callDepth rt ->
    Engine.convert options rt (VStr markdown)
    = Engine.Returned
        (mkDoc 1 "doc"
           [blockNode "paragraph"
              [markedText "code" [codeMark; simpleMark "strong"]]])
    /\ convertMdastInlineNodes (Engine.getEmojiData rt)
         (Engine.preserveUnknownNodes options) [strongAroundCode]
       = [markedText "code" [codeMark; simpleMark "strong"]]
    /\ convertMdastInlineNodes (Engine.getEmojiData rt)
         (Engine.preserveUnknownNodes options) [strikeEmStrongAroundCode]
       = [markedText "code"
            [codeMark; simpleMark "strong"; simpleMark "em";
             simpleMark "strike"]]
    /\ existsb breaksExclusivity
         (convertMdastInlineNodes (Engine.getEmojiData rt)
            (Engine.preserveUnknownNodes options) [strongAroundCode])
       = true.
Proof.
  intros options rt markdown Hblank Hparse Hdepth.
  split; [|repeat split; reflexivity].
  rewrite (ConvertFacts.convert_parsed _ _ _ _ Hblank Hparse).
  unfold Engine.convertMdastToAdfSync, Engine.postProcessAdfFenceBlocks,
    Engine.fenceLoop, Engine.fencePass.
  destruct (Engine.callDepth rt) as [|[|[|depth]]]; try lia.
  vm_compute. reflexivity.
Qed.

(** a runtime whose parser reads [**`code`**] as strong around inline
    code *)
Definition strongAroundCodeRuntime : Engine.Runtime :=
  ConvertFacts.readingAs "**`code`**" strongAroundCodeTree 8.

Lemma wrapWithMark_keeps_marks_on_code_witness :
  String.length (Str.trim "**`code`**") <> 0
  /\ Engine.parse strongAroundCodeRuntime
       (ConvertFacts.preprocess "**`code`**")
     = Some strongAroundCodeTree
  /\ 3 <= Engine.callDepth strongAroundCodeRuntime
  /\ Engine.convert Engine.defaultOptions strongAroundCodeRuntime
       (VStr "**`code`**")
     = Engine.Returned
         (mkDoc 1 "doc"
            [blockNode "paragraph"
               [markedText "code" [codeMark; simpleMark "strong"]]]).
Proof.
  assert (H1 : String.length (Str.trim "**`code`**") <> 0)
    by (vm_compute; discriminate).
  assert (H2 : Engine.parse strongAroundCodeRuntime
                 (ConvertFacts.preprocess "**`code`**")
               = Some strongAroundCodeTree)
    by (vm_compute; reflexivity).
  assert (H3 : 3 <= Engine.callDepth strongAroundCodeRuntime)
    by (simpl; lia).
  split; [exact H1|]. split; [exact H2|]. split; [exact H3|].
  exact (proj1 (wrapWithMark_keeps_marks_on_code Engine.defaultOptions
                  strongAroundCodeRuntime "**`code`**" H1 H2 H3)).
Defined.

End MarkFacts.

(* --------------------------------------------------------------------- *)
(** ** The scanner of social elements *)

Module SocialFacts.

Import Regex.
Import Social.

(** every pattern of the scanner consumes at least one character *)
Lemma patterns_consume (getEmojiData : string -> EmojiData) :
  forall p, In p (patterns getEmojiData) -> 1 <= minlen (regex p).
Proof.
  intros p H. simpl in H.
  repeat (destruct H as [H|H]; [subst p; simpl; lia|]). contradiction.
Qed.

Section Leftmost.

Variable content : string.

(** What one round of the scanner selects when it tries the patterns in
    the order [ps]: nothing when no pattern matches; otherwise the match of
    a pattern [p] that starts before every match of the patterns tried
    before [p] and no later than any match of the patterns tried after it,
    that is the leftmost match and, of several leftmost ones, the one of
    the pattern tried first. *)
Definition leftmostFirst (ps : list Pattern) (res : option SocialMatch)
  : Prop :=
  match res with
  | None => forall p, In p ps -> exec content (regex p) = None
  | Some r =>
      exists pre p post mt,
        ps = pre ++ p :: post /\
        exec content (regex p) = Some mt /\
        r = mkSocial (index mt) (Str.take (index mt) content)
              (process p content mt)
              (Str.drop (index mt + String.length (matched content mt))
                 content) /\
        (forall q mq, In q pre -> exec content (regex q) = Some mq ->
                      index mt < index mq) /\
        (forall q mq, In q post -> exec content (regex q) = Some mq ->
                      index mt <= index mq)
  end.

Lemma tryPattern_leftmostFirst (pre : list Pattern)
  (acc : option SocialMatch) (p : Pattern) :
  leftmostFirst pre acc ->
  leftmostFirst (pre ++ [p]) (tryPattern content acc p).
Proof.
  intros H. unfold tryPattern.
  destruct (exec content (regex p)) as [mt|] eqn:E.
  - destruct acc as [r|].
    + destruct H as (pre1 & p0 & post0 & m0 & Hps & Hm0 & Hr & Hpre & Hpost).
      destruct (index mt <? sindex r) eqn:L.
      * apply Nat.ltb_lt in L. subst r; simpl in L.
        exists pre, p, [], mt. repeat split; auto.
        -- intros q mq Hq Hmq. subst pre.
           apply in_app_or in Hq. destruct Hq as [Hq|[Hq|Hq]].
           ++ specialize (Hpre q mq Hq Hmq). lia.
           ++ subst q. rewrite Hm0 in Hmq. inversion Hmq; subst. lia.
           ++ specialize (Hpost q mq Hq Hmq). lia.
        -- intros q mq [].
      * apply Nat.ltb_ge in L. subst r; simpl in L.
        exists pre1, p0, (post0 ++ [p]), m0. repeat split; auto.
        -- subst pre. rewrite <- app_assoc. reflexivity.
        -- intros q mq Hq Hmq. apply in_app_or in Hq.
           destruct Hq as [Hq|[Hq|[]]].
           ++ apply (Hpost q mq Hq Hmq).
           ++ subst q. rewrite E in Hmq. inversion Hmq; subst. lia.
    + exists pre, p, [], mt. repeat split; auto.
      * intros q mq Hq Hmq. simpl in H. rewrite (H q Hq) in Hmq. discriminate.
      * intros q mq [].
  - destruct acc as [r|].
    + destruct H as (pre1 & p0 & post0 & m0 & Hps & Hm0 & Hr & Hpre & Hpost).
      exists pre1, p0, (post0 ++ [p]), m0. repeat split; auto.
      * subst pre. rewrite <- app_assoc. reflexivity.
      * intros q mq Hq Hmq. apply in_app_or in Hq.
        destruct Hq as [Hq|[Hq|[]]].
        -- apply (Hpost q mq Hq Hmq).
        -- subst q. rewrite E in Hmq. discriminate.
    + simpl in *. intros q Hq. apply in_app_or in Hq.
      destruct Hq as [Hq|[Hq|[]]]; [auto | now subst q].
Qed.

Lemma fold_leftmostFirst (post : list Pattern) :
  forall pre acc,
    leftmostFirst pre acc ->
    leftmostFirst (pre ++ post) (fold_left (tryPattern content) post acc).
Proof.
  induction post as [|p post IH]; intros pre acc H; simpl.
  - now rewrite app_nil_r.
  - replace (pre ++ p :: post) with ((pre ++ [p]) ++ post)
      by (rewrite <- app_assoc; reflexivity).
    apply IH. now apply tryPattern_leftmostFirst.
Qed.

Lemma findNextWith_leftmostFirst (ps : list Pattern) :
  leftmostFirst ps (findNextWith ps content).
Proof.
  unfold findNextWith.
  apply (fold_leftmostFirst ps [] None). simpl. intros p [].
Qed.

(** The selected offset is the least start offset of all the matches. *)
Lemma findNextWith_least (ps : list Pattern) (r : SocialMatch) :
  findNextWith ps content = Some r ->
  forall q mq, In q ps -> exec content (regex q) = Some mq ->
               sindex r <= index mq.
Proof.
  intros H q mq Hq Hmq.
  pose proof (findNextWith_leftmostFirst ps) as L. rewrite H in L.
  destruct L as (pre & p & post & mt & Hps & Hmt & Hr & Hpre & Hpost).
  subst r ps; simpl. apply in_app_or in Hq. destruct Hq as [Hq|[Hq|Hq]].
  - specialize (Hpre q mq Hq Hmq). lia.
  - subst q. rewrite Hmt in Hmq. inversion Hmq; subst. lia.
  - apply (Hpost q mq Hq Hmq).
Qed.

End Leftmost.

(** The offset the scanner selects does not depend on the order in which
    the patterns are tried. *)
Lemma findNextWith_offset_order (content : string) (ps ps' : list Pattern) :
  Permutation ps ps' ->
  option_map sindex (findNextWith ps content)
  = option_map sindex (findNextWith ps' content).
Proof.
  intros P.
  pose proof (findNextWith_leftmostFirst content ps) as L.
  pose proof (findNextWith_leftmostFirst content ps') as L'.
  destruct (findNextWith ps content) as [r|] eqn:E;
    destruct (findNextWith ps' content) as [r'|] eqn:E'; simpl; auto.
  - f_equal. apply Nat.le_antisymm.
    + destruct L' as (pre & p & post & mt & Hps & Hmt & Hr & _).
      assert (In p ps).
      { apply (Permutation_in p (Permutation_sym P)). subst ps'.
        apply in_or_app. right. now left. }
      pose proof (findNextWith_least content ps r E p mt H Hmt).
      subst r'; simpl. lia.
    + destruct L as (pre & p & post & mt & Hps & Hmt & Hr & _).
      assert (In p ps').
      { apply (Permutation_in p P). subst ps.
        apply in_or_app. right. now left. }
      pose proof (findNextWith_least content ps' r' E' p mt H Hmt).
      subst r; simpl. lia.
  - destruct L as (pre & p & post & mt & Hps & Hmt & _).
    simpl in L'. rewrite L' in Hmt; [discriminate|].
    apply (Permutation_in p P). subst ps. apply in_or_app. right. now left.
  - destruct L' as (pre & p & post & mt & Hps & Hmt & _).
    simpl in L. rewrite L in Hmt; [discriminate|].
    apply (Permutation_in p (Permutation_sym P)). subst ps'.
    apply in_or_app. right. now left.
Qed.

(** A round of the scanner leaves less text than it was given. *)
Lemma findNext_shrinks (getEmojiData : string -> EmojiData)
  (content : string) (r : SocialMatch) :
  findNextSocialElement getEmojiData content = Some r ->
  String.length (afterText r) < String.length content.
Proof.
  intros H. unfold findNextSocialElement in H.
  pose proof (findNextWith_leftmostFirst content (patterns getEmojiData)) as L.
  rewrite H in L.
  destruct L as (pre & p & post & mt & Hps & Hmt & Hr & _).
  assert (Hp : In p (patterns getEmojiData)).
  { rewrite Hps. apply in_or_app. right. now left. }
  apply patterns_consume in Hp.
  pose proof (RegexFacts.exec_bounds content _ _ Hmt) as (B1 & B2).
  pose proof (RegexFacts.length_matched content _ _ Hmt) as Lm.
  subst r; simpl. rewrite StrFacts.length_drop. lia.
Qed.

(** the pattern [firstInlineMatch] returns is one of the inline
    patterns, and the match is its match *)
Lemma firstInlineMatch_some (content : string) (mt : Match) (p : Pattern) :
  firstInlineMatch content = Some (mt, p) ->
  In p inlinePatterns /\ exec content (regex p) = Some mt.
Proof.
  unfold firstInlineMatch.
  assert (Fold : forall ps acc,
             (forall m0 p0, acc = Some (m0, p0) ->
                            In p0 inlinePatterns /\
                            exec content (regex p0) = Some m0) ->
             (forall q, In q ps -> In q inlinePatterns) ->
             fold_left
               (fun firstMatch pattern =>
                  match exec content (regex pattern) with
                  | Some mt0 =>
                      if match firstMatch with
                         | None => true
                         | Some (fm, _) => index mt0 <? index fm
                         end
                      then Some (mt0, pattern) else firstMatch
                  | None => firstMatch
                  end) ps acc = Some (mt, p) ->
             In p inlinePatterns /\ exec content (regex p) = Some mt).
  { induction ps as [|q ps IH]; intros acc Inv Sub H; simpl in H.
    - now apply Inv.
    - apply IH in H; auto.
      + intros m0 p0 E.
        destruct (exec content (regex q)) as [mq|] eqn:Q; [|now apply Inv].
        destruct (match acc with
                  | Some (fm, _) => index mq <? index fm
                  | None => true
                  end); [|now apply Inv].
        injection E as <- <-. split; auto. apply Sub. now left.
      + intros q0 I0. apply Sub. now right. }
  apply Fold; [discriminate|auto].
Qed.

Lemma inlinePatterns_consume :
  forall p, In p inlinePatterns -> 1 <= minlen (regex p).
Proof.
  intros p H. simpl in H.
  repeat (destruct H as [H|H]; [subst p; vm_compute; lia|]). contradiction.
Qed.

(** what lies before and after a match that is not empty is shorter than
    the text *)
Lemma around_match_shorter (content : string) (r : re) (mt : Match) :
  1 <= minlen r ->
  exec content r = Some mt ->
  String.length (Str.take (index mt) content) < String.length content
  /\ String.length
       (Str.drop (index mt + String.length (matched content mt)) content)
     < String.length content.
Proof.
  intros Min E.
  pose proof (RegexFacts.exec_bounds content _ _ E) as (B1 & B2).
  rewrite (RegexFacts.length_matched content _ _ E).
  rewrite StrFacts.length_take, StrFacts.length_drop. lia.
Qed.

(** The recursion of [parseInlineMarksRecursively] ends before its count
    runs out: any count that is at least the length of the text gives the
    same nodes. *)
Lemma parseInlineMarks_fuel :
  forall fuel fuel' content,
    String.length content <= fuel ->
    String.length content <= fuel' ->
    parseInlineMarksFuel fuel content = parseInlineMarksFuel fuel' content.
Proof.
  induction fuel as [|fuel IH]; intros fuel' content H H'.
  - destruct content; [|simpl in H; lia]. now destruct fuel'.
  - destruct fuel' as [|fuel'].
    + destruct content; [|simpl in H'; lia]. reflexivity.
    + simpl. destruct (Str.isEmpty content); auto.
      destruct (findNextMetadataComment content) as [r|] eqn:M.
      * unfold findNextMetadataComment in M.
        destruct (exec content metadataRegex) as [mt|] eqn:E;
          [|discriminate].
        injection M as <-. simpl beforeText. simpl afterText.
        assert (Min : 1 <= minlen metadataRegex) by (vm_compute; lia).
        destruct (around_match_shorter content _ mt Min E) as (L1 & L2).
        rewrite (IH fuel' (Str.take (index mt) content)) by lia.
        rewrite (IH fuel' (Str.drop _ content)) by lia.
        reflexivity.
      * destruct (firstInlineMatch content) as [[mt p]|] eqn:F; auto.
        apply firstInlineMatch_some in F. destruct F as (I0 & E).
        destruct (around_match_shorter content _ mt
                    (inlinePatterns_consume p I0) E) as (L1 & L2).
        rewrite (IH fuel' (Str.take (index mt) content)) by lia.
        rewrite (IH fuel' (Str.drop _ content)) by lia.
        reflexivity.
Qed.

(** The loop of the scanner ends before its count of rounds runs out: any
    count that is at least the length of the text gives the same nodes. *)
Lemma scanLoop_fuel (getEmojiData : string -> EmojiData) :
  forall fuel fuel' remaining nodes,
    String.length remaining <= fuel ->
    String.length remaining <= fuel' ->
    scanLoop getEmojiData fuel remaining nodes
    = scanLoop getEmojiData fuel' remaining nodes.
Proof.
  induction fuel as [|fuel IH]; intros fuel' remaining nodes H H'.
  - destruct remaining; [|simpl in H; lia]. now destruct fuel'.
  - destruct fuel' as [|fuel'].
    + destruct remaining; [|simpl in H'; lia]. reflexivity.
    + simpl. destruct (Str.isEmpty remaining); auto.
      destruct (findNextSocialElement getEmojiData remaining) as [r|] eqn:E;
        auto.
      apply findNext_shrinks in E. apply IH; lia.
Qed.

Definition noEmoji (shortName : string) : EmojiData :=
  mkEmoji None shortName.

Definition dateNode (timestamp : string) : ADFNode :=
  attrNode "date" [("timestamp", VStr timestamp)].

(** the generic tree of the document [due 2023-12-25] *)
Definition dueTree : MdNode :=
  Md.parent "root" [Md.parent "paragraph" [Md.text "due 2023-12-25"]].

(** C2.  On the text [due 2023-12-25] the pattern of the bare date matches
    from offset 3, the blank before the date included; the scanner emits
    the text [due] and the date, and the blank is in neither: the three
    characters of the text and the ten of the date do not make up the
    fourteen characters of the input.  Whenever the parser reads a markup
    as a paragraph of that text, [convert] returns the paragraph of the
    text [due] and the date. *)
Theorem standalone_date_swallows_boundary :
  forall (options : Engine.Options) (rt : Engine.Runtime)
         (markdown : string),
    String.length (Str.trim markdown) <> 0 ->
    Engine.parse rt (ConvertFacts.preprocess markdown) = Some dueTree ->
    2 <= Engine.callDepth rt ->
    Engine.convert options rt (VStr markdown)
    = Engine.Returned
        (mkDoc 1 "doc"
           [blockNode "paragraph"
              [textNode "due"; dateNode "1703462400000"]])
    /\ findNextSocialElement (Engine.getEmojiData rt) "due 2023-12-25"
       = Some (mkSocial 3 "due" (dateNode "1703462400000") EmptyString)
    /\ option_map (matched "due 2023-12-25")
         (exec "due 2023-12-25" (regex (standaloneDatePattern)))
       = Some " 2023-12-25"
    /\ parseInlineContentWithSocialElements (Engine.getEmojiData rt)
         "due 2023-12-25"
       = [textNode "due"; dateNode "1703462400000"].
Proof.
  intros options rt markdown Hblank Hparse Hdepth.
  split; [|repeat split; vm_compute; reflexivity].
  rewrite (ConvertFacts.convert_parsed _ _ _ _ Hblank Hparse).
  unfold Engine.convertMdastToAdfSync, Engine.postProcessAdfFenceBlocks,
    Engine.fenceLoop, Engine.fencePass.
  destruct (Engine.callDepth rt) as [|[|depth]]; try lia.
  vm_compute. reflexivity.
Qed.

(** a runtime whose parser reads [due 2023-12-25] as a paragraph of that
    text *)
Definition dueRuntime : Engine.Runtime :=
  ConvertFacts.readingAs "due 2023-12-25" dueTree 8.

Lemma standalone_date_swallows_boundary_witness :
  String.length (Str.trim "due 2023-12-25") <> 0
  /\ Engine.parse dueRuntime (ConvertFacts.preprocess "due 2023-12-25")
     = Some dueTree
  /\ 2 <= Engine.callDepth dueRuntime
  /\ Engine.convert Engine.defaultOptions dueRuntime
       (VStr "due 2023-12-25")
     = Engine.Returned
         (mkDoc 1 "doc"
            [blockNode "paragraph"
               [textNode "due"; dateNode "1703462400000"]]).
Proof.
  assert (H1 : String.length (Str.trim "due 2023-12-25") <> 0)
    by (vm_compute; discriminate).
  assert (H2 : Engine.parse dueRuntime
                 (ConvertFacts.preprocess "due 2023-12-25")
               = Some dueTree)
    by (vm_compute; reflexivity).
  assert (H3 : 2 <= Engine.callDepth dueRuntime) by (simpl; lia).
  split; [exact H1|]. split; [exact H2|]. split; [exact H3|].
  exact (proj1 (standalone_date_swallows_boundary Engine.defaultOptions
                  dueRuntime "due 2023-12-25" H1 H2 H3)).
Defined.

(** the patterns with the bare date tried before the emoji *)
Definition dateFirst (getEmojiData : string -> EmojiData) : list Pattern :=
  [mentionPattern; standaloneDatePattern; datePattern;
   emojiPattern getEmojiData; statusPattern; inlineCardPattern;
   mediaReferencePattern].

(** C3, as stated, fails: on [:2023-12-25:] the emoji pattern and the
    bare date pattern both match from offset 0, and the token emitted is
    the one of the pattern tried first: an emoji in the order of the source,
    a date when the date pattern is tried before. *)
Lemma tie_follows_pattern_order :
  Permutation (patterns noEmoji) (dateFirst noEmoji)
  /\ option_map (fun r => (sindex r, ntype (snode r)))
       (findNextWith (patterns noEmoji) ":2023-12-25:")
     = Some (0, "emoji")
  /\ option_map (fun r => (sindex r, ntype (snode r)))
       (findNextWith (dateFirst noEmoji) ":2023-12-25:")
     = Some (0, "date").
Proof.
  split; [|split; vm_compute; reflexivity].
  unfold patterns, dateFirst.
  apply perm_skip.
  apply perm_trans with
    (standaloneDatePattern :: emojiPattern noEmoji :: datePattern ::
     [statusPattern; inlineCardPattern; mediaReferencePattern]).
  - apply perm_trans with
      (emojiPattern noEmoji :: standaloneDatePattern :: datePattern ::
       [statusPattern; inlineCardPattern; mediaReferencePattern]).
    + apply perm_skip. apply perm_swap.
    + apply perm_swap.
  - apply perm_skip. apply perm_swap.
Qed.

(** C3, amended.  In whatever order [ps] the patterns are tried, a round
    of the scanner selects the leftmost match and, of several leftmost
    ones, the match of the pattern tried first; the offset selected is the
    same for every order of the same patterns.  With the order of the
    source, the text of the example yields text, mention, text, date. *)
Theorem leftmost_match_wins :
  forall (getEmojiData : string -> EmojiData) (ps : list Pattern)
         (content : string),
    leftmostFirst content ps (findNextWith ps content)
    /\ (forall ps', Permutation ps ps' ->
                    option_map sindex (findNextWith ps content)
                    = option_map sindex (findNextWith ps' content))
    /\ parseInlineContentWithSocialElements getEmojiData
         "Hey {user:alice}, due {date:2023-12-25}"
       = [textNode "Hey ";
          attrNode "mention"
            [("id", VStr "alice"); ("text", VStr "@alice");
             ("userType", VStr "DEFAULT")];
          textNode ", due ";
          dateNode "1703462400000"].
Proof.
  intros getEmojiData ps content. split; [|split].
  - apply findNextWith_leftmostFirst.
  - intros ps' P. now apply findNextWith_offset_order.
  - vm_compute. reflexivity.
Qed.

End SocialFacts.

(* --------------------------------------------------------------------- *)
(** ** The target of a metadata comment *)

Module TargetFacts.

Import Metadata.

Section Resolution.

Variable parent : MdNode.

(** the child at an index is a metadata comment *)
Definition annotationAt (k : nat) : Prop :=
  exists c, nth_error (Md.kids parent) k = Some c /\ isAnnotation c = true.

(** the child at an index is not a metadata comment *)
Definition plainAt (k : nat) : Prop :=
  exists c, nth_error (Md.kids parent) k = Some c /\ isAnnotation c = false.

(** The order of resolution in the words of the specification, for the
    comment at index [i]: the parent when it bears content; else the next
    sibling that is not a comment; else the previous one; else the parent,
    unless it is the root. *)
Inductive ResolvesTo (i : nat) : option Target -> Prop :=
| ToContentParent :
    isContentType (mtype parent) = true ->
    ResolvesTo i (Some TParent)
| ToNextSibling (j : nat) :
    isContentType (mtype parent) = false ->
    i < j -> plainAt j ->
    (forall k, i < k < j -> annotationAt k) ->
    ResolvesTo i (Some (TChild j))
| ToPreviousSibling (j : nat) :
    isContentType (mtype parent) = false ->
    (forall k, i < k < List.length (Md.kids parent) -> annotationAt k) ->
    j < i -> plainAt j ->
    (forall k, j < k < i -> annotationAt k) ->
    ResolvesTo i (Some (TChild j))
| ToParent :
    isContentType (mtype parent) = false ->
    (forall k, i < k < List.length (Md.kids parent) -> annotationAt k) ->
    (forall k, k < i -> annotationAt k) ->
    mtype parent <> "root" ->
    ResolvesTo i (Some TParent)
| ToNothing :
    isContentType (mtype parent) = false ->
    (forall k, i < k < List.length (Md.kids parent) -> annotationAt k) ->
    (forall k, k < i -> annotationAt k) ->
    mtype parent = "root" ->
    ResolvesTo i None.

End Resolution.

Lemma scanForward_some (cs : list MdNode) :
  forall i j,
    scanForward cs i = Some j ->
    i <= j /\
    (exists c, nth_error cs (j - i) = Some c /\ isAnnotation c = false) /\
    (forall k, k < j - i ->
               exists c, nth_error cs k = Some c /\ isAnnotation c = true).
Proof.
  induction cs as [|c cs IH]; intros i j H; simpl in H; [discriminate|].
  destruct (isAnnotation c) eqn:A; simpl in H.
  - apply IH in H. destruct H as (L & (c' & N & P) & Q).
    split; [lia|]. split.
    + exists c'. replace (j - i) with (S (j - S i)) by lia. now simpl.
    + intros k Hk. destruct k as [|k]; simpl.
      * now exists c.
      * apply Q. lia.
  - inversion H; subst. split; [lia|]. split.
    + exists c. now rewrite Nat.sub_diag.
    + intros k Hk. lia.
Qed.

Lemma scanForward_none (cs : list MdNode) :
  forall i,
    scanForward cs i = None ->
    forall k, k < List.length cs ->
              exists c, nth_error cs k = Some c /\ isAnnotation c = true.
Proof.
  induction cs as [|c cs IH]; intros i H k Hk; simpl in *; [lia|].
  destruct (isAnnotation c) eqn:A; simpl in H; [|discriminate].
  destruct k as [|k]; simpl.
  - now exists c.
  - apply (IH (S i)); auto. lia.
Qed.

Lemma scanBackward_some (cs : list MdNode) :
  forall i j,
    i <= List.length cs ->
    scanBackward cs i = Some j ->
    j < i /\
    (exists c, nth_error cs j = Some c /\ isAnnotation c = false) /\
    (forall k, j < k < i ->
               exists c, nth_error cs k = Some c /\ isAnnotation c = true).
Proof.
  induction i as [|i IH]; intros j Hi H; simpl in H; [discriminate|].
  destruct (nth_error cs i) as [c|] eqn:N.
  - destruct (isAnnotation c) eqn:A; simpl in H.
    + apply IH in H; [|lia]. destruct H as (L & P & Q).
      split; [lia|]. split; auto.
      intros k Hk. destruct (Nat.eq_dec k i) as [->|Ne].
      * now exists c.
      * apply Q. lia.
    + inversion H; subst. split; [lia|]. split.
      * now exists c.
      * intros k Hk. lia.
  - apply nth_error_None in N. lia.
Qed.

Lemma scanBackward_none (cs : list MdNode) :
  forall i,
    i <= List.length cs ->
    scanBackward cs i = None ->
    forall k, k < i ->
              exists c, nth_error cs k = Some c /\ isAnnotation c = true.
Proof.
  induction i as [|i IH]; intros Hi H k Hk; [lia|]. simpl in H.
  destruct (nth_error cs i) as [c|] eqn:N.
  - destruct (isAnnotation c) eqn:A; simpl in H; [|discriminate].
    destruct (Nat.eq_dec k i) as [->|Ne].
    + now exists c.
    + apply IH; auto; lia.
  - apply nth_error_None in N. lia.
Qed.

Lemma nth_error_skipn {A} (l : list A) (n k : nat) :
  nth_error (skipn n l) k = nth_error l (n + k).
Proof.
  revert l; induction n as [|n IH]; intros l; simpl; auto.
  destruct l as [|x l]; simpl; auto. now destruct k.
Qed.

Lemma root_is_not_content : isContentType "root" = false.
Proof. reflexivity. Qed.

(** C8.  For the comment at a valid index [i] among the children of
    [parent], [findMetadataTarget] resolves in the fixed order: the parent
    when it is a heading, a paragraph, a table cell or a table header; else
    the nearest following sibling that is not a metadata comment; else the
    nearest preceding one; else the parent; and when the parent is the root
    of the document the result is never the parent. *)
Theorem target_resolution_order :
  forall (parent : MdNode) (i : nat),
    i < List.length (Md.kids parent) ->
    ResolvesTo parent i (findMetadataTarget parent i)
    /\ (mtype parent = "root" -> findMetadataTarget parent i <> Some TParent).
Proof.
  intros parent i Hi. unfold findMetadataTarget.
  destruct (isContentType (mtype parent)) eqn:C.
  - split; [now constructor|].
    intros R. rewrite R, root_is_not_content in C. discriminate.
  - destruct (scanForward (skipn (S i) (Md.kids parent)) (S i)) as [j|] eqn:F.
    + split; [|discriminate].
      apply scanForward_some in F. destruct F as (L & (c & N & P) & Q).
      rewrite nth_error_skipn in N.
      apply ToNextSibling; auto.
      * exists c. split; auto. rewrite <- N. f_equal. lia.
      * intros k Hk. destruct (Q (k - S i)) as (c' & N' & P'); [lia|].
        rewrite nth_error_skipn in N'. exists c'. split; auto.
        rewrite <- N'. f_equal. lia.
    + assert (Later : forall k, i < k < List.length (Md.kids parent) ->
                                annotationAt parent k).
      { intros k Hk.
        destruct (scanForward_none _ _ F (k - S i)) as (c & N & P).
        - rewrite length_skipn. lia.
        - rewrite nth_error_skipn in N. exists c. split; auto.
          rewrite <- N. f_equal. lia. }
      destruct (scanBackward (Md.kids parent) i) as [j|] eqn:B.
      * split; [|discriminate].
        apply scanBackward_some in B; [|lia].
        destruct B as (L & P & Q).
        apply ToPreviousSibling; auto.
      * assert (Earlier : forall k, k < i -> annotationAt parent k).
        { intros k Hk. apply (scanBackward_none _ _ (Nat.lt_le_incl _ _ Hi) B).
          exact Hk. }
        destruct (String.eqb (mtype parent) "root") eqn:R; simpl.
        -- apply String.eqb_eq in R. split; [|discriminate].
           now apply ToNothing.
        -- apply String.eqb_neq in R. split; [|contradiction].
           now apply ToParent.
Qed.

(** a root with a comment between two paragraphs *)
Definition sampleRoot : MdNode :=
  Md.parent "root"
    [Md.parent "paragraph" [Md.text "before"];
     Md.html "<!-- adf:paragraph textAlign=center -->";
     Md.parent "paragraph" [Md.text "after"]].

Lemma target_resolution_order_witness :
  1 < List.length (Md.kids sampleRoot)
  /\ ResolvesTo sampleRoot 1 (findMetadataTarget sampleRoot 1)
  /\ (mtype sampleRoot = "root" ->
      findMetadataTarget sampleRoot 1 <> Some TParent).
Proof.
  split; [simpl; lia|].
  apply (target_resolution_order sampleRoot 1). simpl; lia.
Defined.

End TargetFacts.

(* --------------------------------------------------------------------- *)
(** ** The engine: inputs without text *)

Module InputFacts.

Import Engine.

(** an input that is not a string, or is a string that holds nothing but
    white space (the empty string included) *)
Definition blankInput (input : JsVal) : Prop :=
  match input with
  | VStr s => String.length (Str.trim s) = 0
  | _ => True
  end.

(** an input that is not a string, or is the empty string *)
Definition noInput (input : JsVal) : bool :=
  match input with
  | VStr s => Str.isEmpty s
  | _ => true
  end.

(** a runtime whose parser always throws; it serves where the collaborators
    are not reached *)
Definition idleRuntime : Runtime :=
  mkRuntime (fun _ => None) (fun _ => None) SocialFacts.noEmoji
    (fun _ => []) 0.

(** C7.  Whatever the collaborators, an input that is not a string or
    holds no text never reaches the parser: in non-strict mode [convert]
    returns the document of version 1 and type doc with no content, and in
    strict mode it throws for a non-string or an empty string (a string of
    white space alone still gives the empty document). *)
Theorem convert_blank_input :
  forall (options : Options) (rt : Runtime) (input : JsVal),
    blankInput input ->
    convert options rt input
    = if strict options && noInput input
      then Thrown InvalidInput
      else Returned (mkDoc 1 "doc" []).
Proof.
  intros options rt input H. unfold convert.
  destruct input as [ | | b | z | mm e | n | s | l | kvs ]; simpl;
    try (destruct (strict options); reflexivity).
  simpl in H. destruct (Str.isEmpty s) eqn:E.
  - destruct (strict options); reflexivity.
  - rewrite H. simpl. rewrite andb_false_r. reflexivity.
Qed.

Lemma convert_blank_input_witness :
  blankInput (VStr "  ")
  /\ convert defaultOptions idleRuntime (VStr "  ")
     = Returned (mkDoc 1 "doc" [])
  /\ convert (mkOptions true true) idleRuntime (VStr EmptyString)
     = Thrown InvalidInput
  /\ convert (mkOptions true true) idleRuntime (VNum 5)
     = Thrown InvalidInput
  /\ convert defaultOptions idleRuntime VUndef
     = Returned (mkDoc 1 "doc" []).
Proof.
  split; [reflexivity|]. split; [|split; [|split]].
  - apply (convert_blank_input defaultOptions idleRuntime (VStr "  ")).
    reflexivity.
  - apply (convert_blank_input (mkOptions true true) idleRuntime
             (VStr EmptyString)). reflexivity.
  - apply (convert_blank_input (mkOptions true true) idleRuntime (VNum 5)).
    exact I.
  - apply (convert_blank_input defaultOptions idleRuntime VUndef). exact I.
Defined.

End InputFacts.

(* --------------------------------------------------------------------- *)
(** ** The nesting heuristic *)

Module NestingFacts.

Import Tokens.

(** a container that may take the blocks after it: an expand or a panel *)
Definition isContainer (n : ADFNode) : bool :=
  String.eqb (ntype n) "expand" || String.eqb (ntype n) "panel".

Lemma container_nestable (n : ADFNode) :
  isContainer n = true -> nestable n = true.
Proof.
  unfold isContainer, nestable, isAdfFenceBlockType. intros H.
  apply orb_true_iff in H. destruct H as [H|H];
    apply String.eqb_eq in H; rewrite H; reflexivity.
Qed.

Lemma nestFrom_skipn (l : list ADFNode) :
  forall k, nestFrom k l = nestFrom 0 (skipn k l).
Proof.
  induction l as [|n l IH]; intros [|k]; try reflexivity.
  simpl skipn. rewrite <- IH. reflexivity.
Qed.

Lemma takeWhile_prefix {A} (p : A -> bool) (l : list A) :
  exists rest, l = takeWhile p l ++ rest.
Proof.
  induction l as [|x l [rest IH]]; simpl.
  - now exists [].
  - destruct (p x).
    + exists rest. simpl. now f_equal.
    + now exists (x :: l).
Qed.

Lemma takeWhile_length {A} (p : A -> bool) (l : list A) :
  List.length (takeWhile p l) <= List.length l.
Proof.
  induction l as [|x l IH]; simpl; auto. destruct (p x); simpl; lia.
Qed.

Lemma takeWhile_app {A} (p : A -> bool) (l1 l2 : list A) :
  takeWhile p (l1 ++ l2)
  = if forallb p l1 then l1 ++ takeWhile p l2 else takeWhile p l1.
Proof.
  induction l1 as [|x l1 IH]; simpl; auto.
  destruct (p x); simpl; auto. rewrite IH. now destruct (forallb p l1).
Qed.

(** one turn of the loop, on a node that is not jumped over *)
Lemma nestFrom_cons (node : ADFNode) (after : list ADFNode) :
  nestFrom 0 (node :: after)
  = if (String.eqb (ntype node) "expand" || String.eqb (ntype node) "panel")
       && negb (List.length after =? 0)
    then
      if match after with
         | next :: _ => String.eqb (ntype next) (ntype node)
         | [] => false
         end
      then node :: nestFrom 0 after
      else if String.eqb (ntype node) "panel"
              && forallb isPanel (firstn 3 after)
              && (0 <? List.length after)
           then node :: nestFrom 0 after
           else match takeWhile nestable after with
                | _ :: _ =>
                    absorb node (takeWhile nestable after)
                    :: nestFrom (List.length (takeWhile nestable after)) after
                | [] => node :: nestFrom 0 after
                end
    else node :: nestFrom 0 after.
Proof. reflexivity. Qed.

(** What the loop pushes for the node it stands on: the node itself, or
    the node with a run of the following nodes appended to its content. *)
Definition emittedFor (b : ADFNode) (post : list ADFNode) (b' : ADFNode)
  : Prop :=
  b' = b \/
  exists nested rest,
    nested <> [] /\ post = nested ++ rest /\ b' = absorb b nested.

Lemma nestFrom_head (b : ADFNode) (post : list ADFNode) :
  exists b' o2, nestFrom 0 (b :: post) = b' :: o2 /\ emittedFor b post b'.
Proof.
  rewrite nestFrom_cons.
  destruct (takeWhile nestable post) as [|x nested] eqn:T;
    repeat match goal with
           | |- context [if ?c then _ else _] => destruct c
           end;
    try (eexists; eexists; split; [reflexivity|now left]).
  eexists; eexists; split; [reflexivity|]. right.
  destruct (takeWhile_prefix nestable post) as [rest R].
  exists (x :: nested), rest. rewrite <- T. repeat split; auto.
  rewrite T. discriminate.
Qed.

Lemma nestFrom_same_kind (a b : ADFNode) (post : list ADFNode) :
  isContainer a = true -> ntype b = ntype a ->
  nestFrom 0 (a :: b :: post) = a :: nestFrom 0 (b :: post).
Proof.
  intros C K. unfold isContainer in C.
  rewrite nestFrom_cons. rewrite C, K, String.eqb_refl. reflexivity.
Qed.

(** [a] and [b] stay at the level of the list: [a] is pushed as it was
    and the node pushed for [b] comes right after it *)
Definition keptAtLevel (a b : ADFNode) (post out : list ADFNode) : Prop :=
  exists o1 o2 b',
    out = o1 ++ a :: b' :: o2 /\ emittedFor b post b'.

(** [a] and [b] were taken, side by side, into the content of a container
    [c] that stands before them in [pre], together with the blocks [n1]
    between [c] and [a], all of which can be nested *)
Definition takenTogether (pre : list ADFNode) (a b : ADFNode)
  (post out : list ADFNode) : Prop :=
  exists o1 o2 p0 c n1 n2 rest,
    pre = p0 ++ c :: n1 /\ isContainer c = true /\
    forallb nestable n1 = true /\ post = n2 ++ rest /\
    out = o1 ++ absorb c (n1 ++ a :: b :: n2) :: o2.

(** the two ways in which [a] and [b] are siblings in the output *)
Definition siblingsIn (pre : list ADFNode) (a b : ADFNode)
  (post out : list ADFNode) : Prop :=
  keptAtLevel a b post out \/ takenTogether pre a b post out.

Lemma siblingsIn_more (a b : ADFNode) (extra pre post : list ADFNode)
  (x : ADFNode) (out : list ADFNode) :
  siblingsIn pre a b post out ->
  siblingsIn (extra ++ pre) a b post (x :: out).
Proof.
  intros [(o1 & o2 & b' & E & F)
         |(o1 & o2 & p0 & c & n1 & n2 & rest & P & C & N & R & E)];
    subst out.
  - left. now exists (x :: o1), o2, b'.
  - right. exists (x :: o1), o2, (extra ++ p0), c, n1, n2, rest.
    subst pre. rewrite <- app_assoc. repeat split; auto.
Qed.

Lemma nestFrom_siblings (a b : ADFNode) (post : list ADFNode) :
  isContainer a = true -> ntype b = ntype a ->
  forall n pre,
    List.length pre <= n ->
    siblingsIn pre a b post (nestFrom 0 (pre ++ a :: b :: post)).
Proof.
  intros C K. induction n as [|n IH]; intros pre L.
  - destruct pre; [|simpl in L; lia]. simpl app.
    rewrite nestFrom_same_kind; auto.
    destruct (nestFrom_head b post) as (b' & o2 & E & F). rewrite E.
    left. now exists [], o2, b'.
  - destruct pre as [|c pre].
    + apply (IH []). simpl; lia.
    + simpl in L.
      assert (Plain : siblingsIn (c :: pre) a b post
                        (c :: nestFrom 0 (pre ++ a :: b :: post))).
      { apply (siblingsIn_more a b [c] pre), IH. lia. }
      change ((c :: pre) ++ a :: b :: post)
        with (c :: (pre ++ a :: b :: post)).
      set (after := pre ++ a :: b :: post) in *.
      rewrite nestFrom_cons.
      fold (isContainer c).
      destruct (isContainer c) eqn:Cc; [|exact Plain].
      destruct (takeWhile nestable after) as [|x nested] eqn:T;
        repeat match goal with
               | |- context [if ?c then _ else _] => destruct c
               end; auto.
      rewrite <- T. subst after. rewrite takeWhile_app in *.
      destruct (forallb nestable pre) eqn:A.
      * (* the container takes all of [pre], then [a] and [b] *)
        assert (Na : nestable a = true) by now apply container_nestable.
        assert (Nb : nestable b = true).
        { apply container_nestable. unfold isContainer. now rewrite K. }
        simpl takeWhile. rewrite Na, Nb.
        destruct (takeWhile_prefix nestable post) as [rest R].
        right. exists [], (nestFrom
                            (List.length
                               (pre ++ a :: b :: takeWhile nestable post))
                            (pre ++ a :: b :: post)),
          [], c, pre, (takeWhile nestable post), rest.
        repeat split; auto.
      * (* the container stops inside [pre] *)
        rewrite nestFrom_skipn.
        pose proof (takeWhile_length nestable pre) as Len.
        rewrite skipn_app.
        replace (List.length (takeWhile nestable pre) - List.length pre)
          with 0 by lia.
        simpl skipn.
        rewrite <- (firstn_skipn (List.length (takeWhile nestable pre)) pre)
          at 1.
        change (c :: ?l ++ ?r) with ((c :: l) ++ r).
        apply siblingsIn_more, IH.
        rewrite length_skipn. rewrite T in *. simpl in *. lia.
Qed.

(** C5.  Two consecutive containers of the same kind (two panels or two
    expands) at any place of a list of blocks stay siblings in what
    [postProcessNestedAdfFenceBlocks] returns, and the second is never put
    into the content of the first.  Either both stay at the level of the
    list, the first pushed as it was and the second (alone or with blocks
    that follow it) right after it; or an expand or a panel that stands
    before them in the list, with nothing but blocks that can be nested in
    between, has taken both into its content, where they lie side by side.
    When no expand and no panel stands before them they stay at the level
    of the list.  By repetition the same holds along a run of three or
    more. *)
Theorem same_kind_containers_stay_siblings :
  forall (pre : list ADFNode) (a b : ADFNode) (post : list ADFNode),
    isContainer a = true ->
    ntype b = ntype a ->
    siblingsIn pre a b post
      (postProcessNestedAdfFenceBlocks (pre ++ a :: b :: post))
    /\ (existsb isContainer pre = false ->
        keptAtLevel a b post
          (postProcessNestedAdfFenceBlocks (pre ++ a :: b :: post))).
Proof.
  intros pre a b post C K. unfold postProcessNestedAdfFenceBlocks.
  assert (S : siblingsIn pre a b post
                (nestFrom 0 (pre ++ a :: b :: post)))
    by (apply (nestFrom_siblings a b post C K (List.length pre) pre); lia).
  split; [exact S|]. intros Free.
  destruct S as [Kept|(o1 & o2 & p0 & c & n1 & n2 & rest & P & Cc & _)];
    [exact Kept|].
  subst pre. rewrite existsb_app in Free. simpl in Free.
  rewrite Cc, orb_true_r in Free. discriminate Free.
Qed.

(** A list of containers of one kind comes out as it went in. *)
Lemma same_kind_run_unchanged (kind : string) (run : list ADFNode) :
  (kind = "panel" \/ kind = "expand") ->
  Forall (fun n => ntype n = kind) run ->
  postProcessNestedAdfFenceBlocks run = run.
Proof.
  intros Hk H. unfold postProcessNestedAdfFenceBlocks.
  induction H as [|a run Ha Hrun IH]; [reflexivity|].
  destruct run as [|b run].
  { rewrite nestFrom_cons. simpl. now rewrite andb_false_r. }
  assert (Hb : ntype b = kind) by now inversion Hrun.
  rewrite nestFrom_same_kind.
  - now rewrite IH.
  - unfold isContainer. rewrite Ha.
    destruct Hk as [Hk|Hk]; rewrite Hk; reflexivity.
  - now rewrite Ha, Hb.
Qed.

Definition panel (panelType body : string) : ADFNode :=
  mkNode "panel" (Some [("panelType", VStr panelType)])
    (Some [blockNode "paragraph" [textNode body]]) None None.

Definition threePanels : list ADFNode :=
  [panel "info" "one"; panel "warning" "two"; panel "success" "three"].

Lemma three_panels_stay_three :
  postProcessNestedAdfFenceBlocks threePanels = threePanels.
Proof. reflexivity. Qed.

Lemma same_kind_containers_stay_siblings_witness :
  isContainer (panel "info" "one") = true
  /\ ntype (panel "warning" "two") = ntype (panel "info" "one")
  /\ existsb isContainer [] = false
  /\ siblingsIn [] (panel "info" "one") (panel "warning" "two")
       [panel "success" "three"]
       (postProcessNestedAdfFenceBlocks
          ([] ++ panel "info" "one" :: panel "warning" "two"
              :: [panel "success" "three"]))
  /\ keptAtLevel (panel "info" "one") (panel "warning" "two")
       [panel "success" "three"]
       (postProcessNestedAdfFenceBlocks
          ([] ++ panel "info" "one" :: panel "warning" "two"
              :: [panel "success" "three"])).
Proof.
  split; [reflexivity|]. split; [reflexivity|]. split; [reflexivity|].
  pose proof (same_kind_containers_stay_siblings [] (panel "info" "one")
                (panel "warning" "two") [panel "success" "three"]
                eq_refl eq_refl) as [Siblings Kept].
  split; [exact Siblings|exact (Kept eq_refl)].
Defined.

(** *** Panels behind a paragraph *)

Definition note : ADFNode := blockNode "paragraph" [textNode "note"].

(** a panel, a paragraph, and two more panels in a row *)
Definition panelsBehindParagraph : list ADFNode :=
  [panel "info" "one"; note; panel "warning" "two";
   panel "success" "three"].

(** The first panel is followed by a paragraph, so it takes the blocks
    after it, the two panels included: one node is left at the level of
    the list, and the two panels in a row are in its content. *)
Lemma panels_behind_a_paragraph_are_absorbed :
  postProcessNestedAdfFenceBlocks panelsBehindParagraph
  = [mkNode "panel" (Some [("panelType", VStr "info")])
       (Some [blockNode "paragraph" [textNode "one"]; note;
              panel "warning" "two"; panel "success" "three"])
       None None]
  /\ ~ keptAtLevel (panel "warning" "two") (panel "success" "three") []
         (postProcessNestedAdfFenceBlocks panelsBehindParagraph).
Proof.
  split; [reflexivity|].
  intros (o1 & o2 & b' & E & _).
  apply (f_equal (@List.length ADFNode)) in E.
  rewrite length_app in E. simpl in E. lia.
Qed.

End NestingFacts.

(* --------------------------------------------------------------------- *)
(** ** The round trip of an annotated heading *)

Module RoundTripFacts.

Import Engine.
Import Builder.
Import ConvertFacts.

Definition headingAttrs : Obj :=
  [("level", VNum 1); ("id", VStr "x"); ("textAlign", VStr "center")].

Definition annotatedHeading : ADFNode :=
  mkNode "heading" (Some headingAttrs) (Some [textNode "Title"]) None None.

Definition headingDocument : ADFDocument := mkDoc 1 "doc" [annotatedHeading].

(** the comment written for the heading: [level] is left out *)
Definition headingComment : string :=
  "<!-- adf:heading id=" +++ Str.dqs +++ "x" +++ Str.dqs +++
  " textAlign=" +++ Str.dqs +++ "center" +++ Str.dqs +++ " -->".

(** the generic tree written for the document: the comment, then the
    heading of depth 1 *)
Definition headingTree : MdNode :=
  Md.parent "root" [Md.html headingComment; Md.heading 1 [Md.text "Title"]].

(** C6.  The document with the heading of attributes level 1, id x and
    textAlign center is written as the comment
    [<!-- adf:heading id="x" textAlign="center" -->] followed by a heading
    of depth 1: the level is left out of the comment.  Whenever the markup
    the stringifier makes of that tree is read back by the parser as that
    tree, [convert] returns the document again, the heading carrying
    exactly level 1, id x and textAlign center: the level comes from the
    depth, the others from the comment. *)
Theorem heading_annotation_round_trip :
  forall (options : Options) (rt : Runtime) (markup : string),
    String.length (Str.trim markup) <> 0 ->
    parse rt (preprocess markup) = Some (buildMdastFromADF headingDocument) ->
    2 <= callDepth rt ->
    buildMdastFromADF headingDocument = headingTree
    /\ convert options rt (VStr markup) = Returned headingDocument
    /\ option_map attrs (hd_error (doccontent headingDocument))
       = Some (Some [("level", VNum 1); ("id", VStr "x");
                     ("textAlign", VStr "center")]).
Proof.
  intros options rt markup Hblank Hparse Hdepth.
  split; [reflexivity|]. split; [|reflexivity].
  unfold convert.
  destruct (Str.isEmpty markup) eqn:E.
  { destruct markup; [|discriminate]. now contradiction Hblank. }
  apply Nat.eqb_neq in Hblank. rewrite Hblank.
  unfold preprocess in Hparse. rewrite Hparse.
  unfold convertMdastToAdfSync, postProcessAdfFenceBlocks, fenceLoop,
    fencePass.
  destruct (callDepth rt) as [|[|depth]]; try lia.
  vm_compute. reflexivity.
Qed.

(** the markup of the heading, as the stringifier writes the tree *)
Definition headingMarkup : string :=
  headingComment +++ Str.nl +++ Str.nl +++ "# Title".

(** a runtime whose parser reads the markup of the heading back as the
    tree it was written from *)
Definition headingRuntime : Runtime :=
  mkRuntime
    (fun markup =>
       if String.eqb markup headingMarkup then Some headingTree else None)
    (fun _ => None) SocialFacts.noEmoji (fun _ => []) 16.

Lemma heading_annotation_round_trip_witness :
  String.length (Str.trim headingMarkup) <> 0
  /\ parse headingRuntime (preprocess headingMarkup)
     = Some (buildMdastFromADF headingDocument)
  /\ 2 <= callDepth headingRuntime
  /\ buildMdastFromADF headingDocument = headingTree
  /\ convert defaultOptions headingRuntime (VStr headingMarkup)
     = Returned headingDocument
  /\ option_map attrs (hd_error (doccontent headingDocument))
     = Some (Some [("level", VNum 1); ("id", VStr "x");
                   ("textAlign", VStr "center")]).
Proof.
  assert (H1 : String.length (Str.trim headingMarkup) <> 0)
    by (vm_compute; discriminate).
  assert (H2 : parse headingRuntime (preprocess headingMarkup)
               = Some (buildMdastFromADF headingDocument))
    by (vm_compute; reflexivity).
  assert (H3 : 2 <= callDepth headingRuntime) by (simpl; lia).
  split; [exact H1|]. split; [exact H2|]. split; [exact H3|].
  exact (heading_annotation_round_trip defaultOptions headingRuntime
           headingMarkup H1 H2 H3).
Defined.

End RoundTripFacts.

(* --------------------------------------------------------------------- *)
(** ** The loop that resolves fence blocks *)

Module FenceFacts.

Import Engine.

Section Settled.

Variable rt : Runtime.

(** a fence is left to resolve in the tree below [node]: one of the two
    [if]s of [processNode] would fire on [node] or on a node under it *)
Fixpoint unresolved (node : MdNode) : bool :=
  snd (convertFence rt node) ||
  match mchildren node with
  | Some children => existsb unresolved children
  | None => false
  end.

Lemma fenceOfText_withChildren (n : MdNode) (cs : option (list MdNode)) :
  fenceOfText rt (Md.withChildren n cs) = fenceOfText rt n.
Proof. reflexivity. Qed.

Lemma isAdfCode_withChildren (n : MdNode) (cs : option (list MdNode)) :
  isAdfCode (Md.withChildren n cs) = isAdfCode n.
Proof. reflexivity. Qed.

Lemma convertCode_type (n : MdNode) : mtype (convertCode rt n) = "adfFence".
Proof. unfold convertCode. now destruct (parseInner rt _). Qed.

Lemma convertText_type (n n' : MdNode) :
  convertText rt n = Some n' -> mtype n' = "adfFence".
Proof.
  unfold convertText. destruct (fenceOfText rt n) as [[[? ?] ?]|];
    [|discriminate].
  intros H. now inversion H.
Qed.

(** Neither [if] fires on a node of type adfFence. *)
Lemma fence_is_settled (n : MdNode) :
  mtype n = "adfFence" -> convertFence rt n = (n, false).
Proof.
  intros T. unfold convertFence, isAdfCode, convertText, fenceOfText.
  rewrite T. reflexivity.
Qed.

(** What the two [if]s leave is left alone by them, whatever its children
    become. *)
Lemma convertFence_settled (n n1 : MdNode) (b : bool) :
  convertFence rt n = (n1, b) ->
  convertFence rt n1 = (n1, false)
  /\ forall cs, convertFence rt (Md.withChildren n1 cs)
                = (Md.withChildren n1 cs, false).
Proof.
  unfold convertFence at 1.
  destruct (isAdfCode n) eqn:A.
  - intros H; inversion H; subst. split; [|intros cs];
      apply fence_is_settled; simpl; apply convertCode_type.
  - destruct (convertText rt n) as [n'|] eqn:T.
    + intros H; inversion H; subst. apply convertText_type in T.
      split; [|intros cs]; apply fence_is_settled; simpl; exact T.
    + intros H; inversion H; subst. split; [|intros cs].
      * unfold convertFence. now rewrite A, T.
      * unfold convertFence. rewrite isAdfCode_withChildren, A.
        unfold convertText in *. rewrite fenceOfText_withChildren.
        destruct (fenceOfText rt n1) as [[[? ?] ?]|]; [discriminate|].
        reflexivity.
Qed.

Lemma forEach_settled (visit : MdNode -> option (MdNode * bool)) :
  (forall c c' ch, visit c = Some (c', ch) -> visit c' = Some (c', false)) ->
  forall cs cs' ch,
    forEach visit cs = Some (cs', ch) ->
    forEach visit cs' = Some (cs', false).
Proof.
  intros V. induction cs as [|c cs IH]; intros cs' ch H; simpl in H.
  - now inversion H.
  - destruct (visit c) as [[c' ch1]|] eqn:E; [|discriminate].
    destruct (forEach visit cs) as [[cs'' ch2]|] eqn:F; [|discriminate].
    inversion H; subst. simpl.
    rewrite (V _ _ _ E), (IH _ _ eq_refl). reflexivity.
Qed.

(** A second visit of what [processNode] returned changes nothing. *)
Lemma processNode_settled :
  forall fuel n n' ch,
    processNode rt fuel n = Some (n', ch) ->
    processNode rt fuel n' = Some (n', false).
Proof.
  induction fuel as [|fuel IH]; intros n n' ch H; simpl in H; [discriminate|].
  destruct (convertFence rt n) as [n1 b] eqn:CF. simpl fst in H; simpl snd in H.
  destruct (convertFence_settled _ _ _ CF) as [S1 S2].
  destruct (mchildren n1) as [children|] eqn:C.
  - destruct (forEach (processNode rt fuel) children)
      as [[children' changed]|] eqn:F; [|discriminate].
    inversion H; subst. simpl.
    rewrite S2. simpl.
    rewrite (forEach_settled _ IH _ _ _ F). reflexivity.
  - inversion H; subst. simpl. rewrite S1. simpl. now rewrite C.
Qed.

Lemma forEach_unchanged (visit : MdNode -> option (MdNode * bool)) :
  forall cs cs',
    (forall c c', In c cs -> visit c = Some (c', false) ->
                  unresolved c = false) ->
    forEach visit cs = Some (cs', false) ->
    existsb unresolved cs = false.
Proof.
  induction cs as [|c cs IH]; intros cs' V H; simpl in *; auto.
  destruct (visit c) as [[c' ch1]|] eqn:E; [|discriminate].
  destruct (forEach visit cs) as [[cs'' ch2]|] eqn:F; [|discriminate].
  inversion H; subst.
  apply orb_false_iff in H2. destruct H2; subst.
  rewrite (V c c' (or_introl eq_refl) E). simpl.
  apply (IH cs''); [|reflexivity].
  intros c0 c0' Hin. apply V. now right.
Qed.

Lemma unresolved_eq (n : MdNode) :
  unresolved n
  = snd (convertFence rt n) ||
    match mchildren n with
    | Some children => existsb unresolved children
    | None => false
    end.
Proof. now destruct n. Qed.

Lemma convertFence_false (n n1 : MdNode) :
  convertFence rt n = (n1, false) -> n1 = n.
Proof.
  unfold convertFence. destruct (isAdfCode n); [discriminate|].
  destruct (convertText rt n); [discriminate|]. now inversion 1.
Qed.

(** A visit that does not set the flag has met no fence to resolve. *)
Lemma processNode_unchanged :
  forall fuel n n',
    processNode rt fuel n = Some (n', false) ->
    unresolved n = false.
Proof.
  induction fuel as [|fuel IH]; intros n n' H; simpl in H; [discriminate|].
  rewrite unresolved_eq.
  destruct (convertFence rt n) as [n1 b] eqn:CF.
  simpl fst in H; simpl snd in H. simpl snd.
  destruct (mchildren n1) as [children|] eqn:C.
  - destruct (forEach (processNode rt fuel) children)
      as [[children' changed]|] eqn:F; [|discriminate].
    assert (B : b || changed = false) by now inversion H.
    apply orb_false_iff in B. destruct B; subst b changed.
    apply convertFence_false in CF. subst n1. rewrite C. simpl.
    apply (forEach_unchanged _ _ _ (fun c c' _ E => IH c c' E) F).
  - assert (b = false) by now inversion H. subst b.
    apply convertFence_false in CF. subst n1. now rewrite C.
Qed.

(** Whenever the first pass returns, a second pass over its result
    changes nothing and finds no fence to resolve, and the loop ends after
    two passes (one when the first changed nothing). *)
Lemma fence_loop_after_first_pass :
  forall (tree t1 : MdNode) (hasChanges : bool),
    fencePass rt tree = Some (t1, hasChanges) ->
    fencePass rt t1 = Some (t1, false)
    /\ existsb unresolved (Md.kids t1) = false
    /\ fenceLoop rt maxPasses tree 0
       = Some (t1, if hasChanges then 2 else 1)
    /\ (if hasChanges then 2 else 1) <= maxPasses.
Proof.
  intros tree t1 hasChanges H.
  assert (P2 : fencePass rt t1 = Some (t1, false)).
  { unfold fencePass in *.
    destruct (processAll rt (callDepth rt) (Md.kids tree))
      as [[children ch]|] eqn:P; [|discriminate].
    inversion H; subst. unfold processAll in *.
    destruct (mchildren tree) as [cs|] eqn:C.
    - change (Md.kids (Md.withChildren tree (Some children)))
        with children.
      rewrite (forEach_settled _ (processNode_settled (callDepth rt))
                 _ _ _ P).
      reflexivity.
    - unfold Md.kids in *. rewrite C in *. simpl in P. inversion P; subst.
      reflexivity. }
  split; [exact P2|]. split; [|split].
  - unfold fencePass, processAll in P2.
    destruct (forEach (processNode rt (callDepth rt)) (Md.kids t1))
      as [[children ch]|] eqn:P; [|discriminate].
    assert (ch = false) by (now inversion P2). subst ch.
    apply (forEach_unchanged _ _ _
             (fun c c' _ E => processNode_unchanged _ c c' E) P).
  - unfold maxPasses. simpl. rewrite H. destruct hasChanges; auto.
    now rewrite P2.
  - unfold maxPasses. destruct hasChanges; lia.
Qed.

End Settled.

(* ----------------------------------------------------------------- *)
(** *** When a pass returns *)

Definition lengthOfValue (n : MdNode) : nat :=
  match mvalue n with Some v => String.length v | None => 0 end.

(** The text a node hands to the parser when a fence is resolved at it is
    shorter than this: a code block hands its value, a text node the
    inside of the fence its value holds. *)
Definition ownPotential (n : MdNode) : nat :=
  if String.eqb (mtype n) "code" then S (lengthOfValue n)
  else if String.eqb (mtype n) "text" then lengthOfValue n
       else 0.

(** the same bound over a node and the nodes under it *)
Fixpoint potential (n : MdNode) : nat :=
  Nat.max (ownPotential n)
    match mchildren n with
    | Some children => list_max (map potential children)
    | None => 0
    end.

Fixpoint height (n : MdNode) : nat :=
  match mchildren n with
  | Some children => S (list_max (map height children))
  | None => 0
  end.

(** A parser shortens when no text node of the tree it gives holds more
    characters than the text it was given, and every code block holds
    fewer (its fence or its indentation is gone). *)
Definition shortening (parse : string -> option MdNode) : Prop :=
  forall text tree,
    parse text = Some tree ->
    forall c, In c (Md.kids tree) -> potential c <= String.length text.

Lemma list_max_in (x : nat) (l : list nat) : In x l -> x <= list_max l.
Proof.
  intros H. pose proof (proj1 (list_max_le l (list_max l)) (le_n _)) as F.
  rewrite Forall_forall in F. now apply F.
Qed.

Lemma ownPotential_le (n : MdNode) : ownPotential n <= potential n.
Proof. destruct n; simpl. apply Nat.le_max_l. Qed.

Lemma potential_kid (c n : MdNode) :
  In c (Md.kids n) -> potential c <= potential n.
Proof.
  unfold Md.kids. destruct n as [ty v [cs|] d l me u al ti o st nt at' am];
    simpl; [|contradiction].
  intros H. apply (in_map potential) in H. apply list_max_in in H. lia.
Qed.

Lemma height_kid (c n : MdNode) : In c (Md.kids n) -> height c < height n.
Proof.
  unfold Md.kids. destruct n as [ty v [cs|] d l me u al ti o st nt at' am];
    simpl; [|contradiction].
  intros H. apply (in_map height) in H. apply list_max_in in H. lia.
Qed.

(** what follows [^~~~] in the pattern of a fence *)
Definition fenceTail : Regex.re :=
  Regex.seqs
    [Regex.Grp 1
       (Regex.alts
          [Regex.lit "panel"; Regex.lit "expand"; Regex.lit "nestedExpand";
           Regex.lit "mediaSingle"; Regex.lit "mediaGroup"]);
     Regex.Grp 2 (Regex.Star true (Regex.Chr notNewline));
     Regex.lit Str.nl;
     Regex.Grp 3 (Regex.Star false (Regex.Chr anyChar));
     Regex.lit Str.nl; Regex.lit "~~~"; Regex.Eol].

(** the inside of a fence is shorter than the text that holds the fence *)
Lemma fence_content_shorter (s : string) (mt : Regex.Match) :
  Regex.exec s adfFencePattern = Some mt ->
  String.length (Regex.group' s 3 mt) < String.length s.
Proof.
  intros E. unfold Regex.exec, Regex.execFrom in E.
  destruct (String.length s <? 0); [discriminate|].
  apply RegexFacts.search_some in E. destruct E as (j & _ & M & _).
  unfold Regex.matchAt in M.
  change adfFencePattern
    with (Regex.Seq Regex.Bol (Regex.Seq (Regex.lit "~~~") fenceTail)) in M.
  change (Regex.m s
            (Regex.Seq Regex.Bol (Regex.Seq (Regex.lit "~~~") fenceTail))
            j [] (fun j0 c => Some (j0, c)))
    with (if j =? 0
          then Regex.m s (Regex.lit "~~~") j []
                 (fun j1 c1 =>
                    Regex.m s fenceTail j1 c1 (fun j0 c => Some (j0, c)))
          else None) in M.
  destruct (j =? 0); [|discriminate].
  rewrite RegexFacts.m_lit in M.
  destruct (String.prefix "~~~" (Str.drop j s)) eqn:P; [|discriminate].
  apply StrFacts.prefix_length in P. rewrite StrFacts.length_drop in P.
  change (String.length "~~~") with 3 in *.
  destruct (Regex.m s fenceTail (j + 3) [] (fun j0 c => Some (j0, c)))
    as [[j' c']|] eqn:T; [|discriminate].
  injection M as <-.
  assert (Fits : j + 3 <= String.length s) by lia.
  pose proof (RegexFacts.m_bounds s fenceTail _ _ _ _ Fits T)
    as (j1 & c1 & E1 & _ & B1).
  injection E1 as -> ->.
  pose proof (RegexFacts.m_caps s fenceTail _ _ _ _ T)
    as (j2 & added & E2 & _ & W).
  injection E2 as -> <-. rewrite app_nil_r in *.
  unfold Regex.group', Regex.group. simpl Regex.groups.
  destruct (Regex.lookup 3 added) as [[a b]|] eqn:L; [|simpl; lia].
  apply (RegexFacts.lookup_within _ _ _ _ _ _ W) in L.
  rewrite StrFacts.length_sub by lia. lia.
Qed.

Section Returns.

Variable rt : Runtime.

(** the nodes a visit of [n] goes on to: the children of what the two
    [if]s make of [n] *)
Definition visitedFrom (c n : MdNode) : Prop :=
  In c (Md.kids (fst (convertFence rt n))).

(** They are the children [n] had, or the children of a tree the parser
    gave for a text shorter than the potential of [n]. *)
Lemma visitedFrom_cases (c n : MdNode) :
  visitedFrom c n ->
  In c (Md.kids n)
  \/ exists text tree,
       parse rt text = Some tree /\ In c (Md.kids tree)
       /\ String.length text < ownPotential n.
Proof.
  unfold visitedFrom, convertFence.
  destruct (isAdfCode n) eqn:A.
  - simpl fst. unfold convertCode, parseInner.
    assert (Code : String.eqb (mtype n) "code" = true).
    { unfold isAdfCode in A. now apply andb_prop in A as [A _]. }
    destruct (parse rt match mvalue n with
                       | Some v => v
                       | None => EmptyString
                       end) as [tree|] eqn:P.
    + intros H. right. eexists. exists tree. split; [exact P|].
      split; [exact H|].
      unfold ownPotential, lengthOfValue. rewrite Code.
      destruct (mvalue n); simpl; lia.
    + intros H. left. exact H.
  - destruct (convertText rt n) as [n'|] eqn:T; [|now left].
    simpl fst. unfold convertText, fenceOfText in T.
    destruct (String.eqb (mtype n) "text") eqn:Ty; [|discriminate].
    destruct (mvalue n) as [textContent|] eqn:V; [|discriminate].
    destruct (Str.isEmpty textContent); [discriminate|].
    destruct (Regex.exec (Str.trim textContent) adfFencePattern)
      as [mt|] eqn:E; [|discriminate].
    unfold parseInner in T.
    destruct (parse rt (Regex.group' (Str.trim textContent) 3 mt))
      as [tree|] eqn:P; [|discriminate].
    injection T as <-. intros H. right. eexists. exists tree.
    split; [exact P|]. split; [exact H|].
    apply fence_content_shorter in E.
    pose proof (StrFacts.length_trim textContent).
    unfold ownPotential, lengthOfValue. rewrite Ty, V.
    apply String.eqb_eq in Ty. rewrite Ty. simpl. lia.
Qed.

(** With a parser that shortens, what a visit goes on to is well
    founded: the texts handed to the parser get shorter, and between two
    of them the visit goes down a tree. *)
Lemma shortening_visits_end :
  shortening (parse rt) -> forall n, Acc visitedFrom n.
Proof.
  intros Short.
  assert (Main : forall L h n,
             potential n <= L -> height n <= h -> Acc visitedFrom n).
  { induction L as [L IHL] using lt_wf_ind.
    induction h as [|h IHh]; intros n HL Hh; constructor; intros c V;
      destruct (visitedFrom_cases c n V) as [K|(text & tree & P & K & Lt)].
    - apply height_kid in K. lia.
    - pose proof (Short text tree P c K). pose proof (ownPotential_le n).
      apply (IHL (potential c)) with (h := height c); lia.
    - pose proof (potential_kid c n K). apply height_kid in K.
      apply IHh; lia.
    - pose proof (Short text tree P c K). pose proof (ownPotential_le n).
      apply (IHL (potential c)) with (h := height c); lia. }
  intros n. apply (Main (potential n) (height n)); lia.
Qed.

Lemma forEach_returns (visit : MdNode -> option (MdNode * bool)) :
  forall cs,
    (forall c, In c cs -> exists r, visit c = Some r) ->
    exists r, forEach visit cs = Some r.
Proof.
  induction cs as [|c cs IH]; intros H; simpl; eauto.
  destruct (H c (or_introl eq_refl)) as [[c' ch] ->].
  destruct (IH (fun c0 I0 => H c0 (or_intror I0))) as [[cs' ch'] ->].
  eauto.
Qed.

Lemma enough_for_all (P : nat -> MdNode -> Prop) :
  forall cs,
    (forall c, In c cs ->
               exists fuel, forall fuel', fuel <= fuel' -> P fuel' c) ->
    exists fuel,
      forall fuel', fuel <= fuel' -> forall c, In c cs -> P fuel' c.
Proof.
  induction cs as [|c cs IH]; intros H.
  - exists 0. intros _ _ c [].
  - destruct (H c (or_introl eq_refl)) as [f1 H1].
    destruct (IH (fun c0 I0 => H c0 (or_intror I0))) as [f2 H2].
    exists (Nat.max f1 f2). intros fuel' Hle c0 [<-|I0].
    + apply H1. lia.
    + apply H2; auto. lia.
Qed.

(** A visit that is well founded returns, given calls enough. *)
Lemma processNode_returns (n : MdNode) :
  Acc visitedFrom n ->
  exists fuel,
    forall fuel', fuel <= fuel' -> exists r, processNode rt fuel' n = Some r.
Proof.
  induction 1 as [n _ IH].
  destruct (enough_for_all
              (fun fuel c => exists r, processNode rt fuel c = Some r)
              (Md.kids (fst (convertFence rt n))) IH) as [fuel Hf].
  exists (S fuel). intros [|fuel'] Hle; [lia|]. simpl.
  destruct (mchildren (fst (convertFence rt n))) as [children|] eqn:C;
    [|eauto].
  destruct (forEach_returns (processNode rt fuel') children)
    as [[cs' ch] F].
  { intros c I0. apply Hf; [lia|]. unfold Md.kids. now rewrite C. }
  rewrite F. eauto.
Qed.

End Returns.

(** With a parser that shortens, a pass returns given calls enough. *)
Lemma fencePass_returns (rt : Runtime) (tree : MdNode) :
  shortening (parse rt) ->
  exists depth,
    forall depth',
      depth <= depth' ->
      exists r, fencePass (ConvertFacts.withCallDepth rt depth') tree = Some r.
Proof.
  intros Short.
  destruct (enough_for_all
              (fun fuel c => exists r, processNode rt fuel c = Some r)
              (Md.kids tree)
              (fun c _ =>
                 processNode_returns rt c (shortening_visits_end rt Short c)))
    as [depth Hd].
  exists depth. intros depth' Hle.
  destruct (forEach_returns (processNode rt depth') (Md.kids tree)
              (fun c I0 => Hd depth' Hle c I0)) as [[children hc] F].
  unfold fencePass, processAll.
  change (forEach
            (processNode (ConvertFacts.withCallDepth rt depth')
               (callDepth (ConvertFacts.withCallDepth rt depth')))
            (Md.kids tree))
    with (forEach (processNode rt depth') (Md.kids tree)).
  rewrite F. eauto.
Qed.

(** C4, amended.  The loop runs at most [maxPasses] = 5 passes, and with
    a parser that shortens and calls enough every pass returns.  A pass
    goes down into the children it has just parsed, so that it resolves the
    fences at every depth: the first pass returns a tree over which a
    second pass changes nothing and in which no fence is left to resolve,
    and the loop ends after two passes (one when the first changed
    nothing).  No layer is left as literal text on account of the cap. *)
Theorem fence_loop_settles_in_two_passes :
  forall (rt : Runtime) (tree : MdNode),
    shortening (parse rt) ->
    exists depth,
      forall depth',
        depth <= depth' ->
        exists t1 hasChanges,
          fencePass (ConvertFacts.withCallDepth rt depth') tree
          = Some (t1, hasChanges)
          /\ fencePass (ConvertFacts.withCallDepth rt depth') t1
             = Some (t1, false)
          /\ existsb (unresolved rt) (Md.kids t1) = false
          /\ fenceLoop (ConvertFacts.withCallDepth rt depth') maxPasses
               tree 0
             = Some (t1, if hasChanges then 2 else 1)
          /\ (if hasChanges then 2 else 1) <= maxPasses.
Proof.
  intros rt tree Short.
  destruct (fencePass_returns rt tree Short) as [depth Hd].
  exists depth. intros depth' Hle.
  destruct (Hd depth' Hle) as [[t1 hasChanges] P1].
  exists t1, hasChanges. split; [exact P1|].
  exact (fence_loop_after_first_pass
           (ConvertFacts.withCallDepth rt depth') _ _ _ P1).
Qed.

End FenceFacts.

(* --------------------------------------------------------------------- *)
(** ** Fences nested deeper than the cap *)

Module FenceExamples.

Import Engine.

Fixpoint ticks (n : nat) : string :=
  match n with
  | 0 => EmptyString
  | S n' => String "`" (ticks n')
  end.

Fixpoint countTicks (s : string) : nat :=
  match s with
  | String "`" s' => S (countTicks s')
  | _ => 0
  end.

(** the first line of a text, and the lines after it *)
Fixpoint splitLine (s : string) : string * string :=
  match s with
  | EmptyString => (EmptyString, EmptyString)
  | String a s' =>
      if Str.code a =? 10 then (EmptyString, s')
      else let r := splitLine s' in (String a (fst r), snd r)
  end.

Definition endsWith (suffix s : string) : bool :=
  (String.length suffix <=? String.length s) &&
  String.eqb (Str.drop (String.length s - String.length suffix) s) suffix.

(** A parser for the texts of the examples.  A text that is one fenced
    code block (a line of three or more backticks and a word, some lines,
    and a closing line of as many backticks) is read as the code node of
    that language holding the lines in between, shorter fences among them
    being part of its value; any other text is read as one paragraph. *)
Definition fenceParser (s : string) : option MdNode :=
  let n := countTicks s in
  let line := splitLine (Str.drop n s) in
  let closing := Str.nl +++ ticks n in
  if (3 <=? n) && endsWith closing (snd line) then
    Some (Md.parent "root"
            [Md.code (Some (fst line)) None
               (Str.take (String.length (snd line) - String.length closing)
                  (snd line))])
  else Some (Md.parent "root" [Md.parent "paragraph" [Md.text s]]).

Definition fenceRuntime : Runtime :=
  mkRuntime fenceParser (fun _ => None) SocialFacts.noEmoji (fun _ => []) 64.

(** a panel fence of [k + 2] backticks around [inner] *)
Definition fenced (k : nat) (inner : string) : string :=
  ticks (k + 2) +++ "panel" +++ Str.nl +++ inner +++ Str.nl +++ ticks (k + 2).

(** six panels, one inside the other, around the word deep *)
Definition sixDeep : string :=
  fenced 6 (fenced 5 (fenced 4 (fenced 3 (fenced 2 (fenced 1 "deep"))))).

Fixpoint panels (k : nat) : ADFNode :=
  match k with
  | 0 => blockNode "paragraph" [textNode "deep"]
  | S k' =>
      mkNode "panel" (Some [("panelType", VStr "info")]) (Some [panels k'])
        None None
  end.

Definition sixDeepTree : MdNode :=
  match fenceParser sixDeep with
  | Some tree => tree
  | None => Md.blank "root"
  end.

(** the tree after the first pass *)
Definition sixDeepResolved : MdNode :=
  match fencePass fenceRuntime sixDeepTree with
  | Some (tree, _) => tree
  | None => sixDeepTree
  end.

Example fenceParser_innermost :
  fenceParser (fenced 1 "deep")
  = Some (Md.parent "root" [Md.code (Some "panel") None "deep"]).
Proof. reflexivity. Qed.

(** C4, as stated, fails: six panels nested one inside the other, one
    layer more than the cap of five passes, are all resolved.  The loop
    runs two passes and the conversion returns six panel nodes nested down
    to the paragraph; no layer is left as literal text. *)
Lemma six_layers_are_resolved :
  maxPasses < 6
  /\ convert defaultOptions fenceRuntime (VStr sixDeep)
     = Returned (mkDoc 1 "doc" [panels 6])
  /\ option_map snd (fenceLoop fenceRuntime maxPasses sixDeepTree 0) = Some 2
  /\ existsb (FenceFacts.unresolved fenceRuntime) (Md.kids sixDeepResolved)
     = false.
Proof.
  split; [unfold maxPasses; lia|].
  repeat split; vm_compute; reflexivity.
Qed.

Lemma six_layers_second_pass :
  fencePass fenceRuntime sixDeepTree = Some (sixDeepResolved, true)
  /\ fencePass fenceRuntime sixDeepResolved = Some (sixDeepResolved, false).
Proof.
  assert (H : fencePass fenceRuntime sixDeepTree
              = Some (sixDeepResolved, true))
    by (vm_compute; reflexivity).
  split; [exact H|].
  exact (proj1 (FenceFacts.fence_loop_after_first_pass fenceRuntime
                  sixDeepTree sixDeepResolved true H)).
Qed.

Lemma length_splitLine (s : string) :
  String.length (snd (splitLine s)) <= String.length s.
Proof.
  induction s as [|a s IH]; simpl; auto.
  destruct (Str.code a =? 10); simpl; lia.
Qed.

(** the parser of the examples shortens *)
Lemma fenceParser_shortens : FenceFacts.shortening fenceParser.
Proof.
  intros text tree E c I0. unfold fenceParser in E.
  destruct ((3 <=? countTicks text) &&
            endsWith (Str.nl +++ ticks (countTicks text))
              (snd (splitLine (Str.drop (countTicks text) text)))) eqn:B;
    injection E as <-; destruct I0 as [<-|[]].
  - apply andb_prop in B as [_ B]. unfold endsWith in B.
    apply andb_prop in B as [B _]. apply Nat.leb_le in B.
    pose proof (length_splitLine (Str.drop (countTicks text) text)) as L.
    rewrite StrFacts.length_drop in L.
    rewrite StrFacts.length_append in B. simpl String.length in B.
    unfold Md.code, FenceFacts.potential, FenceFacts.ownPotential,
      FenceFacts.lengthOfValue. simpl.
    rewrite StrFacts.length_take. lia.
  - simpl. unfold FenceFacts.ownPotential, FenceFacts.lengthOfValue. simpl.
    lia.
Qed.

Lemma fence_loop_settles_in_two_passes_witness :
  FenceFacts.shortening (parse fenceRuntime)
  /\ exists depth,
       forall depth',
         depth <= depth' ->
         exists t1 hasChanges,
           fencePass (ConvertFacts.withCallDepth fenceRuntime depth')
             sixDeepTree
           = Some (t1, hasChanges)
           /\ fencePass (ConvertFacts.withCallDepth fenceRuntime depth') t1
              = Some (t1, false)
           /\ existsb (FenceFacts.unresolved fenceRuntime) (Md.kids t1)
              = false
           /\ fenceLoop (ConvertFacts.withCallDepth fenceRuntime depth')
                maxPasses sixDeepTree 0
              = Some (t1, if hasChanges then 2 else 1)
           /\ (if hasChanges then 2 else 1) <= maxPasses.
Proof.
  split; [exact fenceParser_shortens|].
  exact (FenceFacts.fence_loop_settles_in_two_passes fenceRuntime
           sixDeepTree fenceParser_shortens).
Defined.

End FenceExamples.
(* --------------------------------------------------------------------- *)
(** ** Consecutive comments in the raw text *)

Module CommentFacts.

Import Regex.
Import Engine.
Import StrFacts.
Import RegexFacts.

(** what an occurrence is rewritten into *)
Definition replacement : string := "-->" +++ Str.nl +++ "<!-- ".

(** the number of white-space characters a text begins with *)
Fixpoint spaces (s : string) : nat :=
  match s with
  | String a s' => if Str.isSpace a then S (spaces s') else 0
  | EmptyString => 0
  end.

(** the text begins with an occurrence: [-->], white space if any, and
    [<!--] *)
Definition startsOccurrence (s : string) : bool :=
  String.prefix "-->" s && String.prefix "<!--" (Str.trimStart (Str.drop 3 s)).

(** the length of the occurrence a text begins with *)
Definition occurrenceLength (s : string) : nat :=
  3 + spaces (Str.drop 3 s) + 4.

(** The rewriting in plain words: go through the text from the left; where
    an occurrence begins, write the replacement and jump over the
    occurrence; copy any other character.  [skip] is the number of
    characters left to jump over. *)
Fixpoint rewriteLeftToRight (skip : nat) (s : string) : string :=
  match s with
  | EmptyString => EmptyString
  | String a s' =>
      match skip with
      | S k => rewriteLeftToRight k s'
      | 0 =>
          if startsOccurrence s
          then replacement +++ rewriteLeftToRight (occurrenceLength s - 1) s'
          else String a (rewriteLeftToRight 0 s')
      end
  end.

Lemma drop_spaces (s : string) : Str.drop (spaces s) s = Str.trimStart s.
Proof.
  induction s as [|a s IH]; simpl; auto. destruct (Str.isSpace a); simpl; auto.
Qed.

Lemma spaces_le (s : string) : spaces s <= String.length s.
Proof.
  induction s as [|a s IH]; simpl; auto. destruct (Str.isSpace a); lia.
Qed.

Section Matching.

Variable s : string.

(** A greedy run of white space before a continuation that cannot start
    at a white-space character takes all the white space there is. *)
Lemma star_spaces (k : K) :
  (forall j c a rest,
      Str.drop j s = String a rest -> Str.isSpace a = true -> k j c = None) ->
  forall fuel i c,
    spaces (Str.drop i s) <= fuel ->
    starLoop (m s (Chr Str.isSpace)) true k fuel i c
    = k (i + spaces (Str.drop i s)) c.
Proof.
  intros Hk. induction fuel as [|fuel IH]; intros i c Hf.
  - simpl. replace (spaces (Str.drop i s)) with 0 by lia.
    now rewrite Nat.add_0_r.
  - simpl. rewrite get_drop.
    destruct (Str.drop i s) as [|a rest] eqn:D; simpl.
    + now rewrite Nat.add_0_r.
    + destruct (Str.isSpace a) eqn:A.
      * assert ((i <? S i) = true) as -> by (apply Nat.ltb_lt; lia).
        pose proof (drop_S _ _ _ _ D) as D'.
        simpl in Hf. rewrite A in Hf.
        rewrite IH by (rewrite D'; lia).
        rewrite D'.
        replace (S i + spaces rest) with (i + S (spaces rest)) by lia.
        destruct (k (i + S (spaces rest)) c); auto.
        apply (Hk i c a rest D A).
      * now rewrite Nat.add_0_r.
Qed.

(** where the pattern matches, and what it matches there *)
Lemma matchAt_occurrence (i : nat) :
  matchAt s consecutiveCommentsRe i
  = if startsOccurrence (Str.drop i s)
    then Some (mkMatch i (i + occurrenceLength (Str.drop i s))
                 [(1, (i + 3, i + occurrenceLength (Str.drop i s)))])
    else None.
Proof.
  unfold matchAt, consecutiveCommentsRe, startsOccurrence, occurrenceLength.
  change (seqs [lit "-->"; Grp 1 (Seq Metadata.ws (lit "<!--"))])
    with (Seq (lit "-->") (Seq (Grp 1 (Seq Metadata.ws (lit "<!--"))) Eps)).
  change (m s (Seq (lit "-->")
                 (Seq (Grp 1 (Seq Metadata.ws (lit "<!--"))) Eps)) i []
            (fun j c => Some (j, c)))
    with (m s (lit "-->") i []
            (fun j c =>
               starLoop (m s (Chr Str.isSpace)) true
                 (fun j1 c1 =>
                    m s (lit "<!--") j1 c1
                      (fun j' c' => Some (j', (1, (j, j')) :: c')))
                 (String.length s - j) j c)).
  rewrite m_lit.
  destruct (String.prefix "-->" (Str.drop i s)) eqn:P; cbn [andb]; auto.
  rewrite star_spaces.
  - rewrite m_lit.
    rewrite !drop_add, drop_spaces.
    change (String.length "-->") with 3.
    change (String.length "<!--") with 4.
    destruct (String.prefix "<!--" (Str.trimStart (Str.drop 3 (Str.drop i s))));
      auto.
    now rewrite !Nat.add_assoc.
  - intros j c a rest D A. rewrite m_lit, D.
    change (String.prefix "<!--" (String a rest))
      with (if ascii_dec "<" a then String.prefix "!--" rest else false).
    destruct (ascii_dec "<" a) as [<-|]; auto. discriminate A.
  - rewrite <- length_drop. apply spaces_le.
Qed.

End Matching.

(* the rewriting in plain words, step by step *)

Lemma rewrite_skip (t : string) :
  forall k, rewriteLeftToRight k t = rewriteLeftToRight 0 (Str.drop k t).
Proof.
  induction t as [|a t IH]; intros [|k]; auto. simpl Str.drop.
  now rewrite <- IH.
Qed.

Lemma rewrite_copy :
  forall n t,
    (forall k, k < n -> startsOccurrence (Str.drop k t) = false) ->
    rewriteLeftToRight 0 t
    = Str.take n t +++ rewriteLeftToRight 0 (Str.drop n t).
Proof.
  induction n as [|n IH]; intros t H; auto.
  destruct t as [|a t]; auto.
  assert (H0 : startsOccurrence (String a t) = false) by (apply (H 0); lia).
  change (rewriteLeftToRight 0 (String a t))
    with (if startsOccurrence (String a t)
          then replacement +++
               rewriteLeftToRight (occurrenceLength (String a t) - 1) t
          else String a (rewriteLeftToRight 0 t)).
  rewrite H0. simpl Str.take. simpl Str.drop. simpl String.append.
  f_equal. apply IH. intros k Hk. apply (H (S k)). lia.
Qed.

Lemma rewrite_none (t : string) :
  (forall k, startsOccurrence (Str.drop k t) = false) ->
  rewriteLeftToRight 0 t = t.
Proof.
  induction t as [|a t IH]; intros H; auto.
  change (rewriteLeftToRight 0 (String a t))
    with (if startsOccurrence (String a t)
          then replacement +++
               rewriteLeftToRight (occurrenceLength (String a t) - 1) t
          else String a (rewriteLeftToRight 0 t)).
  pose proof (H 0) as H0. simpl Str.drop in H0.
  rewrite H0. f_equal. apply IH. intros k. apply (H (S k)).
Qed.

Lemma rewrite_at (t : string) :
  startsOccurrence t = true ->
  rewriteLeftToRight 0 t
  = replacement +++ rewriteLeftToRight 0 (Str.drop (occurrenceLength t) t).
Proof.
  intros H. destruct t as [|a t]; [discriminate|].
  change (rewriteLeftToRight 0 (String a t))
    with (if startsOccurrence (String a t)
          then replacement +++
               rewriteLeftToRight (occurrenceLength (String a t) - 1) t
          else String a (rewriteLeftToRight 0 t)).
  rewrite H, rewrite_skip. reflexivity.
Qed.

(** an occurrence lies within the text *)
Lemma occurrence_fits (t : string) :
  startsOccurrence t = true -> occurrenceLength t <= String.length t.
Proof.
  unfold startsOccurrence, occurrenceLength. intros H.
  apply andb_prop in H as [H1 H2].
  apply prefix_length in H1, H2.
  rewrite <- drop_spaces, !length_drop in H2.
  change (String.length "<!--") with 4 in H2.
  change (String.length "-->") with 3 in H1. lia.
Qed.

(** the global replace of the pattern, from any offset, is the rewriting
    in plain words of the rest of the text *)
Lemma replaceFrom_scan (s : string) :
  forall fuel from,
    String.length s - from <= fuel ->
    from <= String.length s ->
    replaceFrom s consecutiveCommentsRe (fun _ => replacement) fuel from
    = rewriteLeftToRight 0 (Str.drop from s).
Proof.
  assert (Exec : forall from,
             from <= String.length s ->
             execFrom s consecutiveCommentsRe from
             = search s consecutiveCommentsRe (String.length s - from) from).
  { intros from H. unfold execFrom.
    now replace (String.length s <? from) with false
      by (symmetry; apply Nat.ltb_ge; lia). }
  assert (Scan : forall from mt,
             from <= String.length s ->
             execFrom s consecutiveCommentsRe from = Some mt ->
             from <= index mt
             /\ stop mt = index mt + occurrenceLength (Str.drop (index mt) s)
             /\ 7 <= occurrenceLength (Str.drop (index mt) s)
             /\ stop mt <= String.length s
             /\ rewriteLeftToRight 0 (Str.drop from s)
                = Str.sub from (index mt) s +++ replacement +++
                  rewriteLeftToRight 0 (Str.drop (stop mt) s)).
  { intros from mt Hfrom E. rewrite Exec in E by assumption.
    apply search_some in E as (j & Hj & Mj & Before).
    rewrite matchAt_occurrence in Mj.
    destruct (startsOccurrence (Str.drop j s)) eqn:Occ; [|discriminate].
    injection Mj as <-. simpl index. simpl stop.
    pose proof (occurrence_fits _ Occ) as Fits.
    rewrite length_drop in Fits.
    assert (j < String.length s).
    { apply drop_length_lt. intros D. now rewrite D in Occ. }
    repeat split; try lia.
    - unfold occurrenceLength. lia.
    - rewrite (rewrite_copy (j - from)).
      + rewrite <- drop_add. replace (from + (j - from)) with j by lia.
        rewrite (rewrite_at _ Occ), <- drop_add. reflexivity.
      + intros k Hk. rewrite <- drop_add.
        specialize (Before (from + k)).
        rewrite matchAt_occurrence in Before.
        destruct (startsOccurrence (Str.drop (from + k) s)); auto.
        discriminate Before. lia. }
  induction fuel as [|fuel IH]; intros from Hfuel Hfrom.
  - simpl. destruct (execFrom s consecutiveCommentsRe from) as [mt|] eqn:E.
    + destruct (Scan _ _ Hfrom E) as (? & ? & ? & ? & ?). lia.
    + rewrite drop_all by lia. reflexivity.
  - simpl. destruct (execFrom s consecutiveCommentsRe from) as [mt|] eqn:E.
    + destruct (Scan _ _ Hfrom E) as (Hi & Hs & H7 & Hl & ->).
      replace (stop mt =? index mt) with false
        by (symmetry; apply Nat.eqb_neq; lia).
      rewrite IH by lia. reflexivity.
    + symmetry. apply rewrite_none. intros k. rewrite <- drop_add.
      destruct (Nat.le_gt_cases (from + k) (String.length s)) as [Le|Gt].
      * rewrite Exec in E by assumption.
        pose proof (search_none _ _ _ _ E (from + k)) as N.
        rewrite matchAt_occurrence in N.
        destruct (startsOccurrence (Str.drop (from + k) s)); auto.
        discriminate N. lia.
      * rewrite drop_all by lia. reflexivity.
Qed.

(** the offsets at which occurrences begin *)
Definition occurrences (s : string) : list nat :=
  filter (fun i => startsOccurrence (Str.drop i s)) (seq 0 (String.length s)).

(** the offsets at which copies of a word begin *)
Definition copies (w s : string) : list nat :=
  filter (fun i => String.prefix w (Str.drop i s)) (seq 0 (String.length s)).

(** two occurrences that share two hyphens *)
Definition overlapping : string := "--><!--><!--".

(** a fenced code block with an occurrence in its second line *)
Definition codeSample : string :=
  "```js" +++ Str.nl +++ "a --><!-- b" +++ Str.nl +++ "```".

(** C10, as stated, fails where occurrences overlap: the text
    [--><!--><!--] has two occurrences, at offsets 0 and 5, and comes out
    with one replacement, at offset 0; the second occurrence is not
    rewritten. *)
Lemma overlapping_occurrence_is_not_rewritten :
  occurrences overlapping = [0; 5]
  /\ preprocessConsecutiveHtmlComments overlapping
     = "-->" +++ Str.nl +++ "<!-- ><!--"
  /\ copies replacement (preprocessConsecutiveHtmlComments overlapping) = [0].
Proof. repeat split; vm_compute; reflexivity. Qed.

(** C10, amended: the rewriting before parsing is the one that goes
    through the raw text from left to right, writes [-->], a newline and
    [<!-- ] for each occurrence it meets and resumes after that
    occurrence; it knows nothing of the structure of the text, so that the
    occurrence inside the fenced code block of [codeSample] is rewritten and
    the converted document does not carry the code as it was written. *)
Theorem comments_rewritten_left_to_right :
  (forall markdown : string,
      preprocessConsecutiveHtmlComments markdown
      = rewriteLeftToRight 0 markdown)
  /\ convert defaultOptions FenceExamples.fenceRuntime (VStr codeSample)
     = Returned
         (mkDoc 1 "doc"
            [mkNode "codeBlock" (Some [("language", VStr "js")])
               (Some [textNode ("a -->" +++ Str.nl +++ "<!--  b")])
               None None]).
Proof.
  split.
  - intros markdown. unfold preprocessConsecutiveHtmlComments, replaceAll.
    apply (replaceFrom_scan markdown (String.length markdown) 0); lia.
  - vm_compute. reflexivity.
Qed.

End CommentFacts.

(* --------------------------------------------------------------------- *)
(** ** The depth of calls left to [convert] *)

Module DeterminismFacts.

Import Engine.
Import Metadata.
Import ConvertFacts.

(* In this development [convert] is a function of the options, of what the
   collaborators answer and of the text: the source reads no clock in it
   (the time stamp of a date is computed from its digits, at midnight
   UTC), draws no number, writes no field after the constructor and builds
   its patterns with a g flag anew at every call.  What a call has of its
   own is the depth of calls left to it, which is the subject of this
   module. *)

(** the nested calls of the conversion of [markdown] fit in the call depth
    of [rt] *)
Definition callsFit (rt : Runtime) (markdown : JsVal) : bool :=
  match markdown with
  | VStr md =>
      match parse rt (preprocessNestedAdfBlocks
                        (preprocessConsecutiveHtmlComments md)) with
      | Some tree =>
          match postProcessAdfFenceBlocks rt
                  (processMetadataComments (jsonParse rt) tree) with
          | Some _ => true
          | None => false
          end
      | None => true
      end
  | _ => true
  end.


Section MoreCalls.

Variable rt : Runtime.
Variable depth : nat.


Hypothesis deeper : callDepth rt <= depth.





End MoreCalls.

(** With a parser that shortens, the calls of a conversion fit in any
    depth that is large enough. *)
Lemma calls_fit_eventually (rt : Runtime) (markdown : JsVal) :
  FenceFacts.shortening (parse rt) ->
  exists depth,
    forall depth',
      depth <= depth' -> callsFit (withCallDepth rt depth') markdown = true.
Proof.
  intros Short.
  destruct markdown as [ | | b | z | mm e | n | md | l | kvs ];
    try (exists 0; reflexivity).
  unfold callsFit.
  destruct (parse rt (preprocessNestedAdfBlocks
                        (preprocessConsecutiveHtmlComments md)))
    as [tree|] eqn:P.
  - destruct (FenceFacts.fencePass_returns rt
                (Json.cloneTree
                   (processMetadataComments (jsonParse rt) tree)) Short)
      as [depth Hd].
    exists depth. intros depth' Hle.
    change (parse (withCallDepth rt depth')) with (parse rt). rewrite P.
    change (jsonParse (withCallDepth rt depth')) with (jsonParse rt).
    destruct (Hd depth' Hle) as [[t1 hasChanges] P1].
    unfold postProcessAdfFenceBlocks. cbv zeta.
    destruct (FenceFacts.fence_loop_after_first_pass _ _ _ _ P1)
      as (_ & _ & L & _).
    now rewrite L.
  - exists 0. intros depth' _.
    change (parse (withCallDepth rt depth')) with (parse rt).
    now rewrite P.
Qed.



End DeterminismFacts.
(* ===================================================================== *)
(** * Further properties *)
(* ===================================================================== *)

(* --------------------------------------------------------------------- *)
(** ** Patterns that cannot match without a given character *)

Module NeedFacts.

Import Regex.

(** the 256 characters *)
Definition allAscii : list ascii := map ascii_of_nat (seq 0 256).

Lemma in_allAscii (a : ascii) : In a allAscii.
Proof.
  unfold allAscii. rewrite <- (ascii_nat_embedding a). apply in_map.
  apply in_seq. pose proof (nat_ascii_bounded a). lia.
Qed.

(** every character the class [q] accepts satisfies [p] *)
Definition within (q p : ascii -> bool) : bool :=
  forallb (fun a => implb (q a) (p a)) allAscii.

Lemma within_sound (q p : ascii -> bool) (a : ascii) :
  within q p = true -> q a = true -> p a = true.
Proof.
  unfold within. rewrite forallb_forall. intros H Q.
  specialize (H a (in_allAscii a)). now rewrite Q in H.
Qed.

(** [needs p r]: every match of [r] takes in a character that satisfies
    [p] (a sufficient test on the shape of the pattern) *)
Fixpoint needs (p : ascii -> bool) (r : re) : bool :=
  match r with
  | Chr q => within q p
  | Seq a b => needs p a || needs p b
  | Alt a b => needs p a && needs p b
  | Grp _ a => needs p a
  | _ => false
  end.

(** the text holds a character that satisfies [p] *)
Fixpoint holds (p : ascii -> bool) (s : string) : bool :=
  match s with
  | EmptyString => false
  | String a s' => p a || holds p s'
  end.

Lemma get_holds (p : ascii -> bool) (s : string) :
  forall i a, String.get i s = Some a -> p a = true -> holds p s = true.
Proof.
  induction s as [|b s IH]; intros [|i] a G P; simpl in *; try discriminate.
  - injection G as ->. now rewrite P.
  - rewrite (IH i a G P). apply orb_true_r.
Qed.

Section Needs.

Variable p : ascii -> bool.
Variable s : string.

Lemma m_needs (r : re) :
  needs p r = true ->
  forall i c k x, m s r i c k = Some x -> holds p s = true.
Proof.
  induction r as [ | q | a IHa b IHb | a IHa b IHb | g a IHa | n a IHa
                 | | | | | a IHa | q ]; intros N i c k x H; simpl in N;
    try discriminate.
  - simpl in H. destruct (String.get i s) as [ch|] eqn:G; [|discriminate].
    destruct (q ch) eqn:Q; [|discriminate].
    exact (get_holds p s i ch G (within_sound q p ch N Q)).
  - simpl in H. apply orb_prop in N as [N|N].
    + exact (IHa N _ _ _ _ H).
    + apply RegexFacts.m_caps in H. destruct H as (j & added & H & _).
      exact (IHb N _ _ _ _ H).
  - simpl in H. apply andb_prop in N as [Na Nb].
    destruct (m s a i c k) eqn:E.
    + exact (IHa Na _ _ _ _ E).
    + exact (IHb Nb _ _ _ _ H).
  - simpl in H. exact (IHa N _ _ _ _ H).
Qed.

(** a text without such a character holds no match of the pattern *)
Lemma exec_needs (r : re) :
  needs p r = true -> holds p s = false -> exec s r = None.
Proof.
  intros N H. destruct (exec s r) as [mt|] eqn:E; auto.
  unfold exec, execFrom in E.
  destruct (String.length s <? 0); [discriminate|].
  apply RegexFacts.search_some in E. destruct E as (j & _ & M & _).
  unfold matchAt in M.
  destruct (m s r j [] (fun j0 c0 => Some (j0, c0))) as [x|] eqn:X;
    [|discriminate].
  rewrite (m_needs r N _ _ _ _ X) in H. discriminate.
Qed.

(** and a global replace leaves it as it is *)
Lemma replaceAll_needs (r : re) (f : Match -> string) :
  needs p r = true -> holds p s = false -> replaceAll s r f = s.
Proof.
  intros N H. unfold replaceAll.
  destruct (String.length s) as [|n]; simpl;
    change (execFrom s r 0) with (exec s r);
    now rewrite (exec_needs r N H).
Qed.

End Needs.

Lemma holds_weaken (p q : ascii -> bool) (s : string) :
  (forall a, p a = true -> q a = true) ->
  holds q s = false -> holds p s = false.
Proof.
  intros W. induction s as [|a s IH]; simpl; auto.
  intros H. apply orb_false_iff in H as [Q H].
  rewrite (IH H), orb_false_r.
  destruct (p a) eqn:P; auto. now rewrite (W a P) in Q.
Qed.

End NeedFacts.

(* --------------------------------------------------------------------- *)
(** ** Text without markup *)

Module PlainTextFacts.

Import Regex.
Import Social.
Import NeedFacts.

(** the characters one of which every pattern of the scanner and of
    [parseInlineMarksRecursively] needs: an opening brace, a colon, an
    opening bracket, an exclamation mark, a star, a backtick, a
    less-than sign or a digit *)
Definition markupChar (a : ascii) : bool :=
  Str.oneOf "{:[!*`<" a || Str.isDigit a.

Lemma patterns_need_markup (getEmojiData : string -> EmojiData) :
  forall p, In p (patterns getEmojiData) ->
            needs markupChar (regex p) = true.
Proof.
  intros p H. simpl in H.
  repeat (destruct H as [H|H]; [subst p; vm_compute; reflexivity|]).
  contradiction.
Qed.

Lemma inlinePatterns_need_markup :
  forall p, In p inlinePatterns -> needs markupChar (regex p) = true.
Proof.
  intros p H. simpl in H.
  repeat (destruct H as [H|H]; [subst p; vm_compute; reflexivity|]).
  contradiction.
Qed.

Lemma metadataRegex_needs_markup : needs markupChar metadataRegex = true.
Proof. vm_compute. reflexivity. Qed.

Section Plain.

Variable getEmojiData : string -> EmojiData.
Variable content : string.
Hypothesis plain : holds markupChar content = false.

Lemma no_social_element : findNextSocialElement getEmojiData content = None.
Proof.
  unfold findNextSocialElement, findNextWith.
  assert (Fold : forall ps,
             (forall p, In p ps -> In p (patterns getEmojiData)) ->
             fold_left (tryPattern content) ps None = None).
  { induction ps as [|p ps IH]; intros Sub; simpl; auto.
    unfold tryPattern at 2.
    rewrite (exec_needs markupChar content (regex p)
               (patterns_need_markup getEmojiData p
                  (Sub p (or_introl eq_refl))) plain).
    apply IH. intros q I0. apply Sub. now right. }
  apply Fold. auto.
Qed.

Lemma no_inline_match : firstInlineMatch content = None.
Proof.
  unfold firstInlineMatch.
  assert (Fold : forall ps,
             (forall p, In p ps -> In p inlinePatterns) ->
             fold_left
               (fun firstMatch pattern =>
                  match exec content (regex pattern) with
                  | Some mt =>
                      if match firstMatch with
                         | None => true
                         | Some (fm, _) => index mt <? index fm
                         end
                      then Some (mt, pattern) else firstMatch
                  | None => firstMatch
                  end) ps None = None).
  { induction ps as [|p ps IH]; intros Sub; simpl; auto.
    rewrite (exec_needs markupChar content (regex p)
               (inlinePatterns_need_markup p (Sub p (or_introl eq_refl)))
               plain).
    apply IH. intros q I0. apply Sub. now right. }
  apply Fold. auto.
Qed.

Lemma no_metadata_comment : findNextMetadataComment content = None.
Proof.
  unfold findNextMetadataComment.
  now rewrite (exec_needs markupChar content metadataRegex
                 metadataRegex_needs_markup plain).
Qed.

Lemma plain_marks :
  parseInlineMarksRecursively content
  = if Str.isEmpty content then [] else [textNode content].
Proof.
  unfold parseInlineMarksRecursively.
  destruct (String.length content) as [|n] eqn:L.
  - apply StrFacts.isEmpty_length in L. simpl. now rewrite L.
  - simpl. destruct (Str.isEmpty content) eqn:E; [reflexivity|].
    now rewrite no_metadata_comment, no_inline_match.
Qed.

End Plain.

Lemma plain_scan (getEmojiData : string -> EmojiData) (content : string) :
  holds markupChar content = false ->
  parseInlineContentWithSocialElements getEmojiData content
  = if Str.isEmpty content then [] else [textNode content].
Proof.
  intros plain. unfold parseInlineContentWithSocialElements.
  destruct (Str.isEmpty content) eqn:E; [reflexivity|].
  destruct (String.length content) as [|n] eqn:L.
  - apply StrFacts.isEmpty_length in L. now rewrite L in E.
  - simpl. rewrite E.
    rewrite (no_social_element getEmojiData content plain).
    rewrite (plain_marks content plain), E. reflexivity.
Qed.

Lemma plain_text_node (getEmojiData : string -> EmojiData)
  (content : string) :
  holds markupChar content = false ->
  processTextNodeForSocialElements getEmojiData content
  = if Str.isEmpty content then [] else [textNode content].
Proof.
  intros plain. unfold processTextNodeForSocialElements.
  rewrite (plain_scan getEmojiData content plain).
  now destruct (Str.isEmpty content).
Qed.

(** X1.  A text that holds none of the characters [{ : [ ! * ` <] and no
    digit goes through the scanner of social elements and through
    [parseInlineMarksRecursively] untouched: it comes out as one text node
    without marks that holds the whole text (and as no node at all when it
    is empty). *)
Theorem plain_text_is_one_node :
  forall (getEmojiData : string -> EmojiData) (content : string),
    holds markupChar content = false ->
    processTextNodeForSocialElements getEmojiData content
    = (if Str.isEmpty content then [] else [textNode content])
    /\ parseInlineContentWithSocialElements getEmojiData content
       = (if Str.isEmpty content then [] else [textNode content]).
Proof.
  intros getEmojiData content plain. split.
  - now apply plain_text_node.
  - now apply plain_scan.
Qed.

Lemma plain_text_is_one_node_witness :
  holds markupChar "Hello, world" = false
  /\ processTextNodeForSocialElements SocialFacts.noEmoji "Hello, world"
     = [textNode "Hello, world"].
Proof.
  assert (H : holds markupChar "Hello, world" = false) by reflexivity.
  split; [exact H|].
  exact (proj1 (plain_text_is_one_node SocialFacts.noEmoji "Hello, world" H)).
Defined.

End PlainTextFacts.

(* --------------------------------------------------------------------- *)
(** ** What [convert] returns and when it throws *)

Module OutcomeFacts.

Import Engine.
Import ConvertFacts.

(** X2.  In non-strict mode [convert] never throws: whatever the input
    value, and whatever the parser and [JSON.parse] do, it returns a
    document.  In either mode a document that [convert] returns has
    version 1 and type doc. *)
Theorem convert_returns_a_document :
  forall (options : Options) (rt : Runtime) (input : JsVal),
    (strict options = false ->
     exists adf, convert options rt input = Returned adf)
    /\ (forall adf,
           convert options rt input = Returned adf ->
           version adf = 1%Z /\ doctype adf = "doc").
Proof.
  intros options rt input. unfold convert, convertMdastToAdfSync.
  assert (Header : forall adf0 adf : ADFDocument,
             version adf0 = 1%Z -> doctype adf0 = "doc" ->
             Returned adf0 = Returned adf ->
             version adf = 1%Z /\ doctype adf = "doc").
  { intros adf0 adf V D H. injection H as <-. now split. }
  destruct input as [ | | b | z | mm e | n | md | l | kvs ];
    try solve [ destruct (strict options); split;
                [ intros; discriminate | intros adf H; discriminate
                | intros; eauto | intros adf; now apply Header ] ].
  destruct (Str.isEmpty md).
  { destruct (strict options); split;
      [ intros; discriminate | intros adf H; discriminate
      | intros; eauto | intros adf; now apply Header ]. }
  destruct (String.length (Str.trim md) =? 0).
  { split; [eauto | intros adf; now apply Header]. }
  destruct (parse rt (preprocessNestedAdfBlocks
                        (preprocessConsecutiveHtmlComments md)))
    as [tree|];
    [ destruct (postProcessAdfFenceBlocks rt
                  (Metadata.processMetadataComments (jsonParse rt) tree))
        as [processedTree|];
      [ destruct (frontmatterParses rt processedTree) | ] | ];
    destruct (strict options); split;
      solve [ intros; discriminate | intros; eauto
            | intros adf H; discriminate
            | intros adf; now apply Header ].
Qed.

(** X3.  When the parser throws on a text that is not blank, [convert] in
    non-strict mode returns the document of one paragraph that holds the
    text as it was given (not as it was preprocessed), and in strict mode
    it throws the conversion error. *)
Theorem convert_falls_back_on_parser_failure :
  forall (options : Options) (rt : Runtime) (markdown : string),
    String.length (Str.trim markdown) <> 0 ->
    parse rt (preprocess markdown) = None ->
    convert options rt (VStr markdown)
    = if strict options then Thrown (ConversionFailed ParserThrew)
      else Returned
             (mkDoc 1 "doc" [blockNode "paragraph" [textNode markdown]]).
Proof.
  intros options rt markdown Hblank Hparse. unfold convert.
  destruct (Str.isEmpty markdown) eqn:E.
  { destruct markdown; [|discriminate]. now contradiction Hblank. }
  apply Nat.eqb_neq in Hblank. rewrite Hblank.
  unfold preprocess in Hparse. rewrite Hparse. reflexivity.
Qed.

(** a runtime whose parser always throws *)
Definition failingRuntime : Runtime :=
  mkRuntime (fun _ => None) (fun _ => None) SocialFacts.noEmoji
    (fun _ => []) 8.

Lemma convert_falls_back_on_parser_failure_witness :
  String.length (Str.trim "a --><!-- b") <> 0
  /\ parse failingRuntime (preprocess "a --><!-- b") = None
  /\ convert defaultOptions failingRuntime (VStr "a --><!-- b")
     = Returned
         (mkDoc 1 "doc" [blockNode "paragraph" [textNode "a --><!-- b"]]).
Proof.
  assert (H1 : String.length (Str.trim "a --><!-- b") <> 0)
    by (vm_compute; discriminate).
  assert (H2 : parse failingRuntime (preprocess "a --><!-- b") = None)
    by reflexivity.
  split; [exact H1|]. split; [exact H2|].
  exact (convert_falls_back_on_parser_failure defaultOptions failingRuntime
           "a --><!-- b" H1 H2).
Defined.

Lemma convert_returns_a_document_witness :
  exists adf,
    convert defaultOptions failingRuntime (VStr "# Title") = Returned adf
    /\ version adf = 1%Z /\ doctype adf = "doc".
Proof.
  destruct (convert_returns_a_document defaultOptions failingRuntime
              (VStr "# Title")) as (R & H).
  destruct (R eq_refl) as (adf & E).
  exists adf. split; [exact E|]. exact (H adf E).
Defined.

End OutcomeFacts.

(* --------------------------------------------------------------------- *)
(** ** Trees of ADF nodes *)

Module TreeFacts.

(** induction on a node knowing the property of the nodes of its content *)
Lemma adf_ind (P : ADFNode -> Prop) :
  (forall ty a cs tx ms,
      match cs with Some l => Forall P l | None => True end ->
      P (mkNode ty a cs tx ms)) ->
  forall n, P n.
Proof.
  intros H. fix IH 1. intros [ty a cs tx ms]. apply H.
  destruct cs as [l|]; [|exact I].
  induction l as [|c l IHl]; constructor; [apply IH|exact IHl].
Qed.

(** the same for the generic tree *)
Lemma md_ind (P : MdNode -> Prop) :
  (forall n,
      match mchildren n with Some l => Forall P l | None => True end ->
      P n) ->
  forall n, P n.
Proof.
  intros H. fix IH 1. intros n. apply H.
  destruct n as [ty v cs d l me u al ti o st nt at' am]. simpl.
  destruct cs as [cs|]; [|exact I].
  induction cs as [|c cs IHl]; constructor; [apply IH|exact IHl].
Qed.

(** a list of texts put end to end *)
Definition joined (l : list string) : string :=
  fold_right String.append EmptyString l.

Lemma joined_app (l l' : list string) :
  joined (l ++ l') = joined l +++ joined l'.
Proof.
  induction l as [|a l IH]; simpl; auto.
  rewrite IH. clear IH. induction a as [|ch a IHa]; simpl; auto.
  now rewrite IHa.
Qed.

End TreeFacts.

(* --------------------------------------------------------------------- *)
(** ** The removal of empty paragraphs *)

Module CleanupFacts.

Import Engine.
Import TreeFacts.
Import NeedFacts.

(** the characters of a text that are not white space *)
Fixpoint visible (t : string) : string :=
  match t with
  | EmptyString => EmptyString
  | String a t' =>
      if Str.isSpace a then visible t' else String a (visible t')
  end.

(** The visible characters of the text a tree of nodes carries, in the
    order of the document; the text is carried by the nodes of type text,
    which are leaves. *)
Fixpoint ink (n : ADFNode) : string :=
  if String.eqb (ntype n) "text" then
    visible (match text n with Some t => t | None => EmptyString end)
  else
    match content n with
    | Some cs => joined (map ink cs)
    | None => EmptyString
    end.

Definition inkOf (adf : ADFDocument) : string :=
  joined (map ink (doccontent adf)).

Definition nonSpace (a : ascii) : bool := negb (Str.isSpace a).

Lemma visible_holds (t : string) :
  holds nonSpace t = false -> visible t = EmptyString.
Proof.
  induction t as [|a t IH]; simpl; auto. unfold nonSpace at 1.
  destruct (Str.isSpace a); simpl; [exact IH|discriminate].
Qed.

Lemma holds_rev_acc (p : ascii -> bool) (s : string) :
  forall acc, holds p (Str.rev_acc s acc) = holds p s || holds p acc.
Proof.
  induction s as [|a s IH]; intros acc; simpl; auto.
  rewrite IH. simpl. destruct (p a), (holds p s); simpl; auto.
Qed.

Lemma holds_rev (p : ascii -> bool) (s : string) :
  holds p (Str.rev s) = holds p s.
Proof. unfold Str.rev. rewrite holds_rev_acc. simpl. apply orb_false_r. Qed.

Lemma holds_trimStart (s : string) :
  holds nonSpace (Str.trimStart s) = holds nonSpace s.
Proof.
  induction s as [|a s IH]; simpl; auto.
  destruct (Str.isSpace a) eqn:A.
  - unfold nonSpace at 2. now rewrite A.
  - reflexivity.
Qed.

(** a text that [trim] empties has no visible character *)
Lemma blank_has_no_ink (t : string) :
  Str.isEmpty (Str.trim t) = true -> visible t = EmptyString.
Proof.
  intros H. apply visible_holds.
  apply StrFacts.isEmpty_length in H.
  unfold Str.trim, Str.trimEnd in H. rewrite StrFacts.length_rev in H.
  apply StrFacts.isEmpty_length in H.
  assert (E : Str.trimStart (Str.rev (Str.trimStart t)) = EmptyString)
    by (now destruct (Str.trimStart (Str.rev (Str.trimStart t)))).
  rewrite <- holds_trimStart, <- holds_rev, <- holds_trimStart, E.
  reflexivity.
Qed.

Lemma whitespaceText_ink (c : ADFNode) :
  whitespaceText c = true -> ink c = EmptyString.
Proof.
  destruct c as [ty a cs tx ms]. unfold whitespaceText. simpl.
  intros H. apply andb_prop in H as [T W]. rewrite T.
  destruct tx as [t|]; [|reflexivity].
  apply orb_prop in W as [W|W].
  - now destruct t.
  - now apply blank_has_no_ink.
Qed.

Definition kept (c : ADFNode) : list ADFNode :=
  match cleanupNode c with Some c' => [c'] | None => [] end.

Lemma cleanupNode_eq (node : ADFNode) :
  cleanupNode node
  = let cleaned :=
      match content node with
      | Some cs => setContent node (flat_map kept cs)
      | None => node
      end in
    if String.eqb (ntype node) "paragraph" then
      match content node with
      | Some cs => if forallb whitespaceText cs then None else Some cleaned
      | None => Some cleaned
      end
    else Some cleaned.
Proof. destruct node; reflexivity. Qed.

Lemma ink_kept (l : list ADFNode) :
  Forall (fun c => joined (map ink (kept c)) = ink c) l ->
  joined (map ink (flat_map kept l)) = joined (map ink l).
Proof.
  induction 1 as [|c l Hc _ IH]; simpl; auto.
  now rewrite map_app, joined_app, Hc, IH.
Qed.

(** what [cleanupNode] keeps of a node carries the ink of the node *)
Lemma cleanupNode_ink : forall n, joined (map ink (kept n)) = ink n.
Proof.
  apply adf_ind. intros ty a cs tx ms IH. unfold kept.
  rewrite cleanupNode_eq. cbn [ntype content].
  assert (Cleaned :
            ink (match cs with
                 | Some l => setContent (mkNode ty a cs tx ms)
                               (flat_map kept l)
                 | None => mkNode ty a cs tx ms
                 end) = ink (mkNode ty a cs tx ms)).
  { destruct cs as [l|]; [|reflexivity].
    simpl. destruct (String.eqb ty "text"); [reflexivity|].
    now apply ink_kept. }
  assert (One : forall x, joined (map ink [x]) = ink x).
  { intros x. simpl. clear. induction (ink x) as [|ch s IHs]; simpl; auto.
    now rewrite IHs. }
  destruct (String.eqb ty "paragraph") eqn:Para.
  - destruct cs as [l|].
    + destruct (forallb whitespaceText l) eqn:W.
      * simpl. apply String.eqb_eq in Para. subst ty. simpl.
        clear IH Cleaned. induction l as [|c l IHl]; simpl; auto.
        simpl in W. apply andb_prop in W as [Wc W].
        rewrite (whitespaceText_ink c Wc). simpl. now apply IHl.
      * cbv zeta. now rewrite One, <- Cleaned.
    + cbv zeta. now rewrite One.
  - cbv zeta. now rewrite One, <- Cleaned.
Qed.

(** X4.  [cleanupEmptyParagraphs] loses no visible character: the
    characters other than white space that the text nodes of the document
    carry are the same, in the same order, before and after it.  What it
    removes, at any depth, is paragraphs whose content is only text nodes
    of white space (or no node at all). *)
Theorem cleanup_keeps_the_ink :
  forall adf : ADFDocument,
    inkOf (cleanupEmptyParagraphs adf) = inkOf adf.
Proof.
  intros adf. unfold inkOf, cleanupEmptyParagraphs. simpl doccontent.
  apply (ink_kept (doccontent adf)).
  apply Forall_forall. intros c _. apply cleanupNode_ink.
Qed.

End CleanupFacts.

(* --------------------------------------------------------------------- *)
(** ** The deep clone of a tree *)

Module JsonFacts.

Import TreeFacts.

(** a value that holds no infinity and no [undefined] *)
Fixpoint jsonSafe (v : JsVal) : bool :=
  match v with
  | VUndef | VInf _ => false
  | VArr l => forallb jsonSafe l
  | VObj kvs => forallb (fun kv => jsonSafe (snd kv)) kvs
  | VNull | VBool _ | VNum _ | VDec _ _ | VStr _ => true
  end.

Definition jsonSafeObj (o : option Obj) : bool :=
  match o with
  | Some kvs => forallb (fun kv => jsonSafe (snd kv)) kvs
  | None => true
  end.

Definition jsonSafeMetadata (metadata : AdfMetadata) : bool :=
  jsonSafeObj (metaAttrs metadata) &&
  match metaMarks metadata with
  | Some ms => forallb (fun mark => jsonSafeObj (markAttrs mark)) ms
  | None => true
  end.

(** no field of a node of the tree holds an infinity or [undefined] *)
Fixpoint jsonSafeTree (n : MdNode) : bool :=
  match depth n with Some v => jsonSafe v | None => true end &&
  jsonSafeObj (attributes n) &&
  match adfMetadata n with
  | Some ms => forallb jsonSafeMetadata ms
  | None => true
  end &&
  match mchildren n with
  | Some cs => forallb jsonSafeTree cs
  | None => true
  end.

Lemma value_ind (P : JsVal -> Prop) :
  P VUndef -> P VNull -> (forall b, P (VBool b)) -> (forall z, P (VNum z)) ->
  (forall m e, P (VDec m e)) -> (forall n, P (VInf n)) ->
  (forall s, P (VStr s)) ->
  (forall l, Forall P l -> P (VArr l)) ->
  (forall kvs, Forall (fun kv => P (snd kv)) kvs -> P (VObj kvs)) ->
  forall v, P v.
Proof.
  intros U N B Z D I S A O. fix IH 1.
  intros [ | |b|z|m e|n|s|l|kvs];
    [exact U|exact N|apply B|apply Z|apply D|apply I|apply S| | ].
  - apply A. induction l as [|x l IHl]; constructor; [apply IH|exact IHl].
  - apply O. induction kvs as [|[k x] kvs IHl]; constructor;
      [apply IH|exact IHl].
Qed.

Lemma fields_same (kvs : Obj) :
  Forall (fun kv => jsonSafe (snd kv) = true -> Json.clone (snd kv) = snd kv)
    kvs ->
  forallb (fun kv => jsonSafe (snd kv)) kvs = true ->
  Json.fields Json.clone kvs = kvs.
Proof.
  induction 1 as [|[k v] kvs Hv _ IH]; intros S; [reflexivity|].
  simpl in S, Hv. apply andb_prop in S as [Sv S].
  simpl. rewrite (IH S), (Hv Sv). now destruct v.
Qed.

Lemma clone_same : forall v, jsonSafe v = true -> Json.clone v = v.
Proof.
  apply (value_ind (fun v => jsonSafe v = true -> Json.clone v = v));
    try reflexivity; try discriminate.
  - intros l IH S. simpl. f_equal.
    induction IH as [|x l Hx _ IHl]; [reflexivity|].
    simpl in S. apply andb_prop in S as [Sx S].
    simpl. now rewrite (Hx Sx), (IHl S).
  - intros kvs IH S. simpl. f_equal. now apply fields_same.
Qed.

Lemma cloneObj_same (o : option Obj) :
  jsonSafeObj o = true -> option_map Json.cloneObj o = o.
Proof.
  destruct o as [kvs|]; [|reflexivity]. simpl. intros S. f_equal.
  apply fields_same; auto.
  apply Forall_forall. intros kv _. apply clone_same.
Qed.

Lemma cloneMetadata_same (metadata : AdfMetadata) :
  jsonSafeMetadata metadata = true -> Json.cloneMetadata metadata = metadata.
Proof.
  destruct metadata as [ty a raw ms]. unfold jsonSafeMetadata. simpl.
  intros S. apply andb_prop in S as [Sa Sm].
  unfold Json.cloneMetadata. simpl. rewrite (cloneObj_same a Sa).
  f_equal. destruct ms as [ms|]; [|reflexivity]. simpl. f_equal.
  induction ms as [|[mt ma] ms IH]; [reflexivity|].
  simpl in Sm. apply andb_prop in Sm as [S1 Sm].
  simpl. rewrite (IH Sm). unfold Json.cloneMark. simpl.
  now rewrite (cloneObj_same ma S1).
Qed.

Lemma jsonSafeTree_eq (n : MdNode) :
  jsonSafeTree n
  = match depth n with Some v => jsonSafe v | None => true end &&
    jsonSafeObj (attributes n) &&
    match adfMetadata n with
    | Some ms => forallb jsonSafeMetadata ms
    | None => true
    end &&
    match mchildren n with
    | Some cs => forallb jsonSafeTree cs
    | None => true
    end.
Proof. now destruct n. Qed.

Lemma cloneTree_eq (n : MdNode) :
  Json.cloneTree n
  = mkMd (mtype n) (mvalue n)
      (match mchildren n with
       | Some cs => Some (map Json.cloneTree cs)
       | None => None
       end)
      (Json.cloneField (depth n)) (lang n) (meta n) (url n) (alt n) (title n)
      (ordered n) (start n) (nodeType n)
      (option_map Json.cloneObj (attributes n))
      (option_map (map Json.cloneMetadata) (adfMetadata n)).
Proof. now destruct n. Qed.

(** the clone of a tree without an infinity and without [undefined] is
    the tree *)
Lemma cloneTree_same : forall n, jsonSafeTree n = true -> Json.cloneTree n = n.
Proof.
  apply (md_ind (fun n => jsonSafeTree n = true -> Json.cloneTree n = n)).
  intros n IH S. rewrite jsonSafeTree_eq in S. rewrite cloneTree_eq.
  apply andb_prop in S as [S Sc]. apply andb_prop in S as [S Sm].
  apply andb_prop in S as [Sd Sa].
  rewrite (cloneObj_same _ Sa).
  assert (D : Json.cloneField (depth n) = depth n).
  { destruct (depth n) as [v|]; [|reflexivity].
    unfold Json.cloneField. rewrite (clone_same v Sd).
    now destruct v. }
  assert (M : option_map (map Json.cloneMetadata) (adfMetadata n)
              = adfMetadata n).
  { destruct (adfMetadata n) as [ms|]; [|reflexivity]. simpl. f_equal.
    induction ms as [|m ms IHm]; [reflexivity|].
    simpl in Sm. apply andb_prop in Sm as [S1 Sm].
    simpl. now rewrite (cloneMetadata_same m S1), (IHm Sm). }
  assert (C : match mchildren n with
              | Some cs => Some (map Json.cloneTree cs)
              | None => None
              end = mchildren n).
  { destruct (mchildren n) as [cs|]; [|reflexivity]. f_equal.
    induction IH as [|c cs Hc _ IHc]; [reflexivity|].
    simpl in Sc. apply andb_prop in Sc as [S1 Sc].
    simpl. now rewrite (Hc S1), (IHc Sc). }
  rewrite D, M, C. now destruct n.
Qed.

Lemma kids_clone (n : MdNode) :
  Md.kids (Json.cloneTree n) = map Json.cloneTree (Md.kids n).
Proof. destruct n as [ty v [cs|] d l me u al ti o st nt at' am]; reflexivity. Qed.

Lemma height_clone :
  forall n, FenceFacts.height (Json.cloneTree n) = FenceFacts.height n.
Proof.
  apply (md_ind (fun n => FenceFacts.height (Json.cloneTree n)
                          = FenceFacts.height n)).
  intros [ty v [cs|] d l me u al ti o st nt at' am] IH; [|reflexivity].
  simpl in IH |- *. f_equal. f_equal. rewrite map_map.
  induction IH as [|c cs Hc _ IHc]; [reflexivity|].
  simpl. now rewrite Hc, IHc.
Qed.

End JsonFacts.

(* --------------------------------------------------------------------- *)
(** ** Trees without fences *)

Module FenceFreeFacts.

Import Engine.
Import NeedFacts.

Definition tilde (a : ascii) : bool := Ascii.eqb a "~".

(** no node of the tree is a code block in one of the fence languages, and
    no text node holds a tilde *)
Fixpoint fenceFree (n : MdNode) : bool :=
  negb (isAdfCode n) &&
  negb (String.eqb (mtype n) "text" &&
        match mvalue n with Some v => holds tilde v | None => false end) &&
  match mchildren n with
  | Some children => forallb fenceFree children
  | None => true
  end.

Lemma fenceFree_eq (n : MdNode) :
  fenceFree n
  = negb (isAdfCode n) &&
    negb (String.eqb (mtype n) "text" &&
          match mvalue n with Some v => holds tilde v | None => false end) &&
    match mchildren n with
    | Some children => forallb fenceFree children
    | None => true
    end.
Proof. now destruct n. Qed.

Lemma holds_trimStart_le (p : ascii -> bool) (s : string) :
  holds p s = false -> holds p (Str.trimStart s) = false.
Proof.
  induction s as [|a s IH]; simpl; auto.
  intros H. destruct (Str.isSpace a); [|exact H].
  apply orb_false_iff in H as [_ H]. now apply IH.
Qed.

Lemma holds_trim_le (p : ascii -> bool) (s : string) :
  holds p s = false -> holds p (Str.trim s) = false.
Proof.
  intros H. unfold Str.trim, Str.trimEnd.
  rewrite CleanupFacts.holds_rev. apply holds_trimStart_le.
  rewrite CleanupFacts.holds_rev. now apply holds_trimStart_le.
Qed.

Lemma fence_needs_tilde : needs tilde adfFencePattern = true.
Proof. vm_compute. reflexivity. Qed.

Section Untouched.

Variable rt : Runtime.

(** neither [if] of [processNode] fires on such a node *)
Lemma convertFence_fenceFree (n : MdNode) :
  fenceFree n = true -> convertFence rt n = (n, false).
Proof.
  rewrite fenceFree_eq. intros H.
  apply andb_prop in H as [H _]. apply andb_prop in H as [A T].
  apply negb_true_iff in A, T.
  unfold convertFence. rewrite A.
  unfold convertText, fenceOfText.
  destruct (String.eqb (mtype n) "text"); [|reflexivity].
  destruct (mvalue n) as [textContent|]; [|reflexivity].
  destruct (Str.isEmpty textContent); [reflexivity|].
  simpl in T.
  now rewrite (exec_needs tilde (Str.trim textContent) adfFencePattern
                 fence_needs_tilde (holds_trim_le _ _ T)).
Qed.

Lemma forEach_same (visit : MdNode -> option (MdNode * bool)) :
  forall cs,
    (forall c, In c cs -> visit c = Some (c, false)) ->
    forEach visit cs = Some (cs, false).
Proof.
  induction cs as [|c cs IH]; intros H; simpl; auto.
  rewrite (H c (or_introl eq_refl)).
  now rewrite (IH (fun c0 I0 => H c0 (or_intror I0))).
Qed.

Lemma withChildren_same (n : MdNode) (cs : list MdNode) :
  mchildren n = Some cs -> Md.withChildren n (Some cs) = n.
Proof. destruct n; simpl. now intros ->. Qed.

Lemma processNode_fenceFree :
  forall fuel n,
    fenceFree n = true ->
    FenceFacts.height n < fuel ->
    processNode rt fuel n = Some (n, false).
Proof.
  induction fuel as [|fuel IH]; intros n F H; [lia|].
  simpl. rewrite (convertFence_fenceFree n F). simpl.
  destruct (mchildren n) as [children|] eqn:C; [|reflexivity].
  rewrite (forEach_same (processNode rt fuel) children).
  - now rewrite (withChildren_same n children C).
  - intros c I0. apply IH.
    + rewrite fenceFree_eq, C in F. apply andb_prop in F as [_ F].
      rewrite forallb_forall in F. now apply F.
    + assert (K : In c (Md.kids n)) by (unfold Md.kids; now rewrite C).
      apply FenceFacts.height_kid in K. lia.
Qed.

End Untouched.

Lemma fenceLoop_fenceFree (rt : Runtime) (tree : MdNode) :
  forallb fenceFree (Md.kids tree) = true ->
  FenceFacts.height tree <= callDepth rt ->
  fenceLoop rt maxPasses tree 0 = Some (tree, 1).
Proof.
  intros F H.
  unfold maxPasses. simpl. unfold fencePass, processAll.
  rewrite (forEach_same (processNode rt (callDepth rt)) (Md.kids tree)).
  - destruct (mchildren tree) as [cs|] eqn:C; [|reflexivity].
    unfold Md.kids. rewrite C.
    now rewrite (withChildren_same tree cs C).
  - intros c I0. apply processNode_fenceFree.
    + rewrite forallb_forall in F. now apply F.
    + apply FenceFacts.height_kid in I0. lia.
Qed.

Lemma fenceFree_clone :
  forall n, fenceFree (Json.cloneTree n) = fenceFree n.
Proof.
  apply (TreeFacts.md_ind
           (fun n => fenceFree (Json.cloneTree n) = fenceFree n)).
  intros [ty v [cs|] d l me u al ti o st nt at' am] IH; [|reflexivity].
  simpl in IH.
  rewrite (fenceFree_eq (Json.cloneTree _)), fenceFree_eq.
  rewrite JsonFacts.cloneTree_eq. cbn [mtype mvalue mchildren lang].
  unfold isAdfCode. cbn [mtype mvalue mchildren lang].
  f_equal.
  induction IH as [|c cs Hc _ IHc]; [reflexivity|].
  simpl. now rewrite Hc, IHc.
Qed.

(** the pass on the clone of such a tree *)
Lemma postProcess_fenceFree (rt : Runtime) (tree : MdNode) :
  forallb fenceFree (Md.kids tree) = true ->
  FenceFacts.height tree <= callDepth rt ->
  fenceLoop rt maxPasses (Json.cloneTree tree) 0
  = Some (Json.cloneTree tree, 1)
  /\ postProcessAdfFenceBlocks rt tree = Some (Json.cloneTree tree).
Proof.
  intros F H.
  assert (L : fenceLoop rt maxPasses (Json.cloneTree tree) 0
              = Some (Json.cloneTree tree, 1)).
  { apply fenceLoop_fenceFree.
    - rewrite JsonFacts.kids_clone, forallb_forall.
      intros c I0. apply in_map_iff in I0 as (c0 & <- & I0).
      rewrite fenceFree_clone. rewrite forallb_forall in F. now apply F.
    - now rewrite JsonFacts.height_clone. }
  split; [exact L|].
  unfold postProcessAdfFenceBlocks; cbv zeta; now rewrite L.
Qed.

(** X5.  A tree in which no node is a code block in one of the fence
    languages and no text node holds a tilde comes out of
    [postProcessAdfFenceBlocks] as its deep clone, after one pass,
    whenever the calls needed to go down the tree are available; the clone
    is the tree as it went in when no attribute, depth or metadata of a
    node holds an infinity or [undefined]. *)
Theorem fence_free_tree_is_untouched :
  forall (rt : Runtime) (tree : MdNode),
    forallb fenceFree (Md.kids tree) = true ->
    FenceFacts.height tree <= callDepth rt ->
    postProcessAdfFenceBlocks rt tree = Some (Json.cloneTree tree)
    /\ fenceLoop rt maxPasses (Json.cloneTree tree) 0
       = Some (Json.cloneTree tree, 1)
    /\ (JsonFacts.jsonSafeTree tree = true ->
        postProcessAdfFenceBlocks rt tree = Some tree).
Proof.
  intros rt tree F H.
  destruct (postProcess_fenceFree rt tree F H) as [L P].
  split; [exact P|]. split; [exact L|].
  intros S. now rewrite P, (JsonFacts.cloneTree_same tree S).
Qed.

Definition plainTree : MdNode :=
  Md.parent "root"
    [Md.heading 1 [Md.text "Title"];
     Md.parent "paragraph" [Md.text "plain "; Md.inlineCode "~~~panel"];
     Md.code (Some "js") None "let x = 1"].

(** a runtime with no parser and room for three nested calls *)
Definition plainRuntime : Runtime :=
  ConvertFacts.withCallDepth InputFacts.idleRuntime 3.

Lemma fence_free_tree_is_untouched_witness :
  forallb fenceFree (Md.kids plainTree) = true
  /\ FenceFacts.height plainTree <= callDepth plainRuntime
  /\ JsonFacts.jsonSafeTree plainTree = true
  /\ postProcessAdfFenceBlocks plainRuntime plainTree = Some plainTree.
Proof.
  assert (H1 : forallb fenceFree (Md.kids plainTree) = true) by reflexivity.
  assert (H2 : FenceFacts.height plainTree <= callDepth plainRuntime)
    by (vm_compute; lia).
  assert (H3 : JsonFacts.jsonSafeTree plainTree = true) by reflexivity.
  split; [exact H1|]. split; [exact H2|]. split; [exact H3|].
  exact (proj2 (proj2 (fence_free_tree_is_untouched plainRuntime plainTree
                         H1 H2)) H3).
Defined.

(** a paragraph that carries a width read from a comment as [Infinity] *)
Definition wideTree : MdNode :=
  Md.parent "root"
    [Md.withMetadata (Md.parent "paragraph" [Md.text "wide"])
       (Some [mkMeta "paragraph" (Some [("w", VInf false)])
                "<!-- adf:paragraph w=Infinity -->" None])].

(** the width comes out as [null] *)
Lemma infinite_width_comes_out_null :
  postProcessAdfFenceBlocks plainRuntime wideTree
  = Some (Md.parent "root"
            [Md.withMetadata (Md.parent "paragraph" [Md.text "wide"])
               (Some [mkMeta "paragraph" (Some [("w", VNull)])
                        "<!-- adf:paragraph w=Infinity -->" None])]).
Proof. vm_compute. reflexivity. Qed.

End FenceFreeFacts.

(* --------------------------------------------------------------------- *)
(** ** Text the preprocessing leaves alone *)

Module PreprocessFacts.

Import Engine.
Import NeedFacts.

Definition lessThan (a : ascii) : bool := Ascii.eqb a "<".

Lemma comments_need_less_than : needs lessThan consecutiveCommentsRe = true.
Proof. vm_compute. reflexivity. Qed.

Lemma blocks_need_tilde :
  needs FenceFreeFacts.tilde adfBlockPattern = true.
Proof. vm_compute. reflexivity. Qed.

Lemma preprocess_plain (markdown : string) :
  holds lessThan markdown = false ->
  holds FenceFreeFacts.tilde markdown = false ->
  ConvertFacts.preprocess markdown = markdown.
Proof.
  intros L T. unfold ConvertFacts.preprocess.
  unfold preprocessConsecutiveHtmlComments.
  rewrite (replaceAll_needs lessThan markdown _ _ comments_need_less_than L).
  unfold preprocessNestedAdfBlocks.
  exact (replaceAll_needs FenceFreeFacts.tilde markdown _ _
           blocks_need_tilde T).
Qed.

(** X6.  A text that holds no less-than sign is left as it is by
    [preprocessConsecutiveHtmlComments], a text that holds no tilde by
    [preprocessNestedAdfBlocks]; a text that holds neither reaches the
    parser character for character. *)
Theorem plain_markdown_reaches_the_parser :
  forall markdown : string,
    (holds lessThan markdown = false ->
     preprocessConsecutiveHtmlComments markdown = markdown)
    /\ (holds FenceFreeFacts.tilde markdown = false ->
        preprocessNestedAdfBlocks markdown = markdown)
    /\ (holds lessThan markdown = false ->
        holds FenceFreeFacts.tilde markdown = false ->
        preprocessNestedAdfBlocks
          (preprocessConsecutiveHtmlComments markdown) = markdown).
Proof.
  intros markdown. split; [|split].
  - intros L. unfold preprocessConsecutiveHtmlComments.
    exact (replaceAll_needs lessThan markdown _ _
             comments_need_less_than L).
  - intros T. unfold preprocessNestedAdfBlocks.
    exact (replaceAll_needs FenceFreeFacts.tilde markdown _ _
             blocks_need_tilde T).
  - intros L T. exact (preprocess_plain markdown L T).
Qed.

Lemma plain_markdown_reaches_the_parser_witness :
  preprocessNestedAdfBlocks
    (preprocessConsecutiveHtmlComments "# Title")
  = "# Title".
Proof.
  apply (proj2 (proj2 (plain_markdown_reaches_the_parser "# Title")));
    reflexivity.
Defined.

End PreprocessFacts.

(* --------------------------------------------------------------------- *)
(** ** Trees without comments *)

Module CommentFreeFacts.

Import Metadata.
Import TreeFacts.

(** no node of the tree is an html node *)
Fixpoint htmlFree (n : MdNode) : bool :=
  negb (String.eqb (mtype n) "html") &&
  match mchildren n with
  | Some children => forallb htmlFree children
  | None => true
  end.

Lemma htmlFree_eq (n : MdNode) :
  htmlFree n
  = negb (String.eqb (mtype n) "html") &&
    match mchildren n with
    | Some children => forallb htmlFree children
    | None => true
    end.
Proof. now destruct n. Qed.

Lemma htmlFree_type (n : MdNode) :
  htmlFree n = true -> String.eqb (mtype n) "html" = false.
Proof.
  rewrite htmlFree_eq. intros H. apply andb_prop in H as [H _].
  now apply negb_true_iff in H.
Qed.

Lemma htmlFree_kids (n : MdNode) (cs : list MdNode) :
  htmlFree n = true -> mchildren n = Some cs ->
  forall c, In c cs -> htmlFree c = true.
Proof.
  rewrite htmlFree_eq. intros H C. rewrite C in H.
  apply andb_prop in H as [_ H]. now apply forallb_forall.
Qed.

Lemma children_put_back (n : MdNode) (cs : list MdNode) :
  mchildren n = Some cs -> Md.withChildren n (Some cs) = n.
Proof. destruct n; simpl. now intros ->. Qed.

Lemma spanVisit_eq (node : MdNode) :
  spanVisit node
  = match spanOfHtml node with
    | Some newParagraph => newParagraph
    | None =>
        match mchildren node with
        | None => node
        | Some cs =>
            if String.eqb (mtype node) "paragraph"
            then Md.withChildren node (Some (collapseWith spanVisit cs))
            else Md.withChildren node (Some (map spanVisit cs))
        end
    end.
Proof. now destruct node. Qed.

Lemma collapse_cons (f : MdNode -> MdNode) (o : MdNode)
  (tl : list MdNode) :
  collapseWith f (o :: tl)
  = match tl with
    | t :: c :: rest =>
        match spanOfTriple o t c with
        | Some newTextNode => newTextNode :: collapseWith f rest
        | None => f o :: collapseWith f tl
        end
    | _ => f o :: collapseWith f tl
    end.
Proof. reflexivity. Qed.

Lemma collapse_same (f : MdNode -> MdNode) :
  forall cs,
    (forall c, In c cs -> htmlFree c = true /\ f c = c) ->
    collapseWith f cs = cs.
Proof.
  induction cs as [|o tl IH]; intros H; [reflexivity|].
  assert (Tl : collapseWith f tl = tl)
    by (apply IH; intros c I0; apply H; now right).
  destruct (H o (or_introl eq_refl)) as [Ho Fo].
  apply htmlFree_type in Ho.
  rewrite collapse_cons, Tl, Fo.
  destruct tl as [|t [|c rest]]; try reflexivity.
  unfold spanOfTriple. now rewrite Ho.
Qed.

Lemma map_same {A} (f : A -> A) (l : list A) :
  (forall x, In x l -> f x = x) -> map f l = l.
Proof.
  induction l as [|x l IH]; intros H; simpl; auto.
  rewrite (H x (or_introl eq_refl)), IH; auto.
  intros y I0. apply H. now right.
Qed.

(** the visitor of the span comments leaves such a tree alone *)
Lemma spanVisit_htmlFree : forall n, htmlFree n = true -> spanVisit n = n.
Proof.
  apply (md_ind (fun n => htmlFree n = true -> spanVisit n = n)).
  intros n IH H. rewrite spanVisit_eq.
  unfold spanOfHtml. rewrite (htmlFree_type n H).
  destruct (mchildren n) as [cs|] eqn:C; [|reflexivity].
  rewrite Forall_forall in IH.
  pose proof (htmlFree_kids n cs H C) as K.
  destruct (String.eqb (mtype n) "paragraph").
  - rewrite (collapse_same spanVisit cs); [now apply children_put_back|].
    intros c I0. split; [now apply K|]. apply IH; auto.
  - rewrite (map_same spanVisit cs); [now apply children_put_back|].
    intros c I0. apply IH; auto.
Qed.

Section WithJson.

Variable jsonParse : string -> option JsVal.

Lemma commentsOf_htmlFree (parent : MdNode) :
  (forall c, In c (Md.kids parent) -> htmlFree c = true) ->
  commentsOf jsonParse parent = [].
Proof.
  unfold commentsOf. generalize 0 as i.
  induction (Md.kids parent) as [|c cs IH]; intros i H; [reflexivity|].
  simpl. rewrite (htmlFree_type c (H c (or_introl eq_refl))). simpl.
  apply IH. intros c0 I0. apply H. now right.
Qed.

Lemma attachBelow_eq (node : MdNode) :
  attachBelow jsonParse node
  = match mchildren node with
    | None => (node, [])
    | Some cs =>
        let found := commentsOf jsonParse node in
        let visited := map (attachBelow jsonParse) cs in
        let attached :=
          map (fun jc =>
                 let j := fst jc in
                 (j, push (fst (snd jc))
                       (addressedTo j true found ++ snd (snd jc) ++
                        addressedTo j false found)))
            (indexed 0 visited) in
        let kept :=
          filter (fun jc =>
                    negb (existsb (fun f => fst (fst f) =? fst jc) found))
            attached in
        (Md.withChildren node (Some (map snd kept)),
         addressedToParent found)
    end.
Proof. now destruct node. Qed.

Lemma attached_same (cs : list MdNode) :
  forall i,
    map snd
      (filter (fun jc : nat * MdNode => negb false)
         (map (fun jc : nat * (MdNode * list AdfMetadata) =>
                 (fst jc, push (fst (snd jc)) ([] ++ snd (snd jc) ++ [])))
            (indexed i (map (fun c => (c, @nil AdfMetadata)) cs))))
    = cs.
Proof.
  induction cs as [|c cs IH]; intros i; simpl; auto.
  now rewrite IH.
Qed.

(** and so does the traversal that attaches the block comments *)
Lemma attachBelow_htmlFree :
  forall n, htmlFree n = true -> attachBelow jsonParse n = (n, []).
Proof.
  apply (md_ind (fun n => htmlFree n = true ->
                          attachBelow jsonParse n = (n, []))).
  intros n IH H. rewrite attachBelow_eq.
  destruct (mchildren n) as [cs|] eqn:C; [|reflexivity].
  rewrite Forall_forall in IH.
  pose proof (htmlFree_kids n cs H C) as K.
  rewrite commentsOf_htmlFree
    by (unfold Md.kids; rewrite C; exact K).
  cbv zeta. simpl addressedToParent.
  replace (map (attachBelow jsonParse) cs)
    with (map (fun c => (c, @nil AdfMetadata)) cs)
    by (apply map_ext_in; intros c I0; symmetry; apply IH; auto).
  simpl existsb. simpl addressedTo.
  rewrite attached_same. now rewrite (children_put_back n cs C).
Qed.

End WithJson.

Lemma processMetadataComments_htmlFree
  (jsonParse : string -> option JsVal) (tree : MdNode) :
  forallb htmlFree (Md.kids tree) = true ->
  processMetadataComments jsonParse tree = tree.
Proof.
  intros H. rewrite forallb_forall in H.
  unfold processMetadataComments, processSpanMetadataComments.
  destruct (mchildren tree) as [cs|] eqn:C.
  - assert (K : forall c, In c cs -> htmlFree c = true)
      by (intros c I0; apply H; unfold Md.kids; now rewrite C).
    rewrite (map_same spanVisit cs)
      by (intros c I0; apply spanVisit_htmlFree; auto).
    rewrite (children_put_back tree cs C).
    rewrite attachBelow_eq, C.
    rewrite commentsOf_htmlFree
      by (unfold Md.kids; rewrite C; exact K).
    cbv zeta. simpl addressedToParent. simpl existsb. simpl addressedTo.
    replace (map (attachBelow jsonParse) cs)
      with (map (fun c => (c, @nil AdfMetadata)) cs)
      by (apply map_ext_in; intros c I0; symmetry;
          apply attachBelow_htmlFree; auto).
    rewrite attached_same. simpl. now apply children_put_back.
  - rewrite attachBelow_eq, C. reflexivity.
Qed.



End CommentFreeFacts.

(* --------------------------------------------------------------------- *)
(** ** Documents of plain headings and paragraphs *)

Module PlainDocumentFacts.

Import Engine.
Import NeedFacts.
Import ConvertFacts.

(** a heading of some depth, or a paragraph, that holds one text *)
Record Block := mkBlock {
  headingDepth : option Z;
  blockText : string
}.

(** the block as the parser gives it *)
Definition mdBlock (b : Block) : MdNode :=
  match headingDepth b with
  | Some d => Md.heading d [Md.text (blockText b)]
  | None => Md.parent "paragraph" [Md.text (blockText b)]
  end.

(** the block as the document holds it *)
Definition adfBlock (b : Block) : ADFNode :=
  match headingDepth b with
  | Some d =>
      mkNode "heading" (Some [("level", VNum d)])
        (Some [textNode (blockText b)]) None None
  | None => blockNode "paragraph" [textNode (blockText b)]
  end.

(** a text with some ink, that holds none of the characters an inline
    element or a fence starts with *)
Definition plainText (t : string) : bool :=
  negb (holds PlainTextFacts.markupChar t) &&
  negb (holds FenceFreeFacts.tilde t) &&
  negb (Str.isEmpty (Str.trim t)).

Definition plainBlock (b : Block) : bool := plainText (blockText b).

Lemma plainText_parts (t : string) :
  plainText t = true ->
  holds PlainTextFacts.markupChar t = false
  /\ holds FenceFreeFacts.tilde t = false
  /\ Str.isEmpty (Str.trim t) = false
  /\ Str.isEmpty t = false.
Proof.
  unfold plainText. intros H.
  apply andb_prop in H as [H T]. apply andb_prop in H as [M F].
  apply negb_true_iff in M, F, T.
  repeat split; auto.
  destruct t; [discriminate T|reflexivity].
Qed.

(** *** The three steps leave the tree as it is *)

Lemma mdBlock_htmlFree (blocks : list Block) :
  forallb CommentFreeFacts.htmlFree (map mdBlock blocks) = true.
Proof.
  induction blocks as [|[[d|] t] blocks IH]; simpl; auto.
Qed.

Lemma mdBlock_fenceFree (blocks : list Block) :
  forallb plainBlock blocks = true ->
  forallb FenceFreeFacts.fenceFree (map mdBlock blocks) = true.
Proof.
  induction blocks as [|b blocks IH]; intros H; [reflexivity|].
  simpl in H. apply andb_prop in H as [P H].
  change (map mdBlock (b :: blocks)) with (mdBlock b :: map mdBlock blocks).
  change (forallb FenceFreeFacts.fenceFree
            (mdBlock b :: map mdBlock blocks))
    with (FenceFreeFacts.fenceFree (mdBlock b) &&
          forallb FenceFreeFacts.fenceFree (map mdBlock blocks)).
  rewrite (IH H), andb_true_r.
  apply plainText_parts in P as (_ & T & _).
  destruct b as [[d|] t]; simpl in T |- *; now rewrite T.
Qed.

Lemma mdBlock_height (blocks : list Block) :
  list_max (map FenceFacts.height (map mdBlock blocks)) <= 1.
Proof.
  induction blocks as [|b blocks IH]; [simpl; lia|].
  rewrite !map_cons.
  assert (H : FenceFacts.height (mdBlock b) = 1)
    by (destruct b as [[d|] t]; reflexivity).
  unfold list_max in *. cbn [fold_right]. rewrite H. lia.
Qed.

Lemma mdBlock_jsonSafe (blocks : list Block) :
  forallb JsonFacts.jsonSafeTree (map mdBlock blocks) = true.
Proof.
  induction blocks as [|[[d|] t] blocks IH]; simpl; auto.
Qed.

Lemma mdBlock_no_frontmatter (blocks : list Block) :
  find (fun node => String.eqb (mtype node) "yaml") (map mdBlock blocks)
  = None.
Proof.
  induction blocks as [|[[d|] t] blocks IH]; simpl; auto.
Qed.

(** *** The blocks of the document *)

Section WithOptions.

Variable getEmojiData : string -> Social.EmojiData.
Variable jsonParse : string -> option JsVal.
Variable preserveUnknownNodes : bool.
Variable parseBlockContentWithSocialElements : string -> list ADFNode.

Lemma convert_text (t : string) :
  plainText t = true ->
  Builder.convertMdastInlineNodes getEmojiData preserveUnknownNodes
    [Md.text t]
  = [textNode t].
Proof.
  intros P. apply plainText_parts in P as (M & _ & _ & E).
  unfold Builder.convertMdastInlineNodes.
  change (flat_map
            (Builder.convertMdastInlineNode getEmojiData
               preserveUnknownNodes) [Md.text t])
    with (Social.processTextNodeForSocialElements getEmojiData t ++ []).
  rewrite (PlainTextFacts.plain_text_node getEmojiData t M), E.
  reflexivity.
Qed.

Lemma convert_block (b : Block) :
  plainBlock b = true ->
  Builder.convertMdastNodeToADF getEmojiData jsonParse preserveUnknownNodes
    parseBlockContentWithSocialElements (mdBlock b)
  = Builder.COne (adfBlock b).
Proof.
  intros P. pose proof (convert_text (blockText b) P) as T.
  destruct b as [[d|] t]; unfold mdBlock, adfBlock;
    cbn [headingDepth blockText] in *.
  - change (Builder.convertMdastNodeToADF getEmojiData jsonParse
              preserveUnknownNodes parseBlockContentWithSocialElements
              (Md.heading d [Md.text t]))
      with (Builder.COne
              (mkNode "heading" (Some [("level", VNum d)])
                 (Some (Builder.convertMdastInlineNodes getEmojiData
                          preserveUnknownNodes [Md.text t])) None None)).
    now rewrite T.
  - cbn -[Builder.convertMdastInlineNodes Builder.postProcessInlineCards
          textNode] in *.
    rewrite T. reflexivity.
Qed.

Lemma convert_blocks (blocks : list Block) :
  forallb plainBlock blocks = true ->
  Builder.convertMdastNodesToADF getEmojiData jsonParse
    preserveUnknownNodes parseBlockContentWithSocialElements
    (map mdBlock blocks)
  = map adfBlock blocks.
Proof.
  unfold Builder.convertMdastNodesToADF.
  induction blocks as [|b blocks IH]; intros H; [reflexivity|].
  simpl in H. apply andb_prop in H as [P H].
  change (map mdBlock (b :: blocks)) with (mdBlock b :: map mdBlock blocks).
  rewrite map_cons, (convert_block b P).
  change (Builder.flatten (Builder.COne (adfBlock b) :: ?l))
    with (adfBlock b :: Builder.flatten l).
  simpl. f_equal. now apply IH.
Qed.

End WithOptions.

Lemma cleanup_block (b : Block) :
  plainBlock b = true -> cleanupNode (adfBlock b) = Some (adfBlock b).
Proof.
  intros P. apply plainText_parts in P as (_ & _ & T & E).
  destruct b as [[d|] t]; simpl in T, E.
  - reflexivity.
  - rewrite CleanupFacts.cleanupNode_eq.
    unfold adfBlock. cbn -[Str.isEmpty Str.trim]. rewrite E, T.
    reflexivity.
Qed.

Lemma cleanup_blocks (blocks : list Block) :
  forallb plainBlock blocks = true ->
  flat_map CleanupFacts.kept (map adfBlock blocks) = map adfBlock blocks.
Proof.
  induction blocks as [|b blocks IH]; intros H; [reflexivity|].
  simpl in H. apply andb_prop in H as [P H].
  rewrite map_cons. simpl flat_map. unfold CleanupFacts.kept at 1.
  rewrite (cleanup_block b P). simpl. f_equal. now apply IH.
Qed.

(** X8.  A text the parser reads as headings and paragraphs, each holding
    one text with some ink and none of the characters [{ : [ ! * ` < ~]
    or a digit, is converted, in either mode, to the document of version 1
    that holds these headings (with their level) and paragraphs, each with
    one text node without marks, in the order of the text; two nested
    calls are all it needs. *)
Theorem plain_blocks_convert_one_to_one :
  forall (options : Options) (rt : Runtime) (markdown : string)
         (blocks : list Block),
    String.length (Str.trim markdown) <> 0 ->
    parse rt (preprocess markdown)
    = Some (Md.parent "root" (map mdBlock blocks)) ->
    forallb plainBlock blocks = true ->
    2 <= callDepth rt ->
    convert options rt (VStr markdown)
    = Returned (mkDoc 1 "doc" (map adfBlock blocks)).
Proof.
  intros options rt markdown blocks Hblank Hparse P D.
  rewrite (convert_parsed options rt markdown _ Hblank Hparse).
  unfold convertMdastToAdfSync.
  rewrite (CommentFreeFacts.processMetadataComments_htmlFree (jsonParse rt)
             (Md.parent "root" (map mdBlock blocks))
             (mdBlock_htmlFree blocks)).
  assert (L : postProcessAdfFenceBlocks rt
                (Md.parent "root" (map mdBlock blocks))
              = Some (Md.parent "root" (map mdBlock blocks))).
  { assert (Hh : FenceFacts.height (Md.parent "root" (map mdBlock blocks))
                 <= callDepth rt).
    { pose proof (mdBlock_height blocks) as Hh.
      change (FenceFacts.height (Md.parent "root" (map mdBlock blocks)))
        with (S (list_max (map FenceFacts.height (map mdBlock blocks)))).
      lia. }
    rewrite (proj2 (FenceFreeFacts.postProcess_fenceFree rt
                      (Md.parent "root" (map mdBlock blocks))
                      (mdBlock_fenceFree blocks P) Hh)).
    rewrite JsonFacts.cloneTree_same; [reflexivity|].
    rewrite JsonFacts.jsonSafeTree_eq.
    exact (mdBlock_jsonSafe blocks). }
  rewrite L.
  unfold frontmatterParses.
  change (Md.kids (Md.parent "root" (map mdBlock blocks)))
    with (map mdBlock blocks).
  rewrite (mdBlock_no_frontmatter blocks).
  unfold buildADF, Builder.buildADFFromMdast.
  change (Md.kids (Md.parent "root" (map mdBlock blocks)))
    with (map mdBlock blocks).
  rewrite (convert_blocks _ _ _ _ blocks P).
  unfold cleanupEmptyParagraphs. simpl.
  change (flat_map _ (map adfBlock blocks))
    with (flat_map CleanupFacts.kept (map adfBlock blocks)).
  now rewrite (cleanup_blocks blocks P).
Qed.

Definition notes : list Block :=
  [mkBlock (Some 1%Z) "Release notes";
   mkBlock None "Nothing changed.";
   mkBlock (Some 2%Z) "Thanks"].

Definition notesMarkup : string :=
  "# Release notes" +++ Str.nl +++ Str.nl +++ "Nothing changed." +++
  Str.nl +++ Str.nl +++ "## Thanks".

Definition notesRuntime : Runtime :=
  readingAs notesMarkup (Md.parent "root" (map mdBlock notes)) 2.

Lemma plain_blocks_convert_one_to_one_witness :
  convert defaultOptions notesRuntime (VStr notesMarkup)
  = Returned
      (mkDoc 1 "doc"
         [mkNode "heading" (Some [("level", VNum 1)])
            (Some [textNode "Release notes"]) None None;
          blockNode "paragraph" [textNode "Nothing changed."];
          mkNode "heading" (Some [("level", VNum 2)])
            (Some [textNode "Thanks"]) None None]).
Proof.
  apply (plain_blocks_convert_one_to_one defaultOptions notesRuntime
           notesMarkup notes).
  - vm_compute. discriminate.
  - reflexivity.
  - reflexivity.
  - simpl. lia.
Defined.

End PlainDocumentFacts.
(* --------------------------------------------------------------------- *)
(** ** From the document to the generic tree and back *)

Module StyledTextFacts.

Import Builder.
Import NeedFacts.

(** the marks that are written as a node around the text *)
Inductive Style := Strong | Em | Link (href : string).

Definition markOf (s : Style) : ADFMark :=
  match s with
  | Strong => simpleMark "strong"
  | Em => simpleMark "em"
  | Link href => mkMark "link" (Some [("href", VStr href)])
  end.

(** a text, in code or not, under some marks, the innermost first *)
Record Span := mkSpan {
  spanText : string;
  spanCode : bool;
  spanStyles : list Style
}.

Definition marksOf (sp : Span) : list ADFMark :=
  (if spanCode sp then [simpleMark "code"] else []) ++
  map markOf (spanStyles sp).

Definition withMarks (t : string) (ms : list ADFMark) : ADFNode :=
  mkNode "text" None None (Some t)
    match ms with [] => None | _ => Some ms end.

(** the span as the document holds it: one text node *)
Definition adfSpan (sp : Span) : ADFNode :=
  withMarks (spanText sp) (marksOf sp).

Definition wrap (result : MdNode) (s : Style) : MdNode :=
  match s with
  | Strong => Md.parent "strong" [result]
  | Em => Md.parent "emphasis" [result]
  | Link href => Md.link href [result]
  end.

(** the span as the generic tree holds it: the text or the inline code
    under one node for each mark *)
Definition mdSpan (sp : Span) : MdNode :=
  fold_left wrap (spanStyles sp)
    (if spanCode sp then Md.inlineCode (spanText sp)
     else Md.text (spanText sp)).

(** a link to a card is read back as a card, not as a link *)
Definition usable (s : Style) : bool :=
  match s with
  | Link href => negb (Str.startsWith "card:" href)
  | _ => true
  end.

(** a text outside code is not empty and holds none of the characters an
    inline element starts with *)
Definition wellFormed (sp : Span) : bool :=
  (spanCode sp ||
   negb (Str.isEmpty (spanText sp)) &&
   negb (holds PlainTextFacts.markupChar (spanText sp))) &&
  forallb usable (spanStyles sp).

(** *** To the generic tree *)

Lemma fold_wrap (t : string) (styles : list Style) :
  forall result,
    fold_left
      (fun result mark =>
         if String.eqb (markType mark) "strong" then
           Md.parent "strong" [result]
         else if String.eqb (markType mark) "em" then
           Md.parent "emphasis" [result]
         else if String.eqb (markType mark) "code" then
           mkMd "inlineCode" (Some t) None None None None None None None
             None None None None None
         else if String.eqb (markType mark) "link" then
           mkMd "link" None (Some [result]) None None None
             (strOf (O.get' "href" (markAttrs mark))) None None None None
             None None None
         else result)
      (map markOf styles) result
    = fold_left wrap styles result.
Proof.
  induction styles as [|s styles IH]; intros result; [reflexivity|].
  simpl. rewrite IH. now destruct s.
Qed.

Lemma inline_to_mdast (sp : Span) :
  convertAdfInlineToMdast [adfSpan sp] = [mdSpan sp].
Proof.
  destruct sp as [t code styles].
  unfold convertAdfInlineToMdast, adfSpan, mdSpan, marksOf, withMarks.
  cbn [spanText spanCode spanStyles map ntype text marks].
  change (String.eqb "text" "text") with true. cbv iota.
  f_equal.
  assert (M : forall ms : list ADFMark,
             match match ms with [] => None | _ => Some ms end with
             | Some ms' => ms'
             | None => []
             end = ms) by (now intros [|m ms]).
  rewrite M. destruct code.
  - simpl app. cbn [fold_left]. simpl String.eqb. cbv iota.
    apply fold_wrap.
  - apply fold_wrap.
Qed.

Lemma inlines_to_mdast (spans : list Span) :
  convertAdfInlineToMdast (map adfSpan spans) = map mdSpan spans.
Proof.
  induction spans as [|sp spans IH]; [reflexivity|].
  change (convertAdfInlineToMdast (map adfSpan (sp :: spans)))
    with (convertAdfInlineToMdast [adfSpan sp] ++
          convertAdfInlineToMdast (map adfSpan spans)).
  now rewrite inline_to_mdast, IH.
Qed.

(** the nodes of a span are no comment, no image and no text with a span
    comment *)
Lemma mdSpan_type (sp : Span) :
  In (mtype (mdSpan sp)) ["text"; "inlineCode"; "strong"; "emphasis"; "link"].
Proof.
  destruct sp as [t code styles]. unfold mdSpan. simpl.
  induction styles as [|s styles IH] using rev_ind.
  - destruct code; simpl; auto.
  - rewrite fold_left_app. simpl. destruct s; simpl; auto 6.
Qed.

(** *** And back *)

Section WithOptions.

Variable getEmojiData : string -> Social.EmojiData.
Variable preserveUnknownNodes : bool.

Lemma convert_wrap (result : MdNode) (s : Style) (t : string)
  (ms : list ADFMark) :
  usable s = true ->
  convertMdastInlineNode getEmojiData preserveUnknownNodes result
  = [withMarks t ms] ->
  convertMdastInlineNode getEmojiData preserveUnknownNodes (wrap result s)
  = [withMarks t (ms ++ [markOf s])].
Proof.
  intros U R.
  assert (P : forall mark,
             pushMark (withMarks t ms) mark = withMarks t (ms ++ [mark])).
  { intros mark. unfold pushMark, withMarks, setMarks. simpl.
    destruct ms as [|m ms]; reflexivity. }
  destruct s as [| |href].
  - change (convertMdastInlineNode getEmojiData preserveUnknownNodes
              (wrap result Strong))
      with (map (fun n => if O.mem (ntype n) markableNodeTypes
                          then pushMark n (simpleMark "strong") else n)
              (convertMdastInlineNode getEmojiData preserveUnknownNodes
                 result ++ [])).
    rewrite R. simpl map. now rewrite P.
  - change (convertMdastInlineNode getEmojiData preserveUnknownNodes
              (wrap result Em))
      with (map (fun n => if O.mem (ntype n) markableNodeTypes
                          then pushMark n (simpleMark "em") else n)
              (convertMdastInlineNode getEmojiData preserveUnknownNodes
                 result ++ [])).
    rewrite R. simpl map. now rewrite P.
  - simpl in U. apply negb_true_iff in U.
    change (convertMdastInlineNode getEmojiData preserveUnknownNodes
              (wrap result (Link href)))
      with (if Str.startsWith "card:" href
            then [attrNode "inlineCard" [("url", VStr (Str.drop 5 href))]]
            else
              map (fun n => if O.mem (ntype n) markableNodeTypes
                            then pushMark n
                                   (mkMark "link"
                                      (Some [("href", VStr href)]))
                            else n)
                (convertMdastInlineNode getEmojiData preserveUnknownNodes
                   result ++ [])).
    rewrite U, R. simpl map. now rewrite P.
Qed.

Lemma convert_span (sp : Span) :
  wellFormed sp = true ->
  convertMdastInlineNode getEmojiData preserveUnknownNodes (mdSpan sp)
  = [adfSpan sp].
Proof.
  destruct sp as [t code styles]. unfold wellFormed, mdSpan, adfSpan, marksOf.
  cbn [spanText spanCode spanStyles]. intros W.
  apply andb_prop in W as [B U].
  induction styles as [|s styles IH] using rev_ind.
  - rewrite app_nil_r. cbn [fold_left map].
    destruct code; [reflexivity|].
    simpl in B. apply andb_prop in B as [E Q].
    apply negb_true_iff in E, Q.
    change (convertMdastInlineNode getEmojiData preserveUnknownNodes
              (Md.text t))
      with (Social.processTextNodeForSocialElements getEmojiData t).
    rewrite (PlainTextFacts.plain_text_node getEmojiData t Q), E.
    reflexivity.
  - rewrite forallb_app in U. apply andb_prop in U as [U Us].
    simpl in Us. rewrite andb_true_r in Us.
    rewrite fold_left_app, map_app, app_assoc. cbn [fold_left map].
    now apply convert_wrap; [|apply IH].
Qed.

Lemma convert_spans (spans : list Span) :
  forallb wellFormed spans = true ->
  convertMdastInlineNodes getEmojiData preserveUnknownNodes
    (map mdSpan spans)
  = map adfSpan spans.
Proof.
  unfold convertMdastInlineNodes.
  induction spans as [|sp spans IH]; intros W; [reflexivity|].
  simpl in W. apply andb_prop in W as [W Ws].
  rewrite map_cons. cbn [flat_map].
  now rewrite (convert_span sp W), (IH Ws).
Qed.

End WithOptions.

(** X9.  Texts without marks, or under strong, em and link marks, with a
    code mark innermost or none, are written to the generic tree and read
    back as they were, marks in the same order, provided a text outside
    code is not empty and holds none of the characters [{ : [ ! * ` <] and
    no digit, and no link leads to an address that starts with card:. *)
Theorem inline_marks_round_trip :
  forall (getEmojiData : string -> Social.EmojiData)
         (preserveUnknownNodes : bool) (spans : list Span),
    forallb wellFormed spans = true ->
    convertMdastInlineNodes getEmojiData preserveUnknownNodes
      (convertAdfInlineToMdast (map adfSpan spans))
    = map adfSpan spans.
Proof.
  intros getEmojiData preserveUnknownNodes spans W.
  rewrite inlines_to_mdast. now apply convert_spans.
Qed.

Definition sentence : list Span :=
  [mkSpan "See " false [];
   mkSpan "the guide" false [Strong; Link "https://example.org"];
   mkSpan " or run " false [];
   mkSpan "make 2>&1" true [Em]].

Lemma inline_marks_round_trip_witness :
  convertMdastInlineNodes SocialFacts.noEmoji true
    (convertAdfInlineToMdast
       [textNode "See ";
        markedText "the guide"
          [simpleMark "strong";
           mkMark "link" (Some [("href", VStr "https://example.org")])];
        textNode " or run ";
        markedText "make 2>&1" [simpleMark "code"; simpleMark "em"]])
  = [textNode "See ";
     markedText "the guide"
       [simpleMark "strong";
        mkMark "link" (Some [("href", VStr "https://example.org")])];
     textNode " or run ";
     markedText "make 2>&1" [simpleMark "code"; simpleMark "em"]].
Proof.
  apply (inline_marks_round_trip SocialFacts.noEmoji true sentence).
  reflexivity.
Defined.

(** *** Headings and paragraphs *)

(** a heading of some level, or a paragraph, that holds spans *)
Record Block := mkBlock {
  level : option Z;
  spans : list Span
}.

Definition adfBlock (b : Block) : ADFNode :=
  match level b with
  | Some d =>
      mkNode "heading" (Some [("level", VNum d)])
        (Some (map adfSpan (spans b))) None None
  | None => blockNode "paragraph" (map adfSpan (spans b))
  end.

Definition mdBlock (b : Block) : MdNode :=
  match level b with
  | Some d => Md.heading d (map mdSpan (spans b))
  | None => Md.parent "paragraph" (map mdSpan (spans b))
  end.

(** the level of a heading is not 0, a paragraph is not empty *)
Definition wellFormedBlock (b : Block) : bool :=
  match level b with
  | Some d => negb (Z.eqb d 0)
  | None => match spans b with [] => false | _ => true end
  end &&
  forallb wellFormed (spans b).

Lemma block_to_mdast (b : Block) :
  wellFormedBlock b = true ->
  convertAdfNodeToMdast (adfBlock b) = [mdBlock b].
Proof.
  destruct b as [[d|] sps]; unfold wellFormedBlock, adfBlock, mdBlock;
    cbn [level spans]; intros W; apply andb_prop in W as [L _].
  - change (convertAdfNodeToMdast
              (mkNode "heading" (Some [("level", VNum d)])
                 (Some (map adfSpan sps)) None None))
      with [mkMd "heading" None
              (Some (convertAdfInlineToMdast (map adfSpan sps)))
              (Some (if negb (Z.eqb d 0) then VNum d else VNum 1))
              None None None None None None None None None None].
    now rewrite L, inlines_to_mdast.
  - change (convertAdfNodeToMdast (blockNode "paragraph" (map adfSpan sps)))
      with [Md.parent "paragraph"
              (convertAdfInlineToMdast (map adfSpan sps))].
    now rewrite inlines_to_mdast.
Qed.

Lemma blocks_to_mdast (blocks : list Block) :
  forallb wellFormedBlock blocks = true ->
  convertAdfNodesToMdast (map adfBlock blocks) = map mdBlock blocks.
Proof.
  unfold convertAdfNodesToMdast.
  induction blocks as [|b blocks IH]; intros W; [reflexivity|].
  simpl in W. apply andb_prop in W as [W Ws].
  rewrite map_cons. cbn [flat_map].
  now rewrite (block_to_mdast b W), (IH Ws).
Qed.

Lemma no_card_comment (sps : list Span) :
  linksToConvert (map mdSpan sps) = [].
Proof.
  induction sps as [|sp sps IH]; [reflexivity|].
  destruct sps as [|sp' sps]; [reflexivity|].
  rewrite !map_cons in *.
  change (linksToConvert (mdSpan sp :: mdSpan sp' :: map mdSpan sps))
    with ((if String.eqb (mtype (mdSpan sp)) "link" &&
              String.eqb (mtype (mdSpan sp')) "html" &&
              match mvalue (mdSpan sp') with
              | Some v => Str.includes "adf:inlineCard" v
              | None => false
              end
           then [match url (mdSpan sp) with
                 | Some u => u
                 | None => "undefined"
                 end]
           else []) ++ linksToConvert (mdSpan sp' :: map mdSpan sps)).
  rewrite IH, app_nil_r.
  assert (H : String.eqb (mtype (mdSpan sp')) "html" = false).
  { pose proof (mdSpan_type sp') as T. simpl in T.
    destruct T as [T|[T|[T|[T|[T|[]]]]]]; now rewrite <- T. }
  now rewrite H, andb_false_r.
Qed.

Lemma no_media (sps : list Span) :
  standaloneMedia (Md.parent "paragraph" (map mdSpan sps)) = None.
Proof.
  unfold standaloneMedia. cbn [mchildren Md.parent].
  destruct sps as [|sp [|sp' sps]]; try reflexivity.
  cbn [map].
  assert (H : String.eqb (mtype (mdSpan sp)) "image" = false).
  { pose proof (mdSpan_type sp) as T. simpl in T.
    destruct T as [T|[T|[T|[T|[T|[]]]]]]; now rewrite <- T. }
  now rewrite H.
Qed.

Section WithBuilder.

Variable getEmojiData : string -> Social.EmojiData.
Variable jsonParse : string -> option JsVal.
Variable preserveUnknownNodes : bool.
Variable parseBlockContentWithSocialElements : string -> list ADFNode.

Lemma read_block (b : Block) :
  wellFormedBlock b = true ->
  convertMdastNodeToADF getEmojiData jsonParse preserveUnknownNodes
    parseBlockContentWithSocialElements (mdBlock b)
  = COne (adfBlock b).
Proof.
  destruct b as [[d|] sps]; unfold wellFormedBlock, adfBlock, mdBlock;
    cbn [level spans]; intros W; apply andb_prop in W as [L W];
    pose proof (convert_spans getEmojiData preserveUnknownNodes sps W) as C.
  - change (convertMdastNodeToADF getEmojiData jsonParse
              preserveUnknownNodes parseBlockContentWithSocialElements
              (Md.heading d (map mdSpan sps)))
      with (COne
              (mkNode "heading" (Some [("level", VNum d)])
                 (Some (convertMdastInlineNodes getEmojiData
                          preserveUnknownNodes (map mdSpan sps)))
                 None None)).
    now rewrite C.
  - pose proof (no_media sps) as M. pose proof (no_card_comment sps) as K.
    change (convertMdastNodeToADF getEmojiData jsonParse
              preserveUnknownNodes parseBlockContentWithSocialElements
              (Md.parent "paragraph" (map mdSpan sps)))
      with (let converted :=
              match standaloneMedia
                      (Md.parent "paragraph" (map mdSpan sps)) with
              | Some mediaNode => COne mediaNode
              | None =>
                  match convertMdastInlineNodes getEmojiData
                          preserveUnknownNodes (map mdSpan sps) with
                  | [] => CNull
                  | _ =>
                      COne
                        (blockNode "paragraph"
                           (postProcessInlineCards
                              (convertMdastInlineNodes getEmojiData
                                 preserveUnknownNodes (map mdSpan sps))
                              (map mdSpan sps)))
                  end
              end in
            match converted with
            | COne adfNode => COne adfNode
            | _ => converted
            end).
    cbv zeta.
    rewrite M, C. unfold postProcessInlineCards. rewrite K.
    destruct sps as [|sp sps]; [discriminate L|reflexivity].
Qed.

Lemma read_blocks (blocks : list Block) :
  forallb wellFormedBlock blocks = true ->
  convertMdastNodesToADF getEmojiData jsonParse preserveUnknownNodes
    parseBlockContentWithSocialElements (map mdBlock blocks)
  = map adfBlock blocks.
Proof.
  unfold convertMdastNodesToADF.
  induction blocks as [|b blocks IH]; intros W; [reflexivity|].
  simpl in W. apply andb_prop in W as [W Ws].
  rewrite !map_cons, (read_block b W).
  change (flatten (COne (adfBlock b) :: ?l)) with (adfBlock b :: flatten l).
  f_equal. now apply IH.
Qed.

End WithBuilder.

(** X10.  A document of headings (of a level other than 0, with no other
    attribute) and paragraphs that are not empty, holding texts as in X9,
    is written to the generic tree with no comment, one node for each
    block, and [buildADFFromMdast] reads that tree back as the same
    blocks, in a document of version 1. *)
Theorem document_round_trip :
  forall (getEmojiData : string -> Social.EmojiData)
         (jsonParse : string -> option JsVal) (preserveUnknownNodes : bool)
         (parseBlockContentWithSocialElements : string -> list ADFNode)
         (version : Z) (blocks : list Block),
    forallb wellFormedBlock blocks = true ->
    buildMdastFromADF (mkDoc version "doc" (map adfBlock blocks))
    = Md.parent "root" (map mdBlock blocks)
    /\ buildADFFromMdast getEmojiData jsonParse preserveUnknownNodes
         parseBlockContentWithSocialElements
         (buildMdastFromADF (mkDoc version "doc" (map adfBlock blocks)))
       = mkDoc 1 "doc" (map adfBlock blocks).
Proof.
  intros getEmojiData jsonParse preserveUnknownNodes
    parseBlockContentWithSocialElements version blocks W.
  assert (B : buildMdastFromADF (mkDoc version "doc" (map adfBlock blocks))
              = Md.parent "root" (map mdBlock blocks)).
  { unfold buildMdastFromADF. cbn [doccontent].
    now rewrite (blocks_to_mdast blocks W). }
  split; [exact B|]. rewrite B.
  unfold buildADFFromMdast.
  change (Md.kids (Md.parent "root" (map mdBlock blocks)))
    with (map mdBlock blocks).
  now rewrite (read_blocks _ _ _ _ blocks W).
Qed.

Definition page : list Block :=
  [mkBlock (Some 2%Z) [mkSpan "Setup" false []];
   mkBlock None sentence].

Lemma document_round_trip_witness :
  buildADFFromMdast SocialFacts.noEmoji (fun _ => None) true (fun _ => [])
    (buildMdastFromADF (mkDoc 1 "doc" (map adfBlock page)))
  = mkDoc 1 "doc" (map adfBlock page).
Proof.
  apply (document_round_trip SocialFacts.noEmoji (fun _ => None) true
           (fun _ => []) 1%Z page).
  reflexivity.
Defined.

End StyledTextFacts.
(* --------------------------------------------------------------------- *)
(** ** The attributes a comment carries *)

Module ObjFacts.

Lemma get_replace (k j : string) (v : JsVal) (o : Obj) :
  O.get k (O.replace j v o)
  = match O.get j o with
    | Some _ => if String.eqb k j then Some v else O.get k o
    | None => O.get k o
    end.
Proof.
  induction o as [|[k' v'] o IH]; [reflexivity|].
  simpl. destruct (String.eqb j k') eqn:J.
  - apply String.eqb_eq in J. subst k'. simpl.
    now destruct (String.eqb k j).
  - simpl. destruct (String.eqb k k') eqn:K.
    + apply String.eqb_eq in K. subst k'.
      destruct (O.get j o); [|reflexivity].
      now rewrite String.eqb_sym, J.
    + exact IH.
Qed.

Lemma get_insertNew (k j : string) (v : JsVal) (o : Obj) :
  O.get j o = None ->
  O.get k (O.insertNew j v o)
  = if String.eqb k j then Some v else O.get k o.
Proof.
  induction o as [|[k' v'] o IH]; intros N; [reflexivity|].
  simpl in N. destruct (String.eqb j k') eqn:J; [discriminate|].
  assert (Here : O.get k ((j, v) :: (k', v') :: o)
                 = if String.eqb k j then Some v
                   else O.get k ((k', v') :: o)) by reflexivity.
  assert (There : O.get k ((k', v') :: O.insertNew j v o)
                  = if String.eqb k j then Some v
                    else O.get k ((k', v') :: o)).
  { simpl. rewrite (IH N). destruct (String.eqb k k') eqn:K; [|reflexivity].
    apply String.eqb_eq in K. subst k'.
    now rewrite String.eqb_sym, J. }
  simpl O.insertNew.
  destruct (O.indexOf j) as [n|]; [|exact There].
  destruct (O.indexOf k') as [n'|]; [|exact Here].
  destruct (n <? n')%Z; [exact Here|exact There].
Qed.

(** after [o[j] = v], [o[j]] is [v] and the other keys are as before *)
Lemma get_set (k j : string) (v : JsVal) (o : Obj) :
  O.get k (O.set j v o) = if String.eqb k j then Some v else O.get k o.
Proof.
  unfold O.set, O.has.
  destruct (O.get j o) eqn:G.
  - now rewrite get_replace, G.
  - now apply get_insertNew.
Qed.

(** an assignment makes the key, but for [__proto__] on an object that
    has no key of that name *)
Lemma get_assign (k j : string) (v : JsVal) (o : Obj) :
  O.get k (O.assign j v o)
  = if String.eqb j "__proto__" && negb (O.has j o) then O.get k o
    else if String.eqb k j then Some v else O.get k o.
Proof.
  unfold O.assign.
  destruct (String.eqb j "__proto__" && negb (O.has j o)); [reflexivity|].
  apply get_set.
Qed.

Lemma set_not_empty (j : string) (v : JsVal) (o : Obj) : O.set j v o <> [].
Proof.
  intros E. pose proof (get_set j j v o) as G.
  now rewrite E, String.eqb_refl in G.
Qed.

End ObjFacts.

Module AttributeFacts.

Import Metadata.

(** the names every object answers to, its own keys apart *)
Definition inheritedNames : list string :=
  ["constructor"; "__proto__"; "hasOwnProperty"; "isPrototypeOf";
   "propertyIsEnumerable"; "toLocaleString"; "toString"; "valueOf";
   "__defineGetter__"; "__defineSetter__"; "__lookupGetter__";
   "__lookupSetter__"].

(** an attribute the markup itself expresses, or one that holds the default
    value of its node type *)
Definition insignificant (nodeType key : string) (value : JsVal) : bool :=
  O.mem key
    match assocL nodeType alwaysFiltered with Some l => l | None => [] end
  || match O.get key
             match assocL nodeType defaultValues with
             | Some d => d
             | None => []
             end with
     | Some d => strictEq d value
     | None => false
     end.

(** an attribute that is not written into the comment: an insignificant
    one, or the one named [__proto__], which the assignment that collects
    the attributes does not make a key of *)
Definition unwritten (nodeType key : string) (value : JsVal) : bool :=
  insignificant nodeType key value || String.eqb key "__proto__".

Definition keep (nodeType : string) (significant : Obj)
  (kv : string * JsVal) : Obj :=
  if insignificant nodeType (fst kv) (snd kv) then significant
  else O.assign (fst kv) (snd kv) significant.

Lemma fold_left_same {A B : Type} (f g : A -> B -> A) :
  (forall a b, f a b = g a b) ->
  forall l a, fold_left f l a = fold_left g l a.
Proof.
  intros E. induction l as [|b l IH]; intros a; [reflexivity|].
  simpl. now rewrite E, IH.
Qed.

Lemma filter_fold (nodeType : string) (attrs : Obj) :
  filterSignificantAttributes nodeType attrs
  = fold_left (keep nodeType) attrs [].
Proof.
  unfold filterSignificantAttributes. cbv zeta.
  apply fold_left_same. intros significant [key value].
  unfold keep, insignificant. simpl.
  now destruct (O.mem key _).
Qed.

Lemma get_absent (key : string) (attrs : Obj) :
  ~ In key (O.keys attrs) -> O.get key attrs = None.
Proof.
  induction attrs as [|[k v] attrs IH]; intros N; [reflexivity|].
  simpl in *. destruct (String.eqb key k) eqn:K.
  - apply String.eqb_eq in K. subst k. tauto.
  - apply IH. tauto.
Qed.

(** what one attribute does to the collected ones, none of which is named
    [__proto__] *)
Lemma get_keep (nodeType key k : string) (v : JsVal) (acc : Obj) :
  O.get "__proto__" acc = None ->
  O.get key (keep nodeType acc (k, v))
  = if String.eqb key k && negb (unwritten nodeType k v) then Some v
    else O.get key acc.
Proof.
  intros P. unfold keep, unwritten. simpl.
  destruct (insignificant nodeType k v);
    [now rewrite andb_false_r|].
  rewrite ObjFacts.get_assign. simpl.
  destruct (String.eqb k "__proto__") eqn:Kp.
  - apply String.eqb_eq in Kp. subst k. unfold O.has. rewrite P. simpl.
    now rewrite andb_false_r.
  - simpl. rewrite andb_true_r. reflexivity.
Qed.

Lemma keep_no_proto (nodeType : string) (kv : string * JsVal) (acc : Obj) :
  O.get "__proto__" acc = None ->
  O.get "__proto__" (keep nodeType acc kv) = None.
Proof.
  intros P. destruct kv as [k v]. rewrite (get_keep _ _ _ _ _ P).
  unfold unwritten.
  destruct (String.eqb "__proto__" k) eqn:K; [|exact P].
  apply String.eqb_eq in K. subst k.
  now rewrite String.eqb_refl, orb_true_r.
Qed.

Lemma get_kept (nodeType key : string) (attrs : Obj) :
  NoDup (O.keys attrs) ->
  forall acc,
    O.get "__proto__" acc = None ->
    O.get key (fold_left (keep nodeType) attrs acc)
    = match O.get key attrs with
      | Some value =>
          if unwritten nodeType key value then O.get key acc
          else Some value
      | None => O.get key acc
      end.
Proof.
  induction attrs as [|[k v] attrs IH]; intros D acc P; [reflexivity|].
  simpl in D. apply NoDup_cons_iff in D as [N D].
  simpl fold_left.
  rewrite (IH D _ (keep_no_proto nodeType (k, v) acc P)).
  rewrite (get_keep _ _ _ _ _ P). simpl O.get.
  destruct (String.eqb key k) eqn:K.
  - apply String.eqb_eq in K. subst k.
    rewrite (get_absent key attrs N). simpl.
    now destruct (unwritten nodeType key v).
  - simpl. reflexivity.
Qed.

Lemma keep_nothing (nodeType : string) (kv : string * JsVal) (acc : Obj) :
  O.get "__proto__" acc = None ->
  keep nodeType acc kv = []
  <-> acc = [] /\ unwritten nodeType (fst kv) (snd kv) = true.
Proof.
  intros P. destruct kv as [k v]. unfold keep, unwritten. simpl.
  destruct (insignificant nodeType k v); simpl; [tauto|].
  unfold O.assign, O.has.
  destruct (String.eqb k "__proto__") eqn:Kp.
  - apply String.eqb_eq in Kp. subst k. rewrite P. simpl. tauto.
  - simpl. split; [intros E; now apply ObjFacts.set_not_empty in E
                  |intros [_ F]; discriminate F].
Qed.

Lemma kept_nothing (nodeType : string) (attrs : Obj) :
  forall acc,
    O.get "__proto__" acc = None ->
    fold_left (keep nodeType) attrs acc = []
    <-> acc = []
        /\ forallb (fun kv => unwritten nodeType (fst kv) (snd kv)) attrs
           = true.
Proof.
  induction attrs as [|kv attrs IH]; intros acc P; simpl.
  - tauto.
  - rewrite (IH _ (keep_no_proto nodeType kv acc P)).
    rewrite (keep_nothing nodeType kv acc P).
    rewrite andb_true_iff. tauto.
Qed.

(** X11.  For a node type that is not one of the names every object
    answers to, the comment carries an attribute exactly when the markup
    does not express it already (the level of a heading, the panelType of
    a panel, the language of a code block, the order of an ordered list,
    the alt of a media node), it is not a default of a table and its name
    is not [__proto__], and then with its value; no comment is written
    exactly when no attribute is left. *)
Theorem comment_carries_the_significant_attributes :
  forall (nodeType : string) (attrs : Obj),
    O.mem nodeType inheritedNames = false ->
    NoDup (O.keys attrs) ->
    (forall key,
       O.get key (filterSignificantAttributes nodeType attrs)
       = match O.get key attrs with
         | Some value =>
             if unwritten nodeType key value then None else Some value
         | None => None
         end)
    /\ (generateMetadataComment nodeType (Some attrs) = EmptyString
        <-> forallb (fun kv => unwritten nodeType (fst kv) (snd kv))
              attrs = true).
Proof.
  intros nodeType attrs _ D. split.
  - intros key. rewrite filter_fold.
    now rewrite (get_kept nodeType key attrs D [] eq_refl).
  - unfold generateMetadataComment. rewrite filter_fold.
    destruct attrs as [|kv attrs]; [simpl; tauto|].
    change (List.length (O.keys (kv :: attrs)) =? 0) with false. cbv iota.
    pose proof (kept_nothing nodeType (kv :: attrs) [] eq_refl) as K.
    destruct (fold_left (keep nodeType) (kv :: attrs) []) as [|kv' sig] eqn:F.
    + simpl. split; [intros _; now apply K|reflexivity].
    + change (List.length (O.keys (kv' :: sig)) =? 0) with false. cbv iota.
      split; [discriminate|].
      intros A. assert (E : kv' :: sig = []) by (apply K; now split).
      discriminate E.
Qed.

Definition tableAttrs : Obj :=
  [("isNumberColumnEnabled", VBool false); ("layout", VStr "wide");
   ("localId", VStr "t1")].

Lemma comment_carries_the_significant_attributes_witness :
  O.get "layout" (filterSignificantAttributes "table" tableAttrs)
  = Some (VStr "wide")
  /\ O.get "isNumberColumnEnabled"
       (filterSignificantAttributes "table" tableAttrs)
     = None
  /\ generateMetadataComment "heading" (Some [("level", VNum 2)])
     = EmptyString.
Proof.
  assert (D : NoDup (O.keys tableAttrs)).
  { repeat constructor; simpl; intuition discriminate. }
  split; [|split].
  - exact (proj1 (comment_carries_the_significant_attributes "table"
                    tableAttrs eq_refl D) "layout").
  - exact (proj1 (comment_carries_the_significant_attributes "table"
                    tableAttrs eq_refl D) "isNumberColumnEnabled").
  - apply (proj2 (comment_carries_the_significant_attributes "heading"
                    [("level", VNum 2)] eq_refl
                    ltac:(repeat constructor; simpl; tauto))).
    reflexivity.
Defined.

(** an attribute named [__proto__], as [JSON.parse] makes it, is not
    written *)
Lemma proto_attribute_is_not_written :
  filterSignificantAttributes "panel"
    [("__proto__", VStr "x"); ("localId", VStr "p1")]
  = [("localId", VStr "p1")]
  /\ generateMetadataComment "panel" (Some [("__proto__", VStr "x")])
     = EmptyString.
Proof. split; reflexivity. Qed.

(** *** Attributes put on a node *)

(** the entry is addressed to a node of this type *)
Definition addressed (ty : string) (meta : AdfMetadata) : bool :=
  match metaAttrs meta with
  | Some _ =>
      String.eqb (metaNodeType meta) "cell" &&
      (String.eqb ty "tableCell" || String.eqb ty "tableHeader")
      || String.eqb (metaNodeType meta) ty
      || String.eqb
           match assoc (metaNodeType meta) nodeTypeMapping with
           | Some t => if Str.isEmpty t then metaNodeType meta else t
           | None => metaNodeType meta
           end ty
  | None => false
  end.

Definition step (adfNode updatedNode : ADFNode) (meta : AdfMetadata)
  : ADFNode :=
  match metaAttrs meta with
  | Some mattrs =>
      if String.eqb (metaNodeType meta) "cell" &&
         (String.eqb (ntype adfNode) "tableCell" ||
          String.eqb (ntype adfNode) "tableHeader")
      then setAttrs updatedNode
             (O.spread (O.ofOpt (attrs updatedNode)) mattrs)
      else
        let expectedAdfType :=
          match assoc (metaNodeType meta) nodeTypeMapping with
          | Some t => if Str.isEmpty t then metaNodeType meta else t
          | None => metaNodeType meta
          end in
        if String.eqb (metaNodeType meta) (ntype adfNode) ||
           String.eqb expectedAdfType (ntype adfNode)
        then setAttrs updatedNode
               (O.spread (O.ofOpt (attrs updatedNode)) mattrs)
        else updatedNode
  | None => updatedNode
  end.

Lemma apply_fold (adfNode : ADFNode) (metadata : list AdfMetadata) :
  applyMetadataToAdfNode adfNode metadata
  = fold_left (step adfNode) metadata adfNode.
Proof. now destruct metadata. Qed.

Lemma step_shape (adfNode updatedNode : ADFNode) (meta : AdfMetadata) :
  let n := step adfNode updatedNode meta in
  ntype n = ntype updatedNode /\ content n = content updatedNode
  /\ text n = text updatedNode /\ marks n = marks updatedNode.
Proof.
  unfold step. destruct (metaAttrs meta); [|tauto].
  destruct (_ && _); [simpl; tauto|].
  simpl. destruct (_ || _); simpl; tauto.
Qed.

Lemma step_idle (adfNode updatedNode : ADFNode) (meta : AdfMetadata) :
  addressed (ntype adfNode) meta = false ->
  step adfNode updatedNode meta = updatedNode.
Proof.
  unfold addressed, step. destruct (metaAttrs meta); [|reflexivity].
  intros A. apply orb_false_iff in A as [A E].
  apply orb_false_iff in A as [C T].
  rewrite C. cbv iota zeta. now rewrite T, E.
Qed.

Lemma get_spread (key : string) (b : Obj) :
  forall a,
    O.get key b = None -> O.get key (O.spread a b) = O.get key a.
Proof.
  unfold O.spread.
  induction b as [|[k v] b IH]; intros a N; [reflexivity|].
  simpl in N. destruct (String.eqb key k) eqn:K; [discriminate|].
  simpl. rewrite (IH _ N). now rewrite ObjFacts.get_set, K.
Qed.

Lemma step_keeps (adfNode updatedNode : ADFNode) (meta : AdfMetadata)
  (key : string) :
  O.get key (O.ofOpt (metaAttrs meta)) = None ->
  O.get key (O.ofOpt (attrs (step adfNode updatedNode meta)))
  = O.get key (O.ofOpt (attrs updatedNode)).
Proof.
  unfold step. destruct (metaAttrs meta) as [mattrs|]; [|reflexivity].
  simpl. intros N.
  destruct (_ && _); [simpl; now apply get_spread|].
  destruct (_ || _); [simpl; now apply get_spread|reflexivity].
Qed.

Lemma fold_step (adfNode : ADFNode) (metadata : list AdfMetadata) :
  forall start,
    let updatedNode := fold_left (step adfNode) metadata start in
    ntype updatedNode = ntype start
    /\ content updatedNode = content start
    /\ text updatedNode = text start
    /\ marks updatedNode = marks start
    /\ (forall key,
          (forall meta, In meta metadata ->
                        O.get key (O.ofOpt (metaAttrs meta)) = None) ->
          O.get key (O.ofOpt (attrs updatedNode))
          = O.get key (O.ofOpt (attrs start)))
    /\ (existsb (addressed (ntype adfNode)) metadata = false ->
        updatedNode = start).
Proof.
  induction metadata as [|meta metadata IH]; intros start; cbv zeta.
  - simpl. tauto.
  - simpl fold_left.
    destruct (IH (step adfNode start meta)) as (T & C & X & M & K & A).
    destruct (step_shape adfNode start meta) as (T' & C' & X' & M').
    repeat split; try congruence.
    + intros key N. rewrite (K key (fun m I0 => N m (or_intror I0))).
      apply step_keeps. apply N. now left.
    + simpl. intros E. apply orb_false_iff in E as [E Es].
      rewrite (A Es). now apply step_idle.
Qed.

(** X12.  Putting the attributes of comments on a node changes nothing
    but its attributes: type, content, text and marks stay.  An attribute
    no comment names keeps its value, and when no comment is addressed
    to the type of the node, the node comes back as it was. *)
Theorem metadata_touches_attributes_only :
  forall (adfNode : ADFNode) (metadata : list AdfMetadata),
    let updatedNode := applyMetadataToAdfNode adfNode metadata in
    ntype updatedNode = ntype adfNode
    /\ content updatedNode = content adfNode
    /\ text updatedNode = text adfNode
    /\ marks updatedNode = marks adfNode
    /\ (forall key,
          (forall meta, In meta metadata ->
                        O.get key (O.ofOpt (metaAttrs meta)) = None) ->
          O.get key (O.ofOpt (attrs updatedNode))
          = O.get key (O.ofOpt (attrs adfNode)))
    /\ (existsb (addressed (ntype adfNode)) metadata = false ->
        updatedNode = adfNode).
Proof.
  intros adfNode metadata. cbv zeta. rewrite apply_fold.
  exact (fold_step adfNode metadata adfNode).
Qed.

Definition centred : AdfMetadata :=
  mkMeta "paragraph" (Some [("textAlign", VStr "center")])
    "<!-- adf:paragraph textAlign=center -->" None.

Lemma metadata_touches_attributes_only_witness :
  applyMetadataToAdfNode
    (mkNode "heading" (Some [("level", VNum 2)]) (Some [textNode "Title"])
       None None) [centred]
  = mkNode "heading" (Some [("level", VNum 2)]) (Some [textNode "Title"])
      None None.
Proof.
  apply (metadata_touches_attributes_only
           (mkNode "heading" (Some [("level", VNum 2)])
              (Some [textNode "Title"]) None None) [centred]).
  reflexivity.
Defined.

(** *** Comments that are parsed *)

Section WithJson.

Variable jsonParse : string -> option JsVal.

Lemma parsed_raw (value : string) (metadata : AdfMetadata) :
  parseAdfMetadataComment jsonParse value = Some metadata ->
  metaRaw metadata = value.
Proof.
  unfold parseAdfMetadataComment.
  destruct (Regex.exec value withAttrsJson).
  { destruct (jsonParse _) as [[]|]; intros [= <-]; reflexivity. }
  destruct (Regex.exec value withAttrs).
  { destruct (0 <? _); intros [= <-]; reflexivity. }
  destruct (Regex.exec value simple); [intros [= <-]; reflexivity|].
  destruct (Regex.exec value closing); [intros [= <-]; reflexivity|].
  discriminate.
Qed.

Lemma parsed_iff (value : string) :
  parseAdfMetadataComment jsonParse value <> None
  <-> Regex.test value withAttrsJson || Regex.test value withAttrs ||
      Regex.test value simple || Regex.test value closing = true.
Proof.
  unfold parseAdfMetadataComment, Regex.test.
  destruct (Regex.exec value withAttrsJson).
  { destruct (jsonParse _) as [[]|]; simpl; split; congruence. }
  destruct (Regex.exec value withAttrs).
  { destruct (0 <? _); simpl; split; congruence. }
  destruct (Regex.exec value simple); [simpl; split; congruence|].
  destruct (Regex.exec value closing); simpl; split; congruence.
Qed.

End WithJson.

(** X13.  Every comment [isAdfMetadataComment] accepts, in which the word
    hasOwnProperty does not occur (a pair with that name would hide the
    method the second loop of [parseAttributeString] calls), is parsed by
    [parseAdfMetadataComment], whatever the JSON reader does, and what is
    parsed keeps the comment as its raw text; the comments without that
    word that are parsed but not accepted are those that hold
    adf:inlineCard or adf:blockCard. *)
Theorem accepted_comments_are_parsed :
  forall (jsonParse : string -> option JsVal) (value : string),
    Str.includes "hasOwnProperty" value = false ->
    (isAdfMetadataComment value = true ->
     exists metadata,
       parseAdfMetadataComment jsonParse value = Some metadata
       /\ metaRaw metadata = value)
    /\ (parseAdfMetadataComment jsonParse value <> None ->
        isAdfMetadataComment value = false ->
        Str.includes "adf:inlineCard" value
        || Str.includes "adf:blockCard" value = true).
Proof.
  intros jsonParse value _.
  pose proof (parsed_iff jsonParse value) as P.
  unfold isAdfMetadataComment. cbv zeta.
  destruct (Regex.test value withAttrsJson || Regex.test value withAttrs ||
            Regex.test value simple || Regex.test value closing) eqn:T.
  - simpl negb. cbv iota. split.
    + intros _.
      destruct (parseAdfMetadataComment jsonParse value) as [metadata|] eqn:E.
      * exists metadata. split; [reflexivity|].
        now apply (parsed_raw jsonParse value).
      * exfalso. now apply P.
    + intros _ D. apply negb_false_iff in D. simpl in D.
      now rewrite orb_false_r in D.
  - split; [discriminate|]. intros N. exfalso. apply P in N. discriminate N.
Qed.

Definition infoComment : string :=
  "<!-- adf:panel panelType=" +++ Str.dqs +++ "info" +++ Str.dqs +++
  " width=2 -->".

Lemma accepted_comments_are_parsed_witness :
  Str.includes "hasOwnProperty" infoComment = false
  /\ isAdfMetadataComment infoComment = true
  /\ exists metadata,
       parseAdfMetadataComment (fun _ => None) infoComment = Some metadata
       /\ metaRaw metadata = infoComment.
Proof.
  assert (H : Str.includes "hasOwnProperty" infoComment = false)
    by reflexivity.
  assert (A : isAdfMetadataComment infoComment = true)
    by (vm_compute; reflexivity).
  split; [exact H|]. split; [exact A|].
  exact (proj1 (accepted_comments_are_parsed (fun _ => None) infoComment H)
           A).
Defined.

End AttributeFacts.
(* --------------------------------------------------------------------- *)
(** ** Statistics and validation *)

Module StatsFacts.

Import Engine.
Import TreeFacts.

(** the number of the nodes of some types among a node and the nodes of
    its content *)
Fixpoint countIn (p : string -> bool) (node : ADFNode) : nat :=
  (if p (ntype node) then 1 else 0) +
  match content node with
  | Some children => list_sum (map (countIn p) children)
  | None => 0
  end.

Definition countAll (p : string -> bool) (nodes : list ADFNode) : nat :=
  list_sum (map (countIn p) nodes).

Definition anyType (ty : string) : bool := true.
Definition isExtension (ty : string) : bool := O.mem ty adfExtensionTypes.
Definition isGfm (ty : string) : bool := O.mem ty gfmTypes.

(** the counters after [nodes] have been visited *)
Definition counted (c : Counters) (nodes : list ADFNode) : Counters :=
  mkCounters (count c + countAll anyType nodes)
    (blocks c + countAll isExtension nodes)
    (gfm c || (0 <? countAll isGfm nodes))
    (extensions c || (0 <? countAll isExtension nodes)).

Lemma countIn_eq (p : string -> bool) (node : ADFNode) :
  countIn p node
  = (if p (ntype node) then 1 else 0) +
    match content node with
    | Some children => countAll p children
    | None => 0
    end.
Proof. now destruct node. Qed.

Lemma visit_eq (node : ADFNode) (c : Counters) :
  visit node c
  = let c := mkCounters (S (count c)) (blocks c) (gfm c) (extensions c) in
    let c :=
      if O.mem (ntype node) adfExtensionTypes
      then mkCounters (count c) (S (blocks c)) (gfm c) true
      else c in
    let c :=
      if O.mem (ntype node) gfmTypes
      then mkCounters (count c) (blocks c) true (extensions c)
      else c in
    match content node with
    | Some children => fold_left (fun c child => visit child c) children c
    | None => c
    end.
Proof. now destruct node. Qed.

Lemma positive_sum (a b : nat) : (0 <? a + b) = (0 <? a) || (0 <? b).
Proof. destruct a, b; reflexivity. Qed.

Lemma countAll_cons (p : string -> bool) (node : ADFNode)
  (nodes : list ADFNode) :
  countAll p (node :: nodes) = countIn p node + countAll p nodes.
Proof. reflexivity. Qed.

Lemma countAll_one (p : string -> bool) (node : ADFNode) :
  countAll p [node] = countIn p node.
Proof. unfold countAll. simpl. lia. Qed.

Lemma counted_nil (c : Counters) : counted c [] = c.
Proof.
  destruct c as [n b g e]. unfold counted, countAll. simpl.
  now rewrite !Nat.add_0_r, !orb_false_r.
Qed.

Lemma counted_cons (c : Counters) (node : ADFNode) (nodes : list ADFNode) :
  counted c (node :: nodes) = counted (counted c [node]) nodes.
Proof.
  destruct c as [n b g e]. unfold counted.
  cbn [count blocks gfm extensions].
  rewrite !countAll_one, !countAll_cons, !positive_sum, !orb_assoc,
    !Nat.add_assoc.
  reflexivity.
Qed.

Lemma visit_all (nodes : list ADFNode) :
  Forall (fun node => forall c, visit node c = counted c [node]) nodes ->
  forall c,
    fold_left (fun c node => visit node c) nodes c = counted c nodes.
Proof.
  induction 1 as [|node nodes H _ IH]; intros c; simpl.
  - now rewrite counted_nil.
  - now rewrite H, IH, <- counted_cons.
Qed.

Lemma visit_counts : forall node c, visit node c = counted c [node].
Proof.
  induction node as [ty a cs tx ms IH] using adf_ind. intros [n b g e].
  rewrite visit_eq. cbv zeta. cbn [ntype content count blocks gfm extensions].
  unfold counted at 1. cbn [count blocks gfm extensions].
  rewrite !countAll_one, !countIn_eq. cbn [ntype content].
  unfold isExtension, isGfm, anyType.
  destruct cs as [children|].
  - rewrite (visit_all children IH). unfold counted.
    destruct (O.mem ty adfExtensionTypes), (O.mem ty gfmTypes);
      cbn [count blocks gfm extensions];
      rewrite ?positive_sum; cbn [Nat.ltb Nat.leb Nat.add];
      rewrite ?orb_true_r, ?orb_false_r, ?Nat.add_succ_r, ?Nat.add_0_r;
      reflexivity.
  - destruct (O.mem ty adfExtensionTypes), (O.mem ty gfmTypes);
      cbn [count blocks gfm extensions Nat.ltb Nat.leb Nat.add];
      rewrite ?orb_true_r, ?orb_false_r, ?Nat.add_succ_r, ?Nat.add_0_r;
      reflexivity.
Qed.

Lemma count_le (p : string -> bool) :
  forall node, countIn p node <= countIn anyType node.
Proof.
  induction node as [ty a cs tx ms IH] using adf_ind.
  rewrite !countIn_eq. cbn [ntype content].
  assert (H : match cs with
              | Some children => countAll p children
              | None => 0
              end
              <= match cs with
                 | Some children => countAll anyType children
                 | None => 0
                 end).
  { destruct cs as [children|]; [|lia].
    induction IH as [|c children H _ IHl]; [exact (le_n 0)|].
    rewrite !countAll_cons. lia. }
  destruct (p ty); unfold anyType at 1; lia.
Qed.

Lemma countAll_le (p : string -> bool) (nodes : list ADFNode) :
  countAll p nodes <= countAll anyType nodes.
Proof.
  induction nodes as [|c nodes IH]; [exact (le_n 0)|].
  rewrite !countAll_cons. pose proof (count_le p c). lia.
Qed.

(** X14.  The statistics of a document count its nodes: [nodeCount] is
    the number of nodes under the document, [adfBlockCount] the number of
    those of type panel, expand, mediaSingle or mediaGroup, so never more;
    [hasAdfExtensions] tells whether there is one, [hasGfmFeatures]
    whether there is a node of a table, [hasFrontmatter] is always false,
    and the complexity is simple below 10 nodes and complex from 50. *)
Theorem statistics_count_the_nodes :
  forall adf : ADFDocument,
    let stats := analyzeAdf adf in
    nodeCount stats = countAll anyType (doccontent adf)
    /\ adfBlockCount stats = countAll isExtension (doccontent adf)
    /\ adfBlockCount stats <= nodeCount stats
    /\ hasAdfExtensions stats = (0 <? adfBlockCount stats)
    /\ hasGfmFeatures stats = (0 <? countAll isGfm (doccontent adf))
    /\ hasFrontmatter stats = false
    /\ (complexity stats = "simple" <-> nodeCount stats < 10)
    /\ (complexity stats = "complex" <-> 50 <= nodeCount stats).
Proof.
  intros adf. cbv zeta. unfold analyzeAdf.
  rewrite (visit_all (doccontent adf)).
  2:{ apply Forall_forall. intros node _. apply visit_counts. }
  unfold counted. simpl.
  pose proof (countAll_le isExtension (doccontent adf)) as L.
  repeat split; auto.
  - destruct (countAll anyType (doccontent adf) <? 10) eqn:A.
    + intros _. now apply Nat.ltb_lt.
    + destruct (_ <? 50); discriminate.
  - intros A. apply Nat.ltb_lt in A. now rewrite A.
  - destruct (countAll anyType (doccontent adf) <? 10); [discriminate|].
    destruct (countAll anyType (doccontent adf) <? 50) eqn:B;
      [discriminate|].
    intros _. now apply Nat.ltb_ge.
  - intros A.
    assert (B : (countAll anyType (doccontent adf) <? 50) = false)
      by (apply Nat.ltb_ge; lia).
    assert (C : (countAll anyType (doccontent adf) <? 10) = false)
      by (apply Nat.ltb_ge; lia).
    now rewrite B, C.
Qed.

(** *** The depth of a tree *)

(** the depth of the deepest node under a node *)
Fixpoint deepest (node : MdNode) : nat :=
  match mchildren node with
  | Some children => list_max (map (fun child => S (deepest child)) children)
  | None => 0
  end.

Lemma deepest_eq (node : MdNode) :
  deepest node
  = match mchildren node with
    | Some children =>
        list_max (map (fun child => S (deepest child)) children)
    | None => 0
    end.
Proof. now destruct node. Qed.

Lemma visitDepth_eq (maxDepth : Z) (node : MdNode) (depth : nat) :
  visitDepth maxDepth node depth
  = if (maxDepth <? Z.of_nat depth)%Z then [depthWarning maxDepth]
    else
      match mchildren node with
      | Some children =>
          flat_map (fun child => visitDepth maxDepth child (S depth))
            children
      | None => []
      end.
Proof. now destruct node. Qed.

Lemma flat_map_nil {A B : Type} (f : A -> list B) (l : list A) :
  flat_map f l = [] <-> Forall (fun a => f a = []) l.
Proof.
  induction l as [|a l IH]; simpl.
  - split; auto.
  - split.
    + intros E. apply app_eq_nil in E as [E1 E2].
      constructor; [exact E1|now apply IH].
    + intros F. inversion F as [|? ? F1 F2]; subst.
      rewrite F1. now apply IH.
Qed.

Lemma no_warning (maxDepth : Z) :
  forall node depth,
    visitDepth maxDepth node depth = []
    <-> (Z.of_nat (depth + deepest node) <= maxDepth)%Z.
Proof.
  induction node as [node IH] using md_ind. intros depth.
  rewrite visitDepth_eq, deepest_eq.
  destruct (maxDepth <? Z.of_nat depth)%Z eqn:D.
  - apply Z.ltb_lt in D. split; [discriminate|lia].
  - apply Z.ltb_ge in D.
    destruct (mchildren node) as [children|]; [|split; [lia|reflexivity]].
    rewrite flat_map_nil.
    assert (B : forall k : nat,
               (Z.of_nat (depth + k) <= maxDepth)%Z
               <-> k <= Z.to_nat maxDepth - depth) by lia.
    rewrite B, list_max_le, Forall_map.
    rewrite !Forall_forall in *.
    split; intros H child I0; specialize (H child I0);
      specialize (IH child I0 (S depth)).
    + apply IH in H. lia.
    + apply IH. lia.
Qed.

Lemma one_warning (maxDepth : Z) :
  forall node depth w,
    In w (visitDepth maxDepth node depth) -> w = depthWarning maxDepth.
Proof.
  induction node as [node IH] using md_ind. intros depth w.
  rewrite visitDepth_eq.
  destruct (maxDepth <? Z.of_nat depth)%Z.
  - intros [E|[]]. now symmetry.
  - destruct (mchildren node) as [children|]; [|intros []].
    rewrite in_flat_map. intros (child & I0 & W).
    rewrite Forall_forall in IH. exact (IH child I0 (S depth) w W).
Qed.

(** X15.  [validate] hands the text to the parser as it is.  It reports
    the text valid exactly when the parser reads it, and then without an
    error: the depth of the tree only gives warnings, none when no node
    lies deeper than [maxDepth] and otherwise the same one each time.
    When the parser throws there is one error and no warning. *)
Theorem validation_warns_about_depth_only :
  forall (maxDepth : Z) (rt : Runtime) (message markdown : string),
    let report := validate maxDepth rt message markdown in
    (valid report = true <-> parse rt markdown <> None)
    /\ (forall tree,
          parse rt markdown = Some tree ->
          errors report = []
          /\ (warnings report = []
              <-> (Z.of_nat (deepest tree) <= maxDepth)%Z)
          /\ (forall w, In w (warnings report) ->
                        w = depthWarning maxDepth))
    /\ (parse rt markdown = None ->
        errors report = ["Parse error: " +++ message]
        /\ warnings report = []).
Proof.
  intros maxDepth rt message markdown. cbv zeta. unfold validate.
  destruct (parse rt markdown) as [processedTree|].
  - unfold validateMdastTree. simpl. split; [split; congruence|].
    split; [|discriminate].
    intros tree [= <-]. split; [reflexivity|]. split.
    + now rewrite (no_warning maxDepth processedTree 0).
    + intros w. apply one_warning.
  - simpl. split; [split; congruence|]. split; [discriminate|].
    intros _. now split.
Qed.

Definition listTree : MdNode :=
  Md.parent "root"
    [Md.parent "list"
       [Md.parent "listItem" [Md.parent "paragraph" [Md.text "a"]]]].

Lemma validation_warns_about_depth_only_witness :
  warnings
    (validate 5 (ConvertFacts.readingAs "- a" listTree 0) "no message" "- a")
  = []
  /\ warnings
       (validate 3 (ConvertFacts.readingAs "- a" listTree 0) "no message"
          "- a")
     = [depthWarning 3].
Proof.
  pose proof (validation_warns_about_depth_only 5
                (ConvertFacts.readingAs "- a" listTree 0) "no message" "- a")
    as (_ & H & _).
  destruct (H listTree eq_refl) as (_ & W & _).
  split; [apply W; vm_compute; discriminate|reflexivity].
Defined.

End StatsFacts.
(* --------------------------------------------------------------------- *)
(** ** A mention in a text *)

Module RunFacts.

Import Regex.

Lemma drop_app (a t : string) : Str.drop (String.length a) (a +++ t) = t.
Proof. induction a as [|ch a IH]; simpl; auto. Qed.

Lemma take_app (a t : string) : Str.take (String.length a) (a +++ t) = a.
Proof. induction a as [|ch a IH]; simpl; [now destruct t|now rewrite IH]. Qed.

Lemma prefix_app (w t : string) : String.prefix w (w +++ t) = true.
Proof.
  induction w as [|a w IH]; simpl; [now destruct t|].
  destruct (ascii_dec a a) as [_|N]; [exact IH|now contradiction N].
Qed.

Lemma prefix_head (a : ascii) (w t : string) :
  String.prefix (String a w) t = true -> exists t', t = String a t'.
Proof.
  destruct t as [|b t]; simpl; [discriminate|].
  destruct (ascii_dec a b) as [->|_]; [|discriminate].
  intros _. now exists t.
Qed.

Lemma holds_get (p : ascii -> bool) (s : string) :
  NeedFacts.holds p s = false ->
  forall i a, String.get i s = Some a -> p a = false.
Proof.
  intros H i a G. destruct (p a) eqn:P; auto.
  now rewrite (NeedFacts.get_holds p s i a G P) in H.
Qed.

Section Run.

Variable s : string.

(** where the text goes on with [w], the literal [w] is matched *)
Lemma lit_here (w t : string) (i : nat) (c : caps) (k : K) :
  Str.drop i s = w +++ t ->
  m s (lit w) i c k = k (i + String.length w) c
  /\ Str.drop (i + String.length w) s = t.
Proof.
  intros D. rewrite RegexFacts.m_lit, D, prefix_app.
  now rewrite StrFacts.drop_add, D, drop_app.
Qed.

(** a pattern that starts with a literal matches only where the text
    has the first character of the literal *)
Lemma lit_head (a : ascii) (w : string) (r : re) (i : nat) (c : caps)
  (k : K) (x : nat * caps) :
  m s (Seq (lit (String a w)) r) i c k = Some x ->
  String.get i s = Some a.
Proof.
  change (m s (Seq (lit (String a w)) r) i c k)
    with (m s (lit (String a w)) i c (fun j c' => m s r j c' k)).
  rewrite RegexFacts.m_lit.
  destruct (String.prefix (String a w) (Str.drop i s)) eqn:P;
    [|discriminate].
  intros _. apply prefix_head in P as [t' P].
  now rewrite StrFacts.get_drop, P.
Qed.

Lemma starLoop_greedy (step : nat -> caps -> K -> option (nat * caps))
  (k : K) (fuel i : nat) (c : caps) :
  starLoop step true k (S fuel) i c
  = match step i c (fun j c' =>
                      if i <? j then starLoop step true k fuel j c'
                      else None) with
    | Some x => Some x
    | None => k i c
    end.
Proof. reflexivity. Qed.

Lemma m_seq (a b : re) (i : nat) (c : caps) (k : K) :
  m s (Seq a b) i c k = m s a i c (fun j c' => m s b j c' k).
Proof. reflexivity. Qed.

Lemma m_grp (n : nat) (a : re) (i : nat) (c : caps) (k : K) :
  m s (Grp n a) i c k = m s a i c (fun j c' => k j ((n, (i, j)) :: c')).
Proof. reflexivity. Qed.

Lemma m_star (g : bool) (a : re) (i : nat) (c : caps) (k : K) :
  m s (Star g a) i c k = starLoop (m s a) g k (String.length s - i) i c.
Proof. reflexivity. Qed.

Lemma m_chr (p : ascii -> bool) (i : nat) (c : caps) (k : K) :
  m s (Chr p) i c k
  = match Str.drop i s with
    | String a _ => if p a then k (S i) c else None
    | EmptyString => None
    end.
Proof.
  simpl. rewrite StrFacts.get_drop. now destruct (Str.drop i s).
Qed.

(** a greedy star over a class takes the whole run of the characters of
    the class when what follows the star matches after the run *)
Lemma star_run (p : ascii -> bool) (k : K) (x : nat * caps) (rest : string) :
  match rest with String a _ => p a = false | EmptyString => True end ->
  forall run i c fuel,
    Str.drop i s = run +++ rest ->
    NeedFacts.holds (fun a => negb (p a)) run = false ->
    String.length run <= fuel ->
    k (i + String.length run) c = Some x ->
    starLoop (m s (Chr p)) true k fuel i c = Some x.
Proof.
  intros End. induction run as [|a run IH]; intros i c fuel D A F Kx.
  - simpl in D, Kx. rewrite Nat.add_0_r in Kx.
    destruct fuel as [|fuel]; [exact Kx|].
    rewrite starLoop_greedy, m_chr, D.
    destruct rest as [|b rest']; [exact Kx|].
    now rewrite End.
  - destruct fuel as [|fuel]; simpl in F; [lia|].
    simpl in A. apply orb_false_iff in A as [Pa A].
    apply negb_false_iff in Pa.
    rewrite starLoop_greedy, m_chr, D. simpl append. cbv iota.
    rewrite Pa.
    assert (L : (i <? S i) = true) by (apply Nat.ltb_lt; lia).
    rewrite L.
    rewrite (IH (S i) c fuel); auto.
    + apply (StrFacts.drop_S s i a (run +++ rest)). exact D.
    + lia.
    + simpl in Kx. now replace (S i + String.length run)
                       with (i + S (String.length run)) by lia.
Qed.

(** the first offset at which the pattern matches is the one [exec]
    finds *)
Lemma search_first (r : re) (mt : Match) :
  forall fuel i j,
    i <= j -> j <= i + fuel ->
    (forall j', i <= j' < j -> matchAt s r j' = None) ->
    matchAt s r j = Some mt ->
    search s r fuel i = Some mt.
Proof.
  induction fuel as [|fuel IH]; intros i j Lo Hi None' Some'.
  - replace j with i in Some' by lia. simpl. now rewrite Some'.
  - simpl. destruct (Nat.eq_dec i j) as [->|Ne].
    + now rewrite Some'.
    + rewrite (None' i) by lia.
      apply (IH (S i) j); auto; try lia.
      intros j' Hj'. apply None'. lia.
Qed.

Lemma exec_first (r : re) (mt : Match) (j : nat) :
  j <= String.length s ->
  (forall j', j' < j -> matchAt s r j' = None) ->
  matchAt s r j = Some mt ->
  exec s r = Some mt.
Proof.
  intros Hi None' Some'. unfold exec, execFrom. simpl.
  rewrite Nat.sub_0_r. apply (search_first r mt _ 0 j); auto; try lia.
  intros j' Hj'. apply None'. lia.
Qed.

Lemma exec_at (r : re) (mt : Match) :
  exec s r = Some mt ->
  index mt <= String.length s /\ matchAt s r (index mt) = Some mt.
Proof.
  intros E. unfold exec, execFrom in E. simpl in E.
  rewrite Nat.sub_0_r in E.
  apply RegexFacts.search_some in E as (j & Hj & M & _).
  destruct (RegexFacts.matchAt_bounds s r j mt) as (I0 & _); auto; [lia|].
  rewrite I0. split; [lia|exact M].
Qed.

(** [opening], then one or more characters of a class as group 1, then
    [closing] *)
Definition bracket (opening : string) (cls : ascii -> bool)
  (closing : string) : re :=
  seqs [lit opening; Grp 1 (plus true (Chr cls)); lit closing].

(** where the text goes on with [opening], a run of the class and
    [closing], whose first character is not of the class, the pattern
    matches, and the group is the run *)
Lemma bracket_matches (opening : string) (cls : ascii -> bool)
  (h : ascii) (body' : string) (c : ascii) (closing' rest : string)
  (i : nat) :
  Str.drop i s
  = opening +++ String h body' +++ String c closing' +++ rest ->
  cls h = true ->
  NeedFacts.holds (fun a => negb (cls a)) body' = false ->
  cls c = false ->
  matchAt s (bracket opening cls (String c closing')) i
  = Some (mkMatch i
            (i + String.length opening + S (String.length body')
             + S (String.length closing'))
            [(1, (i + String.length opening,
                  i + String.length opening + S (String.length body')))]).
Proof.
  intros D Ph A Pc. unfold matchAt, bracket. cbn [seqs].
  destruct (lit_here opening (String h body' +++ String c closing' +++ rest)
              i []
              (fun j c' =>
                 m s (Seq (Grp 1 (plus true (Chr cls)))
                        (Seq (lit (String c closing')) Eps)) j c'
                   (fun j0 c0 => Some (j0, c0))) D) as (M & D1).
  rewrite m_seq, M. clear M. unfold plus.
  rewrite m_seq, m_grp, m_seq, m_chr, D1.
  simpl append. cbv iota. rewrite Ph, m_star.
  set (j := i + String.length opening) in *.
  assert (D2 : Str.drop (S j) s = body' +++ String c closing' +++ rest)
    by (apply (StrFacts.drop_S s j h); exact D1).
  assert (Len : String.length body' + S (String.length closing')
                <= String.length s - S j).
  { rewrite <- StrFacts.length_drop, D2, !StrFacts.length_append.
    simpl. lia. }
  rewrite (star_run (cls) _
             (j + S (String.length body') + S (String.length closing'),
              [(1, (j, j + S (String.length body')))])
             (String c closing' +++ rest) Pc body' (S j) []
             (String.length s - S j)).
  - reflexivity.
  - exact D2.
  - exact A.
  - lia.
  - rewrite m_seq.
    destruct (lit_here (String c closing') rest
                (S j + String.length body')
                [(1, (j, S j + String.length body'))]
                (fun j1 c' => m s Eps j1 c' (fun j0 c0 => Some (j0, c0))))
      as (M & _).
    { now rewrite StrFacts.drop_add, D2, drop_app. }
    rewrite M. simpl.
    f_equal. f_equal; [lia|]. do 3 f_equal. lia.
Qed.

(** a pattern that starts with a look-behind matches only where what
    follows the look-behind matches *)
Lemma notBehind_then (p : ascii -> bool) (r : re) (i : nat) (c : caps)
  (k : K) (x : nat * caps) :
  m s (Seq (NotBehind p) r) i c k = Some x -> m s r i c k = Some x.
Proof.
  rewrite m_seq. simpl. destruct i as [|i']; auto.
  destruct (String.get i' s) as [a|]; auto.
  destruct (p a); [discriminate|auto].
Qed.

(** the standalone date matches only where a digit comes first or
    second *)
Lemma standalone_date_head (i : nat) (x : nat * caps) :
  m s (Social.regex Social.standaloneDatePattern) i []
    (fun j c => Some (j, c)) = Some x ->
  exists a, (String.get i s = Some a \/ String.get (S i) s = Some a)
            /\ Str.isDigit a = true.
Proof.
  change (Social.regex Social.standaloneDatePattern)
    with (Seq (Grp 1 (Alt Bol (Chr (fun a => negb (Social.wordOrDash a)))))
            (Seq (Grp 2 (Seq (Seq (Chr Str.isDigit)
                                (rep 3 (Chr Str.isDigit)))
                           (seqs [lit "-"; rep 2 (Chr Str.isDigit);
                                  lit "-"; rep 2 (Chr Str.isDigit)])))
               (Seq (NotAhead (Chr Social.wordOrDash)) Eps))).
  cbn [m].
  destruct (i =? 0) eqn:Z.
  - destruct (String.get i s) as [a|] eqn:G.
    + destruct (Str.isDigit a) eqn:Dg.
      * intros _. exists a. auto.
      * destruct (negb (Social.wordOrDash a)); [|discriminate].
        destruct (String.get (S i) s) as [a'|] eqn:G'; [|discriminate].
        destruct (Str.isDigit a') eqn:Dg'; [|discriminate].
        intros _. exists a'. auto.
    + discriminate.
  - destruct (String.get i s) as [a|]; [|discriminate].
    destruct (negb (Social.wordOrDash a)); [|discriminate].
    destruct (String.get (S i) s) as [a'|] eqn:G'; [|discriminate].
    destruct (Str.isDigit a') eqn:Dg'; [|discriminate].
    intros _. exists a'. auto.
Qed.

End Run.

Lemma holds_app (p : ascii -> bool) (a t : string) :
  NeedFacts.holds p (a +++ t) = NeedFacts.holds p a || NeedFacts.holds p t.
Proof.
  induction a as [|ch a IH]; simpl; auto. now rewrite IH, orb_assoc.
Qed.

End RunFacts.

(* --------------------------------------------------------------------- *)
(** ** An element between two texts without markup *)

Module BetweenFacts.

Import Regex.
Import Social.
Import NeedFacts.
Import RunFacts.

(** the nodes of a text without markup *)
Definition textOf (t : string) : list ADFNode :=
  if Str.isEmpty t then [] else [textNode t].

Section Between.

Variable getEmojiData : string -> EmojiData.
Variables before body' closing' opening' after : string.
Variables o h c : ascii.
Variable cls : ascii -> bool.

Let opening : string := String o opening'.
Let body : string := String h body'.
Let closing : string := String c closing'.

Hypothesis plainBefore : holds PlainTextFacts.markupChar before = false.
Hypothesis markupOpening : PlainTextFacts.markupChar o = true.
Hypothesis noDigitOpening : Str.isDigit o = false.
Hypothesis headInClass : cls h = true.
Hypothesis bodyInClass : holds (fun a => negb (cls a)) body' = false.
Hypothesis closingOutside : cls c = false.

Let content : string := before +++ opening +++ body +++ closing +++ after.
Let b : nat := String.length before.

Definition elementMatch : Match :=
  mkMatch b
    (b + String.length opening + String.length body + String.length closing)
    [(1, (b + String.length opening,
          b + String.length opening + String.length body))].

Lemma drop_before :
  Str.drop b content = opening +++ body +++ closing +++ after.
Proof. apply drop_app. Qed.

Lemma length_content :
  String.length content
  = b + String.length opening + String.length body + String.length closing
    + String.length after.
Proof.
  unfold content. rewrite !StrFacts.length_append. unfold b. lia.
Qed.

Lemma get_before (i : nat) (a : ascii) :
  i < b -> String.get i content = Some a ->
  PlainTextFacts.markupChar a = false.
Proof.
  intros L G. unfold content in G.
  rewrite <- (String.append_correct1 before _ i L) in G.
  exact (holds_get _ _ plainBefore i a G).
Qed.

Lemma get_opening : String.get b content = Some o.
Proof. now rewrite StrFacts.get_drop, drop_before. Qed.

Lemma element_matches :
  matchAt content (bracket opening cls closing) b = Some elementMatch.
Proof.
  exact (bracket_matches content opening cls h body' c closing' after b
           drop_before headInClass bodyInClass closingOutside).
Qed.

(** a pattern that starts with a literal, the first character of which
    is a character of markup, does not match before the element *)
Lemma head_not_before (a : ascii) (w : string) (r : re) (i : nat)
  (k : K) (x : nat * caps) :
  PlainTextFacts.markupChar a = true ->
  m content (Seq (lit (String a w)) r) i [] k = Some x -> b <= i.
Proof.
  intros Ma X. apply lit_head in X.
  destruct (Nat.lt_ge_cases i b) as [L|G]; [exfalso|exact G].
  now rewrite (get_before i a L X) in Ma.
Qed.

Lemma element_found :
  exec content (bracket opening cls closing) = Some elementMatch.
Proof.
  apply (exec_first content _ _ b).
  - rewrite length_content. lia.
  - intros j Lj. unfold matchAt.
    destruct (m content (bracket opening cls closing) j []
                (fun j0 c0 => Some (j0, c0))) as [x|] eqn:X; [|reflexivity].
    apply (head_not_before o opening') in X; [lia|exact markupOpening].
  - exact element_matches.
Qed.

Lemma element_parts :
  Str.take (index elementMatch) content = before
  /\ group' content 1 elementMatch = body
  /\ Str.drop (index elementMatch
               + String.length (matched content elementMatch)) content
     = after.
Proof.
  assert (Stop : stop elementMatch <= String.length content)
    by (cbn [stop elementMatch]; rewrite length_content; lia).
  split; [apply take_app|]. split.
  - unfold group', group. cbn [groups elementMatch lookup Nat.eqb].
    unfold Str.sub. rewrite StrFacts.drop_add, drop_before, drop_app.
    replace (b + String.length opening + String.length body
             - (b + String.length opening))
      with (String.length body) by lia.
    apply take_app.
  - unfold matched. rewrite (StrFacts.length_sub _ _ _ Stop).
    cbn [index stop elementMatch].
    replace (b + (b + String.length opening + String.length body
                  + String.length closing - b))
      with (b + (String.length opening
                 + (String.length body + String.length closing))) by lia.
    rewrite !StrFacts.drop_add, drop_before.
    now rewrite !drop_app.
Qed.

(** no pattern of the scanner matches before the element *)
Lemma social_not_before (p : Pattern) (mt : Match) :
  In p (patterns getEmojiData) ->
  exec content (regex p) = Some mt -> b <= index mt.
Proof.
  intros I0 E. apply exec_at in E as (Hi & M).
  unfold matchAt in M.
  destruct (m content (regex p) (index mt) [] (fun j c0 => Some (j, c0)))
    as [x|] eqn:X; [clear M|discriminate].
  simpl in I0.
  destruct I0 as [<-|[<-|[<-|[<-|[<-|[<-|[<-|[]]]]]]]].
  - now apply (head_not_before "{" "user:") in X.
  - now apply (head_not_before ":" EmptyString) in X.
  - now apply (head_not_before "{" "date:") in X.
  - destruct (Nat.lt_ge_cases (index mt) b) as [L|G]; [exfalso|exact G].
    apply standalone_date_head in X as (a & [G|G] & Dg).
    + pose proof (get_before _ a L G) as N.
      unfold PlainTextFacts.markupChar in N. rewrite Dg in N.
      now rewrite orb_true_r in N.
    + destruct (Nat.eq_dec (S (index mt)) b) as [Eq|Ne].
      * rewrite Eq, get_opening in G. injection G as <-.
        now rewrite Dg in noDigitOpening.
      * assert (Lb : S (index mt) < b) by lia.
        pose proof (get_before _ a Lb G) as N.
        unfold PlainTextFacts.markupChar in N. rewrite Dg in N.
        now rewrite orb_true_r in N.
  - now apply (head_not_before "{" "status:") in X.
  - now apply (head_not_before "[" EmptyString) in X.
  - now apply (head_not_before "!" "[") in X.
Qed.

Lemma later_patterns_keep (e : SocialMatch) (ps : list Pattern) :
  sindex e = b ->
  (forall p, In p ps -> In p (patterns getEmojiData)) ->
  fold_left (tryPattern content) ps (Some e) = Some e.
Proof.
  intros Se. induction ps as [|p ps IH]; intros Sub; [reflexivity|].
  simpl. unfold tryPattern at 2.
  destruct (exec content (regex p)) as [mt|] eqn:E.
  - pose proof (social_not_before p mt (Sub p (or_introl eq_refl)) E) as G.
    assert (F : (index mt <? sindex e) = false)
      by (apply Nat.ltb_ge; lia).
    rewrite F. apply IH. intros q I0. apply Sub. now right.
  - apply IH. intros q I0. apply Sub. now right.
Qed.

(** no pattern of [parseInlineMarksRecursively] matches before the
    element *)
Lemma inline_not_before (p : Pattern) (mt : Match) :
  In p inlinePatterns ->
  exec content (regex p) = Some mt -> b <= index mt.
Proof.
  intros I0 E. apply exec_at in E as (Hi & M).
  unfold matchAt in M.
  destruct (m content (regex p) (index mt) [] (fun j c0 => Some (j, c0)))
    as [x|] eqn:X; [clear M|discriminate].
  simpl in I0.
  destruct I0 as [<-|[<-|[<-|[<-|[<-|[<-|[<-|[]]]]]]]]; cbn [regex] in X.
  - unfold linkRe in X. cbn [seqs] in X. rewrite m_seq in X.
    now apply (head_not_before "[" EmptyString) in X.
  - now apply (head_not_before "[" EmptyString) in X.
  - now apply (head_not_before "[" EmptyString) in X.
  - now apply (head_not_before "*" "*") in X.
  - cbn [seqs] in X. apply notBehind_then in X.
    now apply (head_not_before "*" EmptyString) in X.
  - now apply (head_not_before "`" EmptyString) in X.
  - now apply (head_not_before "<" "!--") in X.
Qed.

End Between.

Section Plain.

Variable getEmojiData : string -> EmojiData.
Variable t : string.
Hypothesis plain : holds PlainTextFacts.markupChar t = false.

(** a text without markup under [parseInlineMarksRecursively], whatever
    the depth left *)
Lemma marks_of_plain (fuel : nat) :
  String.length t <= fuel -> parseInlineMarksFuel fuel t = textOf t.
Proof.
  intros F. unfold textOf. destruct (Str.isEmpty t) eqn:E.
  - destruct fuel; simpl; now rewrite E.
  - destruct fuel as [|fuel].
    + destruct t; [discriminate E|simpl in F; lia].
    + simpl. rewrite E.
      now rewrite (PlainTextFacts.no_metadata_comment t plain),
        (PlainTextFacts.no_inline_match t plain).
Qed.

(** the rest of the scan on a text without markup *)
Lemma scan_of_plain (fuel : nat) (nodes : list ADFNode) :
  String.length t <= fuel ->
  scanLoop getEmojiData fuel t nodes = nodes ++ textOf t.
Proof.
  intros F. unfold textOf.
  destruct (Str.isEmpty t) eqn:E.
  - destruct fuel; simpl; rewrite E; now rewrite app_nil_r.
  - destruct fuel as [|fuel].
    + destruct t; [discriminate E|simpl in F; lia].
    + simpl. rewrite E.
      rewrite (PlainTextFacts.no_social_element getEmojiData t plain).
      now rewrite (PlainTextFacts.plain_marks t plain), E.
Qed.

End Plain.

End BetweenFacts.

(* --------------------------------------------------------------------- *)
(** ** A mention in a text *)

Module MentionFacts.

Import Regex.
Import Social.
Import NeedFacts.
Import RunFacts.
Import BetweenFacts.

Definition mentionNode (id : string) : ADFNode :=
  attrNode "mention"
    [("id", VStr id); ("text", VStr ("@" +++ id));
     ("userType", VStr "DEFAULT")].

Definition closingBrace (a : ascii) : bool := Str.oneOf "}" a.

(** [{user:id}] between two texts *)
Definition mentionIn (before id after : string) : string :=
  before +++ "{user:" +++ id +++ "}" +++ after.

Lemma not_closing (t : string) :
  holds closingBrace t = false ->
  holds (fun a => negb (Str.noneOf "}" a)) t = false.
Proof.
  induction t as [|a t IH]; simpl; auto.
  intros H. apply orb_false_iff in H as [P H].
  unfold Str.noneOf. fold (closingBrace a). rewrite P. simpl. now apply IH.
Qed.

Section Mention.

Variable getEmojiData : string -> EmojiData.
Variables before id' after : string.
Variable h : ascii.

Hypothesis plainBefore : holds PlainTextFacts.markupChar before = false.
Hypothesis plainAfter : holds PlainTextFacts.markupChar after = false.
Hypothesis wholeId : holds closingBrace (String h id') = false.

Let id : string := String h id'.
Let content : string := mentionIn before id after.

Lemma head_of_id : Str.noneOf "}" h = true.
Proof.
  pose proof wholeId as W. simpl in W. apply orb_false_iff in W as [P _].
  unfold Str.noneOf. fold (closingBrace h). now rewrite P.
Qed.

Lemma rest_of_id : holds (fun a => negb (Str.noneOf "}" a)) id' = false.
Proof.
  pose proof wholeId as W. simpl in W. apply orb_false_iff in W as [_ W].
  now apply not_closing.
Qed.

Lemma mention_is_next :
  findNextSocialElement getEmojiData content
  = Some (mkSocial (String.length before) before (mentionNode id) after).
Proof.
  pose proof (element_found before id' EmptyString "user:" after "{" h "}"
                (Str.noneOf "}") plainBefore eq_refl head_of_id rest_of_id
                eq_refl) as Found.
  destruct (element_parts before id' EmptyString "user:" after "{" h "}")
    as (Take & Group & Drop).
  unfold findNextSocialElement, findNextWith.
  change (fold_left (tryPattern content) (patterns getEmojiData) None)
    with (fold_left (tryPattern content) (tl (patterns getEmojiData))
            (tryPattern content None mentionPattern)).
  set (mt := elementMatch before id' EmptyString "user:" "{" h "}") in *.
  assert (First : tryPattern content None mentionPattern
                  = Some (mkSocial (index mt) (Str.take (index mt) content)
                            (process mentionPattern content mt)
                            (Str.drop
                               (index mt
                                + String.length (matched content mt))
                               content))).
  { unfold tryPattern.
    change (regex mentionPattern)
      with (bracket "{user:" (Str.noneOf "}") "}").
    unfold content, mentionIn, id. now rewrite Found. }
  rewrite First.
  unfold content, mentionIn, id in *.
  rewrite (later_patterns_keep getEmojiData before id' EmptyString "user:"
             after "{" h "}" plainBefore eq_refl);
    [|reflexivity|intros p I0; simpl in I0 |- *; tauto].
  f_equal. cbn [process mentionPattern].
  rewrite Take, Group, Drop. reflexivity.
Qed.

Lemma mention_scanned :
  parseInlineContentWithSocialElements getEmojiData content
  = textOf before ++ [mentionNode id] ++ textOf after.
Proof.
  unfold parseInlineContentWithSocialElements.
  assert (Len : String.length content
                = String.length before + 6 + String.length id + 1
                  + String.length after).
  { unfold content, mentionIn. rewrite !StrFacts.length_append. simpl. lia. }
  destruct (Str.isEmpty content) eqn:E.
  { apply StrFacts.isEmpty_length in E. lia. }
  destruct (String.length content) as [|fuel] eqn:L; [lia|].
  simpl scanLoop. rewrite E, mention_is_next.
  cbn [afterText beforeText snode].
  rewrite (scan_of_plain getEmojiData after plainAfter) by lia.
  rewrite (PlainTextFacts.plain_marks before plainBefore).
  unfold textOf. simpl. destruct (Str.isEmpty before); reflexivity.
Qed.

End Mention.

(** X16.  In a text that holds none of the characters [{ : [ ! * ` <] and
    no digit, put [{user:ID}] with an ID that is not empty and holds no
    closing brace: the scanner gives the text before it (if any) as one
    text node, a mention node with id ID, text @ID and userType DEFAULT,
    and the text after it (if any) as one text node. *)
Theorem mention_between_plain_texts :
  forall (getEmojiData : string -> EmojiData) (before id after : string),
    holds PlainTextFacts.markupChar before = false ->
    holds PlainTextFacts.markupChar after = false ->
    Str.isEmpty id = false ->
    holds closingBrace id = false ->
    processTextNodeForSocialElements getEmojiData
      (mentionIn before id after)
    = textOf before ++ [mentionNode id] ++ textOf after.
Proof.
  intros getEmojiData before [|h id'] after Hb Ha Hi Hw; [discriminate Hi|].
  unfold processTextNodeForSocialElements.
  rewrite (mention_scanned getEmojiData before id' after h Hb Ha Hw).
  destruct (Str.isEmpty (mentionIn before (String h id') after)) eqn:E;
    [|reflexivity].
  apply StrFacts.isEmpty_length in E. unfold mentionIn in E.
  rewrite !StrFacts.length_append in E. simpl in E. lia.
Qed.

Lemma mention_between_plain_texts_witness :
  processTextNodeForSocialElements SocialFacts.noEmoji
    "Ask {user:a:b-7} about it"
  = [textNode "Ask ";
     attrNode "mention"
       [("id", VStr "a:b-7"); ("text", VStr "@a:b-7");
        ("userType", VStr "DEFAULT")];
     textNode " about it"].
Proof.
  apply (mention_between_plain_texts SocialFacts.noEmoji "Ask " "a:b-7"
           " about it"); reflexivity.
Defined.

End MentionFacts.
(* --------------------------------------------------------------------- *)
(** ** Nesting keeps the order of the document *)

Module OrderFacts.

Import Tokens.
Import TreeFacts.

(** a node without its content *)
Definition label (n : ADFNode) : ADFNode :=
  mkNode (ntype n) (attrs n) None (text n) (marks n).

(** a node and the nodes under it, in the order of the document *)
Fixpoint preorder (n : ADFNode) : list ADFNode :=
  label n ::
  match content n with
  | Some children => flat_map preorder children
  | None => []
  end.

Definition inOrder (nodes : list ADFNode) : list ADFNode :=
  flat_map preorder nodes.

Lemma preorder_eq (n : ADFNode) :
  preorder n
  = label n :: match content n with
               | Some children => inOrder children
               | None => []
               end.
Proof. now destruct n. Qed.

Lemma inOrder_app (l l' : list ADFNode) :
  inOrder (l ++ l') = inOrder l ++ inOrder l'.
Proof. apply flat_map_app. Qed.

Lemma inOrder_cons (n : ADFNode) (l : list ADFNode) :
  inOrder (n :: l) = preorder n ++ inOrder l.
Proof. reflexivity. Qed.

(** the nodes a container takes come right after those it had *)
Lemma preorder_absorb (node : ADFNode) (nestedNodes : list ADFNode) :
  preorder (absorb node nestedNodes)
  = preorder node ++ inOrder nestedNodes.
Proof.
  rewrite !preorder_eq. unfold absorb, setContent, label. simpl.
  rewrite inOrder_app. destruct (content node); simpl.
  - now rewrite app_comm_cons.
  - reflexivity.
Qed.

Lemma takeWhile_skipn {A} (p : A -> bool) (l : list A) :
  takeWhile p l ++ skipn (List.length (takeWhile p l)) l = l.
Proof.
  induction l as [|x l IH]; simpl; auto.
  destruct (p x); simpl; auto. now rewrite IH.
Qed.

Lemma nestFrom_order :
  forall n l,
    List.length l <= n -> inOrder (nestFrom 0 l) = inOrder l.
Proof.
  induction n as [|n IH]; intros [|node after] L; simpl in L;
    try reflexivity; try lia.
  assert (Plain : inOrder (node :: nestFrom 0 after)
                  = inOrder (node :: after)).
  { rewrite !inOrder_cons. f_equal. apply IH. lia. }
  rewrite NestingFacts.nestFrom_cons.
  destruct (_ && negb (List.length after =? 0)); [|exact Plain].
  destruct (match after with
            | next :: _ => String.eqb (ntype next) (ntype node)
            | [] => false
            end); [exact Plain|].
  destruct (_ && (0 <? List.length after)); [exact Plain|].
  destruct (takeWhile nestable after) as [|x nested] eqn:T; [exact Plain|].
  rewrite <- T. rewrite !inOrder_cons, preorder_absorb.
  rewrite NestingFacts.nestFrom_skipn, IH.
  - rewrite <- app_assoc, <- inOrder_app. now rewrite takeWhile_skipn.
  - rewrite length_skipn. lia.
Qed.

Lemma nestFrom_shorter :
  forall n l,
    List.length l <= n -> List.length (nestFrom 0 l) <= List.length l.
Proof.
  induction n as [|n IH]; intros [|node after] L; simpl in L;
    try (simpl; lia).
  assert (Plain : List.length (node :: nestFrom 0 after)
                  <= List.length (node :: after)).
  { simpl. specialize (IH after). lia. }
  rewrite NestingFacts.nestFrom_cons.
  destruct (_ && negb (List.length after =? 0)); [|exact Plain].
  destruct (match after with
            | next :: _ => String.eqb (ntype next) (ntype node)
            | [] => false
            end); [exact Plain|].
  destruct (_ && (0 <? List.length after)); [exact Plain|].
  destruct (takeWhile nestable after) as [|x nested] eqn:T; [exact Plain|].
  rewrite <- T. rewrite NestingFacts.nestFrom_skipn.
  cbn [List.length].
  specialize (IH (skipn (List.length (takeWhile nestable after)) after)).
  rewrite length_skipn in IH. lia.
Qed.

Lemma nestFrom_idle (l : list ADFNode) :
  existsb NestingFacts.isContainer l = false -> nestFrom 0 l = l.
Proof.
  induction l as [|node after IH]; [reflexivity|].
  simpl existsb. intros E. apply orb_false_iff in E as [C E].
  rewrite NestingFacts.nestFrom_cons.
  unfold NestingFacts.isContainer in C. rewrite C. simpl.
  now rewrite (IH E).
Qed.

(** X17.  The nesting of the blocks that follow an expand or a panel
    only moves blocks under a container: the nodes of the result, read in
    the order of the document and leaving the content aside, are those of
    the list it was given, in the same order, none lost and none added.
    The list at the top does not get longer, and without an expand or a
    panel at the top it stays as it is. *)
Theorem nesting_keeps_document_order :
  forall content : list ADFNode,
    inOrder (postProcessNestedAdfFenceBlocks content) = inOrder content
    /\ List.length (postProcessNestedAdfFenceBlocks content)
       <= List.length content
    /\ (existsb NestingFacts.isContainer content = false ->
        postProcessNestedAdfFenceBlocks content = content).
Proof.
  intros content. unfold postProcessNestedAdfFenceBlocks.
  split; [|split].
  - now apply (nestFrom_order (List.length content)).
  - now apply (nestFrom_shorter (List.length content)).
  - apply nestFrom_idle.
Qed.

Lemma nesting_keeps_document_order_witness :
  postProcessNestedAdfFenceBlocks
    [blockNode "paragraph" [textNode "one"]; mkNode "rule" None None None None;
     blockNode "paragraph" [textNode "two"]]
  = [blockNode "paragraph" [textNode "one"]; mkNode "rule" None None None None;
     blockNode "paragraph" [textNode "two"]].
Proof.
  apply (nesting_keeps_document_order
           [blockNode "paragraph" [textNode "one"];
            mkNode "rule" None None None None;
            blockNode "paragraph" [textNode "two"]]).
  reflexivity.
Defined.

End OrderFacts.
(* --------------------------------------------------------------------- *)
(** ** An emoji in a text *)

Module EmojiFacts.

Import Regex.
Import Social.
Import NeedFacts.
Import RunFacts.
Import BetweenFacts.

Definition emojiNode (getEmojiData : string -> EmojiData)
  (shortName : string) : ADFNode :=
  attrNode "emoji"
    [("shortName", VStr (":" +++ shortName +++ ":"));
     ("id", optVal (emojiId (getEmojiData shortName)));
     ("text", VStr (emojiText (getEmojiData shortName)))].

(** a character a short name cannot hold *)
Definition notOfName (a : ascii) : bool := negb (emojiChar a).

(** [:name:] between two texts *)
Definition emojiIn (before name after : string) : string :=
  before +++ ":" +++ name +++ ":" +++ after.

Section Emoji.

Variable getEmojiData : string -> EmojiData.
Variables before name' after : string.
Variable h : ascii.

Hypothesis plainBefore : holds PlainTextFacts.markupChar before = false.
Hypothesis plainAfter : holds PlainTextFacts.markupChar after = false.
Hypothesis headOfName : emojiChar h = true.
Hypothesis restOfName : holds notOfName name' = false.

Let content : string := emojiIn before (String h name') after.

(** the mention pattern, tried first, matches later or not at all *)
Lemma mention_is_later (mt : Match) :
  exec content (regex mentionPattern) = Some mt ->
  String.length before < index mt.
Proof.
  intros E.
  pose proof (social_not_before getEmojiData before name' EmptyString
                EmptyString after ":" h ":" plainBefore eq_refl
                mentionPattern mt (or_introl eq_refl) E) as G.
  apply exec_at in E as (_ & M). unfold matchAt in M.
  destruct (m content (regex mentionPattern) (index mt) []
              (fun j c0 => Some (j, c0))) as [x|] eqn:X; [|discriminate].
  apply (lit_head content "{" "user:") in X.
  destruct (Nat.eq_dec (index mt) (String.length before)) as [Eq|Ne];
    [exfalso|lia].
  rewrite Eq in X. unfold content, emojiIn in X.
  rewrite (get_opening before name' EmptyString EmptyString after ":" h ":")
    in X.
  discriminate X.
Qed.

Lemma emoji_is_next :
  findNextSocialElement getEmojiData content
  = Some (mkSocial (String.length before) before
            (emojiNode getEmojiData (String h name')) after).
Proof.
  pose proof (element_found before name' EmptyString EmptyString after
                ":" h ":" emojiChar plainBefore eq_refl headOfName
                restOfName eq_refl) as Found.
  destruct (element_parts before name' EmptyString EmptyString after
              ":" h ":") as (Take & Group & Drop).
  set (mt := elementMatch before name' EmptyString EmptyString ":" h ":")
    in *.
  unfold findNextSocialElement, findNextWith.
  change (fold_left (tryPattern content) (patterns getEmojiData) None)
    with (fold_left (tryPattern content)
            (tl (tl (patterns getEmojiData)))
            (tryPattern content
               (tryPattern content None mentionPattern)
               (emojiPattern getEmojiData))).
  assert (Second : tryPattern content
                     (tryPattern content None mentionPattern)
                     (emojiPattern getEmojiData)
                   = Some (mkSocial (index mt)
                             (Str.take (index mt) content)
                             (process (emojiPattern getEmojiData) content mt)
                             (Str.drop
                                (index mt
                                 + String.length (matched content mt))
                                content))).
  { unfold tryPattern at 1.
    change (regex (emojiPattern getEmojiData))
      with (bracket ":" emojiChar ":").
    unfold content at 1, emojiIn. rewrite Found.
    fold (emojiIn before (String h name') after). fold content.
    unfold tryPattern.
    destruct (exec content (regex mentionPattern)) as [mt1|] eqn:E1;
      [|reflexivity].
    pose proof (mention_is_later mt1 E1) as L.
    cbn [sindex].
    assert (Lt : (index mt <? index mt1) = true)
      by (apply Nat.ltb_lt; exact L).
    now rewrite Lt. }
  rewrite Second. unfold content, emojiIn in *.
  rewrite (later_patterns_keep getEmojiData before name' EmptyString
             EmptyString after ":" h ":" plainBefore eq_refl);
    [|reflexivity|intros p I0; simpl in I0 |- *; tauto].
  f_equal. cbn [process emojiPattern].
  rewrite Take, Group, Drop. reflexivity.
Qed.

Lemma emoji_scanned :
  parseInlineContentWithSocialElements getEmojiData content
  = textOf before ++ [emojiNode getEmojiData (String h name')]
    ++ textOf after.
Proof.
  unfold parseInlineContentWithSocialElements.
  assert (Len : String.length content
                = String.length before + 1 + S (String.length name') + 1
                  + String.length after).
  { unfold content, emojiIn. rewrite !StrFacts.length_append. simpl. lia. }
  destruct (Str.isEmpty content) eqn:E.
  { apply StrFacts.isEmpty_length in E. lia. }
  destruct (String.length content) as [|fuel] eqn:L; [lia|].
  simpl scanLoop. rewrite E, emoji_is_next.
  cbn [afterText beforeText snode].
  rewrite (scan_of_plain getEmojiData after plainAfter) by lia.
  rewrite (PlainTextFacts.plain_marks before plainBefore).
  unfold textOf. simpl. destruct (Str.isEmpty before); reflexivity.
Qed.

End Emoji.

(** X18.  In a text that holds none of the characters [{ : [ ! * ` <] and
    no digit, put [:NAME:] with a name that is not empty and made of
    letters, digits, underscores, plus and minus signs: the scanner gives
    the text before it (if any) as one text node, an emoji node whose
    shortName is :NAME: and whose id and text are those the emoji table
    gives for NAME, and the text after it (if any) as one text node. *)
Theorem emoji_between_plain_texts :
  forall (getEmojiData : string -> EmojiData) (before name after : string),
    holds PlainTextFacts.markupChar before = false ->
    holds PlainTextFacts.markupChar after = false ->
    Str.isEmpty name = false ->
    holds notOfName name = false ->
    processTextNodeForSocialElements getEmojiData
      (emojiIn before name after)
    = textOf before ++ [emojiNode getEmojiData name] ++ textOf after.
Proof.
  intros getEmojiData before [|h name'] after Hb Ha Hn Hw;
    [discriminate Hn|].
  simpl in Hw. apply orb_false_iff in Hw as [Hh Hr].
  apply negb_false_iff in Hh.
  unfold processTextNodeForSocialElements.
  rewrite (emoji_scanned getEmojiData before name' after h Hb Ha Hh Hr).
  destruct (Str.isEmpty (emojiIn before (String h name') after)) eqn:E;
    [|reflexivity].
  apply StrFacts.isEmpty_length in E. unfold emojiIn in E.
  rewrite !StrFacts.length_append in E. simpl in E. lia.
Qed.

(** an emoji table with one entry *)
Definition oneEmoji (shortName : string) : EmojiData :=
  if String.eqb shortName "+1" then mkEmoji (Some "1f44d") "+1!"
  else mkEmoji None shortName.

Lemma emoji_between_plain_texts_witness :
  processTextNodeForSocialElements oneEmoji "Fine :+1: thanks"
  = [textNode "Fine ";
     attrNode "emoji"
       [("shortName", VStr ":+1:"); ("id", VStr "1f44d");
        ("text", VStr "+1!")];
     textNode " thanks"].
Proof.
  apply (emoji_between_plain_texts oneEmoji "Fine " "+1" " thanks");
    reflexivity.
Defined.

End EmojiFacts.
(* --------------------------------------------------------------------- *)
(** ** Strong text and code in a text *)

Module InlineMarkFacts.

Import Regex.
Import Social.
Import NeedFacts.
Import RunFacts.
Import BetweenFacts.

(** the characters one of which every pattern of the scanner needs *)
Definition socialChar (a : ascii) : bool :=
  Str.oneOf "{:[!" a || Str.isDigit a.

Definition lessThan (a : ascii) : bool := Ascii.eqb a "<".

Lemma patterns_need_social (getEmojiData : string -> EmojiData) :
  forall p, In p (patterns getEmojiData) ->
            needs socialChar (regex p) = true.
Proof.
  intros p H. simpl in H.
  repeat (destruct H as [H|H]; [subst p; vm_compute; reflexivity|]).
  contradiction.
Qed.

Lemma comment_needs_less_than : needs lessThan metadataRegex = true.
Proof. vm_compute. reflexivity. Qed.

(** a text without markup holds no character of a class of markup *)
Lemma plain_lacks (q : ascii -> bool) (t : string) :
  within q PlainTextFacts.markupChar = true ->
  holds PlainTextFacts.markupChar t = false -> holds q t = false.
Proof.
  intros W. apply holds_weaken. intros a Q.
  exact (within_sound q PlainTextFacts.markupChar a W Q).
Qed.

(** the step of the loop of [firstInlineMatch] *)
Definition pick (content : string) (firstMatch : option (Match * Pattern))
  (pattern : Pattern) : option (Match * Pattern) :=
  match exec content (regex pattern) with
  | Some mt =>
      if match firstMatch with
         | None => true
         | Some (fm, _) => index mt <? index fm
         end
      then Some (mt, pattern) else firstMatch
  | None => firstMatch
  end.

Lemma firstInlineMatch_pick (content : string) :
  firstInlineMatch content = fold_left (pick content) inlinePatterns None.
Proof. reflexivity. Qed.

Lemma pick_nothing (content : string) (pre : list Pattern) :
  (forall q, In q pre -> exec content (regex q) = None) ->
  fold_left (pick content) pre None = None.
Proof.
  induction pre as [|q pre IH]; intros N; [reflexivity|].
  simpl. unfold pick at 2. rewrite (N q (or_introl eq_refl)).
  apply IH. intros q' I0. apply N. now right.
Qed.

Lemma pick_keeps (content : string) (mt : Match) (p : Pattern)
  (post : list Pattern) :
  (forall q mq, In q post -> exec content (regex q) = Some mq ->
                index mt <= index mq) ->
  fold_left (pick content) post (Some (mt, p)) = Some (mt, p).
Proof.
  induction post as [|q post IH]; intros L; [reflexivity|].
  simpl. unfold pick at 2.
  destruct (exec content (regex q)) as [mq|] eqn:E.
  - pose proof (L q mq (or_introl eq_refl) E) as G.
    assert (F : (index mq <? index mt) = false) by (apply Nat.ltb_ge; lia).
    rewrite F. apply IH. intros q' mq' I0. apply L. now right.
  - apply IH. intros q' mq' I0. apply L. now right.
Qed.

Section Element.

Variable getEmojiData : string -> EmojiData.
Variables before body' closing' opening' after : string.
Variables o h c : ascii.
Variable cls : ascii -> bool.

(** the pattern of the element, those tried before it and those tried
    after it *)
Variable pattern : Pattern.
Variables pre post : list Pattern.
(** a class of characters one of which every pattern tried before needs *)
Variable preClass : ascii -> bool.

Let opening : string := String o opening'.
Let body : string := String h body'.
Let closing : string := String c closing'.
Let content : string := before +++ opening +++ body +++ closing +++ after.

Hypothesis plainBefore : holds PlainTextFacts.markupChar before = false.
Hypothesis plainAfter : holds PlainTextFacts.markupChar after = false.
Hypothesis markupOpening : PlainTextFacts.markupChar o = true.
Hypothesis headInClass : cls h = true.
Hypothesis bodyInClass : holds (fun a => negb (cls a)) body' = false.
Hypothesis closingOutside : cls c = false.
Hypothesis order : inlinePatterns = pre ++ pattern :: post.
Hypothesis shape : regex pattern = bracket opening cls closing.
Hypothesis preNeeds :
  forall q, In q pre -> needs preClass (regex q) = true.
Hypothesis noPreClass : holds preClass content = false.
Hypothesis noSocial : holds socialChar content = false.
Hypothesis noComment : holds lessThan content = false.

Let mt : Match := elementMatch before body' closing' opening' o h c.

Lemma no_social_element_here :
  findNextSocialElement getEmojiData content = None.
Proof.
  unfold findNextSocialElement, findNextWith.
  assert (Fold : forall ps,
             (forall p, In p ps -> In p (patterns getEmojiData)) ->
             fold_left (tryPattern content) ps None = None).
  { induction ps as [|p ps IH]; intros Sub; simpl; auto.
    unfold tryPattern at 2.
    rewrite (exec_needs socialChar content (regex p)
               (patterns_need_social getEmojiData p
                  (Sub p (or_introl eq_refl))) noSocial).
    apply IH. intros q I0. apply Sub. now right. }
  apply Fold. auto.
Qed.

Lemma element_is_first :
  firstInlineMatch content = Some (mt, pattern).
Proof.
  rewrite firstInlineMatch_pick, order, fold_left_app.
  rewrite pick_nothing.
  2:{ intros q I0.
      exact (exec_needs preClass content (regex q) (preNeeds q I0)
               noPreClass). }
  simpl. unfold pick at 2. rewrite shape.
  unfold content, opening, body, closing.
  rewrite (element_found before body' closing' opening' after o h c cls
             plainBefore markupOpening headInClass bodyInClass
             closingOutside).
  apply pick_keeps. intros q mq I0 E.
  apply (inline_not_before before body' closing' opening' after o h c
           plainBefore q mq); [|exact E].
  rewrite order. apply in_or_app. right. now right.
Qed.

Lemma element_marked :
  parseInlineContentWithSocialElements getEmojiData content
  = textOf before ++ [process pattern content mt] ++ textOf after.
Proof.
  unfold parseInlineContentWithSocialElements.
  assert (Len : String.length content
                = String.length before + String.length opening
                  + String.length body + String.length closing
                  + String.length after).
  { unfold content. rewrite !StrFacts.length_append. lia. }
  assert (Lo : 1 <= String.length opening) by (simpl; lia).
  destruct (Str.isEmpty content) eqn:E.
  { apply StrFacts.isEmpty_length in E. lia. }
  destruct (String.length content) as [|fuel] eqn:L; [lia|].
  simpl scanLoop. rewrite E, no_social_element_here. simpl app.
  unfold parseInlineMarksRecursively. rewrite L.
  simpl parseInlineMarksFuel. rewrite E.
  unfold findNextMetadataComment.
  rewrite (exec_needs lessThan content metadataRegex
             comment_needs_less_than noComment).
  rewrite element_is_first.
  destruct (element_parts before body' closing' opening' after o h c)
    as (Take & _ & Drop).
  fold opening body closing content mt in Take, Drop.
  rewrite Drop, Take.
  rewrite (marks_of_plain before plainBefore) by lia.
  rewrite (marks_of_plain after plainAfter) by (simpl in *; lia).
  unfold textOf.
  destruct (Str.isEmpty before), (Str.isEmpty after); reflexivity.
Qed.

End Element.

Lemma plain_whole (q : ascii -> bool) (before opening body closing after
  : string) :
  within q PlainTextFacts.markupChar = true ->
  holds PlainTextFacts.markupChar before = false ->
  holds PlainTextFacts.markupChar body = false ->
  holds PlainTextFacts.markupChar after = false ->
  holds q opening = false -> holds q closing = false ->
  holds q (before +++ opening +++ body +++ closing +++ after) = false.
Proof.
  intros W Hb Hm Ha Ho Hc. rewrite !holds_app.
  now rewrite (plain_lacks q before W Hb), (plain_lacks q body W Hm),
    (plain_lacks q after W Ha), Ho, Hc.
Qed.

Lemma group_of_element (before body' closing' opening' after : string)
  (o h c : ascii) :
  group' (before +++ String o opening' +++ String h body'
          +++ String c closing' +++ after) 1
    (elementMatch before body' closing' opening' o h c)
  = String h body'.
Proof.
  exact (proj1 (proj2 (element_parts before body' closing' opening' after
                         o h c))).
Qed.

(** the patterns of strong text and of code, as the list has them *)
Definition strongPattern : Pattern :=
  mkPattern (bracket "**" (Str.noneOf "*") "**") "strong"
    (fun s mt => markedText (group' s 1 mt) [simpleMark "strong"]).

Definition codePattern : Pattern :=
  mkPattern (bracket "`" (Str.noneOf "`") "`") "code"
    (fun s mt => markedText (group' s 1 mt) [simpleMark "code"]).

Lemma strong_is_fourth :
  inlinePatterns
  = firstn 3 inlinePatterns ++ strongPattern :: skipn 4 inlinePatterns.
Proof. reflexivity. Qed.

Lemma code_is_sixth :
  inlinePatterns
  = firstn 5 inlinePatterns ++ codePattern :: skipn 6 inlinePatterns.
Proof. reflexivity. Qed.

Lemma links_need_bracket :
  forall q, In q (firstn 3 inlinePatterns) ->
            needs (Str.oneOf "[") (regex q) = true.
Proof.
  intros q I0. simpl in I0.
  repeat (destruct I0 as [I0|I0]; [subst q; vm_compute; reflexivity|]).
  contradiction.
Qed.

Lemma links_and_stars_need_them :
  forall q, In q (firstn 5 inlinePatterns) ->
            needs (Str.oneOf "[*") (regex q) = true.
Proof.
  intros q I0. simpl in I0.
  repeat (destruct I0 as [I0|I0]; [subst q; vm_compute; reflexivity|]).
  contradiction.
Qed.

(** a text without markup holds nothing but characters other than those
    of [cs], when these are characters of markup *)
Lemma plain_outside (cs : string) (t : string) :
  within (fun a => negb (Str.noneOf cs a)) PlainTextFacts.markupChar = true ->
  holds PlainTextFacts.markupChar t = false ->
  holds (fun a => negb (Str.noneOf cs a)) t = false.
Proof. apply plain_lacks. Qed.

Lemma plain_head (cs : string) (h : ascii) (t : string) :
  holds (fun a => negb (Str.noneOf cs a)) (String h t) = false ->
  Str.noneOf cs h = true
  /\ holds (fun a => negb (Str.noneOf cs a)) t = false.
Proof.
  simpl. intros H. apply orb_false_iff in H as [H T].
  apply negb_false_iff in H. now split.
Qed.

(** X19.  In a text that holds none of the characters [{ : [ ! * ` <] and
    no digit, put a text of the same kind that is not empty between two
    pairs of stars, or between two backticks: the text before it (if
    any) comes out as one text node, the text between as one text node
    with the mark strong, or code, and the text after it (if any) as one
    text node. *)
Theorem inline_mark_between_plain_texts :
  forall (getEmojiData : string -> EmojiData) (before body after : string),
    holds PlainTextFacts.markupChar before = false ->
    holds PlainTextFacts.markupChar body = false ->
    Str.isEmpty body = false ->
    holds PlainTextFacts.markupChar after = false ->
    processTextNodeForSocialElements getEmojiData
      (before +++ "**" +++ body +++ "**" +++ after)
    = textOf before ++ [markedText body [simpleMark "strong"]]
      ++ textOf after
    /\ processTextNodeForSocialElements getEmojiData
         (before +++ "`" +++ body +++ "`" +++ after)
       = textOf before ++ [markedText body [simpleMark "code"]]
         ++ textOf after.
Proof.
  intros getEmojiData before [|h body'] after Hb Hm He Ha;
    [discriminate He|]. clear He.
  assert (NotEmpty : forall opening closing,
             Str.isEmpty (before +++ opening +++ String h body'
                          +++ closing +++ after) = false).
  { intros opening closing.
    destruct (Str.isEmpty (before +++ opening +++ String h body'
                           +++ closing +++ after)) eqn:E; [|reflexivity].
    apply StrFacts.isEmpty_length in E.
    rewrite !StrFacts.length_append in E. simpl in E. lia. }
  assert (Social : within socialChar PlainTextFacts.markupChar = true)
    by (vm_compute; reflexivity).
  assert (Less : within lessThan PlainTextFacts.markupChar = true)
    by (vm_compute; reflexivity).
  unfold processTextNodeForSocialElements. rewrite !NotEmpty. split.
  - assert (Star : within (fun a => negb (Str.noneOf "*" a))
                     PlainTextFacts.markupChar = true)
      by (vm_compute; reflexivity).
    assert (Bracket : within (Str.oneOf "[") PlainTextFacts.markupChar
                      = true) by (vm_compute; reflexivity).
    destruct (plain_head "*" h body' (plain_outside "*" _ Star Hm))
      as (Ph & Pb).
    rewrite (element_marked getEmojiData before body' "*" "*" after
               "*" h "*" (Str.noneOf "*") strongPattern
               (firstn 3 inlinePatterns) (skipn 4 inlinePatterns)
               (Str.oneOf "[") Hb Ha eq_refl Ph Pb eq_refl
               strong_is_fourth eq_refl links_need_bracket
               (plain_whole _ before "**" _ "**" after Bracket Hb Hm Ha
                  eq_refl eq_refl)
               (plain_whole _ before "**" _ "**" after Social Hb Hm Ha
                  eq_refl eq_refl)
               (plain_whole _ before "**" _ "**" after Less Hb Hm Ha
                  eq_refl eq_refl)).
    cbn [process strongPattern].
    now rewrite (group_of_element before body' "*" "*" after "*" h "*").
  - assert (Tick : within (fun a => negb (Str.noneOf "`" a))
                     PlainTextFacts.markupChar = true)
      by (vm_compute; reflexivity).
    assert (Early : within (Str.oneOf "[*") PlainTextFacts.markupChar
                    = true) by (vm_compute; reflexivity).
    destruct (plain_head "`" h body' (plain_outside "`" _ Tick Hm))
      as (Ph & Pb).
    rewrite (element_marked getEmojiData before body' EmptyString
               EmptyString after "`" h "`" (Str.noneOf "`") codePattern
               (firstn 5 inlinePatterns) (skipn 6 inlinePatterns)
               (Str.oneOf "[*") Hb Ha eq_refl Ph Pb eq_refl
               code_is_sixth eq_refl links_and_stars_need_them
               (plain_whole _ before "`" _ "`" after Early Hb Hm Ha
                  eq_refl eq_refl)
               (plain_whole _ before "`" _ "`" after Social Hb Hm Ha
                  eq_refl eq_refl)
               (plain_whole _ before "`" _ "`" after Less Hb Hm Ha
                  eq_refl eq_refl)).
    cbn [process codePattern].
    now rewrite (group_of_element before body' EmptyString EmptyString
                   after "`" h "`").
Qed.

Lemma inline_mark_between_plain_texts_witness :
  processTextNodeForSocialElements SocialFacts.noEmoji
    "run `make all` twice"
  = [textNode "run "; markedText "make all" [simpleMark "code"];
     textNode " twice"].
Proof.
  apply (inline_mark_between_plain_texts SocialFacts.noEmoji "run "
           "make all" " twice"); reflexivity.
Defined.

End InlineMarkFacts.
